(** * Vektor: attribute-driven scroll animations

    A shallow embedding of the TypeScript sources of the Vektor animation
    framework (AttributeParser, BaseAnimation, FadeInAnimation,
    ParallaxAnimation, AnimationManager) and theorems about them.

    Conventions of the embedding

    - A JavaScript number is [NaN] or an exact rational ([Fin q]); rounding
      to binary64 and the infinities are not represented.
    - Strings are Rocq strings (sequences of 8-bit characters).
    - Built-ins of the host platform that the sources call but do not define
      ([JSON.parse], number formatting, the [Number(...)] coercion of
      strings, the validation done by the [IntersectionObserver]
      constructor) are the fields of the class [Host]; the theorems hold for
      every host, and the statements about example pages are evaluated on
      the host [model_host].  [parseFloat] and the regular-expression test
      of [parseAttributeValue] are written out.
    - Objects with identity (elements, module instances, observers, bound
      functions, timers) live in stores keyed by a handle; a method of a
      class takes the handle of [this] and the world, and returns the new
      world, or [None] when the JavaScript code throws (what the code did
      before it threw is then not described).
    - An inline style holds the string that was assigned to it; the
      normalisation a browser applies to style values is not modelled.
    - The layout is an input: [getBoundingClientRect] reads the rectangle
      stored with the element. *)

From Stdlib Require Import ZArith QArith Qminmax Qabs Lia Lqa Ascii String.
From stdpp Require Import base option strings list gmap.

Local Open Scope string_scope.
Set Warnings "-register-all".

(** ** JavaScript values *)

Inductive Num : Type :=
  | NaN
  | Fin (q : Q).

Inductive Json : Type :=
  | JNull
  | JBool (b : bool)
  | JNum (n : Num)
  | JStr (s : string)
  | JArr (items : list Json)
  | JObj (members : list (string * Json)).

(** The values an option record holds: what [parseAttributeValue] returns. *)
Inductive Value : Type :=
  | VBool (b : bool)
  | VNum (n : Num)
  | VStr (s : string)
  | VJson (j : Json).

(** The option record of an element, [Record<string, any>]. *)
Abbreviation Options := (gmap string Value).

Class Host : Type := {
  (** [JSON.parse]; [None] when it throws *)
  JSON_parse : string -> option Json;
  (** [Number.prototype.toString] *)
  Number_toString : Num -> string;
  (** [Number(s)] on a string *)
  String_toNumber : string -> Num;
  (** [String(j)] and [Number(j)] on a parsed structure *)
  Json_toString : Json -> string;
  Json_toNumber : Json -> Num;
  (** whether [new IntersectionObserver(cb, {rootMargin})] accepts the margin;
      it throws a SyntaxError otherwise *)
  rootMargin_valid : string -> bool
}.

Definition Nadd (a b : Num) : Num :=
  match a, b with Fin x, Fin y => Fin (x + y) | _, _ => NaN end.
Definition Nmul (a b : Num) : Num :=
  match a, b with Fin x, Fin y => Fin (x * y) | _, _ => NaN end.
(** Division by a non-zero constant, the only one the sources use. *)
Definition Ndiv (a : Num) (d : Q) : Num :=
  match a with Fin x => Fin (x / d) | NaN => NaN end.
Definition Nzero (a : Num) : bool :=
  match a with Fin x => Qeq_bool x 0 | NaN => false end.

(** [!!v]: JavaScript truthiness. *)
Definition truthy (v : Value) : bool :=
  match v with
  | VBool b => b
  | VNum NaN => false
  | VNum (Fin q) => negb (Qeq_bool q 0)
  | VStr s => negb (String.eqb s EmptyString)
  | VJson JNull => false
  | VJson (JBool b) => b
  | VJson (JNum NaN) => false
  | VJson (JNum (Fin q)) => negb (Qeq_bool q 0)
  | VJson (JStr s) => negb (String.eqb s EmptyString)
  | VJson _ => true
  end.

Section HostValues.
Context `{Host}.

(** [String(v)], also [v.toString()] on these values. *)
Definition js_String (v : Value) : string :=
  match v with
  | VBool true => "true"
  | VBool false => "false"
  | VNum n => Number_toString n
  | VStr s => s
  | VJson j => Json_toString j
  end.

(** The numeric coercion applied by [*] and [+] on numbers. *)
Definition ToNumber (v : Value) : Num :=
  match v with
  | VBool true => Fin 1
  | VBool false => Fin 0
  | VNum n => n
  | VStr s => String_toNumber s
  | VJson j => Json_toNumber j
  end.
End HostValues.

(** ** String helpers of the platform *)

Definition is_digit (c : ascii) : bool :=
  let n := nat_of_ascii c in (48 <=? n)%nat && (n <=? 57)%nat.

Definition is_lower (c : ascii) : bool :=
  let n := nat_of_ascii c in (97 <=? n)%nat && (n <=? 122)%nat.

Definition to_upper (c : ascii) : ascii :=
  if is_lower c then ascii_of_nat (nat_of_ascii c - 32) else c.

(** White space removed by [trim] and skipped by [parseFloat] (the 8-bit part). *)
Definition is_space (c : ascii) : bool :=
  let n := nat_of_ascii c in
  (n =? 32)%nat || ((9 <=? n)%nat && (n <=? 13)%nat) || (n =? 160)%nat.

Definition startsWith (s p : string) : bool := String.prefix p s.

Definition endsWith (s p : string) : bool :=
  String.prefix (String.rev p) (String.rev s).

(** [s.substring(n)] *)
Fixpoint substring_from (n : nat) (s : string) : string :=
  match n, s with
  | O, _ => s
  | S n', String _ r => substring_from n' r
  | S _, EmptyString => EmptyString
  end.

Fixpoint skip_space (s : string) : string :=
  match s with
  | String c r => if is_space c then skip_space r else s
  | EmptyString => EmptyString
  end.

Definition trim (s : string) : string :=
  String.rev (skip_space (String.rev (skip_space s))).

(** [s.replace(c, '')] with a one-character pattern: the first occurrence only. *)
Fixpoint remove_first (c : ascii) (s : string) : string :=
  match s with
  | String d r => if Ascii.eqb c d then r else String d (remove_first c r)
  | EmptyString => EmptyString
  end.

(** The longest prefix of decimal digits, as a number with its digit count,
    and the rest. *)
Fixpoint span_digits (s : string) (acc : Z) (len : nat) : Z * nat * string :=
  match s with
  | String c r =>
      if is_digit c
      then span_digits r (10 * acc + Z.of_nat (nat_of_ascii c - 48)) (S len)
      else (acc, len, s)
  | EmptyString => (acc, len, s)
  end.

(** [/^-?\d+(\.\d+)?$/.test(s)] *)
Definition decimal_pattern (s : string) : bool :=
  let s1 := match s with String "-" r => r | _ => s end in
  let '(_, n, rest) := span_digits s1 0 0 in
  negb (n =? 0)%nat &&
  match rest with
  | EmptyString => true
  | String "." r =>
      let '(_, k, rest') := span_digits r 0 0 in
      negb (k =? 0)%nat && String.eqb rest' EmptyString
  | _ => false
  end.

Definition pow10 (e : Z) : Q :=
  if (0 <=? e)%Z then inject_Z (10 ^ e) else / inject_Z (10 ^ (- e)).

(** [parseFloat(s)]: the longest prefix that is a decimal literal, after
    leading white space; [NaN] when there is none. *)
Definition parseFloat (s : string) : Num :=
  let s0 := skip_space s in
  let '(neg, s1) :=
    match s0 with
    | String "-" r => (true, r)
    | String "+" r => (false, r)
    | _ => (false, s0)
    end in
  let '(ip, n, r1) := span_digits s1 0 0 in
  let '(fp, k, r2) :=
    match r1 with
    | String "." r => span_digits r 0 0
    | _ => (0%Z, O, r1)
    end in
  if ((n =? 0) && (k =? 0))%nat then NaN
  else
    let mant := (inject_Z (ip * 10 ^ Z.of_nat k + fp) * pow10 (- Z.of_nat k))%Q in
    let ex :=
      match r2 with
      | String c r =>
          if Ascii.eqb c "e" || Ascii.eqb c "E" then
            let '(eneg, r') :=
              match r with
              | String "-" t => (true, t)
              | String "+" t => (false, t)
              | _ => (false, r)
              end in
            let '(e, m, _) := span_digits r' 0 0 in
            if (m =? 0)%nat then 0%Z else if eneg then (- e)%Z else e
          else 0%Z
      | EmptyString => 0%Z
      end in
    let v := Qred (mant * pow10 ex) in
    Fin (if neg then Qred (- v) else v).

(** [str.replace(/-([a-z])/g, (_, letter) => letter.toUpperCase())] *)
Fixpoint camelCase (s : string) : string :=
  match s with
  | EmptyString => EmptyString
  | String c rest =>
      if Ascii.eqb c "-" then
        match rest with
        | String d rest' =>
            if is_lower d then String (to_upper d) (camelCase rest')
            else String c (camelCase rest)
        | EmptyString => String c EmptyString
        end
      else String c (camelCase rest)
  end.

(** ** AttributeParser *)

Record AnimationConfig : Type := {
  attributeName : string;
  defaultAnimation : option string;
  useDataAttributeFallback : bool
}.

Definition DEFAULT_CONFIG : AnimationConfig :=
  {| attributeName := "kw";
     defaultAnimation := Some "fade-in";
     useDataAttributeFallback := false |}.

(** [Partial<AnimationConfig>]: a key that is absent is [None]. *)
Record PartialConfig : Type := {
  p_attributeName : option string;
  p_defaultAnimation : option (option string);
  p_useDataAttributeFallback : option bool
}.

Definition no_config : PartialConfig :=
  {| p_attributeName := None; p_defaultAnimation := None;
     p_useDataAttributeFallback := None |}.

(** [{ ...base, ...config }] *)
Definition merge_config (base : AnimationConfig) (c : PartialConfig) : AnimationConfig :=
  {| attributeName := default (attributeName base) (p_attributeName c);
     defaultAnimation := default (defaultAnimation base) (p_defaultAnimation c);
     useDataAttributeFallback :=
       default (useDataAttributeFallback base) (p_useDataAttributeFallback c) |}.

Record CommonAttributeMapping : Type := {
  attributeSuffix : string;
  optionName : string
}.

Record AttributeParser : Type := {
  config : AnimationConfig;
  commonAttributes : list CommonAttributeMapping;
  moduleValueMappings : gmap string string
}.

Definition default_commonAttributes : list CommonAttributeMapping :=
  map (fun s => {| attributeSuffix := s; optionName := s |})
    ["duration"; "delay"; "repeat"; "speed"; "direction"; "easing"; "class";
     "from"; "to"; "start"; "end"; "inview"].

Definition new_AttributeParser (c : PartialConfig) : AttributeParser :=
  {| config := merge_config DEFAULT_CONFIG c;
     commonAttributes := default_commonAttributes;
     moduleValueMappings := {[ "parallax" := "speed" ]} |}.

Definition setConfig (c : PartialConfig) (p : AttributeParser) : AttributeParser :=
  {| config := merge_config (config p) c;
     commonAttributes := commonAttributes p;
     moduleValueMappings := moduleValueMappings p |}.

Definition addCommonAttribute (m : CommonAttributeMapping) (p : AttributeParser)
  : AttributeParser :=
  {| config := config p;
     commonAttributes := commonAttributes p ++ [m];
     moduleValueMappings := moduleValueMappings p |}.

Definition addModuleValueMapping (moduleName optName : string) (p : AttributeParser)
  : AttributeParser :=
  {| config := config p;
     commonAttributes := commonAttributes p;
     moduleValueMappings := <[moduleName := optName]> (moduleValueMappings p) |}.

(** The attributes of an element, in the order of [element.attributes]. *)
Abbreviation Attributes := (list (string * string)).

Fixpoint getAttribute (name : string) (attrs : Attributes) : option string :=
  match attrs with
  | [] => None
  | (n, v) :: rest => if String.eqb n name then Some v else getAttribute name rest
  end.

Definition hasAttribute (name : string) (attrs : Attributes) : bool :=
  match getAttribute name attrs with Some _ => true | None => false end.

(** The properties every object inherits from [Object.prototype]: reading
    one of them from an option record that does not define it does not give
    [undefined]. *)
Definition Object_prototype_names : list string :=
  ["constructor"; "toString"; "toLocaleString"; "valueOf"; "hasOwnProperty";
   "isPrototypeOf"; "propertyIsEnumerable"; "__proto__"; "__defineGetter__";
   "__defineSetter__"; "__lookupGetter__"; "__lookupSetter__"].

(** [options[name] === undefined] *)
Definition is_undefined (options : Options) (name : string) : bool :=
  match options !! name with
  | Some _ => false
  | None => negb (bool_decide (name ∈ Object_prototype_names))
  end.

(** [options[name] = v]: the assignment to the name [__proto__] creates no
    property of the record.  (With a structured value it would replace the
    prototype of the record; that is not modelled.) *)
Definition assign (name : string) (v : Value) (options : Options) : Options :=
  if String.eqb name "__proto__" then options else <[name := v]> options.

(** The test that guards [JSON.parse] in [parseAttributeValue]. *)
Definition bracket_delimited (value : string) : bool :=
  (startsWith value "{" && endsWith value "}")
  || (startsWith value "[" && endsWith value "]").

Section Parser.
Context `{Host}.

Definition parseAttributeValue (value : string) : Value :=
  if String.eqb value EmptyString || String.eqb value "true" then VBool true
  else if String.eqb value "false" then VBool false
  else if decimal_pattern value then VNum (parseFloat value)
  else if bracket_delimited value then
    match JSON_parse value with
    | Some j => VJson j
    | None => VStr value
    end
  else VStr value.

Definition hasAnimationAttributes (p : AttributeParser) (attrs : Attributes) : bool :=
  hasAttribute (attributeName (config p)) attrs.

Definition parseModuleName (p : AttributeParser) (attrs : Attributes) : option string :=
  let moduleName := getAttribute (attributeName (config p)) attrs in
  match moduleName, defaultAnimation (config p) with
  | Some EmptyString, Some d => if String.eqb d EmptyString then moduleName else Some d
  | _, _ => moduleName
  end.

(** The body of the loop over [element.attributes]. *)
Definition parseModuleOptions_step (p : AttributeParser) (prefix : string)
    (options : Options) (attr : string * string) : Options :=
  let '(name, value) := attr in
  let base := attributeName (config p) in
  if startsWith name prefix then
    assign (camelCase (substring_from (String.length prefix + 1) name))
      (parseAttributeValue value) options
  else if startsWith name (base ++ "-offset-") then
    assign (camelCase (substring_from (String.length base + 1) name))
      (parseAttributeValue value) options
  else if String.eqb name (base ++ "-inview") then
    assign "inview" (parseAttributeValue value) options
  else options.

Definition parseModuleOptions_loop (p : AttributeParser) (moduleName : string)
    (attrs : Attributes) : Options :=
  foldl (parseModuleOptions_step p (attributeName (config p) ++ "-" ++ moduleName))
    ∅ attrs.

Definition parseCommonAttributes_step (p : AttributeParser) (attrs : Attributes)
    (options : Options) (mapping : CommonAttributeMapping) : Options :=
  match getAttribute (attributeName (config p) ++ "-" ++ attributeSuffix mapping) attrs with
  | Some attrValue =>
      if is_undefined options (optionName mapping)
      then <[optionName mapping := parseAttributeValue attrValue]> options
      else options
  | None => options
  end.

Definition parseCommonAttributes (p : AttributeParser) (attrs : Attributes)
    (options : Options) : Options :=
  foldl (parseCommonAttributes_step p attrs) options (commonAttributes p).

(** The table is read for module names that it holds; a module name that
    is a property of [Object.prototype] is outside the model. *)
Definition handleModuleValueMapping (p : AttributeParser) (moduleName : string)
    (options : Options) : Options :=
  match moduleValueMappings p !! moduleName with
  | Some targetProperty =>
      if negb (String.eqb targetProperty EmptyString)
         && negb (is_undefined options "value")
         && is_undefined options targetProperty
      then
        match options !! "value" with
        | Some v => delete "value" (<[targetProperty := v]> options)
        | None => options
        end
      else options
  | None => options
  end.

Definition parseModuleOptions (p : AttributeParser) (attrs : Attributes)
    (moduleName : string) : Options :=
  handleModuleValueMapping p moduleName
    (parseCommonAttributes p attrs (parseModuleOptions_loop p moduleName attrs)).

(** [parseElementOptions]: [None] is the [null] result. *)
Definition parseElementOptions (p : AttributeParser) (attrs : Attributes)
    : option (string * Options) :=
  match parseModuleName p attrs with
  | Some moduleName =>
      if String.eqb moduleName EmptyString then None
      else Some (moduleName, parseModuleOptions p attrs moduleName)
  | None => None
  end.
End Parser.

(** ** The document and the window *)

Record Style : Type := {
  opacity : string;
  visibility : string;
  transition : string;
  transform : string;
  progress : string          (* the custom property --progress *)
}.

(** [getBoundingClientRect()], as the layout gives it. *)
Record Rect : Type := {
  top : Q;
  bottom : Q;
  height : Q
}.

(** Function objects: identity matters to [removeEventListener]. *)
Inductive Fn : Type :=
  | Fn_handleResize            (* the static BaseAnimation.handleResize *)
  | Fn_fresh (id : nat).       (* a closure or the result of a [bind] *)

#[global] Instance Fn_eq_dec : EqDecision Fn.
Proof. solve_decision. Defined.

(** The closures the sources create, with what they capture. *)
Inductive Closure : Type :=
  | HandleResize
  | HandleIntersection (this : nat)
  | HandleScroll (this : nat)
  | ParallaxFrame (this : nat)
  | FadeFrame1 (this element : nat) (duration delay : Num) (easing toOpacity : Value)
      (options : Options)
  | FadeFrame2 (this element : nat) (toOpacity : Value) (options : Options)
  | OnTransitionEnd (self : Fn) (this element : nat) (options : Options)
  | MutationCallback (this : nat)
  | DebouncedRescan (this : nat)
  | PostInitRescan (this : nat).

Record Element : Type := {
  attributes : Attributes;
  classList : list string;
  style : Style;
  rect : Rect;
  transitionend : list (Fn * Closure)    (* listeners for 'transitionend' *)
}.

Definition empty_Style : Style :=
  {| opacity := EmptyString; visibility := EmptyString; transition := EmptyString; transform := EmptyString; progress := EmptyString |}.

Definition new_Element (attrs : Attributes) : Element :=
  {| attributes := attrs; classList := []; style := empty_Style;
     rect := {| top := 0; bottom := 0; height := 0 |}; transitionend := [] |}.

Definition set_style (f : Style -> Style) (e : Element) : Element :=
  {| attributes := attributes e; classList := classList e; style := f (style e);
     rect := rect e; transitionend := transitionend e |}.
Definition set_classList (f : list string -> list string) (e : Element) : Element :=
  {| attributes := attributes e; classList := f (classList e); style := style e;
     rect := rect e; transitionend := transitionend e |}.
Definition set_transitionend (f : list (Fn * Closure) -> list (Fn * Closure))
    (e : Element) : Element :=
  {| attributes := attributes e; classList := classList e; style := style e;
     rect := rect e; transitionend := f (transitionend e) |}.

Definition set_opacity (v : string) (s : Style) : Style :=
  {| opacity := v; visibility := visibility s; transition := transition s;
     transform := transform s; progress := progress s |}.
Definition set_visibility (v : string) (s : Style) : Style :=
  {| opacity := opacity s; visibility := v; transition := transition s;
     transform := transform s; progress := progress s |}.
Definition set_transition (v : string) (s : Style) : Style :=
  {| opacity := opacity s; visibility := visibility s; transition := v;
     transform := transform s; progress := progress s |}.
Definition set_transform (v : string) (s : Style) : Style :=
  {| opacity := opacity s; visibility := visibility s; transition := transition s;
     transform := v; progress := progress s |}.
Definition set_progress (v : string) (s : Style) : Style :=
  {| opacity := opacity s; visibility := visibility s; transition := transition s;
     transform := transform s; progress := v |}.

Definition contains (cls : list string) (c : string) : bool :=
  bool_decide (c ∈ cls).

(** ASCII white space: tab, line feed, form feed, carriage return, space. *)
Definition is_ascii_whitespace (c : ascii) : bool :=
  let n := nat_of_ascii c in
  (n =? 9)%nat || (n =? 10)%nat || (n =? 12)%nat || (n =? 13)%nat || (n =? 32)%nat.

(** A class token must be non-empty and hold no ASCII white space:
    [classList.add] and [classList.remove] throw otherwise. *)
Fixpoint has_space (s : string) : bool :=
  match s with
  | String c r => is_ascii_whitespace c || has_space r
  | EmptyString => false
  end.

Definition valid_token (c : string) : bool :=
  negb (String.eqb c EmptyString) && negb (has_space c).

Definition classList_add (c : string) (e : Element) : option Element :=
  if valid_token c
  then Some (set_classList (fun cls => if contains cls c then cls else (cls ++ [c])%list) e)
  else None.

Definition classList_remove (c : string) (e : Element) : option Element :=
  if valid_token c
  then Some (set_classList (filter (fun x => x ≠ c)) e)
  else None.

(** [number | number[]] *)
Inductive Threshold : Type :=
  | TOne (t : Q)
  | TList (ts : list Q).

Record ObserverInit : Type := {
  oi_rootMargin : string;
  oi_threshold : Threshold
}.

(** An [IntersectionObserver]: the geometry is read once, by the constructor. *)
Record IntersectionObserver : Type := {
  io_callback : Closure;
  io_init : ObserverInit;
  io_targets : list nat
}.

Record IntersectionObserverEntry : Type := {
  target : nat;
  isIntersecting : bool;
  intersectionRatio : Q
}.

(** One added node of a mutation record: whether it is an element, its
    handle, and the handles of its descendants. *)
Record AddedNode : Type := {
  isElementNode : bool;
  node : nat;
  descendants : list nat
}.

Record MutationRecord : Type := {
  isChildList : bool;
  addedNodes : list AddedNode
}.

(** ** Module instances and the manager *)

Inductive ModuleClass : Type :=
  | BaseAnimationClass
  | FadeInAnimationClass
  | ParallaxAnimationClass.

Module BaseAnimation.
(** The fields of [BaseAnimation] and of its two subclasses. *)
Record t : Type := {
  class : ModuleClass;
  elements : list nat;
  observer : option nat;
  rootMargin : string;
  threshold : list Q;
  attributeParser : AttributeParser;
  activeClass : string;
  observerOptions : ObserverInit;
  parsedOptions : gmap nat Options;
  (* FadeInAnimation *)
  pendingAnimations : gmap nat nat;
  (* ParallaxAnimation *)
  scrollListenerAttached : bool;
  rafId : option nat;
  parallaxPositionStart : Q;
  parallaxPositionEnd : Q
}.

Definition set_elements (v : list nat) (m : t) : t :=
  {| class := class m; elements := v; observer := observer m;
     rootMargin := rootMargin m; threshold := threshold m;
     attributeParser := attributeParser m; activeClass := activeClass m;
     observerOptions := observerOptions m; parsedOptions := parsedOptions m;
     pendingAnimations := pendingAnimations m;
     scrollListenerAttached := scrollListenerAttached m; rafId := rafId m;
     parallaxPositionStart := parallaxPositionStart m;
     parallaxPositionEnd := parallaxPositionEnd m |}.
Definition set_observer (v : option nat) (m : t) : t :=
  {| class := class m; elements := elements m; observer := v;
     rootMargin := rootMargin m; threshold := threshold m;
     attributeParser := attributeParser m; activeClass := activeClass m;
     observerOptions := observerOptions m; parsedOptions := parsedOptions m;
     pendingAnimations := pendingAnimations m;
     scrollListenerAttached := scrollListenerAttached m; rafId := rafId m;
     parallaxPositionStart := parallaxPositionStart m;
     parallaxPositionEnd := parallaxPositionEnd m |}.
Definition set_attributeParser (v : AttributeParser) (m : t) : t :=
  {| class := class m; elements := elements m; observer := observer m;
     rootMargin := rootMargin m; threshold := threshold m;
     attributeParser := v; activeClass := activeClass m;
     observerOptions := observerOptions m; parsedOptions := parsedOptions m;
     pendingAnimations := pendingAnimations m;
     scrollListenerAttached := scrollListenerAttached m; rafId := rafId m;
     parallaxPositionStart := parallaxPositionStart m;
     parallaxPositionEnd := parallaxPositionEnd m |}.
Definition set_observerOptions (v : ObserverInit) (m : t) : t :=
  {| class := class m; elements := elements m; observer := observer m;
     rootMargin := rootMargin m; threshold := threshold m;
     attributeParser := attributeParser m; activeClass := activeClass m;
     observerOptions := v; parsedOptions := parsedOptions m;
     pendingAnimations := pendingAnimations m;
     scrollListenerAttached := scrollListenerAttached m; rafId := rafId m;
     parallaxPositionStart := parallaxPositionStart m;
     parallaxPositionEnd := parallaxPositionEnd m |}.
Definition set_parsedOptions (v : gmap nat Options) (m : t) : t :=
  {| class := class m; elements := elements m; observer := observer m;
     rootMargin := rootMargin m; threshold := threshold m;
     attributeParser := attributeParser m; activeClass := activeClass m;
     observerOptions := observerOptions m; parsedOptions := v;
     pendingAnimations := pendingAnimations m;
     scrollListenerAttached := scrollListenerAttached m; rafId := rafId m;
     parallaxPositionStart := parallaxPositionStart m;
     parallaxPositionEnd := parallaxPositionEnd m |}.
Definition set_pendingAnimations (v : gmap nat nat) (m : t) : t :=
  {| class := class m; elements := elements m; observer := observer m;
     rootMargin := rootMargin m; threshold := threshold m;
     attributeParser := attributeParser m; activeClass := activeClass m;
     observerOptions := observerOptions m; parsedOptions := parsedOptions m;
     pendingAnimations := v;
     scrollListenerAttached := scrollListenerAttached m; rafId := rafId m;
     parallaxPositionStart := parallaxPositionStart m;
     parallaxPositionEnd := parallaxPositionEnd m |}.
Definition set_scrollListenerAttached (v : bool) (m : t) : t :=
  {| class := class m; elements := elements m; observer := observer m;
     rootMargin := rootMargin m; threshold := threshold m;
     attributeParser := attributeParser m; activeClass := activeClass m;
     observerOptions := observerOptions m; parsedOptions := parsedOptions m;
     pendingAnimations := pendingAnimations m;
     scrollListenerAttached := v; rafId := rafId m;
     parallaxPositionStart := parallaxPositionStart m;
     parallaxPositionEnd := parallaxPositionEnd m |}.
Definition set_rafId (v : option nat) (m : t) : t :=
  {| class := class m; elements := elements m; observer := observer m;
     rootMargin := rootMargin m; threshold := threshold m;
     attributeParser := attributeParser m; activeClass := activeClass m;
     observerOptions := observerOptions m; parsedOptions := parsedOptions m;
     pendingAnimations := pendingAnimations m;
     scrollListenerAttached := scrollListenerAttached m; rafId := v;
     parallaxPositionStart := parallaxPositionStart m;
     parallaxPositionEnd := parallaxPositionEnd m |}.
Definition set_positions (s e : Q) (m : t) : t :=
  {| class := class m; elements := elements m; observer := observer m;
     rootMargin := rootMargin m; threshold := threshold m;
     attributeParser := attributeParser m; activeClass := activeClass m;
     observerOptions := observerOptions m; parsedOptions := parsedOptions m;
     pendingAnimations := pendingAnimations m;
     scrollListenerAttached := scrollListenerAttached m; rafId := rafId m;
     parallaxPositionStart := s;
     parallaxPositionEnd := e |}.
End BaseAnimation.

(** [{ ...parser.config }], the copy the manager keeps. *)
Definition config_of (p : AttributeParser) : AnimationConfig := config p.

Module AnimationManager.
Record t : Type := {
  modules : list (string * nat);     (* Map<string, BaseAnimation>, insertion order *)
  initialized : bool;
  loadTimeout : option nat;
  mutationObserver : option nat;
  attributeParser : AttributeParser;
  config : AnimationConfig
}.

Definition set_modules (v : list (string * nat)) (m : t) : t :=
  {| modules := v; initialized := initialized m; loadTimeout := loadTimeout m;
     mutationObserver := mutationObserver m; attributeParser := attributeParser m;
     config := config m |}.
Definition set_initialized (v : bool) (m : t) : t :=
  {| modules := modules m; initialized := v; loadTimeout := loadTimeout m;
     mutationObserver := mutationObserver m; attributeParser := attributeParser m;
     config := config m |}.
Definition set_loadTimeout (v : option nat) (m : t) : t :=
  {| modules := modules m; initialized := initialized m; loadTimeout := v;
     mutationObserver := mutationObserver m; attributeParser := attributeParser m;
     config := config m |}.
Definition set_mutationObserver (v : option nat) (m : t) : t :=
  {| modules := modules m; initialized := initialized m; loadTimeout := loadTimeout m;
     mutationObserver := v; attributeParser := attributeParser m;
     config := config m |}.
Definition set_parser (p : AttributeParser) (m : t) : t :=
  {| modules := modules m; initialized := initialized m; loadTimeout := loadTimeout m;
     mutationObserver := mutationObserver m; attributeParser := p;
     config := config_of p |}.
End AnimationManager.

(** ** The world: the page, the window, and the objects of the framework *)

Record World : Type := {
  dom : gmap nat Element;    (* the element objects *)
  document : list nat;    (* the elements attached to the document, in tree order *)
  prefersReducedMotion : bool;    (* matchMedia('(prefers-reduced-motion: reduce)').matches *)
  innerWidth : Q;    (* window.innerWidth *)
  innerHeight : Q;    (* window.innerHeight *)
  listeners : list (string * Fn * Closure);    (* window.addEventListener *)
  frames : list (nat * Closure);    (* pending requestAnimationFrame callbacks *)
  timers : list (nat * Closure * Z);    (* pending setTimeout callbacks, with their delay *)
  observers : gmap nat IntersectionObserver;    (* the IntersectionObserver objects *)
  mutationObservers : gmap nat Closure;    (* the connected MutationObservers on document.body *)
  console : list string;    (* console.warn and console.log *)
  next : nat;    (* the next fresh handle or id *)
  windowWidth : Q;    (* static BaseAnimation.windowWidth *)
  windowHeight : Q;    (* static BaseAnimation.windowHeight *)
  resizeListenerAttached : bool;    (* static BaseAnimation.resizeListenerAttached *)
  animations : gmap nat BaseAnimation.t;    (* the module instances *)
  managers : gmap nat AnimationManager.t    (* the AnimationManager instances *)
}.

Definition set_dom (f : gmap nat Element -> gmap nat Element) (w : World) : World :=
  {| dom := f (dom w); document := document w;
     prefersReducedMotion := prefersReducedMotion w; innerWidth := innerWidth w;
     innerHeight := innerHeight w; listeners := listeners w; frames := frames w;
     timers := timers w; observers := observers w;
     mutationObservers := mutationObservers w; console := console w; next := next w;
     windowWidth := windowWidth w; windowHeight := windowHeight w;
     resizeListenerAttached := resizeListenerAttached w; animations := animations w;
     managers := managers w |}.
Definition set_document (f : list nat -> list nat) (w : World) : World :=
  {| dom := dom w; document := f (document w);
     prefersReducedMotion := prefersReducedMotion w; innerWidth := innerWidth w;
     innerHeight := innerHeight w; listeners := listeners w; frames := frames w;
     timers := timers w; observers := observers w;
     mutationObservers := mutationObservers w; console := console w; next := next w;
     windowWidth := windowWidth w; windowHeight := windowHeight w;
     resizeListenerAttached := resizeListenerAttached w; animations := animations w;
     managers := managers w |}.
Definition set_prefersReducedMotion (f : bool -> bool) (w : World) : World :=
  {| dom := dom w; document := document w;
     prefersReducedMotion := f (prefersReducedMotion w); innerWidth := innerWidth w;
     innerHeight := innerHeight w; listeners := listeners w; frames := frames w;
     timers := timers w; observers := observers w;
     mutationObservers := mutationObservers w; console := console w; next := next w;
     windowWidth := windowWidth w; windowHeight := windowHeight w;
     resizeListenerAttached := resizeListenerAttached w; animations := animations w;
     managers := managers w |}.
Definition set_innerWidth (f : Q -> Q) (w : World) : World :=
  {| dom := dom w; document := document w;
     prefersReducedMotion := prefersReducedMotion w; innerWidth := f (innerWidth w);
     innerHeight := innerHeight w; listeners := listeners w; frames := frames w;
     timers := timers w; observers := observers w;
     mutationObservers := mutationObservers w; console := console w; next := next w;
     windowWidth := windowWidth w; windowHeight := windowHeight w;
     resizeListenerAttached := resizeListenerAttached w; animations := animations w;
     managers := managers w |}.
Definition set_innerHeight (f : Q -> Q) (w : World) : World :=
  {| dom := dom w; document := document w;
     prefersReducedMotion := prefersReducedMotion w; innerWidth := innerWidth w;
     innerHeight := f (innerHeight w); listeners := listeners w; frames := frames w;
     timers := timers w; observers := observers w;
     mutationObservers := mutationObservers w; console := console w; next := next w;
     windowWidth := windowWidth w; windowHeight := windowHeight w;
     resizeListenerAttached := resizeListenerAttached w; animations := animations w;
     managers := managers w |}.
Definition set_listeners (f : list (string * Fn * Closure) -> list (string * Fn * Closure)) (w : World) : World :=
  {| dom := dom w; document := document w;
     prefersReducedMotion := prefersReducedMotion w; innerWidth := innerWidth w;
     innerHeight := innerHeight w; listeners := f (listeners w); frames := frames w;
     timers := timers w; observers := observers w;
     mutationObservers := mutationObservers w; console := console w; next := next w;
     windowWidth := windowWidth w; windowHeight := windowHeight w;
     resizeListenerAttached := resizeListenerAttached w; animations := animations w;
     managers := managers w |}.
Definition set_frames (f : list (nat * Closure) -> list (nat * Closure)) (w : World) : World :=
  {| dom := dom w; document := document w;
     prefersReducedMotion := prefersReducedMotion w; innerWidth := innerWidth w;
     innerHeight := innerHeight w; listeners := listeners w; frames := f (frames w);
     timers := timers w; observers := observers w;
     mutationObservers := mutationObservers w; console := console w; next := next w;
     windowWidth := windowWidth w; windowHeight := windowHeight w;
     resizeListenerAttached := resizeListenerAttached w; animations := animations w;
     managers := managers w |}.
Definition set_timers (f : list (nat * Closure * Z) -> list (nat * Closure * Z)) (w : World) : World :=
  {| dom := dom w; document := document w;
     prefersReducedMotion := prefersReducedMotion w; innerWidth := innerWidth w;
     innerHeight := innerHeight w; listeners := listeners w; frames := frames w;
     timers := f (timers w); observers := observers w;
     mutationObservers := mutationObservers w; console := console w; next := next w;
     windowWidth := windowWidth w; windowHeight := windowHeight w;
     resizeListenerAttached := resizeListenerAttached w; animations := animations w;
     managers := managers w |}.
Definition set_observers (f : gmap nat IntersectionObserver -> gmap nat IntersectionObserver) (w : World) : World :=
  {| dom := dom w; document := document w;
     prefersReducedMotion := prefersReducedMotion w; innerWidth := innerWidth w;
     innerHeight := innerHeight w; listeners := listeners w; frames := frames w;
     timers := timers w; observers := f (observers w);
     mutationObservers := mutationObservers w; console := console w; next := next w;
     windowWidth := windowWidth w; windowHeight := windowHeight w;
     resizeListenerAttached := resizeListenerAttached w; animations := animations w;
     managers := managers w |}.
Definition set_mutationObservers (f : gmap nat Closure -> gmap nat Closure) (w : World) : World :=
  {| dom := dom w; document := document w;
     prefersReducedMotion := prefersReducedMotion w; innerWidth := innerWidth w;
     innerHeight := innerHeight w; listeners := listeners w; frames := frames w;
     timers := timers w; observers := observers w;
     mutationObservers := f (mutationObservers w); console := console w;
     next := next w; windowWidth := windowWidth w; windowHeight := windowHeight w;
     resizeListenerAttached := resizeListenerAttached w; animations := animations w;
     managers := managers w |}.
Definition set_console (f : list string -> list string) (w : World) : World :=
  {| dom := dom w; document := document w;
     prefersReducedMotion := prefersReducedMotion w; innerWidth := innerWidth w;
     innerHeight := innerHeight w; listeners := listeners w; frames := frames w;
     timers := timers w; observers := observers w;
     mutationObservers := mutationObservers w; console := f (console w);
     next := next w; windowWidth := windowWidth w; windowHeight := windowHeight w;
     resizeListenerAttached := resizeListenerAttached w; animations := animations w;
     managers := managers w |}.
Definition set_next (f : nat -> nat) (w : World) : World :=
  {| dom := dom w; document := document w;
     prefersReducedMotion := prefersReducedMotion w; innerWidth := innerWidth w;
     innerHeight := innerHeight w; listeners := listeners w; frames := frames w;
     timers := timers w; observers := observers w;
     mutationObservers := mutationObservers w; console := console w;
     next := f (next w); windowWidth := windowWidth w; windowHeight := windowHeight w;
     resizeListenerAttached := resizeListenerAttached w; animations := animations w;
     managers := managers w |}.
Definition set_windowWidth (f : Q -> Q) (w : World) : World :=
  {| dom := dom w; document := document w;
     prefersReducedMotion := prefersReducedMotion w; innerWidth := innerWidth w;
     innerHeight := innerHeight w; listeners := listeners w; frames := frames w;
     timers := timers w; observers := observers w;
     mutationObservers := mutationObservers w; console := console w; next := next w;
     windowWidth := f (windowWidth w); windowHeight := windowHeight w;
     resizeListenerAttached := resizeListenerAttached w; animations := animations w;
     managers := managers w |}.
Definition set_windowHeight (f : Q -> Q) (w : World) : World :=
  {| dom := dom w; document := document w;
     prefersReducedMotion := prefersReducedMotion w; innerWidth := innerWidth w;
     innerHeight := innerHeight w; listeners := listeners w; frames := frames w;
     timers := timers w; observers := observers w;
     mutationObservers := mutationObservers w; console := console w; next := next w;
     windowWidth := windowWidth w; windowHeight := f (windowHeight w);
     resizeListenerAttached := resizeListenerAttached w; animations := animations w;
     managers := managers w |}.
Definition set_resizeListenerAttached (f : bool -> bool) (w : World) : World :=
  {| dom := dom w; document := document w;
     prefersReducedMotion := prefersReducedMotion w; innerWidth := innerWidth w;
     innerHeight := innerHeight w; listeners := listeners w; frames := frames w;
     timers := timers w; observers := observers w;
     mutationObservers := mutationObservers w; console := console w; next := next w;
     windowWidth := windowWidth w; windowHeight := windowHeight w;
     resizeListenerAttached := f (resizeListenerAttached w);
     animations := animations w; managers := managers w |}.
Definition set_animations (f : gmap nat BaseAnimation.t -> gmap nat BaseAnimation.t) (w : World) : World :=
  {| dom := dom w; document := document w;
     prefersReducedMotion := prefersReducedMotion w; innerWidth := innerWidth w;
     innerHeight := innerHeight w; listeners := listeners w; frames := frames w;
     timers := timers w; observers := observers w;
     mutationObservers := mutationObservers w; console := console w; next := next w;
     windowWidth := windowWidth w; windowHeight := windowHeight w;
     resizeListenerAttached := resizeListenerAttached w;
     animations := f (animations w); managers := managers w |}.
Definition set_managers (f : gmap nat AnimationManager.t -> gmap nat AnimationManager.t) (w : World) : World :=
  {| dom := dom w; document := document w;
     prefersReducedMotion := prefersReducedMotion w; innerWidth := innerWidth w;
     innerHeight := innerHeight w; listeners := listeners w; frames := frames w;
     timers := timers w; observers := observers w;
     mutationObservers := mutationObservers w; console := console w; next := next w;
     windowWidth := windowWidth w; windowHeight := windowHeight w;
     resizeListenerAttached := resizeListenerAttached w; animations := animations w;
     managers := f (managers w) |}.

Section Framework.
Context `{Host}.

(** *** Platform operations *)

Definition element (w : World) (e : nat) : Element :=
  default (new_Element []) (dom w !! e).

Definition update_element (e : nat) (f : Element -> Element) (w : World) : World :=
  set_dom (fun d => <[e := f (element w e)]> d) w.

Definition update_animation (this : nat) (f : BaseAnimation.t -> BaseAnimation.t)
    (w : World) : World :=
  set_animations (alter f this) w.

Definition update_manager (this : nat) (f : AnimationManager.t -> AnimationManager.t)
    (w : World) : World :=
  set_managers (alter f this) w.

Definition console_warn (msg : string) (w : World) : World :=
  set_console (fun l => (l ++ [msg])%list) w.

Definition console_log (msg : string) (w : World) : World :=
  set_console (fun l => (l ++ [msg])%list) w.

Definition requestAnimationFrame (cb : Closure) (w : World) : nat * World :=
  (next w, set_frames (fun l => (l ++ [(next w, cb)])%list) (set_next S w)).

Definition cancelAnimationFrame (id : nat) (w : World) : World :=
  set_frames (filter (fun p => p.1 ≠ id)) w.

Definition setTimeout (cb : Closure) (delay : Z) (w : World) : nat * World :=
  (next w, set_timers (fun l => (l ++ [(next w, cb, delay)])%list) (set_next S w)).

Definition clearTimeout (id : nat) (w : World) : World :=
  set_timers (filter (fun p => p.1.1 ≠ id)) w.

Definition same_listener (type : string) (fn : Fn) (l : string * Fn * Closure) : Prop :=
  l.1.1 = type ∧ l.1.2 = fn.

#[local] Instance same_listener_dec type fn l : Decision (same_listener type fn l).
Proof. unfold same_listener. apply _. Defined.

(** [window.addEventListener]: a listener already present is not added again. *)
Definition addEventListener (type : string) (fn : Fn) (cb : Closure) (w : World) : World :=
  if bool_decide (Exists (same_listener type fn) (listeners w)) then w
  else set_listeners (fun l => (l ++ [(type, fn, cb)])%list) w.

(** [window.removeEventListener]: removes the listener that is this very
    function object, if it is registered. *)
Definition removeEventListener (type : string) (fn : Fn) (w : World) : World :=
  set_listeners (filter (fun l => ¬ same_listener type fn l)) w.

(** [observer.observe(e)]: a target already observed is not added again. *)
Definition observe (obs e : nat) (w : World) : World :=
  set_observers
    (alter (fun o => {| io_callback := io_callback o; io_init := io_init o;
                        io_targets := if bool_decide (e ∈ io_targets o)
                                      then io_targets o
                                      else (io_targets o ++ [e])%list |}) obs) w.

Definition unobserve (obs e : nat) (w : World) : World :=
  set_observers
    (alter (fun o => {| io_callback := io_callback o; io_init := io_init o;
                        io_targets := filter (fun x => x ≠ e) (io_targets o) |}) obs) w.

Definition disconnect (obs : nat) (w : World) : World :=
  set_observers
    (alter (fun o => {| io_callback := io_callback o; io_init := io_init o;
                        io_targets := [] |}) obs) w.

(** [options.name || d] and [options.name !== undefined ? options.name : d] *)
Definition or_default (options : Options) (name : string) (d : Value) : Value :=
  match options !! name with
  | Some v => if truthy v then v else d
  | None => d
  end.

Definition defined_or (options : Options) (name : string) (d : Value) : Value :=
  match options !! name with
  | Some v => v
  | None => d
  end.

(** [if (options.name) ...] *)
Definition option_truthy (options : Options) (name : string) : bool :=
  match options !! name with
  | Some v => truthy v
  | None => false
  end.

(** *** BaseAnimation *)

Definition updateWindowDimensions (w : World) : World :=
  set_windowHeight (fun _ => innerHeight w) (set_windowWidth (fun _ => innerWidth w) w).

Definition ensureResizeListener (w : World) : World :=
  if resizeListenerAttached w then w
  else set_resizeListenerAttached (fun _ => true)
         (addEventListener "resize" Fn_handleResize HandleResize
            (updateWindowDimensions w)).

Definition BaseAnimation_fields (cfg : PartialConfig) : BaseAnimation.t :=
  {| BaseAnimation.class := BaseAnimationClass;
     BaseAnimation.elements := [];
     BaseAnimation.observer := None;
     BaseAnimation.rootMargin := "0px";
     BaseAnimation.threshold := [0; 1 # 4; 1 # 2; 3 # 4; 1]%Q;
     BaseAnimation.attributeParser := new_AttributeParser cfg;
     BaseAnimation.activeClass := "is-animated";
     BaseAnimation.observerOptions :=
       {| oi_rootMargin := "0px"; oi_threshold := TList [0; 1 # 4; 1 # 2; 3 # 4; 1]%Q |};
     BaseAnimation.parsedOptions := ∅;
     BaseAnimation.pendingAnimations := ∅;
     BaseAnimation.scrollListenerAttached := false;
     BaseAnimation.rafId := None;
     BaseAnimation.parallaxPositionStart := (- (1 # 2))%Q;
     BaseAnimation.parallaxPositionEnd := 1%Q |}.

(** The subclasses call [super()] without a configuration; their
    constructors then overwrite [threshold] and [rootMargin], which
    [observerOptions] has already copied. *)
Definition FadeInAnimation_fields : BaseAnimation.t :=
  let b := BaseAnimation_fields no_config in
  {| BaseAnimation.class := FadeInAnimationClass;
     BaseAnimation.elements := BaseAnimation.elements b;
     BaseAnimation.observer := BaseAnimation.observer b;
     BaseAnimation.rootMargin := "0px 0px -10% 0px";
     BaseAnimation.threshold :=
       [0; 1 # 10; 2 # 10; 3 # 10; 4 # 10; 5 # 10; 6 # 10; 7 # 10; 8 # 10; 9 # 10; 1]%Q;
     BaseAnimation.attributeParser := BaseAnimation.attributeParser b;
     BaseAnimation.activeClass := "is-animated";
     BaseAnimation.observerOptions := BaseAnimation.observerOptions b;
     BaseAnimation.parsedOptions := BaseAnimation.parsedOptions b;
     BaseAnimation.pendingAnimations := ∅;
     BaseAnimation.scrollListenerAttached := false;
     BaseAnimation.rafId := None;
     BaseAnimation.parallaxPositionStart := BaseAnimation.parallaxPositionStart b;
     BaseAnimation.parallaxPositionEnd := BaseAnimation.parallaxPositionEnd b |}.

Definition ParallaxAnimation_fields : BaseAnimation.t :=
  let b := BaseAnimation_fields no_config in
  {| BaseAnimation.class := ParallaxAnimationClass;
     BaseAnimation.elements := BaseAnimation.elements b;
     BaseAnimation.observer := BaseAnimation.observer b;
     BaseAnimation.rootMargin := "100px 0px -100px 0px";
     BaseAnimation.threshold := [0; 1 # 10]%Q;
     BaseAnimation.attributeParser := BaseAnimation.attributeParser b;
     BaseAnimation.activeClass := "is-parallaxed";
     BaseAnimation.observerOptions := BaseAnimation.observerOptions b;
     BaseAnimation.parsedOptions := BaseAnimation.parsedOptions b;
     BaseAnimation.pendingAnimations := ∅;
     BaseAnimation.scrollListenerAttached := false;
     BaseAnimation.rafId := None;
     BaseAnimation.parallaxPositionStart := (- (1 # 2))%Q;
     BaseAnimation.parallaxPositionEnd := 1%Q |}.

(** [new C()]: the handle of the new instance and the new world. *)
Definition construct (fields : BaseAnimation.t) (w : World) : nat * World :=
  (next w,
   ensureResizeListener (set_animations (fun a => <[next w := fields]> a) (set_next S w))).

Definition new_BaseAnimation (cfg : PartialConfig) : World -> nat * World :=
  construct (BaseAnimation_fields cfg).
Definition new_FadeInAnimation : World -> nat * World :=
  construct FadeInAnimation_fields.
Definition new_ParallaxAnimation : World -> nat * World :=
  construct ParallaxAnimation_fields.

Definition getDefaultName (md : BaseAnimation.t) : string :=
  match BaseAnimation.class md with
  | BaseAnimationClass => "animation"
  | FadeInAnimationClass => "fade-in"
  | ParallaxAnimationClass => "parallax"
  end.

Definition isInitialized (md : BaseAnimation.t) (w : World) (e : nat) : bool :=
  contains (classList (element w e)) (BaseAnimation.activeClass md).

Definition updateConfig (this : nat) (cfg : PartialConfig) (w : World) : World :=
  update_animation this
    (fun md => BaseAnimation.set_attributeParser
                 (setConfig cfg (BaseAnimation.attributeParser md)) md) w.

Definition getElementOptions (md : BaseAnimation.t) (w : World) (e : nat) : Options :=
  match parseElementOptions (BaseAnimation.attributeParser md) (attributes (element w e)) with
  | Some (_, options) => options
  | None => ∅
  end.

(** [parseInviewPercentage]: [None] is the [null] result. *)
Definition parseInviewPercentage (value : string) (w : World) : option Q * World :=
  if String.eqb value EmptyString then (None, w)
  else
    let cleanValue := trim (remove_first "%" value) in
    match parseFloat cleanValue with
    | NaN => (None, console_warn ("Invalid inview value: " ++ value) w)
    | Fin percentage =>
        let t := (percentage / 100)%Q in
        if negb (Qle_bool 0 t) || negb (Qle_bool t 1)
        then (None, console_warn ("Inview value must be between 0% and 100%: " ++ value) w)
        else (Some t, w)
    end.

(** The root margin [initObserver] builds from an option record. *)
Definition rootMargin_of (options : Options) : string :=
  js_String (or_default options "offsetTop" (VStr "0px")) ++ " " ++
  js_String (or_default options "offsetRight" (VStr "0px")) ++ " " ++
  js_String (or_default options "offsetBottom" (VStr "0px")) ++ " " ++
  js_String (or_default options "offsetLeft" (VStr "0px")).

(** The threshold [initObserver] leaves in [observerOptions], given the one
    that was there. *)
Definition threshold_of (options : Options) (old : Threshold) (w : World)
    : Threshold * World :=
  if option_truthy options "inview" then
    match parseInviewPercentage (js_String (defined_or options "inview" (VBool false))) w with
    | (Some t, w') => (TOne t, w')
    | (None, w') => (old, w')
    end
  else (old, w).

(** [initObserver]; an element object is never falsy, so the guard is the
    test of an empty roster.  [None] is the SyntaxError of the constructor
    [IntersectionObserver] on a root margin it does not accept. *)
Definition initObserver (this : nat) (w : World) : option World :=
  md ← animations w !! this;
  match BaseAnimation.elements md with
  | [] => Some (console_warn "No elements registered for the observer." w)
  | e0 :: _ =>
      let options := getElementOptions md w e0 in
      let margin := rootMargin_of options in
      let '(th, w1) :=
        threshold_of options (oi_threshold (BaseAnimation.observerOptions md)) w in
      let init := {| oi_rootMargin := margin; oi_threshold := th |} in
      if rootMargin_valid margin then
        let obs := next w1 in
        Some (update_animation this
                (fun md => BaseAnimation.set_observer (Some obs)
                             (BaseAnimation.set_observerOptions init md))
                (set_observers
                   (fun o => <[obs := {| io_callback := HandleIntersection this;
                                         io_init := init; io_targets := [] |}]> o)
                   (set_next S w1)))
      else None
  end.

(** The body of the [forEach] of [register]. *)
Definition register_element (this : nat) (w : World) (e : nat) : World :=
  match animations w !! this with
  | Some md =>
      if hasAnimationAttributes (BaseAnimation.attributeParser md) (attributes (element w e))
      then
        let options := getElementOptions md w e in
        let w1 :=
          update_animation this
            (fun md => BaseAnimation.set_parsedOptions
                         (<[e := options]> (BaseAnimation.parsedOptions md))
                         (BaseAnimation.set_elements
                            (BaseAnimation.elements md ++ [e])%list md)) w in
        match BaseAnimation.observer md with
        | Some obs => observe obs e w1
        | None => w1
        end
      else w
  | None => w
  end.

Definition BaseAnimation_register (this : nat) (elements : list nat) (w : World)
    : option World :=
  w1 ← initObserver this w;
  Some (foldl (register_element this) w1 elements).

Definition getOptions (this e : nat) (w : World) : Options * World :=
  match animations w !! this with
  | Some md =>
      match BaseAnimation.parsedOptions md !! e with
      | Some options => (options, w)
      | None =>
          let options := getElementOptions md w e in
          (options,
           update_animation this
             (fun md => BaseAnimation.set_parsedOptions
                          (<[e := options]> (BaseAnimation.parsedOptions md)) md) w)
      end
  | None => (∅, w)
  end.

Definition shouldRepeatAnimation (this e : nat) (w : World) : bool * World :=
  let '(options, w1) := getOptions this e w in
  (option_truthy options "repeat", w1).

Definition setProgress (e : nat) (value : Num) (w : World) : World :=
  update_element e (set_style (set_progress (Number_toString value))) w.

Definition BaseAnimation_destroy (this : nat) (w : World) : World :=
  match animations w !! this with
  | Some md =>
      let w1 :=
        match BaseAnimation.observer md with
        | Some obs =>
            update_animation this (BaseAnimation.set_observer None)
              (disconnect obs
                 (foldl (fun w e => unobserve obs e w) w (BaseAnimation.elements md)))
        | None => w
        end in
      update_animation this
        (fun md => BaseAnimation.set_parsedOptions ∅ (BaseAnimation.set_elements [] md)) w1
  | None => w
  end.

(** The static [BaseAnimation.cleanup]. *)
Definition BaseAnimation_cleanup (w : World) : World :=
  if resizeListenerAttached w
  then set_resizeListenerAttached (fun _ => false)
         (removeEventListener "resize" Fn_handleResize w)
  else w.
End Framework.

Section Animations.
Context `{Host}.

(** *** FadeInAnimation *)

Definition initElement (this e : nat) (w : World) : World :=
  match animations w !! this with
  | Some md =>
      if negb (String.eqb (opacity (style (element w e))) "0")
         && negb (contains (classList (element w e)) (BaseAnimation.activeClass md))
      then
        let '(options, w1) := getOptions this e w in
        let fromOpacity := defined_or options "from" (VNum (Fin 0)) in
        update_element e
          (set_style (fun s => set_visibility "visible"
                                 (set_opacity (js_String fromOpacity) s))) w1
      else w
  | None => w
  end.

(** [parseTimeValue] on a value that is not [undefined]; [None] is the
    TypeError of calling [endsWith] on a value that has no such method. *)
Definition parseTimeValue (value : Value) : option Num :=
  match value with
  | VNum n => Some n
  | VStr s =>
      if endsWith s "s" then Some (Nmul (parseFloat s) (Fin 1000))
      else Some (parseFloat s)
  | VBool _ | VJson _ => None
  end.

Definition FadeInAnimation_register (this : nat) (elements : list nat) (w : World)
    : option World :=
  BaseAnimation_register this elements
    (foldl (fun w e => initElement this e w) w elements).

Definition FadeInAnimation_animate (this e : nat) (options : Options) (w : World)
    : option World :=
  md ← animations w !! this;
  if negb (contains (classList (element w e)) (BaseAnimation.activeClass md))
     && negb (bool_decide (is_Some (BaseAnimation.pendingAnimations md !! e)))
  then
    duration ← parseTimeValue (or_default options "duration" (VStr "0.5s"));
    delay ← parseTimeValue (or_default options "delay" (VStr "0s"));
    let easing := or_default options "easing" (VStr "ease") in
    let toOpacity := defined_or options "to" (VNum (Fin 1)) in
    let w1 := initElement this e w in
    let '(id, w2) :=
      requestAnimationFrame (FadeFrame1 this e duration delay easing toOpacity options) w1 in
    Some (update_animation this
            (fun md => BaseAnimation.set_pendingAnimations
                         (<[e := id]> (BaseAnimation.pendingAnimations md)) md) w2)
  else Some w.

(** The first frame callback of [animate]. *)
Definition FadeInAnimation_frame1 (this e : nat) (duration delay : Num)
    (easing toOpacity : Value) (options : Options) (w : World) : World :=
  let w1 :=
    update_element e
      (set_style (set_transition
         ("opacity " ++ Number_toString (Ndiv duration 1000) ++ "s "
          ++ js_String easing ++ " " ++ Number_toString (Ndiv delay 1000) ++ "s"))) w in
  (requestAnimationFrame (FadeFrame2 this e toOpacity options) w1).2.

(** The second frame callback. *)
Definition FadeInAnimation_frame2 (this e : nat) (toOpacity : Value)
    (options : Options) (w : World) : option World :=
  md ← animations w !! this;
  let el1 := set_style (set_opacity (js_String toOpacity)) (element w e) in
  el2 ← (if option_truthy options "class"
         then classList_add (js_String (defined_or options "class" (VBool false))) el1
         else Some el1);
  el3 ← classList_add (BaseAnimation.activeClass md) el2;
  Some (update_animation this
          (fun md => BaseAnimation.set_pendingAnimations
                       (delete e (BaseAnimation.pendingAnimations md)) md)
          (update_element e (fun _ => el3) w)).

Definition FadeInAnimation_reset (this e : nat) (options : Options) (w : World)
    : option World :=
  md ← animations w !! this;
  let w1 :=
    match BaseAnimation.pendingAnimations md !! e with
    | Some id =>
        update_animation this
          (fun md => BaseAnimation.set_pendingAnimations
                       (delete e (BaseAnimation.pendingAnimations md)) md)
          (cancelAnimationFrame id w)
    | None => w
    end in
  let '(repeat, w2) := shouldRepeatAnimation this e w1 in
  if repeat then
    let fromOpacity := defined_or options "from" (VNum (Fin 0)) in
    duration ← parseTimeValue (or_default options "duration" (VStr "0.5s"));
    let easing := or_default options "easing" (VStr "ease") in
    let onTransitionEnd := Fn_fresh (next w2) in
    Some (update_element e
            (fun el =>
               set_transitionend
                 (fun l => (l ++ [(onTransitionEnd,
                                   OnTransitionEnd onTransitionEnd this e options)])%list)
                 (set_style
                    (fun s => set_opacity (js_String fromOpacity)
                                (set_transition
                                   ("opacity " ++ Number_toString (Ndiv duration 1000)
                                    ++ "s " ++ js_String easing) s)) el))
            (set_next S w2))
  else Some w2.

(** The [transitionend] listener installed by [reset]. *)
Definition FadeInAnimation_onTransitionEnd (self : Fn) (this e : nat)
    (options : Options) (w : World) : option World :=
  md ← animations w !! this;
  el1 ← classList_remove (BaseAnimation.activeClass md) (element w e);
  el2 ← (if option_truthy options "class"
         then classList_remove (js_String (defined_or options "class" (VBool false))) el1
         else Some el1);
  Some (update_element e
          (fun _ => set_transitionend (filter (fun l => l.1 ≠ self)) el2) w).

Definition FadeInAnimation_destroy (this : nat) (w : World) : World :=
  match animations w !! this with
  | Some md =>
      BaseAnimation_destroy this
        (update_animation this (BaseAnimation.set_pendingAnimations ∅)
           (map_fold (fun _ rafId w => cancelAnimationFrame rafId w) w
              (BaseAnimation.pendingAnimations md)))
  | None => w
  end.

(** *** ParallaxAnimation *)

Record ParallaxConfig : Type := {
  positionStart : option Q;
  positionEnd : option Q
}.

(** [Math.min(Math.max(distanceTraveled / totalDistance, 0), 1)] *)
Definition traversal_progress (viewportHeight rect_top elementHeight : Q) : Num :=
  let totalDistance := (viewportHeight + elementHeight)%Q in
  let distanceTraveled := (viewportHeight - rect_top)%Q in
  if Qeq_bool totalDistance 0 then
    if Qeq_bool distanceTraveled 0 then NaN
    else if Qle_bool 0 distanceTraveled then Fin 1 else Fin 0
  else Fin (Qmin (Qmax (distanceTraveled / totalDistance) 0) 1).

(** [speed * windowHeight * startPosition
     + progress * speed * windowHeight * endPosition] *)
Definition parallax_position (speed windowHeight startPosition endPosition progress : Num)
    : Num :=
  Nadd (Nmul (Nmul speed windowHeight) startPosition)
       (Nmul (Nmul (Nmul progress speed) windowHeight) endPosition).

Inductive Axis : Type := AxisX | AxisY.

(** The axis and the signed length, in pixels, of the translation that
    [applyParallaxEffect] writes into the transform. *)
Definition parallax_translation (md : BaseAnimation.t) (options : Options)
    (windowHeight : Q) (progress : Num) : Axis * Num :=
  let speed := ToNumber (defined_or options "speed" (VNum (Fin (1 # 5)))) in
  let direction := or_default options "direction" (VStr "down") in
  let startPosition :=
    ToNumber (defined_or options "start"
                (VNum (Fin (BaseAnimation.parallaxPositionStart md)))) in
  let endPosition :=
    ToNumber (defined_or options "end"
                (VNum (Fin (BaseAnimation.parallaxPositionEnd md)))) in
  let pos := parallax_position speed (Fin windowHeight) startPosition endPosition progress in
  match direction with
  | VStr "up" => (AxisY, Nmul pos (Fin (-1)))
  | VStr "down" => (AxisY, Nmul pos (Fin 1))
  | VStr "left" => (AxisX, Nmul pos (Fin (-1)))
  | _ => (AxisX, Nmul pos (Fin 1))
  end.

Definition transform_of (t : Axis * Num) : string :=
  match t with
  | (AxisY, y) => "translate3d(0, " ++ Number_toString y ++ "px, 0)"
  | (AxisX, x) => "translate3d(" ++ Number_toString x ++ "px, 0, 0)"
  end.

Definition applyParallaxEffect (this e : nat) (progress : Num) (w : World)
    : option World :=
  md ← animations w !! this;
  let '(options, w1) := getOptions this e w in
  let transform :=
    transform_of (parallax_translation md options (windowHeight w1) progress) in
  let el1 := set_style (set_transform transform) (element w1 e) in
  el2 ← (if option_truthy options "class"
         then classList_add (js_String (defined_or options "class" (VBool false))) el1
         else Some el1);
  el3 ← classList_add (BaseAnimation.activeClass md) el2;
  Some (update_element e (fun _ => el3) w1).

(** The body of the [forEach] of [updateParallaxElements]. *)
Definition updateParallaxElement (this : nat) (w : World) (e : nat) : option World :=
  let viewportHeight := windowHeight w in
  let r := rect (element w e) in
  if Qle_bool (-100) (bottom r) && Qle_bool (top r) (viewportHeight + 100) then
    let progress := traversal_progress viewportHeight (top r) (height r) in
    applyParallaxEffect this e progress (setProgress e progress w)
  else Some w.

Definition updateParallaxElements (this : nat) (w : World) : option World :=
  md ← animations w !! this;
  foldl (fun ow e => w ← ow; updateParallaxElement this w e) (Some w)
    (BaseAnimation.elements md).

Definition ParallaxAnimation_configure (this : nat) (cfg : ParallaxConfig) (w : World)
    : option World :=
  md ← animations w !! this;
  let w1 :=
    update_animation this
      (fun md => BaseAnimation.set_positions
                   (default (BaseAnimation.parallaxPositionStart md) (positionStart cfg))
                   (default (BaseAnimation.parallaxPositionEnd md) (positionEnd cfg)) md) w in
  match BaseAnimation.elements md with
  | [] => Some w1
  | _ :: _ => updateParallaxElements this w1
  end.

Definition ParallaxAnimation_register (this : nat) (elements : list nat) (w : World)
    : option World :=
  w1 ← BaseAnimation_register this elements w;
  md ← animations w1 !! this;
  if BaseAnimation.scrollListenerAttached md then Some w1
  else
    (* this.handleScroll.bind(this): a new function object *)
    let bound := Fn_fresh (next w1) in
    updateParallaxElements this
      (update_animation this (BaseAnimation.set_scrollListenerAttached true)
         (addEventListener "scroll" bound (HandleScroll this) (set_next S w1))).

Definition handleScroll (this : nat) (w : World) : option World :=
  md ← animations w !! this;
  let w1 :=
    match BaseAnimation.rafId md with
    | Some id => cancelAnimationFrame id w
    | None => w
    end in
  let '(id, w2) := requestAnimationFrame (ParallaxFrame this) w1 in
  Some (update_animation this (BaseAnimation.set_rafId (Some id)) w2).

(** The frame callback scheduled by [handleScroll]. *)
Definition ParallaxAnimation_frame (this : nat) (w : World) : option World :=
  w1 ← updateParallaxElements this w;
  Some (update_animation this (BaseAnimation.set_rafId None) w1).

Definition ParallaxAnimation_animate (this e : nat) (options : Options) (w : World)
    : option World :=
  md ← animations w !! this;
  el1 ← classList_add (BaseAnimation.activeClass md) (element w e);
  el2 ← (if option_truthy options "class"
         then classList_add (js_String (defined_or options "class" (VBool false))) el1
         else Some el1);
  Some (update_element e (fun _ => el2) w).

Definition ParallaxAnimation_reset (this e : nat) (options : Options) (w : World)
    : option World :=
  md ← animations w !! this;
  let '(repeat, w1) := shouldRepeatAnimation this e w in
  if repeat then
    let el1 := set_style (set_transform "translate3d(0, 0, 0)") (element w1 e) in
    el2 ← classList_remove (BaseAnimation.activeClass md) el1;
    el3 ← (if option_truthy options "class"
           then classList_remove (js_String (defined_or options "class" (VBool false))) el2
           else Some el2);
    Some (update_element e (fun _ => el3) w1)
  else Some w1.

Definition ParallaxAnimation_destroy (this : nat) (w : World) : World :=
  let w1 := BaseAnimation_destroy this w in
  match animations w1 !! this with
  | Some md =>
      let w2 :=
        if BaseAnimation.scrollListenerAttached md then
          (* this.handleScroll.bind(this): again a new function object *)
          let bound := Fn_fresh (next w1) in
          update_animation this (BaseAnimation.set_scrollListenerAttached false)
            (removeEventListener "scroll" bound (set_next S w1))
        else w1 in
      match BaseAnimation.rafId md with
      | Some id =>
          update_animation this (BaseAnimation.set_rafId None) (cancelAnimationFrame id w2)
      | None => w2
      end
  | None => w1
  end.

(** *** Dynamic dispatch on the class of the instance *)

Definition register (this : nat) (elements : list nat) (w : World) : option World :=
  md ← animations w !! this;
  match BaseAnimation.class md with
  | BaseAnimationClass => BaseAnimation_register this elements w
  | FadeInAnimationClass => FadeInAnimation_register this elements w
  | ParallaxAnimationClass => ParallaxAnimation_register this elements w
  end.

Definition animate (this e : nat) (options : Options) (w : World) : option World :=
  md ← animations w !! this;
  match BaseAnimation.class md with
  | BaseAnimationClass => Some w
  | FadeInAnimationClass => FadeInAnimation_animate this e options w
  | ParallaxAnimationClass => ParallaxAnimation_animate this e options w
  end.

Definition reset (this e : nat) (options : Options) (w : World) : option World :=
  md ← animations w !! this;
  match BaseAnimation.class md with
  | BaseAnimationClass => Some w
  | FadeInAnimationClass => FadeInAnimation_reset this e options w
  | ParallaxAnimationClass => ParallaxAnimation_reset this e options w
  end.

Definition destroy (this : nat) (w : World) : World :=
  match animations w !! this with
  | Some md =>
      match BaseAnimation.class md with
      | BaseAnimationClass => BaseAnimation_destroy this w
      | FadeInAnimationClass => FadeInAnimation_destroy this w
      | ParallaxAnimationClass => ParallaxAnimation_destroy this w
      end
  | None => w
  end.

(** The body of the [forEach] of [handleIntersection]. *)
Definition handleIntersection_entry (this : nat) (w : World)
    (entry : IntersectionObserverEntry) : option World :=
  md ← animations w !! this;
  let e := target entry in
  let options := default ∅ (BaseAnimation.parsedOptions md !! e) in
  if isIntersecting entry
  then animate this e options (setProgress e (Fin (intersectionRatio entry)) w)
  else reset this e options (setProgress e (Fin 0) w).

Definition handleIntersection (this : nat) (entries : list IntersectionObserverEntry)
    (w : World) : option World :=
  foldl (fun ow entry => w ← ow; handleIntersection_entry this w entry) (Some w) entries.
End Animations.

Section Manager.
Context `{Host}.

(** *** AnimationManager *)

Definition new_AnimationManager (cfg : PartialConfig) (w : World) : nat * World :=
  let p := new_AttributeParser cfg in
  (next w,
   set_managers
     (fun m => <[next w := {| AnimationManager.modules := [];
                              AnimationManager.initialized := false;
                              AnimationManager.loadTimeout := None;
                              AnimationManager.mutationObserver := None;
                              AnimationManager.attributeParser := p;
                              AnimationManager.config := config p |}]> m)
     (set_next S w)).

(** [Map.prototype.set] and [Map.prototype.get] *)
Fixpoint Map_set (name : string) (m : nat) (l : list (string * nat))
    : list (string * nat) :=
  match l with
  | [] => [(name, m)]
  | (n, x) :: r => if String.eqb n name then (name, m) :: r else (n, x) :: Map_set name m r
  end.

Fixpoint Map_get (name : string) (l : list (string * nat)) : option nat :=
  match l with
  | [] => None
  | (n, x) :: r => if String.eqb n name then Some x else Map_get name r
  end.

Definition registerModule (this : nat) (name : string) (module : nat) (w : World) : World :=
  update_manager this
    (fun mg => AnimationManager.set_modules
                 (Map_set name module (AnimationManager.modules mg)) mg) w.

Definition getModule (mg : AnimationManager.t) (name : string) : option nat :=
  Map_get name (AnimationManager.modules mg).

(** [use(ModuleClass, moduleConfig?)]; only [ParallaxAnimation] has a
    [configure] method. *)
Definition use (this : nat) (ModuleClass : ModuleClass)
    (moduleConfig : option ParallaxConfig) (w : World) : option World :=
  let '(module, w1) :=
    match ModuleClass with
    | BaseAnimationClass => new_BaseAnimation no_config w
    | FadeInAnimationClass => new_FadeInAnimation w
    | ParallaxAnimationClass => new_ParallaxAnimation w
    end in
  w2 ← match moduleConfig, ModuleClass with
       | Some c, ParallaxAnimationClass => ParallaxAnimation_configure module c w1
       | _, _ => Some w1
       end;
  md ← animations w2 !! module;
  Some (registerModule this (getDefaultName md) module w2).

Definition AnimationManager_updateConfig (this : nat) (cfg : PartialConfig) (w : World)
    : option World :=
  mg ← managers w !! this;
  let p := setConfig cfg (AnimationManager.attributeParser mg) in
  Some (foldl (fun w nm => updateConfig nm.2 cfg w)
          (update_manager this (AnimationManager.set_parser p) w)
          (AnimationManager.modules mg)).

(** [document.querySelectorAll('[attributeName]')] *)
Definition findAllAnimationElements (mg : AnimationManager.t) (w : World) : list nat :=
  filter (fun e => hasAttribute (attributeName (AnimationManager.config mg))
                     (attributes (element w e)) = true)
    (document w).

Definition isElementInitialized (mg : AnimationManager.t) (w : World) (e : nat)
    (moduleName : string) : bool :=
  match getModule mg moduleName with
  | Some module =>
      match animations w !! module with
      | Some md => isInitialized md w e
      | None => false
      end
  | None => false
  end.

(** The module instance whose [register] the scan of [init] calls for an
    element, if any. *)
Definition init_route (mg : AnimationManager.t) (w : World) (e : nat) : option nat :=
  match parseElementOptions (AnimationManager.attributeParser mg)
          (attributes (element w e)) with
  | None => None
  | Some (moduleName, _) => getModule mg moduleName
  end.

(** The same for the scan of [initDynamicElements]. *)
Definition dynamic_route (mg : AnimationManager.t) (w : World) (e : nat) : option nat :=
  match parseElementOptions (AnimationManager.attributeParser mg)
          (attributes (element w e)) with
  | None => None
  | Some (moduleName, _) =>
      match getModule mg moduleName with
      | Some module =>
          if isElementInitialized mg w e moduleName then None else Some module
      | None => None
      end
  end.

(** The body of the [forEach] of a scan. *)
Definition scan_step (route : World -> nat -> option nat) (w : World) (e : nat)
    : option World :=
  match route w e with
  | Some module => register module [e] w
  | None => Some w
  end.

Definition scan (route : World -> nat -> option nat) (elements : list nat) (w : World)
    : option World :=
  foldl (fun ow e => w ← ow; scan_step route w e) (Some w) elements.

Definition initDynamicElements (this : nat) (w : World) : option World :=
  mg ← managers w !! this;
  if negb (AnimationManager.initialized mg) then Some w
  else if prefersReducedMotion w then Some w
  else scan (dynamic_route mg) (findAllAnimationElements mg w) w.

Definition setupMutationObserver (this : nat) (w : World) : World :=
  match managers w !! this with
  | Some mg =>
      match AnimationManager.mutationObserver mg with
      | Some _ => w
      | None =>
          let obs := next w in
          update_manager this (AnimationManager.set_mutationObserver (Some obs))
            (set_mutationObservers (fun o => <[obs := MutationCallback this]> o)
               (set_next S w))
      end
  | None => w
  end.

(** Whether a batch of mutation records asks for a re-scan. *)
Definition needsUpdate (mg : AnimationManager.t) (w : World)
    (mutations : list MutationRecord) : bool :=
  existsb
    (fun mutation =>
       isChildList mutation
       && existsb
            (fun n =>
               isElementNode n
               && (hasAnimationAttributes (AnimationManager.attributeParser mg)
                     (attributes (element w (node n)))
                   || (negb (String.eqb (attributeName (AnimationManager.config mg)) EmptyString)
                       && existsb
                            (fun d => hasAttribute
                                        (attributeName (AnimationManager.config mg))
                                        (attributes (element w d)))
                            (descendants n))))
            (addedNodes mutation))
    mutations.

(** The callback given to [new MutationObserver]. *)
Definition mutationCallback (this : nat) (mutations : list MutationRecord) (w : World)
    : option World :=
  mg ← managers w !! this;
  if needsUpdate mg w mutations then
    let w1 :=
      match AnimationManager.loadTimeout mg with
      | Some id => clearTimeout id w
      | None => w
      end in
    let '(id, w2) := setTimeout (DebouncedRescan this) 100 w1 in
    Some (update_manager this (AnimationManager.set_loadTimeout (Some id)) w2)
  else Some w.

Definition init (this : nat) (w : World) : option World :=
  mg ← managers w !! this;
  if AnimationManager.initialized mg then Some w
  else
    let prefersReducedMotion := prefersReducedMotion w in
    let w1 :=
      if prefersReducedMotion
      then console_log "User prefers reduced motion, animations disabled" w
      else w in
    w2 ← (if negb prefersReducedMotion
          then scan (init_route mg) (findAllAnimationElements mg w1) w1
          else Some w1);
    let w3 := setupMutationObserver this w2 in
    let w4 := update_manager this (AnimationManager.set_initialized true) w3 in
    Some (setTimeout (PostInitRescan this) 1000 w4).2.

Definition AnimationManager_destroy (this : nat) (w : World) : option World :=
  mg ← managers w !! this;
  let w1 :=
    match AnimationManager.loadTimeout mg with
    | Some id =>
        update_manager this (AnimationManager.set_loadTimeout None) (clearTimeout id w)
    | None => w
    end in
  let w2 :=
    match AnimationManager.mutationObserver mg with
    | Some obs =>
        update_manager this (AnimationManager.set_mutationObserver None)
          (set_mutationObservers (delete obs) w1)
    | None => w1
    end in
  let w3 := foldl (fun w nm => destroy nm.2 w) w2 (AnimationManager.modules mg) in
  let w4 :=
    update_manager this
      (fun mg => AnimationManager.set_initialized false
                   (AnimationManager.set_modules [] mg)) w3 in
  Some (BaseAnimation_cleanup w4).

(** The members of the class [AnimationManager], in the order of the
    source, with their TypeScript visibility. *)
Inductive Visibility : Type := Public | Private.

#[global] Instance Visibility_eq_dec : EqDecision Visibility.
Proof. solve_decision. Defined.

Definition AnimationManager_members : list (string * Visibility) :=
  [("modules", Private); ("initialized", Private); ("loadTimeout", Private);
   ("mutationObserver", Private); ("attributeParser", Private); ("config", Private);
   ("use", Public); ("updateConfig", Public); ("registerModule", Public);
   ("getModule", Public); ("initDynamicElements", Private);
   ("findAllAnimationElements", Private); ("isElementInitialized", Private);
   ("setupMutationObserver", Private); ("init", Public); ("destroy", Public)].

(** [manager[name]()]: calling a public method that takes no argument, by
    name; [None] is the TypeError of calling something that is not a
    function of the public surface. *)
Definition AnimationManager_invoke (name : string) (this : nat) (w : World)
    : option World :=
  if String.eqb name "init" then init this w
  else if String.eqb name "destroy" then AnimationManager_destroy this w
  else None.

(** *** Running callbacks *)

Inductive Argument : Type :=
  | NoArgument
  | Entries (entries : list IntersectionObserverEntry)
  | Mutations (mutations : list MutationRecord).

Definition call (c : Closure) (a : Argument) (w : World) : option World :=
  match c with
  | HandleResize => Some (updateWindowDimensions w)
  | HandleIntersection this =>
      handleIntersection this (match a with Entries l => l | _ => [] end) w
  | HandleScroll this => handleScroll this w
  | ParallaxFrame this => ParallaxAnimation_frame this w
  | FadeFrame1 this e duration delay easing toOpacity options =>
      Some (FadeInAnimation_frame1 this e duration delay easing toOpacity options w)
  | FadeFrame2 this e toOpacity options =>
      FadeInAnimation_frame2 this e toOpacity options w
  | OnTransitionEnd self this e options =>
      FadeInAnimation_onTransitionEnd self this e options w
  | MutationCallback this =>
      mutationCallback this (match a with Mutations l => l | _ => [] end) w
  | DebouncedRescan this =>
      w1 ← initDynamicElements this w;
      Some (update_manager this (AnimationManager.set_loadTimeout None) w1)
  | PostInitRescan this => initDynamicElements this w
  end.

(** The browser runs the pending frame callback [id]. *)
Definition run_frame (id : nat) (w : World) : option World :=
  match list_find (fun p => p.1 = id) (frames w) with
  | Some (_, (_, c)) => call c NoArgument (cancelAnimationFrame id w)
  | None => Some w
  end.

(** The timer [id] expires. *)
Definition run_timer (id : nat) (w : World) : option World :=
  match list_find (fun p => p.1.1 = id) (timers w) with
  | Some (_, (_, c, _)) => call c NoArgument (clearTimeout id w)
  | None => Some w
  end.

(** A [transitionend] event on an element: its listeners run in order. *)
Definition dispatch_transitionend (e : nat) (w : World) : option World :=
  foldl (fun ow l => w ← ow; call l.2 NoArgument w) (Some w)
    (transitionend (element w e)).

(** A window event of the given type. *)
Definition dispatch_window (type : string) (w : World) : option World :=
  foldl (fun ow l => w ← ow; call l.2 NoArgument w) (Some w)
    (filter (fun l => l.1.1 = type) (listeners w)).
End Manager.

(** The world of a page before any script runs. *)
Definition initial_World (elements : list Element) (reducedMotion : bool)
    (width height : Q) : World :=
  {| dom := list_to_map (zip (seq 1 (length elements)) elements);
     document := seq 1 (length elements);
     prefersReducedMotion := reducedMotion;
     innerWidth := width;
     innerHeight := height;
     listeners := [];
     frames := [];
     timers := [];
     observers := ∅;
     mutationObservers := ∅;
     console := [];
     next := S (length elements);
     windowWidth := width;
     windowHeight := height;
     resizeListenerAttached := false;
     animations := ∅;
     managers := ∅ |}.

(** ** A host to run examples on

    The functions below follow the ECMAScript and DOM definitions on the
    inputs the examples use: JSON texts without [\u] escapes beyond one
    byte, numbers with a finite decimal expansion, numeric strings in plain
    decimal notation, root margins in pixels or percent. *)

Module ModelHost.
Definition dquote : ascii := ascii_of_nat 34.
Definition backslash : ascii := ascii_of_nat 92.

Fixpoint digits_of (fuel : nat) (n : Z) (acc : string) : string :=
  match fuel with
  | O => acc
  | S f =>
      let acc' := String (ascii_of_nat (48 + Z.to_nat (n mod 10))) acc in
      if (n <? 10)%Z then acc' else digits_of f (n / 10)%Z acc'
  end.

Definition Z_toString (n : Z) : string :=
  if (n <? 0)%Z then "-" ++ digits_of (S (Z.to_nat (Z.log2 (- n)))) (- n) EmptyString
  else digits_of (S (Z.to_nat (Z.log2 n))) n EmptyString.

(** The digits after the decimal point of [r / d], at most [fuel] of them. *)
Fixpoint fraction_digits (fuel : nat) (r d : Z) : string :=
  match fuel with
  | O => EmptyString
  | S f =>
      if (r =? 0)%Z then EmptyString
      else String (ascii_of_nat (48 + Z.to_nat (r * 10 / d)))
             (fraction_digits f (r * 10 mod d) d)
  end.

Definition Number_toString (n : Num) : string :=
  match n with
  | NaN => "NaN"
  | Fin q =>
      let q := Qred q in
      let a := Z.abs (Qnum q) in
      let d := Zpos (Qden q) in
      let frac := fraction_digits 17 (a mod d) d in
      (if (Qnum q <? 0)%Z then "-" else EmptyString)
      ++ Z_toString (a / d)
      ++ (if String.eqb frac EmptyString then EmptyString else "." ++ frac)
  end.

Definition String_toNumber (s : string) : Num :=
  let t := trim s in
  if String.eqb t EmptyString then Fin 0
  else if decimal_pattern t then parseFloat t
  else NaN.

Definition Json_toString_item (j : Json) : string :=
  match j with
  | JNull => EmptyString
  | JBool true => "true"
  | JBool false => "false"
  | JNum n => Number_toString n
  | JStr s => s
  | JArr _ => EmptyString
  | JObj _ => "[object Object]"
  end.

Definition Json_toString (j : Json) : string :=
  match j with
  | JNull => "null"
  | JArr items => String.concat "," (map Json_toString_item items)
  | _ => Json_toString_item j
  end.

Definition Json_toNumber (j : Json) : Num :=
  match j with
  | JNull => Fin 0
  | JBool true => Fin 1
  | JBool false => Fin 0
  | JNum n => n
  | JObj _ => NaN
  | _ => String_toNumber (Json_toString j)
  end.

(** One component of a root margin: a decimal number followed by [px] or [%]. *)
Definition margin_component (s : string) : bool :=
  (endsWith s "px"
   && decimal_pattern (String.substring 0 (String.length s - 2) s))
  || (endsWith s "%"
      && decimal_pattern (String.substring 0 (String.length s - 1) s)).

Fixpoint split_spaces (s : string) (cur : string) : list string :=
  match s with
  | EmptyString => if String.eqb cur EmptyString then [] else [String.rev cur]
  | String c r =>
      if is_space c
      then (if String.eqb cur EmptyString then [] else [String.rev cur]) ++ split_spaces r EmptyString
      else split_spaces r (String c cur)
  end%list.

Definition rootMargin_valid (s : string) : bool :=
  let parts := split_spaces s EmptyString in
  (length parts <=? 4)%nat && forallb margin_component parts.

(** *** JSON texts *)

Definition is_json_space (c : ascii) : bool :=
  let n := nat_of_ascii c in
  (n =? 32)%nat || (n =? 9)%nat || (n =? 10)%nat || (n =? 13)%nat.

Fixpoint skip_json_space (s : string) : string :=
  match s with
  | String c r => if is_json_space c then skip_json_space r else s
  | EmptyString => EmptyString
  end.

Definition hex_digit (c : ascii) : option nat :=
  let n := nat_of_ascii c in
  if is_digit c then Some (n - 48)
  else if (97 <=? n)%nat && (n <=? 102)%nat then Some (n - 87)
  else if (65 <=? n)%nat && (n <=? 70)%nat then Some (n - 55)
  else None.

(** The characters of a string literal after its opening quote. *)
Fixpoint json_string (s : string) (acc : string) : option (string * string) :=
  match s with
  | EmptyString => None
  | String c r =>
      if Ascii.eqb c dquote then Some (String.rev acc, r)
      else if Ascii.eqb c backslash then
        match r with
        | String e r' =>
            if Ascii.eqb e dquote then json_string r' (String dquote acc)
            else if Ascii.eqb e backslash then json_string r' (String backslash acc)
            else if Ascii.eqb e "/" then json_string r' (String "/" acc)
            else if Ascii.eqb e "b" then json_string r' (String (ascii_of_nat 8) acc)
            else if Ascii.eqb e "f" then json_string r' (String (ascii_of_nat 12) acc)
            else if Ascii.eqb e "n" then json_string r' (String (ascii_of_nat 10) acc)
            else if Ascii.eqb e "r" then json_string r' (String (ascii_of_nat 13) acc)
            else if Ascii.eqb e "t" then json_string r' (String (ascii_of_nat 9) acc)
            else if Ascii.eqb e "u" then
              match r' with
              | String a (String b (String c' (String d r''))) =>
                  match hex_digit a, hex_digit b, hex_digit c', hex_digit d with
                  | Some 0, Some 0, Some x, Some y =>
                      json_string r'' (String (ascii_of_nat (16 * x + y)) acc)
                  | _, _, _, _ => None
                  end
              | _ => None
              end
            else None
        | EmptyString => None
        end
      else if (nat_of_ascii c <? 32)%nat then None
      else json_string r (String c acc)
  end.

(** A JSON number: an optional minus sign, an integer part without a
    leading zero, an optional fraction and an optional exponent. *)
Definition json_number (s : string) : option (Json * string) :=
  let '(neg, s1) := match s with String "-" r => (true, r) | _ => (false, s) end in
  let '(ip, n, r1) := span_digits s1 0 0 in
  if (n =? 0)%nat || ((1 <? n)%nat && startsWith s1 "0") then None
  else
    let frac :=
      match r1 with
      | String "." r =>
          let '(fp, k, r2) := span_digits r 0 0 in
          if (k =? 0)%nat then None else Some (fp, k, r2)
      | _ => Some (0%Z, O, r1)
      end in
    match frac with
    | None => None
    | Some (fp, k, r2) =>
        let ex :=
          match r2 with
          | String c r =>
              if Ascii.eqb c "e" || Ascii.eqb c "E" then
                let '(eneg, r') :=
                  match r with
                  | String "-" t => (true, t)
                  | String "+" t => (false, t)
                  | _ => (false, r)
                  end in
                let '(e, m, r3) := span_digits r' 0 0 in
                if (m =? 0)%nat then None
                else Some (if eneg then (- e)%Z else e, r3)
              else Some (0%Z, r2)
          | EmptyString => Some (0%Z, r2)
          end in
        match ex with
        | None => None
        | Some (e, r3) =>
            let v := (inject_Z (ip * 10 ^ Z.of_nat k + fp)
                      * pow10 (- Z.of_nat k) * pow10 e)%Q in
            Some (JNum (Fin (Qred (if neg then - v else v))), r3)
        end
    end.

Fixpoint json_value (fuel : nat) (s : string) {struct fuel} : option (Json * string) :=
  match fuel with
  | O => None
  | S f =>
      let s := skip_json_space s in
      if startsWith s "null" then Some (JNull, substring_from 4 s)
      else if startsWith s "true" then Some (JBool true, substring_from 4 s)
      else if startsWith s "false" then Some (JBool false, substring_from 5 s)
      else
        match s with
        | String c r =>
            if Ascii.eqb c dquote then
              match json_string r EmptyString with
              | Some (str, r') => Some (JStr str, r')
              | None => None
              end
            else if Ascii.eqb c "[" then
              match skip_json_space r with
              | String "]" r' => Some (JArr [], r')
              | r' => json_items f r' []
              end
            else if Ascii.eqb c "{" then
              match skip_json_space r with
              | String "}" r' => Some (JObj [], r')
              | r' => json_members f r' []
              end
            else json_number s
        | EmptyString => None
        end
  end
with json_items (fuel : nat) (s : string) (acc : list Json) {struct fuel}
    : option (Json * string) :=
  match fuel with
  | O => None
  | S f =>
      match json_value f s with
      | Some (v, r) =>
          match skip_json_space r with
          | String "," r' => json_items f r' (acc ++ [v])%list
          | String "]" r' => Some (JArr (acc ++ [v])%list, r')
          | _ => None
          end
      | None => None
      end
  end
with json_members (fuel : nat) (s : string) (acc : list (string * Json)) {struct fuel}
    : option (Json * string) :=
  match fuel with
  | O => None
  | S f =>
      match skip_json_space s with
      | String c r =>
          if Ascii.eqb c dquote then
            match json_string r EmptyString with
            | Some (key, r1) =>
                match skip_json_space r1 with
                | String ":" r2 =>
                    match json_value f r2 with
                    | Some (v, r3) =>
                        match skip_json_space r3 with
                        | String "," r' => json_members f r' (acc ++ [(key, v)])%list
                        | String "}" r' => Some (JObj (acc ++ [(key, v)])%list, r')
                        | _ => None
                        end
                    | None => None
                    end
                | _ => None
                end
            | None => None
            end
          else None
      | EmptyString => None
      end
  end.

Definition JSON_parse (s : string) : option Json :=
  match json_value (2 * String.length s + 2) s with
  | Some (j, rest) => if String.eqb (skip_json_space rest) EmptyString then Some j else None
  | None => None
  end.
End ModelHost.

#[global] Instance model_host : Host :=
  {| JSON_parse := ModelHost.JSON_parse;
     Number_toString := ModelHost.Number_toString;
     String_toNumber := ModelHost.String_toNumber;
     Json_toString := ModelHost.Json_toString;
     Json_toNumber := ModelHost.Json_toNumber;
     rootMargin_valid := ModelHost.rootMargin_valid |}.

(** ** Vocabulary for strings *)

(** Whether a string holds a hyphen followed by a lower-case letter: what
    the regular expression of [camelCase] matches. *)
Fixpoint has_kebab (s : string) : bool :=
  match s with
  | String c rest =>
      match rest with
      | String d _ => (Ascii.eqb c "-" && is_lower d) || has_kebab rest
      | EmptyString => false
      end
  | EmptyString => false
  end.

(** Every character of a string passes a test. *)
Fixpoint all_chars (P : ascii -> bool) (s : string) : bool :=
  match s with
  | String c r => P c && all_chars P r
  | EmptyString => true
  end.

(** ** The mathematical value of a decimal literal *)

(** The value of a decimal digit. *)
Definition digit_value (c : ascii) : Z := (Z.of_nat (nat_of_ascii c) - 48)%Z.

(** The value of a string of decimal digits: each digit times the power of
    ten of its place. *)
Fixpoint digits_MV (s : string) : Z :=
  match s with
  | String c r => (digit_value c * 10 ^ Z.of_nat (String.length r) + digits_MV r)%Z
  | EmptyString => 0%Z
  end.

(** The parts of a literal before and after its decimal point. *)
Fixpoint before_point (s : string) : string :=
  match s with
  | String c r => if Ascii.eqb c "."%char then EmptyString else String c (before_point r)
  | EmptyString => EmptyString
  end.

Fixpoint after_point (s : string) : string :=
  match s with
  | String c r => if Ascii.eqb c "."%char then r else after_point r
  | EmptyString => EmptyString
  end.

(** The mathematical value of a literal of the form [-?digits(.digits)?]:
    the value of the digits before the point plus the value of the digits
    after it divided by ten to the power of their number, negated after a
    minus sign. *)
Definition decimal_MV (d : string) : Q :=
  let '(neg, body) :=
    match d with
    | String c r => if Ascii.eqb c "-"%char then (true, r) else (false, d)
    | EmptyString => (false, d)
    end in
  let fraction := after_point body in
  let m :=
    (inject_Z (digits_MV (before_point body))
     + inject_Z (digits_MV fraction)
       / inject_Z (10 ^ Z.of_nat (String.length fraction)))%Q in
  if neg then (- m)%Q else m.

(** ** Numbers of the binary64 format *)

(** The exponent [k] of a denominator [2^k]. *)
Fixpoint dyadic_exponent (p : positive) : option nat :=
  match p with
  | xH => Some O
  | xO p' => match dyadic_exponent p' with Some k => Some (S k) | None => None end
  | xI _ => None
  end.

(** A rational that is [n / 2^k] in lowest terms with [|n| < 2^53] and
    [k <= 1000]: such a rational is a number of the binary64 format, zero
    or in its normal range, so that reading it or dividing it by a
    constant is not subject to rounding unless the quotient is. *)
Definition small_dyadic (q : Q) : bool :=
  let r := Qred q in
  match dyadic_exponent (Qden r) with
  | Some k => (k <=? 1000)%nat && (Z.abs (Qnum r) <? 2 ^ 53)%Z
  | None => false
  end.


(** ** Vocabulary for frame callbacks *)

(** Whether a closure is the frame callback of [handleScroll] of a module. *)
Definition is_parallax_frame (this : nat) (c : Closure) : bool :=
  match c with
  | ParallaxFrame t => Nat.eqb t this
  | _ => false
  end.

(** [n] scroll events in a row, handled by [handleScroll] of a module. *)
Fixpoint scroll_times `{Host} (n : nat) (this : nat) (w : World) : option World :=
  match n with
  | O => Some w
  | S n' => w' ← handleScroll this w; scroll_times n' this w'
  end.

(** ** The entry point of the package *)

(** [Vektor.createAnimationManager(config)] *)
Definition createAnimationManager `{Host} (cfg : PartialConfig) (w : World) : nat * World :=
  new_AnimationManager cfg w.

(** Whether a closure is the debounced re-scan of a manager. *)
Definition is_debounce (this : nat) (c : Closure) : bool :=
  match c with
  | DebouncedRescan t => Nat.eqb t this
  | _ => false
  end.

(** The identifiers of the pending debounced re-scans of a manager. *)
Definition debounce_pending (this : nat) (w : World) : list nat :=
  (filter (fun t => is_debounce this t.1.2 = true) (timers w)).*1.*1.

(** The mutation observer of a manager delivers batches of records, one
    after the other. *)
Definition deliver `{Host} (this : nat) (batches : list (list MutationRecord)) (w : World)
    : option World :=
  foldl (fun ow mutations => w ← ow; mutationCallback this mutations w) (Some w) batches.

(** * The vocabulary of the statements, and example pages *)

(** The option name that the pass over [element.attributes] writes for an
    attribute name, if the attribute is module-scoped, an offset or the
    inview attribute. *)
Definition loop_option_name (p : AttributeParser) (moduleName name : string)
    : option string :=
  let base := attributeName (config p) in
  let prefix := base ++ "-" ++ moduleName in
  if startsWith name prefix
  then Some (camelCase (substring_from (String.length prefix + 1) name))
  else if startsWith name (base ++ "-offset-")
  then Some (camelCase (substring_from (String.length base + 1) name))
  else if String.eqb name (base ++ "-inview") then Some "inview"
  else None.

(** The element of the precedence example, and the same attributes in the
    opposite order. *)
Definition precedence_example : Attributes :=
  [("kw", "fade-in"); ("kw-fade-in-duration", "900"); ("kw-duration", "500")].

Definition precedence_example_reversed : Attributes :=
  [("kw-duration", "500"); ("kw-fade-in-duration", "900"); ("kw", "fade-in")].

(** The text of the JSON object with the one member [a], of value 1, and a
    malformed bracketed text. *)
Definition json_example : string :=
  "{" ++ String ModelHost.dquote "a" ++ String ModelHost.dquote ":1}".

Definition malformed_example : string := "{a:1}".

(** An element with a module-scoped inview attribute followed by the inview
    attribute itself. *)
Definition inview_twice : Attributes :=
  [("kw", "fade-in"); ("kw-fade-in-inview", "50%"); ("kw-inview", "80%")].


(** The element of the parallax scenario, the option record the parser
    resolves for it, and the same element on a page, just below a viewport of
    1280 by 800 pixels. *)
Definition parallax_example : Attributes :=
  [("kw", "parallax"); ("kw-speed", "0.5"); ("kw-direction", "up")].

Definition parallax_example_options : Options :=
  {[ "speed" := VNum (Fin (1 # 2)); "direction" := VStr "up" ]}.

Definition parallax_page : World :=
  initial_World
    [{| attributes := parallax_example; classList := []; style := empty_Style;
        rect := {| top := 800; bottom := 1000; height := 200 |};
        transitionend := [] |}]
    false 1280 800.


Local Open Scope list_scope.

(** An element carries the primary attribute of the parser of a module. *)
Definition carries (md : BaseAnimation.t) (w : World) (e : nat) : Prop :=
  hasAnimationAttributes (BaseAnimation.attributeParser md) (attributes (element w e))
  = true.

#[global] Instance carries_dec md w e : Decision (carries md w e).
Proof. unfold carries. apply _. Defined.

(** What [register] does to the fields of the instance for one element,
    given the parser and the attributes of the elements. *)
Definition enroll `{Host} (p : AttributeParser) (d : gmap nat Element)
    (md : BaseAnimation.t) (e : nat) : BaseAnimation.t :=
  let attrs := attributes (default (new_Element []) (d !! e)) in
  if hasAnimationAttributes p attrs then
    BaseAnimation.set_parsedOptions
      (<[e := match parseElementOptions p attrs with
              | Some (_, options) => options
              | None => ∅
              end]> (BaseAnimation.parsedOptions md))
      (BaseAnimation.set_elements (BaseAnimation.elements md ++ [e]) md)
  else md.

Definition add_target (e : nat) (o : IntersectionObserver) : IntersectionObserver :=
  {| io_callback := io_callback o; io_init := io_init o;
     io_targets := if bool_decide (e ∈ io_targets o)
                   then io_targets o else io_targets o ++ [e] |}.

(** What [register] does to the store of observers for one element. *)
Definition watch `{Host} (p : AttributeParser) (d : gmap nat Element) (obs : nat)
    (o : gmap nat IntersectionObserver) (e : nat) : gmap nat IntersectionObserver :=
  if hasAnimationAttributes p (attributes (default (new_Element []) (d !! e)))
  then alter (add_target e) obs o else o.

(** A page with three elements of module [fade-in]; the first has a top
    offset, the second an inview percentage. *)
Definition three_elements : World :=
  initial_World
    [new_Element [("kw", "fade-in"); ("kw-offset-top", "10px")];
     new_Element [("kw", "fade-in"); ("kw-inview", "50%")];
     new_Element [("kw", "fade-in")]]
    false 1280 800.

(** The module instance constructed on the page of three elements. *)
Definition three_elements_module : nat * World :=
  new_BaseAnimation no_config three_elements.

(** A page whose first element has a top offset and an inview percentage,
    and whose third element does not carry the primary attribute. *)
Definition observer_page : World :=
  initial_World
    [new_Element [("kw", "fade-in"); ("kw-offset-top", "10px"); ("kw-inview", "50%")];
     new_Element [("kw", "fade-in")];
     new_Element [("class", "plain")];
     new_Element [("kw", "fade-in")]]
    false 1280 800.

Definition observer_page_module : nat * World :=
  new_BaseAnimation no_config observer_page.

(** The page after the first registration, of its elements 1, 2 and 3. *)
Definition observer_page_registered : World :=
  default observer_page_module.2
    (BaseAnimation_register observer_page_module.1 [1; 2; 3] observer_page_module.2).

(** A page whose first element has a top offset without a unit; its second
    element does not carry the primary attribute. *)
Definition unitless_offset_page : World :=
  initial_World
    [new_Element [("kw", "fade-in"); ("kw-offset-top", "10")];
     new_Element [("class", "plain")]]
    false 1280 800.

Definition unitless_offset_module : nat * World :=
  new_BaseAnimation no_config unitless_offset_page.

(** What an instance knows of its observer, and the observers of the page
    with their root margin, threshold and targets. *)
Definition observer_summary (this : nat) (w : World)
    : option (option nat) * list (nat * (string * Threshold * list nat)) :=
  (BaseAnimation.observer <$> animations w !! this,
   map_to_list ((fun o => (oi_rootMargin (io_init o), oi_threshold (io_init o),
                           io_targets o)) <$> observers w)).

(** Successive calls of [register] on one instance. *)
Definition register_calls (this : nat) (calls : list (list nat)) (w : World)
    : option World :=
  foldl (fun ow els => w ← ow; BaseAnimation_register this els w) (Some w) calls.

(** The function objects the window listens with were all created before:
    their identities are below the next fresh one. *)
Definition listeners_known (w : World) : Prop :=
  forall l k, l ∈ listeners w -> l.1.2 = Fn_fresh k -> k < next w.

(** A method that only restyles elements: it leaves the listeners, the
    pending callbacks and the observers alone, and changes nothing in the
    instance but its cache of options. *)
Definition restyled (this : nat) (w w' : World) : Prop :=
  listeners w' = listeners w /\ next w' = next w /\ frames w' = frames w
  /\ timers w' = timers w /\ observers w' = observers w
  /\ forall md, animations w !! this = Some md ->
       exists md', animations w' !! this = Some md'
         /\ BaseAnimation.class md' = BaseAnimation.class md
         /\ BaseAnimation.elements md' = BaseAnimation.elements md
         /\ BaseAnimation.scrollListenerAttached md'
            = BaseAnimation.scrollListenerAttached md
         /\ BaseAnimation.rafId md' = BaseAnimation.rafId md
         /\ BaseAnimation.activeClass md' = BaseAnimation.activeClass md.

(** The page of the parallax scenario with a new parallax module. *)
Definition parallax_module : nat * World := new_ParallaxAnimation parallax_page.

(** The same page after the first registration of its element. *)
Definition parallax_registered : World :=
  default parallax_page
    (ParallaxAnimation_register parallax_module.1 [1] parallax_module.2).

(** The class named by the [class] option, as [classList] receives it. *)
Definition custom_class `{Host} (options : Options) : string :=
  js_String (defined_or options "class" (VBool false)).

(** The tokens [reset] passes to [classList.remove] are well formed. *)
Definition tokens_valid `{Host} (md : BaseAnimation.t) (options : Options) : Prop :=
  valid_token (BaseAnimation.activeClass md) = true
  /\ (option_truthy options "class" = true -> valid_token (custom_class options) = true).

(** A page with one element of module [fade-in] that repeats and names a
    custom class, and what a test would look at: the opacity and the classes
    of the element, the number of its [transitionend] listeners and the
    number of pending frames. *)
Definition repeat_page : World :=
  initial_World
    [new_Element [("kw", "fade-in"); ("kw-repeat", "true"); ("kw-class", "shown")]]
    false 1280 800.

Definition entering : list IntersectionObserverEntry :=
  [{| target := 1; isIntersecting := true; intersectionRatio := 1 # 2 |}].

Definition leaving : list IntersectionObserverEntry :=
  [{| target := 1; isIntersecting := false; intersectionRatio := 0 |}].

Definition look (w : World) : string * list string * nat * nat :=
  (opacity (style (element w 1)), classList (element w 1),
   length (transitionend (element w 1)), length (frames w)).

(** The steps of one cycle of the element of [repeat_page]: registration,
    entry, the two frames of the animation, exit, the end of the transition,
    and a second entry.  The intersection entries are handed to the callback
    of the module directly. *)
Definition repeat_cycle : list (World -> option World) :=
  [register 2 [1]; handleIntersection 2 entering; run_frame 3; run_frame 4;
   handleIntersection 2 leaving; dispatch_transitionend 1;
   handleIntersection 2 entering].

(** The states of the page along the first [n] steps of the cycle. *)
Definition repeat_cycle_after (n : nat) : option (string * list string * nat * nat) :=
  look <$> foldl (fun ow step => w ← ow; step w)
             (Some (new_FadeInAnimation repeat_page).2) (take n repeat_cycle).


(** A page with one element of module [fade-in] without the repeat option,
    registered with a new fade module. *)
Definition fade_page : World :=
  initial_World [new_Element [("kw", "fade-in")]] false 1280 800.

Definition fade_registered : World :=
  default fade_page
    (let '(this, w) := new_FadeInAnimation fade_page in register this [1] w).

(** The fade module (handle 2) in that state. *)
Definition fade_registered_module : BaseAnimation.t :=
  default FadeInAnimation_fields (animations fade_registered !! 2).

(** A page with three elements: the first is of module [fade-in] and
    already bears the active class, the second names a module that is not
    registered, the third has an empty primary attribute. *)
Definition manager_page : World :=
  initial_World
    [set_classList (fun _ => ["is-animated"]) (new_Element [("kw", "fade-in")]);
     new_Element [("kw", "unknown")];
     new_Element [("kw", EmptyString)]]
    false 1280 800.

(** A manager (handle 4) on that page, with the fade module (handle 5). *)
Definition manager_ready : option World :=
  let '(this, w) := new_AnimationManager no_config manager_page in
  use this FadeInAnimationClass None w.

(** A batch of mutation records that adds the first element of the page. *)
Definition one_addition : list MutationRecord :=
  [{| isChildList := true;
      addedNodes := [{| isElementNode := true; node := 1; descendants := [] |}] |}].

(** The roster of a module instance. *)
Definition roster (module : nat) (w : World) : option (list nat) :=
  BaseAnimation.elements <$> animations w !! module.

(** What is left of a manager and of the resources it holds: whether it is
    initialized, its modules, its [loadTimeout], the pending timers, the
    connected mutation observers and the listeners of the window. *)
Definition manager_resources (this : nat) (w : World)
    : option (bool * list (string * nat) * option nat)
      * list (nat * Closure * Z) * list (nat * Closure) * list (string * Fn * Closure) :=
  ((fun mg => (AnimationManager.initialized mg, AnimationManager.modules mg,
               AnimationManager.loadTimeout mg)) <$> managers w !! this,
   timers w, map_to_list (mutationObservers w), listeners w).

(** The state of the page once the manager is ready, before [init]. *)
Definition manager_ready_world : World := default manager_page manager_ready.

(** Every option of a record is the coercion of the value of an attribute of
    the element whose name starts with the attribute name and a hyphen. *)
Definition from_attributes `{Host} (p : AttributeParser) (attrs : Attributes)
    (options : Options) : Prop :=
  forall n v, options !! n = Some v ->
    exists name value,
      (name, value) ∈ attrs
      /\ startsWith name (attributeName (config p) ++ "-")%string = true
      /\ v = parseAttributeValue value.

(** A name without upper-case ASCII letters: [getAttribute] looks such a
    name up as it is. *)
Definition is_upper (c : ascii) : bool :=
  let n := nat_of_ascii c in (65 <=? n)%nat && (n <=? 90)%nat.

Definition no_upper (s : string) : bool := all_chars (fun c => negb (is_upper c)) s.

(** An element of module [parallax] that gives its speed by the attribute
    [kw-parallax-value]. *)
Definition shorthand_example : Attributes :=
  [("kw", "parallax"); ("kw-parallax-value", "0.3")].

(** The characters of a string that passes the decimal test. *)
Definition is_decimal_char (c : ascii) : bool :=
  is_digit c || Ascii.eqb c "-" || Ascii.eqb c ".".

Definition not_space (c : ascii) : bool := negb (is_space c).

(** What may follow a decimal literal without being read by [parseFloat]:
    nothing, or a character that is not a digit, a point or an exponent
    mark. *)
Definition plain_suffix (t : string) : bool :=
  match t with
  | String c _ =>
      negb (is_digit c || Ascii.eqb c "." || Ascii.eqb c "e" || Ascii.eqb c "E")
  | EmptyString => true
  end.

(** What the methods of the modules never touch: the managers, the timers,
    the mutation observers, the tree of the document, the media query, the
    size of the window and the static fields of [BaseAnimation]. *)
Definition kept (w w' : World) : Prop :=
  managers w' = managers w /\ timers w' = timers w
  /\ mutationObservers w' = mutationObservers w /\ document w' = document w
  /\ prefersReducedMotion w' = prefersReducedMotion w
  /\ innerWidth w' = innerWidth w /\ innerHeight w' = innerHeight w
  /\ windowWidth w' = windowWidth w /\ windowHeight w' = windowHeight w
  /\ resizeListenerAttached w' = resizeListenerAttached w.

(** A step that changes no element but [e], and not the progress variable
    of [e]. *)
Definition touches (e : nat) (w w' : World) : Prop :=
  (forall e', e' <> e -> dom w' !! e' = dom w !! e')
  /\ progress (style (default (new_Element []) (dom w' !! e)))
     = progress (style (default (new_Element []) (dom w !! e))).

(** An instance after [destroy]: no element, no cached options, no observer. *)
Definition destroyed (md : BaseAnimation.t) : Prop :=
  BaseAnimation.elements md = [] /\ BaseAnimation.parsedOptions md = ∅
  /\ BaseAnimation.observer md = None.

(** The page of three elements after two registrations with a base module
    (handle 4), and the module in that state. *)
Definition base_registered : World :=
  default three_elements
    (register_calls three_elements_module.1 [[1]; [2]] three_elements_module.2).

Definition base_registered_module : BaseAnimation.t :=
  default (BaseAnimation_fields no_config) (animations base_registered !! 4).

(** The fade page after its element has entered the viewport by half. *)
Definition half_entry : IntersectionObserverEntry :=
  {| target := 1; isIntersecting := true; intersectionRatio := 1 # 2 |}.

Definition fade_entered : World :=
  default fade_registered (handleIntersection_entry 2 fade_registered half_entry).

(** The identifiers of the pending frame callbacks were all handed out
    before: they are below the next fresh one. *)
Definition frames_fresh (w : World) : Prop :=
  forall p, p ∈ frames w -> p.1 < next w.

(** A page whose element names the fade module under another attribute
    than the one a new module looks for, and a new fade module on it. *)
Definition foreign_page : World :=
  initial_World [new_Element [("data-anim", "fade-in")]] false 1280 800.

Definition foreign_module : nat * World := new_FadeInAnimation foreign_page.

Definition foreign_registered : World :=
  default foreign_page
    (FadeInAnimation_register foreign_module.1 [1] foreign_module.2).

(** The fade page when the first frame of the animation of its element has
    run, and the fade module in that state. *)
Definition fade_midway : World := default fade_entered (run_frame 3 fade_entered).

Definition fade_midway_module : BaseAnimation.t :=
  default FadeInAnimation_fields (animations fade_midway !! 2).

(** Whether [updateParallaxElements] processes an element: its rectangle is
    within 100 pixels of the viewport. *)
Definition near (w : World) (e : nat) : bool :=
  Qle_bool (-100) (bottom (rect (element w e)))
  && Qle_bool (top (rect (element w e))) (windowHeight w + 100).

(** The identifiers of the pending frames of [handleScroll] of a module. *)
Definition scroll_pending (this : nat) (w : World) : list nat :=
  (filter (fun p => is_parallax_frame this p.2 = true) (frames w)).*1.

(** The module knows the one frame of [handleScroll] that is pending, if
    there is one. *)
Definition scroll_invariant (this : nat) (w : World) : Prop :=
  frames_fresh w /\ NoDup (frames w).*1
  /\ exists md, animations w !! this = Some md
       /\ scroll_pending this w = option_list (BaseAnimation.rafId md).

(** The parallax module of the parallax page once its element is
    registered. *)
Definition parallax_registered_module : BaseAnimation.t :=
  default ParallaxAnimation_fields (animations parallax_registered !! 2).

(** An attribute name [name] for which the selector of [querySelector],
    the name between brackets, is valid and selects the elements that have
    the attribute: lower-case letters, digits, hyphens and underscores after
    a first lower-case letter. *)
Definition selector_name (s : string) : bool :=
  match s with
  | EmptyString => false
  | String c rest =>
      is_lower c
      && all_chars (fun x => is_lower x || is_digit x || Ascii.eqb x "-"%char
                             || Ascii.eqb x "_"%char) rest
  end.

(** The manager knows the one debounced re-scan that is pending, if there
    is one; the identifiers of the pending timers are distinct and were
    handed out before. *)
Definition debounce_invariant (this : nat) (w : World) : Prop :=
  (forall t, t ∈ timers w -> t.1.1 < next w) /\ NoDup (timers w).*1.*1
  /\ exists mg, managers w !! this = Some mg
       /\ debounce_pending this w = option_list (AnimationManager.loadTimeout mg).

(** The manager of the page of three elements: when it is ready, after
    [init], and after a batch of mutations that asks for a re-scan. *)
Definition manager_of (this : nat) (w : World) : AnimationManager.t :=
  default {| AnimationManager.modules := [];
             AnimationManager.initialized := false;
             AnimationManager.loadTimeout := None;
             AnimationManager.mutationObserver := None;
             AnimationManager.attributeParser := new_AttributeParser no_config;
             AnimationManager.config := DEFAULT_CONFIG |}
    (managers w !! this).

Definition manager_initialized : World :=
  default manager_ready_world (init 4 manager_ready_world).

Definition manager_debouncing : World :=
  default manager_initialized (mutationCallback 4 one_addition manager_initialized).

(** A configuration that names another attribute. *)
Definition data_config : PartialConfig :=
  {| p_attributeName := Some "data-anim"; p_defaultAnimation := None;
     p_useDataAttributeFallback := None |}.

(** A page of a user who prefers reduced motion, with a manager (handle 2)
    and the fade module (handle 3). *)
Definition reduced_page : World :=
  initial_World [new_Element [("kw", "fade-in")]] true 1280 800.

Definition reduced_ready : World :=
  default reduced_page
    (let '(this, w) := new_AnimationManager no_config reduced_page in
     use this FadeInAnimationClass None w).

(** What a method of the instance [this] leaves alone: the attributes of
    the elements, the other instances, and the parser of the instance. *)
Definition stable (this : nat) (w w' : World) : Prop :=
  (forall x, attributes (element w' x) = attributes (element w x))
  /\ (forall m, m <> this -> animations w' !! m = animations w !! m)
  /\ forall md, animations w !! this = Some md ->
       exists md', animations w' !! this = Some md'
         /\ BaseAnimation.attributeParser md' = BaseAnimation.attributeParser md.

Local Open Scope string_scope.


(** * Properties of the attribute parser *)

Section ParserFacts.
Context `{Host}.



Lemma span_digits_not_digit (c : ascii) (r : string) (acc : Z) (n : nat) :
  is_digit c = false -> span_digits (String c r) acc n = (acc, n, String c r).
Proof. intros Hc. simpl. now rewrite Hc. Qed.

(** A string that passes the decimal test starts with a digit, or with a
    minus sign followed by a digit. *)
Lemma decimal_pattern_shape (v : string) :
  decimal_pattern v = true ->
  exists neg s1 c r,
    v = (if neg : bool then String "-" s1 else s1)
    /\ s1 = String c r /\ is_digit c = true.
Proof.
  unfold decimal_pattern. intros Hp.
  set (s1 := match v with String "-" r => r | _ => v end) in *.
  assert (Hv : v = String "-" s1 \/ (v = s1 /\ forall r, v <> String "-" r)).
  { subst s1. destruct v as [|c r]; [right; split; [done|congruence]|].
    destruct (Ascii.eqb_spec c "-") as [->|Hne]; [left; reflexivity|].
    right. split; [|congruence].
    destruct c as [[] [] [] [] [] [] [] []]; try reflexivity. congruence. }
  destruct s1 as [|c r] eqn:Es1.
  - simpl in Hp. discriminate.
  - destruct (is_digit c) eqn:Hc.
    + destruct Hv as [Hv|[Hv _]].
      * exists true, (String c r), c, r. auto.
      * exists false, (String c r), c, r. auto.
    + rewrite (span_digits_not_digit c r 0 0 Hc) in Hp. simpl in Hp. discriminate.
Qed.

Lemma span_digits_count (s : string) (acc : Z) (n : nat) :
  (n <= (span_digits s acc n).1.2)%nat.
Proof.
  revert acc n. induction s as [|c r IH]; intros acc n; simpl; [lia|].
  destruct (is_digit c); simpl; [|lia].
  specialize (IH (10 * acc + Z.of_nat (nat_of_ascii c - 48))%Z (S n)). lia.
Qed.

Lemma digit_not_space (c : ascii) : is_digit c = true -> is_space c = false.
Proof.
  unfold is_digit, is_space. intros Hd.
  apply andb_true_iff in Hd as [H1 H2].
  apply Nat.leb_le in H1, H2.
  repeat (apply orb_false_iff; split); try apply andb_false_iff;
    try (apply Nat.eqb_neq; lia).
  right. apply Nat.leb_gt. lia.
Qed.

Lemma digit_not_sign (c : ascii) :
  is_digit c = true -> c <> "-"%char /\ c <> "+"%char.
Proof. split; intros ->; discriminate. Qed.

(** On a string that passes the decimal test [parseFloat] returns a number,
    never [NaN]. *)
Lemma parseFloat_decimal (v : string) :
  decimal_pattern v = true -> exists q, parseFloat v = Fin q.
Proof.
  intros Hp. destruct (decimal_pattern_shape v Hp) as (neg & s1 & c & r & Hv & Hs1 & Hc).
  assert (Hn : (1 <= (span_digits s1 0 0).1.2)%nat).
  { subst s1. simpl. rewrite Hc. apply span_digits_count. }
  destruct (digit_not_sign c Hc) as [Hm Hpl].
  unfold parseFloat.
  assert (Hsk : skip_space v = v).
  { subst v. destruct neg; [reflexivity|]. subst s1. simpl.
    now rewrite (digit_not_space c Hc). }
  rewrite Hsk.
  assert (Hsign : match v with
                  | String "-" r0 => (true, r0)
                  | String "+" r0 => (false, r0)
                  | _ => (false, v)
                  end = (neg, s1)).
  { subst v. destruct neg; [reflexivity|]. subst s1.
    destruct c as [[] [] [] [] [] [] [] []]; try reflexivity; try congruence;
      discriminate. }
  rewrite Hsign.
  destruct (span_digits s1 0 0) as [[ip n] r1] eqn:Esp. simpl in Hn.
  destruct (match r1 with
            | String "." r0 => span_digits r0 0 0
            | _ => (0%Z, 0%nat, r1)
            end) as [[fp k] r2].
  destruct n as [|n]; [lia|]. simpl.
  destruct neg; eauto.
Qed.

(** ** C2 *)

Lemma parseModuleOptions_step_name (p : AttributeParser) (moduleName : string)
    (options : Options) (name value : string) :
  parseModuleOptions_step p (attributeName (config p) ++ "-" ++ moduleName)
    options (name, value)
  = match loop_option_name p moduleName name with
    | Some n => assign n (parseAttributeValue value) options
    | None => options
    end.
Proof.
  unfold parseModuleOptions_step, loop_option_name.
  repeat match goal with |- context [if ?b then _ else _] => destruct b end;
    reflexivity.
Qed.

Lemma is_undefined_Some (options : Options) (n : string) (v : Value) :
  options !! n = Some v -> is_undefined options n = false.
Proof. unfold is_undefined. now intros ->. Qed.

Lemma is_undefined_true (options : Options) (n : string) :
  is_undefined options n = true -> options !! n = None.
Proof. unfold is_undefined. destruct (options !! n); [discriminate | done]. Qed.

(** The common table never overwrites an option that is already set. *)
Lemma parseCommonAttributes_keeps (p : AttributeParser) (attrs : Attributes)
    (options : Options) (n : string) (v : Value) :
  options !! n = Some v -> parseCommonAttributes p attrs options !! n = Some v.
Proof.
  unfold parseCommonAttributes. revert options.
  induction (commonAttributes p) as [|m ms IH]; intros options Hn; simpl; [exact Hn|].
  apply IH. unfold parseCommonAttributes_step.
  destruct (getAttribute _ attrs) as [a|]; [|exact Hn].
  destruct (is_undefined options (optionName m)) eqn:Hu; [|exact Hn].
  apply is_undefined_true in Hu.
  rewrite lookup_insert_ne; [exact Hn | congruence].
Qed.

Lemma handleModuleValueMapping_keeps (p : AttributeParser) (moduleName : string)
    (options : Options) (n : string) (v : Value) :
  options !! n = Some v -> n <> "value" ->
  handleModuleValueMapping p moduleName options !! n = Some v.
Proof.
  intros Hn Hne. unfold handleModuleValueMapping.
  destruct (moduleValueMappings p !! moduleName) as [t|]; [|exact Hn].
  destruct (negb (String.eqb t EmptyString) && negb (is_undefined options "value")
            && is_undefined options t) eqn:Hc; [|exact Hn].
  apply andb_true_iff in Hc as [_ Hu]. apply is_undefined_true in Hu.
  destruct (options !! "value") as [x|]; [|exact Hn].
  rewrite lookup_delete_ne by congruence.
  rewrite lookup_insert_ne; [exact Hn | congruence].
Qed.

(** An attribute that the pass does not map to the option [n] leaves that
    option as it is. *)
Lemma parseModuleOptions_loop_other (p : AttributeParser) (moduleName : string)
    (attrs : Attributes) (options : Options) (n : string) :
  (forall a, a ∈ attrs -> loop_option_name p moduleName a.1 <> Some n) ->
  foldl (parseModuleOptions_step p (attributeName (config p) ++ "-" ++ moduleName))
    options attrs !! n = options !! n.
Proof.
  revert options. induction attrs as [|[name value] attrs IH]; intros options Ha;
    [reflexivity|].
  cbn [foldl]. rewrite IH by (intros a Hin; apply Ha; now right).
  rewrite parseModuleOptions_step_name.
  pose proof (Ha (name, value) ltac:(left)) as Hn. cbn [fst] in Hn.
  destruct (loop_option_name p moduleName name) as [m|]; [|reflexivity].
  unfold assign. destruct (String.eqb m "__proto__"); [reflexivity|].
  apply lookup_insert_ne. congruence.
Qed.

(** C2 (amended): precedence holds between the pass over the element's
    attributes and the common table, not inside the pass.  (a) An option
    written by the pass, from a module-scoped, offset or inview attribute,
    is never overwritten by a common-table attribute.  (b) Inside the pass
    the last attribute of the element's attribute list that maps to an
    option decides its value, whatever the form of the attribute (the
    name [__proto__] apart, which is never stored).  (c) With [kw-fade-in-duration="900"] and
    [kw-duration="500"] on an element of module [fade-in], in either
    order, the resolved duration is the number 900. *)
Theorem C2_option_precedence (p : AttributeParser) (attrs : Attributes)
    (moduleName : string) :
  (forall n v,
      parseModuleOptions_loop p moduleName attrs !! n = Some v -> n <> "value" ->
      parseModuleOptions p attrs moduleName !! n = Some v)
  /\ (forall name value later n,
         loop_option_name p moduleName name = Some n ->
         n <> "__proto__" ->
         (forall a, a ∈ later -> loop_option_name p moduleName a.1 <> Some n) ->
         parseModuleOptions_loop p moduleName (attrs ++ (name, value) :: later) !! n
         = Some (parseAttributeValue value))
  /\ parseModuleOptions (new_AttributeParser no_config) precedence_example "fade-in"
       !! "duration" = Some (VNum (Fin 900))
  /\ parseModuleOptions (new_AttributeParser no_config) precedence_example_reversed
       "fade-in" !! "duration" = Some (VNum (Fin 900)).
Proof.
  split; [|split; [|split]].
  - intros n v Hn Hne. unfold parseModuleOptions.
    apply handleModuleValueMapping_keeps; [|exact Hne].
    now apply parseCommonAttributes_keeps.
  - intros name value later n Hname Hproto Hlater. unfold parseModuleOptions_loop.
    rewrite foldl_app. cbn [foldl].
    rewrite parseModuleOptions_loop_other by exact Hlater.
    rewrite parseModuleOptions_step_name, Hname.
    unfold assign. apply String.eqb_neq in Hproto. rewrite Hproto.
    apply lookup_insert_eq.
  - vm_compute. reflexivity.
  - vm_compute. reflexivity.
Qed.
End ParserFacts.

(** C2, as stated, fails: on an element of module [fade-in] whose attribute
    list holds [kw-fade-in-inview="50%"] and then [kw-inview="80%"], the
    resolved [inview] option is the value of the inview attribute, not that
    of the module-scoped attribute. *)
Lemma C2_counterexample :
  getAttribute "kw-fade-in-inview" inview_twice = Some "50%"
  /\ loop_option_name (new_AttributeParser no_config) "fade-in" "kw-fade-in-inview"
     = Some "inview"
  /\ parseElementOptions (new_AttributeParser no_config) inview_twice
     = Some ("fade-in", {[ "inview" := VStr "80%" ]})
  /\ parseAttributeValue "50%" <> VStr "80%".
Proof.
  split; [reflexivity|]. split; [reflexivity|]. split; [|discriminate].
  vm_compute. reflexivity.
Qed.

(** The values of the coercion on the strings the specification lists. *)
Example parseAttributeValue_examples :
  parseAttributeValue EmptyString = VBool true
  /\ parseAttributeValue "true" = VBool true
  /\ parseAttributeValue "false" = VBool false
  /\ parseAttributeValue "3.5" = VNum (Fin (7 # 2))
  /\ parseAttributeValue "-12" = VNum (Fin (-12))
  /\ parseAttributeValue "50%" = VStr "50%"
  /\ parseAttributeValue json_example = VJson (JObj [("a", JNum (Fin 1))])
  /\ parseAttributeValue malformed_example = VStr malformed_example.
Proof. repeat (match goal with |- _ /\ _ => split end); vm_compute; reflexivity. Qed.





(** * Registration and the intersection observer *)

Local Open Scope list_scope.

Section RegisterFacts.
Context `{Host}.

Lemma enroll_fields p d md e :
  BaseAnimation.observer (enroll p d md e) = BaseAnimation.observer md
  /\ BaseAnimation.attributeParser (enroll p d md e) = BaseAnimation.attributeParser md
  /\ BaseAnimation.observerOptions (enroll p d md e) = BaseAnimation.observerOptions md
  /\ BaseAnimation.class (enroll p d md e) = BaseAnimation.class md
  /\ BaseAnimation.scrollListenerAttached (enroll p d md e)
     = BaseAnimation.scrollListenerAttached md
  /\ BaseAnimation.rafId (enroll p d md e) = BaseAnimation.rafId md.
Proof. unfold enroll. destruct (hasAnimationAttributes _ _); repeat split. Qed.

Lemma foldl_enroll_fields p d els md :
  let md' := foldl (enroll p d) md els in
  BaseAnimation.observer md' = BaseAnimation.observer md
  /\ BaseAnimation.attributeParser md' = BaseAnimation.attributeParser md
  /\ BaseAnimation.observerOptions md' = BaseAnimation.observerOptions md
  /\ BaseAnimation.class md' = BaseAnimation.class md
  /\ BaseAnimation.scrollListenerAttached md' = BaseAnimation.scrollListenerAttached md
  /\ BaseAnimation.rafId md' = BaseAnimation.rafId md.
Proof.
  revert md. induction els as [|e els IH]; intros md; simpl; [repeat split|].
  destruct (IH (enroll p d md e)) as (-> & -> & -> & -> & -> & ->).
  apply enroll_fields.
Qed.

Lemma foldl_enroll_elements p d els md :
  BaseAnimation.elements (foldl (enroll p d) md els)
  = BaseAnimation.elements md
    ++ filter (fun e => hasAnimationAttributes p
                          (attributes (default (new_Element []) (d !! e))) = true) els.
Proof.
  revert md. induction els as [|e els IH]; intros md; simpl.
  - now rewrite app_nil_r.
  - rewrite IH. unfold enroll at 1. rewrite filter_cons.
    destruct (hasAnimationAttributes p _) eqn:Hc.
    + rewrite decide_True by reflexivity. simpl. now rewrite <- app_assoc.
    + rewrite decide_False by discriminate. reflexivity.
Qed.

Lemma foldl_enroll_options p d els md e :
  e ∈ els ->
  hasAnimationAttributes p (attributes (default (new_Element []) (d !! e))) = true ->
  BaseAnimation.parsedOptions (foldl (enroll p d) md els) !! e
  = Some match parseElementOptions p (attributes (default (new_Element []) (d !! e))) with
         | Some (_, options) => options
         | None => ∅
         end.
Proof.
  intros Hin Hc. revert md.
  induction els as [|x els IH] using rev_ind; intros md.
  - inversion Hin.
  - rewrite foldl_app. simpl. apply elem_of_app in Hin as [Hin|Hin].
    + unfold enroll at 1.
      destruct (hasAnimationAttributes p (attributes (default _ (d !! x)))); [|now apply IH].
      simpl. destruct (decide (x = e)) as [->|Hne].
      * apply lookup_insert_eq.
      * rewrite lookup_insert_ne by exact Hne. now apply IH.
    + apply list_elem_of_singleton in Hin as ->.
      unfold enroll at 1. rewrite Hc. simpl. apply lookup_insert_eq.
Qed.

Lemma foldl_watch_other p d obs els o k :
  k <> obs -> foldl (watch p d obs) o els !! k = o !! k.
Proof.
  intros Hk. revert o. induction els as [|e els IH]; intros o; simpl; [reflexivity|].
  rewrite IH. unfold watch. destruct (hasAnimationAttributes _ _); [|reflexivity].
  now rewrite lookup_alter_ne.
Qed.

Lemma foldl_watch_targets p d obs els o ob :
  o !! obs = Some ob ->
  exists ob',
    foldl (watch p d obs) o els !! obs = Some ob'
    /\ io_init ob' = io_init ob
    /\ io_callback ob' = io_callback ob
    /\ forall e, e ∈ io_targets ob' <->
                 e ∈ io_targets ob
                 \/ (e ∈ els
                     /\ hasAnimationAttributes p
                          (attributes (default (new_Element []) (d !! e))) = true).
Proof.
  revert o ob. induction els as [|x els IH]; intros o ob Ho; simpl.
  - exists ob. repeat split; auto. intros [?|[Hin _]]; [done | inversion Hin].
  - unfold watch at 2.
    destruct (hasAnimationAttributes p (attributes (default _ (d !! x)))) eqn:Hc.
    + destruct (IH (alter (add_target x) obs o) (add_target x ob)) as (ob' & E & Hi & Hcb & Ht).
      { now rewrite lookup_alter_eq, Ho. }
      exists ob'. repeat split; auto.
      * intros He. apply Ht in He as [He|[He Hce]].
        -- unfold add_target in He. simpl in He. case_bool_decide; [auto|].
           apply elem_of_app in He as [He|He]; [auto|].
           apply list_elem_of_singleton in He as ->. right. split; [left|done].
        -- right. split; [now right | done].
      * intros He. apply Ht. destruct He as [He|[He Hce]].
        -- left. unfold add_target. simpl. case_bool_decide; [done|].
           apply elem_of_app. now left.
        -- apply elem_of_cons in He as [->|He]; [|right; done].
           left. unfold add_target. simpl. case_bool_decide; [done|].
           apply elem_of_app. right. now left.
    + destruct (IH o ob Ho) as (ob' & E & Hi & Hcb & Ht).
      exists ob'. repeat split; auto.
      * intros He. apply Ht in He as [He|[He Hce]]; [auto|].
        right. split; [now right | done].
      * intros He. apply Ht. destruct He as [He|[He Hce]]; [auto|].
        apply elem_of_cons in He as [->|He]; [congruence | auto].
Qed.

(** The loop of [register] changes the instance and the observer it holds,
    and nothing else. *)
Lemma foldl_register_element (this : nat) (els : list nat) :
  forall (w : World) (md : BaseAnimation.t),
    animations w !! this = Some md ->
    let w' := foldl (register_element this) w els in
    dom w' = dom w /\ next w' = next w /\ listeners w' = listeners w
    /\ frames w' = frames w /\ timers w' = timers w /\ console w' = console w
    /\ windowHeight w' = windowHeight w
    /\ animations w' !! this
       = Some (foldl (enroll (BaseAnimation.attributeParser md) (dom w)) md els)
    /\ (forall m, m <> this -> animations w' !! m = animations w !! m)
    /\ observers w'
       = match BaseAnimation.observer md with
         | Some obs =>
             foldl (watch (BaseAnimation.attributeParser md) (dom w) obs) (observers w) els
         | None => observers w
         end.
Proof.
  induction els as [|e els IH]; intros w md Hmd; simpl.
  - repeat split; auto. now destruct (BaseAnimation.observer md).
  - set (w1 := register_element this w e).
    set (md1 := enroll (BaseAnimation.attributeParser md) (dom w) md e).
    assert (Hw1 : dom w1 = dom w /\ next w1 = next w /\ listeners w1 = listeners w
                  /\ frames w1 = frames w /\ timers w1 = timers w
                  /\ console w1 = console w /\ windowHeight w1 = windowHeight w
                  /\ animations w1 !! this = Some md1
                  /\ (forall m, m <> this -> animations w1 !! m = animations w !! m)
                  /\ observers w1
                     = match BaseAnimation.observer md with
                       | Some obs =>
                           watch (BaseAnimation.attributeParser md) (dom w) obs
                             (observers w) e
                       | None => observers w
                       end).
    { subst w1 md1. unfold register_element, enroll, watch, element. rewrite Hmd.
      destruct (hasAnimationAttributes _ _).
      - destruct (BaseAnimation.observer md) eqn:Ho; simpl;
          rewrite lookup_alter_eq, Hmd; simpl;
          (repeat split; auto; intros m Hm; now rewrite lookup_alter_ne).
      - repeat split; auto. now destruct (BaseAnimation.observer md). }
    destruct Hw1 as (Hd & Hn & Hl & Hf & Ht & Hc & Hh & Ha & Hoth & Hobs).
    destruct (enroll_fields (BaseAnimation.attributeParser md) (dom w) md e)
      as (Eo & Ep & _).
    fold md1 in Eo, Ep.
    destruct (IH w1 md1 Ha) as (Hd' & Hn' & Hl' & Hf' & Ht' & Hc' & Hh' & Ha' & Hoth' & Hobs').
    rewrite Hd, Ep in Ha'. rewrite Hd, Ep, Eo, Hobs in Hobs'.
    repeat split; try congruence.
    + intros m Hm. rewrite Hoth' by exact Hm. now apply Hoth.
    + rewrite Hobs'. now destruct (BaseAnimation.observer md).
Qed.

Lemma threshold_of_frame (options : Options) (old : Threshold) (w : World) :
  let w' := (threshold_of options old w).2 in
  dom w' = dom w /\ next w' = next w /\ listeners w' = listeners w
  /\ frames w' = frames w /\ timers w' = timers w
  /\ windowHeight w' = windowHeight w
  /\ animations w' = animations w /\ observers w' = observers w.
Proof.
  unfold threshold_of, parseInviewPercentage.
  destruct (option_truthy options "inview"); [|simpl; repeat split].
  destruct (String.eqb _ EmptyString); [simpl; repeat split|].
  destruct (parseFloat _); [simpl; repeat split|].
  destruct (negb _ || negb _); simpl; repeat split.
Qed.

(** The first part of [threshold_of] does not depend on the console. *)
Lemma initObserver_empty (this : nat) (w : World) (md : BaseAnimation.t) :
  animations w !! this = Some md ->
  BaseAnimation.elements md = [] ->
  initObserver this w
  = Some (console_warn "No elements registered for the observer." w).
Proof. intros Hmd He. unfold initObserver. rewrite Hmd. simpl. now rewrite He. Qed.

Lemma initObserver_nonempty (this : nat) (w : World) (md : BaseAnimation.t)
    (e0 : nat) (rest : list nat) :
  animations w !! this = Some md ->
  BaseAnimation.elements md = e0 :: rest ->
  rootMargin_valid (rootMargin_of (getElementOptions md w e0)) = true ->
  let init :=
    {| oi_rootMargin := rootMargin_of (getElementOptions md w e0);
       oi_threshold :=
         (threshold_of (getElementOptions md w e0)
            (oi_threshold (BaseAnimation.observerOptions md)) w).1 |} in
  exists w1,
    initObserver this w = Some w1
    /\ dom w1 = dom w /\ next w1 = S (next w) /\ listeners w1 = listeners w
    /\ frames w1 = frames w /\ timers w1 = timers w
    /\ windowHeight w1 = windowHeight w
    /\ animations w1 !! this
       = Some (BaseAnimation.set_observer (Some (next w))
                 (BaseAnimation.set_observerOptions init md))
    /\ (forall m, m <> this -> animations w1 !! m = animations w !! m)
    /\ observers w1
       = <[next w := {| io_callback := HandleIntersection this; io_init := init;
                        io_targets := [] |}]> (observers w).
Proof.
  intros Hmd He Hv init. unfold initObserver. rewrite Hmd. simpl. rewrite He.
  pose proof (threshold_of_frame (getElementOptions md w e0)
                (oi_threshold (BaseAnimation.observerOptions md)) w) as Hfr.
  subst init.
  destruct (threshold_of _ _ w) as [th wt]. simpl in Hfr.
  destruct Hfr as (Hd & Hn & Hl & Hf & Ht & Hh & Ha & Ho).
  rewrite Hv. eexists. split; [reflexivity|]. simpl.
  rewrite Hd, Hn, Hl, Hf, Ht, Hh, Ha, Ho.
  repeat split; auto.
  - now rewrite lookup_alter_eq, Hmd.
  - intros m Hm. now rewrite lookup_alter_ne.
Qed.

(** ** C9 *)

(** C9 (amended): on an instance whose roster is empty and that has no
    observer, as a new instance is, a call of [register] creates no
    IntersectionObserver: the store of observers is unchanged, the
    instance still has no observer, and the roster receives the elements
    of the call that carry the primary attribute, and no other, each with
    its parsed options in the cache.  A call made on a non-empty roster
    reads the options of the first roster element [e0]: the root margin
    is the four offsets of [e0], each replaced by ["0px"] when missing or
    falsy, joined by spaces; when the constructor IntersectionObserver
    refuses this margin the call throws.  Otherwise the call constructs
    one new observer, under a handle that was not in use, with this
    margin; its threshold is the parsed inview percentage of [e0] when
    that option is truthy and parses, and the threshold the instance held
    before otherwise; its targets are exactly the elements of that call
    that carry the attribute, which are appended to the roster; the
    observers that existed before keep their targets. *)
Theorem C9_register_observer (w : World) (this : nat) (md : BaseAnimation.t)
    (els : list nat) :
  animations w !! this = Some md ->
  BaseAnimation.elements md = [] ->
  BaseAnimation.observer md = None ->
  exists w1 md1,
    BaseAnimation_register this els w = Some w1
    /\ animations w1 !! this = Some md1
    /\ BaseAnimation.observer md1 = None
    /\ observers w1 = observers w
    /\ BaseAnimation.elements md1 = filter (carries md w) els
    /\ (forall e, e ∈ els -> carries md w e ->
                  BaseAnimation.parsedOptions md1 !! e = Some (getElementOptions md w e))
    /\ forall (w' : World) (md' : BaseAnimation.t) (e0 : nat) (rest els' : list nat),
         animations w' !! this = Some md' ->
         BaseAnimation.elements md' = e0 :: rest ->
         observers w' !! next w' = None ->
         let options := getElementOptions md' w' e0 in
         let side name := js_String (or_default options name (VStr "0px")) in
         let margin :=
           (side "offsetTop" ++ " " ++ side "offsetRight" ++ " " ++
            side "offsetBottom" ++ " " ++ side "offsetLeft")%string in
         (rootMargin_valid margin = false ->
          BaseAnimation_register this els' w' = None)
         /\ (rootMargin_valid margin = true ->
             exists w2 md2 ob,
               BaseAnimation_register this els' w' = Some w2
               /\ animations w2 !! this = Some md2
               /\ BaseAnimation.observer md2 = Some (next w')
               /\ observers w2 !! next w' = Some ob
               /\ io_callback ob = HandleIntersection this
               /\ oi_rootMargin (io_init ob) = margin
               /\ (forall v t,
                     options !! "inview" = Some v -> truthy v = true ->
                     (parseInviewPercentage (js_String v) w').1 = Some t ->
                     oi_threshold (io_init ob) = TOne t)
               /\ ((forall v, options !! "inview" = Some v ->
                              truthy v = false
                              \/ (parseInviewPercentage (js_String v) w').1 = None) ->
                   oi_threshold (io_init ob)
                   = oi_threshold (BaseAnimation.observerOptions md'))
               /\ (forall e, e ∈ io_targets ob <-> e ∈ els' /\ carries md' w' e)
               /\ BaseAnimation.elements md2
                  = (e0 :: rest) ++ filter (carries md' w') els'
               /\ (forall k, k <> next w' -> observers w2 !! k = observers w' !! k)).
Proof.
  intros Hmd He Ho.
  unfold BaseAnimation_register.
  rewrite (initObserver_empty this w md Hmd He). simpl.
  set (w0 := console_warn "No elements registered for the observer." w).
  assert (Hmd0 : animations w0 !! this = Some md) by exact Hmd.
  destruct (foldl_register_element this els w0 md Hmd0)
    as (_ & _ & _ & _ & _ & _ & _ & Ha & _ & Hobs).
  rewrite Ho in Hobs. simpl in Ha.
  destruct (foldl_enroll_fields (BaseAnimation.attributeParser md) (dom w) els md)
    as (Eo & _).
  eexists _, _. split; [reflexivity|]. split; [exact Ha|].
  split; [now rewrite Eo|]. split; [exact Hobs|].
  split; [rewrite foldl_enroll_elements, He; reflexivity|].
  split; [intros e Hin Hc; now apply foldl_enroll_options|].
  clear. intros w' md' e0 rest els' Hmd' He' Hfresh.
  set (options := getElementOptions md' w' e0).
  change (String.app (js_String (or_default options "offsetTop" (VStr "0px"))) _)
    with (rootMargin_of options).
  set (margin := rootMargin_of options).
  assert (Em : margin = rootMargin_of options) by reflexivity.
  split.
  { intros Hv. unfold initObserver. rewrite Hmd'. simpl. rewrite He'.
    fold options. rewrite <- Em.
    destruct (threshold_of options _ w') as [th wt]. now rewrite Hv. }
  intros Hv. rewrite Em in Hv.
  destruct (initObserver_nonempty this w' md' e0 rest Hmd' He' Hv)
    as (w1 & -> & Hd & Hn & _ & _ & _ & _ & Ha & _ & Hobs).
  simpl.
  destruct (foldl_register_element this els' w1 _ Ha)
    as (_ & _ & _ & _ & _ & _ & _ & Ha' & _ & Hobs').
  simpl in Hobs'. rewrite Hobs, Hd in Hobs'. simpl in Ha'.
  edestruct (foldl_watch_targets (BaseAnimation.attributeParser md') (dom w') (next w')
               els') as (ob & Eob & Hi & Hcb & Ht); [apply lookup_insert_eq|].
  eexists _, _, ob. split; [reflexivity|]. split; [exact Ha'|].
  split.
  { match goal with |- BaseAnimation.observer (foldl ?f ?m ?l) = _ =>
      destruct (foldl_enroll_fields (BaseAnimation.attributeParser md') (dom w1) l m)
        as (E & _) end.
    simpl in E. exact E. }
  split; [rewrite Hobs'; exact Eob|].
  split; [rewrite Hcb; reflexivity|].
  split; [rewrite Hi, Em; reflexivity|].
  split.
  { intros v t Hl Htr Hp. rewrite Hi. simpl. fold options.
    unfold threshold_of, option_truthy, defined_or. rewrite Hl, Htr.
    destruct (parseInviewPercentage (js_String v) w') as [[t'|] wt]; simpl in *;
      congruence. }
  split.
  { intros Hno. rewrite Hi. simpl. fold options.
    unfold threshold_of, option_truthy, defined_or.
    destruct (options !! "inview") as [v|] eqn:Hl; [|reflexivity].
    destruct (truthy v) eqn:Htr; [|reflexivity].
    destruct (Hno v eq_refl) as [Hf|Hp]; [congruence|].
    destruct (parseInviewPercentage (js_String v) w') as [[t'|] wt]; simpl in *;
      [discriminate | reflexivity]. }
  split.
  { intros e. rewrite Ht. simpl. unfold carries, element. split.
    - intros [Hin|Hin]; [inversion Hin | exact Hin].
    - intros Hin. now right. }
  split.
  { rewrite Hd, foldl_enroll_elements. simpl. rewrite He'. reflexivity. }
  intros k Hk. rewrite Hobs', foldl_watch_other by exact Hk.
  now rewrite lookup_insert_ne.
Qed.
End RegisterFacts.

Lemma C9_register_observer_witness :
  let this := observer_page_module.1 in
  let w := observer_page_module.2 in
  let w1 := observer_page_registered in
  animations w !! this = Some (BaseAnimation_fields no_config)
  /\ BaseAnimation.elements (BaseAnimation_fields no_config) = []
  /\ BaseAnimation.observer (BaseAnimation_fields no_config) = None
  /\ BaseAnimation_register this [1; 2; 3] w = Some w1
  /\ (exists md1,
        animations w1 !! this = Some md1
        /\ BaseAnimation.observer md1 = None
        /\ observers w1 = observers w
        /\ BaseAnimation.elements md1 = [1; 2])
  /\ exists w2 md2 ob t,
       BaseAnimation_register this [3; 4] w1 = Some w2
       /\ animations w2 !! this = Some md2
       /\ BaseAnimation.observer md2 = Some (next w1)
       /\ observers w2 !! next w1 = Some ob
       /\ oi_rootMargin (io_init ob) = "10px 0px 0px 0px"
       /\ oi_threshold (io_init ob) = TOne t /\ (t == 1 # 2)%Q
       /\ (4 ∈ io_targets ob) /\ (3 ∉ io_targets ob) /\ (1 ∉ io_targets ob)
       /\ BaseAnimation.elements md2 = [1; 2; 4].
Proof.
  intros this w w1.
  split; [vm_compute; reflexivity|]. split; [reflexivity|]. split; [reflexivity|].
  destruct (C9_register_observer w this (BaseAnimation_fields no_config) [1; 2; 3])
    as (w1' & md1 & E1 & E2 & E3 & E4 & E5 & _ & Hlater);
    [vm_compute; reflexivity | reflexivity | reflexivity |].
  assert (Ew : w1' = w1).
  { subst w1. unfold observer_page_registered. fold this w. now rewrite E1. }
  subst w1'.
  split; [exact E1|].
  split.
  { exists md1. split; [exact E2|]. split; [exact E3|]. split; [exact E4|].
    rewrite E5. vm_compute. reflexivity. }
  set (md' := default (BaseAnimation_fields no_config) (animations w1 !! this)).
  destruct (Hlater w1 md' 1 [2] [3; 4]) as [_ Hvalid];
    [vm_compute; reflexivity | vm_compute; reflexivity | vm_compute; reflexivity |].
  destruct Hvalid as (w2 & md2 & ob & F1 & F2 & F3 & F4 & _ & F5 & F6 & _ & F7 & F8 & _);
    [vm_compute; reflexivity|].
  exists w2, md2, ob, (50 # 100)%Q.
  split; [exact F1|]. split; [exact F2|]. split; [exact F3|]. split; [exact F4|].
  split; [rewrite F5; vm_compute; reflexivity|].
  split; [apply (F6 (VStr "50%")); vm_compute; reflexivity|].
  split; [reflexivity|].
  split; [apply F7; split; [apply (bool_decide_unpack _); reflexivity
                           | vm_compute; reflexivity]|].
  split; [intros Hin; apply F7 in Hin as [_ Hc]; vm_compute in Hc; discriminate|].
  split; [intros Hin; apply F7 in Hin as [Hin _];
          apply elem_of_cons in Hin as [Hin|Hin]; [discriminate|];
          apply elem_of_cons in Hin as [Hin|Hin]; [discriminate | inversion Hin]|].
  rewrite F8. vm_compute. reflexivity.
Defined.

(** C9, as stated, fails twice.  On the page whose first element has the
    top offset ["10"], the first registration is passed the elements 1 and 2
    and adds element 1 alone to the roster and to the cache: element 2 does
    not carry the primary attribute.  The second registration computes the
    root margin ["10 0px 0px 0px"] from element 1, the constructor
    IntersectionObserver refuses it, and the call throws: no observer is
    constructed. *)
Lemma C9_counterexample :
  let this := unitless_offset_module.1 in
  let w := unitless_offset_module.2 in
  (w1 ← BaseAnimation_register this [1; 2] w;
   md1 ← animations w1 !! this;
   Some (BaseAnimation.elements md1, bool_decide (is_Some (BaseAnimation.parsedOptions md1 !! 2)),
         BaseAnimation.observer md1, map_to_list (observers w1)))
  = Some ([1], false, None, [])
  /\ (w1 ← BaseAnimation_register this [1; 2] w;
      md1 ← animations w1 !! this;
      Some (rootMargin_of (getElementOptions md1 w1 1)))
     = Some "10 0px 0px 0px"
  /\ rootMargin_valid "10 0px 0px 0px" = false
  /\ register_calls this [[1; 2]; [1]] w = None.
Proof.
  intros this w. repeat (match goal with |- _ /\ _ => split end);
    vm_compute; reflexivity.
Qed.

(** C1 fails on the code: three registrations on a new instance, of the
    elements 1, 2 and 3 of the page in turn.  The first creates no observer,
    so element 1 is in the roster and is observed by nothing.  The second
    creates observer 5, with the margin of element 1, for element 2 alone.
    The third replaces it in the instance by a new observer 6, for element 3
    alone, while observer 5 keeps observing element 2. *)
Theorem C1_observer_created_late_and_again :
  let this := three_elements_module.1 in
  let w := three_elements_module.2 in
  let default_threshold := TList [0; 1 # 4; 1 # 2; 3 # 4; 1]%Q in
  observer_summary this <$> register_calls this [[1]] w
  = Some (Some None, [])
  /\ observer_summary this <$> register_calls this [[1]; [2]] w
     = Some (Some (Some 5), [(5, ("10px 0px 0px 0px", default_threshold, [2]))])
  /\ observer_summary this <$> register_calls this [[1]; [2]; [3]] w
     = Some (Some (Some 6),
             [(6, ("10px 0px 0px 0px", default_threshold, [3]));
              (5, ("10px 0px 0px 0px", default_threshold, [2]))]).
Proof.
  intros this w default_threshold.
  repeat (match goal with |- _ /\ _ => split end); vm_compute; reflexivity.
Qed.



(** * The scroll listener of the parallax module *)

Local Open Scope list_scope.

Section ParallaxDestroy.
Context `{Host}.

Lemma restyled_refl this w : restyled this w w.
Proof. repeat split; auto. intros md Hmd. exists md. repeat split; auto. Qed.

Lemma restyled_trans this w1 w2 w3 :
  restyled this w1 w2 -> restyled this w2 w3 -> restyled this w1 w3.
Proof.
  intros (Hl & Hn & Hf & Ht & Ho & Hm) (Hl' & Hn' & Hf' & Ht' & Ho' & Hm').
  repeat split; try congruence.
  intros md Hmd. destruct (Hm md Hmd) as (md2 & Hmd2 & E1 & E2 & E3 & E4 & E5).
  destruct (Hm' md2 Hmd2) as (md3 & Hmd3 & F1 & F2 & F3 & F4 & F5).
  exists md3. repeat split; congruence.
Qed.

Lemma foldl_None {A} (f : World -> A -> option World) (l : list A) :
  foldl (fun ow a => w ← ow; f w a) None l = None.
Proof. induction l; simpl; auto. Qed.

Lemma foldl_restyled {A} this (f : World -> A -> option World) :
  (forall w a w', f w a = Some w' -> restyled this w w') ->
  forall l w w',
    foldl (fun ow a => w ← ow; f w a) (Some w) l = Some w' -> restyled this w w'.
Proof.
  intros Hf. induction l as [|a l IH]; intros w w' E; simpl in E.
  - injection E as <-. apply restyled_refl.
  - destruct (f w a) as [w1|] eqn:E1; simpl in E; [|now rewrite foldl_None in E].
    eapply restyled_trans; [apply (Hf w a w1 E1) | apply IH; exact E].
Qed.

Lemma addEventListener_frame type fn cb w :
  let w' := addEventListener type fn cb w in
  next w' = next w /\ animations w' = animations w /\ frames w' = frames w
  /\ dom w' = dom w.
Proof. unfold addEventListener. destruct (bool_decide _); repeat split. Qed.

Lemma restyled_update_element this e f w : restyled this w (update_element e f w).
Proof.
  unfold restyled, update_element. simpl. repeat split; auto.
  intros md Hmd. exists md. repeat split; auto.
Qed.

Lemma getOptions_restyled this e w : restyled this w (getOptions this e w).2.
Proof.
  unfold getOptions. destruct (animations w !! this) as [md|] eqn:Hmd;
    [|apply restyled_refl].
  destruct (BaseAnimation.parsedOptions md !! e); [apply restyled_refl|].
  repeat split; auto. intros md0 Hmd0. simpl.
  rewrite lookup_alter_eq, Hmd0. simpl. eexists. repeat split.
Qed.

Lemma applyParallaxEffect_restyled this e progress w w' :
  applyParallaxEffect this e progress w = Some w' -> restyled this w w'.
Proof.
  unfold applyParallaxEffect. intros E.
  destruct (animations w !! this) as [md|]; [|discriminate]. simpl in E.
  pose proof (getOptions_restyled this e w) as Hg.
  destruct (getOptions this e w) as [options w1]. simpl in Hg.
  destruct (if option_truthy options "class" then _ else _) as [el2|]; [|discriminate].
  simpl in E.
  destruct (classList_add _ el2) as [el3|]; [|discriminate]. simpl in E.
  injection E as <-.
  eapply restyled_trans; [exact Hg | apply restyled_update_element].
Qed.

Lemma updateParallaxElements_restyled this w w' :
  updateParallaxElements this w = Some w' -> restyled this w w'.
Proof.
  unfold updateParallaxElements.
  destruct (animations w !! this) as [md|]; [|discriminate]. simpl.
  apply foldl_restyled. clear. intros w e w' E. unfold updateParallaxElement in E.
  destruct (Qle_bool _ _ && Qle_bool _ _).
  - apply applyParallaxEffect_restyled in E.
    eapply restyled_trans; [|exact E]. apply restyled_update_element.
  - injection E as <-. apply restyled_refl.
Qed.

(** What [super.register] leaves as it was. *)
Lemma BaseAnimation_register_frame this els w wb md :
  animations w !! this = Some md ->
  BaseAnimation_register this els w = Some wb ->
  listeners wb = listeners w /\ frames wb = frames w
  /\ next w <= next wb
  /\ exists mdb, animations wb !! this = Some mdb
       /\ BaseAnimation.class mdb = BaseAnimation.class md
       /\ BaseAnimation.scrollListenerAttached mdb
          = BaseAnimation.scrollListenerAttached md
       /\ BaseAnimation.rafId mdb = BaseAnimation.rafId md.
Proof.
  intros Hmd E. unfold BaseAnimation_register in E.
  destruct (initObserver this w) as [w1|] eqn:Ei; [|discriminate]. simpl in E.
  injection E as <-.
  assert (Hi : listeners w1 = listeners w /\ frames w1 = frames w
               /\ next w <= next w1
               /\ exists md1, animations w1 !! this = Some md1
                    /\ BaseAnimation.class md1 = BaseAnimation.class md
                    /\ BaseAnimation.scrollListenerAttached md1
                       = BaseAnimation.scrollListenerAttached md
                    /\ BaseAnimation.rafId md1 = BaseAnimation.rafId md).
  { unfold initObserver in Ei. rewrite Hmd in Ei. simpl in Ei.
    destruct (BaseAnimation.elements md) as [|e0 rest].
    - injection Ei as <-. repeat split; auto. exists md. auto.
    - pose proof (threshold_of_frame (getElementOptions md w e0)
                    (oi_threshold (BaseAnimation.observerOptions md)) w) as Hfr.
      destruct (threshold_of _ _ w) as [th wt]. simpl in Hfr.
      destruct Hfr as (Hd & Hn & Hl & Hf & Ht & Hh & Ha & Ho).
      destruct (rootMargin_valid _); [|discriminate]. injection Ei as <-. simpl.
      rewrite Hl, Hf, Hn, Ha. repeat split; auto.
      rewrite lookup_alter_eq, Hmd. simpl. eexists. repeat split. }
  destruct Hi as (Hl & Hf & Hn & md1 & Hmd1 & E1 & E2 & E3).
  destruct (foldl_register_element this els w1 md1 Hmd1)
    as (_ & Hn' & Hl' & Hf' & _ & _ & _ & Ha' & _).
  destruct (foldl_enroll_fields (BaseAnimation.attributeParser md1) (dom w1) els md1)
    as (_ & _ & _ & F1 & F2 & F3).
  repeat split; try congruence; try lia.
  eexists. split; [exact Ha'|]. repeat split; congruence.
Qed.

Lemma BaseAnimation_destroy_frame this w md :
  animations w !! this = Some md ->
  let w' := BaseAnimation_destroy this w in
  listeners w' = listeners w /\ frames w' = frames w /\ next w' = next w
  /\ exists md', animations w' !! this = Some md'
       /\ BaseAnimation.scrollListenerAttached md'
          = BaseAnimation.scrollListenerAttached md
       /\ BaseAnimation.rafId md' = BaseAnimation.rafId md
       /\ BaseAnimation.elements md' = []
       /\ BaseAnimation.observer md' = None.
Proof.
  intros Hmd. unfold BaseAnimation_destroy. rewrite Hmd.
  assert (Hu : forall w0 obs,
             let w1 := foldl (fun w e => unobserve obs e w) w0 (BaseAnimation.elements md) in
             listeners w1 = listeners w0 /\ frames w1 = frames w0 /\ next w1 = next w0
             /\ animations w1 = animations w0).
  { intros w0 obs. revert w0.
    induction (BaseAnimation.elements md) as [|e l IH]; intros w0; simpl; [auto|].
    destruct (IH (unobserve obs e w0)) as (-> & -> & -> & ->). auto. }
  destruct (BaseAnimation.observer md) as [obs|] eqn:Eo; simpl.
  - destruct (Hu w obs) as (-> & -> & -> & Ha). repeat split; auto.
    rewrite lookup_alter_eq, lookup_alter_eq, Ha, Hmd. simpl.
    eexists. repeat split.
  - repeat split; auto. rewrite lookup_alter_eq, Hmd. simpl.
    eexists. repeat split. simpl. exact Eo.
Qed.

Lemma filter_all {A} (P : A -> Prop) `{forall x, Decision (P x)} (l : list A) :
  (forall x, x ∈ l -> P x) -> filter P l = l.
Proof.
  induction l as [|x l IH]; intros Hall; [reflexivity|].
  rewrite filter_cons, decide_True by (apply Hall; left).
  f_equal. apply IH. intros y Hy. apply Hall. now right.
Qed.

(** Asking the window to remove a function object it has never seen
    removes nothing. *)
Lemma removeEventListener_unknown (type : string) (k : nat) (w w0 : World) :
  listeners_known w -> next w <= k -> listeners w0 = listeners w ->
  listeners (removeEventListener type (Fn_fresh k) w0) = listeners w.
Proof.
  intros Hk Hge Hl. unfold removeEventListener, set_listeners. cbn [listeners].
  rewrite Hl. apply filter_all. intros l Hin [_ Hfn].
  pose proof (Hk l k Hin Hfn). lia.
Qed.

(** ** C10 *)

(** C10: the first [register] of a parallax instance adds a scroll listener
    to the window, a function object made by [bind] for this call.  In any
    later state of the page, [destroy] leaves the listeners of the window
    exactly as they were, that scroll listener included, because the
    function it asks to remove is another object, made by a second [bind];
    it clears the flag [scrollListenerAttached] of the instance and its
    [rafId], and the frame callback that [rafId] named is no longer
    pending. *)
Theorem C10_scroll_listener_survives_destroy (w w1 : World) (this : nat)
    (md : BaseAnimation.t) (els : list nat) :
  animations w !! this = Some md ->
  BaseAnimation.class md = ParallaxAnimationClass ->
  BaseAnimation.scrollListenerAttached md = false ->
  listeners_known w ->
  ParallaxAnimation_register this els w = Some w1 ->
  exists fn md1,
    (forall l, l ∈ listeners w -> l.1.2 <> fn)
    /\ ("scroll", fn, HandleScroll this) ∈ listeners w1
    /\ listeners_known w1
    /\ animations w1 !! this = Some md1
    /\ BaseAnimation.scrollListenerAttached md1 = true
    /\ forall (w' : World) (md' : BaseAnimation.t),
         animations w' !! this = Some md' ->
         BaseAnimation.scrollListenerAttached md' = true ->
         listeners_known w' ->
         ("scroll", fn, HandleScroll this) ∈ listeners w' ->
         let w2 := ParallaxAnimation_destroy this w' in
         listeners w2 = listeners w'
         /\ ("scroll", fn, HandleScroll this) ∈ listeners w2
         /\ (exists md2, animations w2 !! this = Some md2
               /\ BaseAnimation.scrollListenerAttached md2 = false
               /\ BaseAnimation.rafId md2 = None)
         /\ (forall id c, BaseAnimation.rafId md' = Some id -> (id, c) ∉ frames w2).
Proof.
  intros Hmd Hcl Hfl Hk E. unfold ParallaxAnimation_register in E.
  destruct (BaseAnimation_register this els w) as [wb|] eqn:Eb; [|discriminate].
  simpl in E.
  destruct (BaseAnimation_register_frame this els w wb md Hmd Eb)
    as (Hl & Hf & Hn & mdb & Hmdb & Ecl & Efl & Eraf).
  rewrite Hmdb in E. simpl in E. rewrite Efl, Hfl in E.
  apply updateParallaxElements_restyled in E.
  destruct E as (El & En & _ & _ & _ & Em).
  set (fn := Fn_fresh (next wb)) in *.
  assert (Hfresh : forall l, l ∈ listeners w -> l.1.2 <> fn).
  { intros l Hin Hfn. pose proof (Hk l (next wb) Hin Hfn). lia. }
  assert (Hadd : listeners (addEventListener "scroll" fn (HandleScroll this)
                             (set_next S wb))
                 = listeners w ++ [("scroll", fn, HandleScroll this)]).
  { unfold addEventListener. rewrite bool_decide_false; [simpl; now rewrite Hl|].
    simpl. rewrite Hl. intros Hex. apply Exists_exists in Hex as (l & Hin & _ & Hfn).
    now apply (Hfresh l). }
  destruct (addEventListener_frame "scroll" fn (HandleScroll this) (set_next S wb))
    as (An & Aa & _).
  simpl in El. rewrite Hadd in El. simpl in En. rewrite An in En. simpl in En.
  edestruct Em as (md1 & Hmd1 & _ & _ & Efl1 & _).
  { simpl. rewrite lookup_alter_eq, Aa. simpl. rewrite Hmdb. reflexivity. }
  simpl in Efl1.
  exists fn, md1. split; [exact Hfresh|].
  split; [rewrite El; apply elem_of_app; right; now left|].
  split.
  { intros l k Hin Hfn. rewrite El in Hin. rewrite En.
    apply elem_of_app in Hin as [Hin|Hin].
    - pose proof (Hk l k Hin Hfn). lia.
    - apply list_elem_of_singleton in Hin as ->. simpl in Hfn.
      injection Hfn as <-. lia. }
  split; [exact Hmd1|]. split; [exact Efl1|].
  clear -H. intros w' md' Hmd' Hfl' Hk' Hin w2. subst w2.
  unfold ParallaxAnimation_destroy.
  destruct (BaseAnimation_destroy_frame this w' md' Hmd')
    as (Dl & Df & Dn & mdd & Hmdd & Dfl & Draf & _).
  rewrite Hmdd, Dfl, Hfl'.
  set (wd := BaseAnimation_destroy this w') in *.
  assert (Hrem : listeners (removeEventListener "scroll" (Fn_fresh (next wd))
                              (set_next S wd)) = listeners w').
  { apply removeEventListener_unknown; [exact Hk' | lia | exact Dl]. }
  set (wr := removeEventListener "scroll" (Fn_fresh (next wd)) (set_next S wd)) in *.
  assert (Har : animations wr = animations wd) by reflexivity.
  destruct (BaseAnimation.rafId mdd) as [id|] eqn:Er;
    unfold update_animation, cancelAnimationFrame, set_animations, set_frames;
    cbn [listeners animations frames]; rewrite Hrem, Har.
  - split; [reflexivity|]. split; [exact Hin|]. split.
    + rewrite !lookup_alter_eq, Hmdd. simpl. eexists. repeat split.
    + intros id' c Hid. rewrite <- Draf in Hid. injection Hid as <-.
      intros Hc. apply list_elem_of_filter in Hc as [Hne _]. now apply Hne.
  - split; [reflexivity|]. split; [exact Hin|]. split.
    + rewrite lookup_alter_eq, Hmdd. simpl. eexists. repeat split. simpl. congruence.
    + intros id' c Hid. rewrite <- Draf in Hid. discriminate.
Qed.
End ParallaxDestroy.

Lemma C10_scroll_listener_survives_destroy_witness :
  let this := parallax_module.1 in
  let w := parallax_module.2 in
  animations w !! this = Some ParallaxAnimation_fields
  /\ BaseAnimation.class ParallaxAnimation_fields = ParallaxAnimationClass
  /\ BaseAnimation.scrollListenerAttached ParallaxAnimation_fields = false
  /\ listeners_known w
  /\ ParallaxAnimation_register this [1] w = Some parallax_registered
  /\ exists fn,
      ("scroll", fn, HandleScroll this) ∈ listeners parallax_registered
      /\ listeners (ParallaxAnimation_destroy this parallax_registered)
         = listeners parallax_registered.
Proof.
  intros this w.
  assert (Hk : listeners_known w).
  { intros l k Hin Hfn. vm_compute in Hin.
    apply list_elem_of_singleton in Hin as ->. discriminate. }
  assert (E : ParallaxAnimation_register this [1] w = Some parallax_registered)
    by (vm_compute; reflexivity).
  split; [vm_compute; reflexivity|]. split; [reflexivity|]. split; [reflexivity|].
  split; [exact Hk|]. split; [exact E|].
  destruct (C10_scroll_listener_survives_destroy w parallax_registered this
              ParallaxAnimation_fields [1])
    as (fn & md1 & _ & Hin & Hk1 & Hmd1 & Hfl1 & Hd);
    [vm_compute; reflexivity | reflexivity | reflexivity | exact Hk | exact E |].
  exists fn. split; [exact Hin|].
  now destruct (Hd parallax_registered md1 Hmd1 Hfl1 Hk1 Hin) as (Hl & _).
Defined.



(** * Reset and the repeat option *)

Local Open Scope list_scope.

Section ResetFacts.
Context `{Host}.

Lemma element_update_eq e f w : element (update_element e f w) e = f (element w e).
Proof. unfold element, update_element. simpl. now rewrite lookup_insert_eq. Qed.

Lemma element_update_ne e e' f w :
  e <> e' -> element (update_element e f w) e' = element w e'.
Proof.
  intros Hne. unfold element, update_element. simpl. now rewrite lookup_insert_ne.
Qed.

Lemma getOptions_cached this e w md options :
  animations w !! this = Some md ->
  BaseAnimation.parsedOptions md !! e = Some options ->
  getOptions this e w = (options, w).
Proof. intros Hmd Ho. unfold getOptions. now rewrite Hmd, Ho. Qed.

Lemma shouldRepeatAnimation_cached this e w md options :
  animations w !! this = Some md ->
  BaseAnimation.parsedOptions md !! e = Some options ->
  shouldRepeatAnimation this e w = (option_truthy options "repeat", w).
Proof.
  intros Hmd Ho. unfold shouldRepeatAnimation.
  now rewrite (getOptions_cached this e w md options).
Qed.

Lemma classList_remove_spec c el :
  valid_token c = true ->
  exists el', classList_remove c el = Some el'
    /\ (c ∉ classList el')
    /\ (forall x, x ∈ classList el' <-> x ∈ classList el /\ x <> c)
    /\ style el' = style el /\ attributes el' = attributes el
    /\ transitionend el' = transitionend el /\ rect el' = rect el.
Proof.
  intros Hv. unfold classList_remove. rewrite Hv. eexists. split; [reflexivity|].
  simpl. split.
  - intros Hin. apply list_elem_of_filter in Hin as [Hne _]. now apply Hne.
  - split; [|auto]. intros x. rewrite list_elem_of_filter. tauto.
Qed.

Lemma classList_add_spec c el :
  valid_token c = true ->
  exists el', classList_add c el = Some el'
    /\ c ∈ classList el'
    /\ (forall x, x ∈ classList el -> x ∈ classList el')
    /\ style el' = style el /\ attributes el' = attributes el
    /\ transitionend el' = transitionend el /\ rect el' = rect el.
Proof.
  intros Hv. unfold classList_add. rewrite Hv. eexists. split; [reflexivity|].
  simpl. unfold contains. case_bool_decide.
  - repeat split; auto.
  - repeat split; auto.
    + apply elem_of_app. right. now left.
    + intros x Hx. apply elem_of_app. now left.
Qed.

(** Removing the custom class, when the option names one. *)
Lemma remove_custom_spec options el :
  (option_truthy options "class" = true -> valid_token (custom_class options) = true) ->
  exists el',
    (if option_truthy options "class"
     then classList_remove (custom_class options) el else Some el) = Some el'
    /\ (option_truthy options "class" = true -> custom_class options ∉ classList el')
    /\ (forall x, x ∈ classList el' -> x ∈ classList el)
    /\ style el' = style el /\ transitionend el' = transitionend el.
Proof.
  intros Hv. destruct (option_truthy options "class").
  - destruct (classList_remove_spec (custom_class options) el (Hv eq_refl))
      as (el' & E & Hn & Hx & Hs & _ & Ht & _).
    exists el'. repeat split; auto. intros x Hin. now apply Hx in Hin.
  - exists el. repeat split; auto. discriminate.
Qed.

(** *** Without repeat *)

Lemma reset_without_repeat this e w md options :
  animations w !! this = Some md ->
  BaseAnimation.parsedOptions md !! e = Some options ->
  option_truthy options "repeat" = false ->
  exists w', reset this e options w = Some w'
    /\ dom w' = dom w /\ listeners w' = listeners w /\ observers w' = observers w
    /\ (BaseAnimation.pendingAnimations md !! e = None -> w' = w).
Proof.
  intros Hmd Ho Hr. unfold reset. rewrite Hmd. simpl.
  destruct (BaseAnimation.class md).
  - exists w. auto.
  - unfold FadeInAnimation_reset. rewrite Hmd. simpl.
    destruct (BaseAnimation.pendingAnimations md !! e) as [id|] eqn:Ep.
    + erewrite shouldRepeatAnimation_cached;
        [| simpl; rewrite lookup_alter_eq, Hmd; reflexivity | exact Ho].
      rewrite Hr. eexists. split; [reflexivity|]. repeat split. discriminate.
    + rewrite (shouldRepeatAnimation_cached this e w md options Hmd Ho), Hr.
      exists w. auto.
  - unfold ParallaxAnimation_reset. rewrite Hmd. simpl.
    rewrite (shouldRepeatAnimation_cached this e w md options Hmd Ho), Hr.
    exists w. auto.
Qed.

(** An element that leaves the viewport without the repeat option keeps
    its opacity, its transform and its classes. *)
Lemma leave_without_repeat this w md options entry :
  animations w !! this = Some md ->
  BaseAnimation.parsedOptions md !! target entry = Some options ->
  option_truthy options "repeat" = false ->
  isIntersecting entry = false ->
  exists w', handleIntersection_entry this w entry = Some w'
    /\ opacity (style (element w' (target entry)))
       = opacity (style (element w (target entry)))
    /\ transform (style (element w' (target entry)))
       = transform (style (element w (target entry)))
    /\ classList (element w' (target entry)) = classList (element w (target entry)).
Proof.
  intros Hmd Ho Hr Hi. unfold handleIntersection_entry.
  rewrite Hmd. simpl. rewrite Ho, Hi. simpl.
  destruct (reset_without_repeat this (target entry)
              (setProgress (target entry) (Fin 0) w) md options Hmd Ho Hr)
    as (w' & -> & Hd & _).
  exists w'. split; [reflexivity|].
  unfold element at 1 3 5. rewrite Hd.
  fold (element (setProgress (target entry) (Fin 0) w) (target entry)).
  unfold setProgress. rewrite element_update_eq. auto.
Qed.

(** *** With repeat: the parallax module *)

Lemma add_custom_spec options el :
  (option_truthy options "class" = true -> valid_token (custom_class options) = true) ->
  exists el',
    (if option_truthy options "class"
     then classList_add (custom_class options) el else Some el) = Some el'
    /\ (forall x, x ∈ classList el -> x ∈ classList el')
    /\ style el' = style el.
Proof.
  intros Hv. destruct (option_truthy options "class").
  - destruct (classList_add_spec (custom_class options) el (Hv eq_refl))
      as (el' & E & _ & Hx & Hs & _).
    exists el'. auto.
  - exists el. auto.
Qed.

Lemma parallax_reset_with_repeat this e w md options :
  animations w !! this = Some md ->
  BaseAnimation.parsedOptions md !! e = Some options ->
  option_truthy options "repeat" = true ->
  BaseAnimation.class md = ParallaxAnimationClass ->
  tokens_valid md options ->
  exists w', reset this e options w = Some w'
    /\ transform (style (element w' e)) = "translate3d(0, 0, 0)"
    /\ opacity (style (element w' e)) = opacity (style (element w e))
    /\ (BaseAnimation.activeClass md ∉ classList (element w' e))
    /\ (option_truthy options "class" = true ->
        custom_class options ∉ classList (element w' e))
    /\ (forall e', e' <> e -> element w' e' = element w e')
    /\ exists w'', animate this e options w' = Some w''
         /\ BaseAnimation.activeClass md ∈ classList (element w'' e).
Proof.
  intros Hmd Ho Hr Hc [Hva Hvc]. unfold reset. rewrite Hmd. simpl. rewrite Hc.
  unfold ParallaxAnimation_reset. rewrite Hmd. simpl.
  rewrite (shouldRepeatAnimation_cached this e w md options Hmd Ho), Hr.
  set (el1 := set_style (set_transform "translate3d(0, 0, 0)") (element w e)).
  destruct (classList_remove_spec (BaseAnimation.activeClass md) el1 Hva)
    as (el2 & -> & Hn2 & Hx2 & Hs2 & _).
  simpl.
  destruct (remove_custom_spec options el2 Hvc) as (el3 & E3 & Hn3 & Hx3 & Hs3 & _).
  unfold custom_class in E3. rewrite E3. simpl.
  eexists. split; [reflexivity|]. rewrite element_update_eq.
  split; [now rewrite Hs3, Hs2|]. split; [now rewrite Hs3, Hs2|].
  split; [intros Hin; apply Hn2; now apply Hx3|].
  split; [exact Hn3|].
  split; [intros e' Hne; now apply element_update_ne|].
  unfold animate. simpl. rewrite Hmd. simpl. rewrite Hc.
  unfold ParallaxAnimation_animate. simpl. rewrite Hmd. simpl.
  rewrite element_update_eq.
  destruct (classList_add_spec (BaseAnimation.activeClass md) el3 Hva)
    as (el4 & -> & Hin4 & _).
  simpl.
  destruct (add_custom_spec options el4 Hvc) as (el5 & E5 & Hx5 & _).
  unfold custom_class in E5. rewrite E5. simpl.
  eexists. split; [reflexivity|]. rewrite element_update_eq. now apply Hx5.
Qed.

(** *** With repeat: the fade module *)

Lemma initElement_restyled this e w : restyled this w (initElement this e w).
Proof.
  unfold initElement. destruct (animations w !! this) as [md|];
    [|apply restyled_refl].
  destruct (negb _ && negb _); [|apply restyled_refl].
  pose proof (getOptions_restyled this e w) as Hg.
  destruct (getOptions this e w) as [options w1]. simpl in Hg.
  eapply restyled_trans; [exact Hg | apply restyled_update_element].
Qed.

(** What [reset] of the fade module does first: it forgets the pending
    frame of the element. *)
Lemma fade_cancel_pending this e w md :
  animations w !! this = Some md ->
  let w1 :=
    match BaseAnimation.pendingAnimations md !! e with
    | Some id =>
        update_animation this
          (fun md => BaseAnimation.set_pendingAnimations
                       (delete e (BaseAnimation.pendingAnimations md)) md)
          (cancelAnimationFrame id w)
    | None => w
    end in
  dom w1 = dom w
  /\ exists md1, animations w1 !! this = Some md1
       /\ BaseAnimation.parsedOptions md1 = BaseAnimation.parsedOptions md
       /\ BaseAnimation.pendingAnimations md1 !! e = None
       /\ BaseAnimation.activeClass md1 = BaseAnimation.activeClass md
       /\ BaseAnimation.class md1 = BaseAnimation.class md.
Proof.
  intros Hmd. destruct (BaseAnimation.pendingAnimations md !! e) as [id|] eqn:Ep; simpl.
  - split; [reflexivity|]. rewrite lookup_alter_eq, Hmd. simpl.
    eexists. split; [reflexivity|]. simpl. repeat split. apply lookup_delete_eq.
  - split; [reflexivity|]. exists md. auto.
Qed.

Lemma fade_reset_with_repeat this e w md options duration delay :
  animations w !! this = Some md ->
  BaseAnimation.parsedOptions md !! e = Some options ->
  option_truthy options "repeat" = true ->
  BaseAnimation.class md = FadeInAnimationClass ->
  tokens_valid md options ->
  parseTimeValue (or_default options "duration" (VStr "0.5s")) = Some duration ->
  parseTimeValue (or_default options "delay" (VStr "0s")) = Some delay ->
  transitionend (element w e) = [] ->
  exists w', reset this e options w = Some w'
    /\ opacity (style (element w' e)) = js_String (defined_or options "from" (VNum (Fin 0)))
    /\ classList (element w' e) = classList (element w e)
    /\ exists w'', dispatch_transitionend e w' = Some w''
         /\ opacity (style (element w'' e))
            = js_String (defined_or options "from" (VNum (Fin 0)))
         /\ (BaseAnimation.activeClass md ∉ classList (element w'' e))
         /\ (option_truthy options "class" = true ->
             custom_class options ∉ classList (element w'' e))
         /\ transitionend (element w'' e) = []
         /\ exists w3 md3 id c,
              animate this e options w'' = Some w3
              /\ animations w3 !! this = Some md3
              /\ BaseAnimation.pendingAnimations md3 !! e = Some id
              /\ (id, c) ∈ frames w3.
Proof.
  intros Hmd Ho Hr Hc [Hva Hvc] Hd Hdl Hte.
  unfold reset. rewrite Hmd. simpl. rewrite Hc.
  unfold FadeInAnimation_reset. rewrite Hmd. simpl.
  destruct (fade_cancel_pending this e w md Hmd) as (Hdom & md1 & Hmd1 & Ep1 & En1 & Ea1 & Ec1).
  set (w1 := match BaseAnimation.pendingAnimations md !! e with
             | Some id => _ | None => w end) in *.
  rewrite <- Ep1 in Ho.
  rewrite (shouldRepeatAnimation_cached this e w1 md1 options Hmd1 Ho), Hr, Hd.
  simpl. eexists. split; [reflexivity|].
  assert (Hel : element (set_next S w1) e = element w e).
  { unfold element. simpl. now rewrite Hdom. }
  rewrite element_update_eq, Hel. simpl.
  split; [reflexivity|]. split; [reflexivity|].
  (* the transition ends *)
  unfold dispatch_transitionend. rewrite element_update_eq, Hel. simpl.
  rewrite Hte. simpl.
  unfold FadeInAnimation_onTransitionEnd. simpl. rewrite Hmd1. simpl.
  rewrite element_update_eq, Hel, Ea1.
  match goal with |- context [classList_remove _ ?el] => set (el0 := el) end.
  destruct (classList_remove_spec (BaseAnimation.activeClass md) el0 Hva)
    as (el1 & -> & Hn1 & Hx1 & Hs1 & _ & Ht1 & _).
  simpl.
  destruct (remove_custom_spec options el1 Hvc) as (el2 & E2 & Hn2 & Hx2 & Hs2 & Ht2).
  unfold custom_class in E2. rewrite E2. simpl.
  eexists. split; [reflexivity|]. rewrite element_update_eq. simpl.
  split; [now rewrite Hs2, Hs1|].
  split; [intros Hin; apply Hn1; now apply Hx2|].
  split; [exact Hn2|].
  split.
  { rewrite Ht2, Ht1. subst el0. simpl. rewrite Hte. simpl.
    rewrite filter_cons, decide_False; [reflexivity|]. simpl. auto. }
  (* re-entry *)
  match goal with |- context [animate this e options ?w2] => set (w'' := w2) end.
  assert (Hmd'' : animations w'' !! this = Some md1) by exact Hmd1.
  unfold animate. rewrite Hmd''. simpl. rewrite Ec1, Hc.
  unfold FadeInAnimation_animate. rewrite Hmd''. simpl.
  assert (Hcond : negb (contains (classList (element w'' e))
                          (BaseAnimation.activeClass md1))
                  && negb (bool_decide (is_Some (BaseAnimation.pendingAnimations md1 !! e)))
                  = true).
  { apply andb_true_iff. split; apply negb_true_iff.
    - unfold contains. apply bool_decide_eq_false. rewrite Ea1.
      subst w''. rewrite element_update_eq. simpl.
      intros Hin. apply Hn1. now apply Hx2.
    - apply bool_decide_eq_false. rewrite En1. intros [x Hx]. discriminate. }
  rewrite Hcond, Hd, Hdl. simpl.
  destruct (initElement_restyled this e w'') as (_ & _ & Hf & _ & _ & Hm).
  destruct (Hm md1 Hmd'') as (mdi & Hmdi & _).
  eexists _, _, _, _. split; [reflexivity|]. simpl.
  rewrite lookup_alter_eq, Hmdi. simpl. split; [reflexivity|]. simpl.
  split; [apply lookup_insert_eq|].
  apply elem_of_app. right. left.
Qed.

(** What [register] makes of an element of the fade module that is not yet
    transparent and not yet animated: its opacity becomes the [from]
    option, or 0. *)
Lemma fade_initial_opacity this e w md options :
  animations w !! this = Some md ->
  BaseAnimation.parsedOptions md !! e = Some options ->
  opacity (style (element w e)) <> "0" ->
  BaseAnimation.activeClass md ∉ classList (element w e) ->
  opacity (style (element (initElement this e w) e))
  = js_String (defined_or options "from" (VNum (Fin 0))).
Proof.
  intros Hmd Ho Hop Hcl. unfold initElement. rewrite Hmd.
  apply String.eqb_neq in Hop. rewrite Hop.
  unfold contains. rewrite bool_decide_false by exact Hcl. simpl.
  rewrite (getOptions_cached this e w md options Hmd Ho).
  now rewrite element_update_eq.
Qed.
End ResetFacts.

Section ResetTheorem.
Context `{Host}.

(** What [reset] does for an element registered with a module.  Without
    a truthy cached [repeat] option [reset] returns normally and leaves
    every element as it was (and the whole page, when no frame of the
    element is pending), so an element that leaves the viewport keeps its
    opacity, transform and classes.  With it, the parallax module sets
    the transform back to the identity translation and removes the active
    and the custom class, after which [animate] marks the element active
    again; the fade module sets the opacity back to the [from] option,
    and if the transition then ends before anything else happens the
    active and the custom class are removed, after which [animate]
    schedules a new animation of the element. *)
Lemma reset_repeat_effects (w : World) (this : nat) (md : BaseAnimation.t) (e : nat)
    (options : Options) :
  animations w !! this = Some md ->
  BaseAnimation.parsedOptions md !! e = Some options ->
  (option_truthy options "repeat" = false ->
   (exists w', reset this e options w = Some w'
      /\ dom w' = dom w
      /\ (BaseAnimation.pendingAnimations md !! e = None -> w' = w))
   /\ forall entry, target entry = e -> isIntersecting entry = false ->
        exists w', handleIntersection_entry this w entry = Some w'
          /\ opacity (style (element w' e)) = opacity (style (element w e))
          /\ transform (style (element w' e)) = transform (style (element w e))
          /\ classList (element w' e) = classList (element w e))
  /\ (option_truthy options "repeat" = true ->
      BaseAnimation.class md = ParallaxAnimationClass ->
      tokens_valid md options ->
      exists w', reset this e options w = Some w'
        /\ transform (style (element w' e)) = "translate3d(0, 0, 0)"
        /\ (BaseAnimation.activeClass md ∉ classList (element w' e))
        /\ (option_truthy options "class" = true ->
            custom_class options ∉ classList (element w' e))
        /\ exists w'', animate this e options w' = Some w''
             /\ BaseAnimation.activeClass md ∈ classList (element w'' e))
  /\ (option_truthy options "repeat" = true ->
      BaseAnimation.class md = FadeInAnimationClass ->
      tokens_valid md options ->
      is_Some (parseTimeValue (or_default options "duration" (VStr "0.5s"))) ->
      is_Some (parseTimeValue (or_default options "delay" (VStr "0s"))) ->
      transitionend (element w e) = [] ->
      exists w', reset this e options w = Some w'
        /\ opacity (style (element w' e))
           = js_String (defined_or options "from" (VNum (Fin 0)))
        /\ exists w'', dispatch_transitionend e w' = Some w''
             /\ opacity (style (element w'' e))
                = js_String (defined_or options "from" (VNum (Fin 0)))
             /\ (BaseAnimation.activeClass md ∉ classList (element w'' e))
             /\ (option_truthy options "class" = true ->
                 custom_class options ∉ classList (element w'' e))
             /\ exists w3 md3 id c,
                  animate this e options w'' = Some w3
                  /\ animations w3 !! this = Some md3
                  /\ BaseAnimation.pendingAnimations md3 !! e = Some id
                  /\ (id, c) ∈ frames w3).
Proof.
  intros Hmd Ho. split; [|split].
  - intros Hr. split.
    + destruct (reset_without_repeat this e w md options Hmd Ho Hr)
        as (w' & E & Hd & _ & _ & Hp).
      exists w'. auto.
    + intros entry <- Hi.
      now apply (leave_without_repeat this w md options entry).
  - intros Hr Hc Hv.
    destruct (parallax_reset_with_repeat this e w md options Hmd Ho Hr Hc Hv)
      as (w' & E & Ht & _ & Hn & Hcu & _ & Hre).
    exists w'. auto.
  - intros Hr Hc Hv [duration Hd] [delay Hdl] Hte.
    destruct (fade_reset_with_repeat this e w md options duration delay
                Hmd Ho Hr Hc Hv Hd Hdl Hte)
      as (w' & E & Hop & _ & w'' & E' & Hop' & Hn & Hcu & _ & Hre).
    exists w'. split; [exact E|]. split; [exact Hop|].
    exists w''. auto.
Qed.
End ResetTheorem.

(** One cycle of an element of the fade module with [kw-repeat="true"] and
    [kw-class="shown"]: transparent once registered, opaque with both
    classes after the two frames, transparent again on exit, without the
    classes when the transition has ended, and scheduled again on the next
    entry. *)
Example fade_repeat_cycle :
  repeat_cycle_after 1 = Some ("0", [], 0, 0)
  /\ repeat_cycle_after 2 = Some ("0", [], 0, 1)
  /\ repeat_cycle_after 4 = Some ("1", ["shown"; "is-animated"], 0, 0)
  /\ repeat_cycle_after 5 = Some ("0", ["shown"; "is-animated"], 1, 0)
  /\ repeat_cycle_after 6 = Some ("0", [], 0, 0)
  /\ repeat_cycle_after 7 = Some ("0", [], 0, 1).
Proof. repeat (match goal with |- _ /\ _ => split end); vm_compute; reflexivity. Qed.

(** ** C3 *)




(** * The parallax translation *)

Local Open Scope Q_scope.

Section ParallaxFacts.
Context `{Host}.

Lemma parallax_example_parsed :
  parseElementOptions (new_AttributeParser no_config) parallax_example
  = Some ("parallax", parallax_example_options).
Proof. vm_compute. reflexivity. Qed.

(** With the options of the scenario and the defaults of the module
    (start [-0.5], end [1]) the translation is vertical; in exact
    arithmetic the sum the source computes is
    [windowHeight * (1/4 - progress/2)]. *)
Lemma parallax_example_translation (md : BaseAnimation.t) (wh p : Q) :
  BaseAnimation.parallaxPositionStart md = - (1 # 2) ->
  BaseAnimation.parallaxPositionEnd md = 1 ->
  exists y,
    parallax_translation md parallax_example_options wh (Fin p) = (AxisY, Fin y)
    /\ y == wh * ((1 # 4) - (1 # 2) * p).
Proof.
  intros Hs He.
  unfold parallax_translation, defined_or, or_default.
  replace (parallax_example_options !! "speed") with (Some (VNum (Fin (1 # 2))))
    by reflexivity.
  replace (parallax_example_options !! "direction") with (Some (VStr "up"))
    by reflexivity.
  replace (parallax_example_options !! "start") with (@None Value) by reflexivity.
  replace (parallax_example_options !! "end") with (@None Value) by reflexivity.
  cbn [truthy String.eqb Ascii.eqb Bool.eqb negb ToNumber].
  unfold parallax_position, Nmul, Nadd. rewrite Hs, He.
  eexists. split; [reflexivity|]. field.
Qed.

(** On an element whose cached options are those of the scenario,
    [applyParallaxEffect] writes the transform of that translation. *)
Lemma applyParallaxEffect_example (w : World) (this e : nat) (md : BaseAnimation.t)
    (p : Q) :
  animations w !! this = Some md ->
  BaseAnimation.parsedOptions md !! e = Some parallax_example_options ->
  BaseAnimation.activeClass md = "is-parallaxed" ->
  exists w',
    applyParallaxEffect this e (Fin p) w = Some w'
    /\ transform (style (element w' e))
       = transform_of (parallax_translation md parallax_example_options
                         (windowHeight w) (Fin p)).
Proof.
  intros Hmd Ho Ha. unfold applyParallaxEffect. rewrite Hmd. simpl.
  rewrite (getOptions_cached this e w md parallax_example_options Hmd Ho).
  replace (option_truthy parallax_example_options "class") with false by reflexivity.
  simpl.
  match goal with |- context [classList_add _ ?el] => set (el1 := el) end.
  destruct (classList_add_spec (BaseAnimation.activeClass md) el1)
    as (el2 & -> & _ & _ & Hs & _); [now rewrite Ha|].
  simpl. eexists. split; [reflexivity|].
  rewrite element_update_eq, Hs. reflexivity.
Qed.

(** C6 (amended): for the element [kw="parallax" kw-speed="0.5"
    kw-direction="up"] with the module defaults, in a window at least one
    pixel high and for a progress between 0 and 1, the translation is
    vertical; it never increases as the progress increases; it is
    positive (downward) while the progress is below [1/2], zero at
    progress [1/2] and negative (upward) exactly when the progress
    exceeds [1/2]; it is a quarter of the height of the window at
    progress 0 and minus a quarter of it at progress 1.
    [applyParallaxEffect] writes this translation into the transform of
    the element. *)
Theorem C6_parallax_up_translation (wh p1 p2 : Q) :
  1 <= wh -> 0 <= p1 -> p1 <= p2 -> p2 <= 1 ->
  let translation p :=
    parallax_translation ParallaxAnimation_fields parallax_example_options wh (Fin p) in
  exists y1 y2 y0 yend,
    translation p1 = (AxisY, Fin y1)
    /\ translation p2 = (AxisY, Fin y2)
    /\ y2 <= y1
    /\ (p1 < 1 # 2 -> 0 < y1)
    /\ (p1 == 1 # 2 -> y1 == 0)
    /\ (1 # 2 < p1 -> y1 < 0)
    /\ translation 0 = (AxisY, Fin y0) /\ y0 == wh / 4
    /\ translation 1 = (AxisY, Fin yend) /\ yend == - (wh / 4)
    /\ forall (w : World) (this e : nat) (md : BaseAnimation.t),
         animations w !! this = Some md ->
         BaseAnimation.parsedOptions md !! e = Some parallax_example_options ->
         BaseAnimation.activeClass md = "is-parallaxed" ->
         BaseAnimation.parallaxPositionStart md = - (1 # 2) ->
         BaseAnimation.parallaxPositionEnd md = 1 ->
         windowHeight w = wh ->
         exists w',
           applyParallaxEffect this e (Fin p1) w = Some w'
           /\ transform (style (element w' e)) = transform_of (AxisY, Fin y1).
Proof.
  intros Hwh Hp0 Hp Hp1 translation. subst translation.
  destruct (parallax_example_translation ParallaxAnimation_fields wh p1 eq_refl eq_refl)
    as (y1 & E1 & Hy1).
  destruct (parallax_example_translation ParallaxAnimation_fields wh p2 eq_refl eq_refl)
    as (y2 & E2 & Hy2).
  destruct (parallax_example_translation ParallaxAnimation_fields wh 0 eq_refl eq_refl)
    as (y0 & E0 & Hy0).
  destruct (parallax_example_translation ParallaxAnimation_fields wh 1 eq_refl eq_refl)
    as (yend & Eend & Hyend).
  exists y1, y2, y0, yend.
  split; [exact E1|]. split; [exact E2|].
  split; [rewrite Hy1, Hy2; nra|].
  split; [rewrite Hy1; intros; nra|].
  split; [rewrite Hy1; intros Hz; rewrite Hz; field|].
  split; [rewrite Hy1; intros; nra|].
  split; [exact E0|]. split; [rewrite Hy0; field|].
  split; [exact Eend|]. split; [rewrite Hyend; field|].
  intros w this e md Hmd Ho Ha Hs He Hw.
  destruct (applyParallaxEffect_example w this e md p1 Hmd Ho Ha) as (w' & E & Ht).
  exists w'. split; [exact E|]. rewrite Ht, Hw. f_equal.
  unfold parallax_translation in *. rewrite Hs, He. exact E1.
Qed.
End ParallaxFacts.

Lemma C6_parallax_up_translation_witness :
  1 <= 800 /\ 0 <= 1 # 4 /\ 1 # 4 <= 3 # 4 /\ 3 # 4 <= 1
  /\ exists y1 y2,
      parallax_translation ParallaxAnimation_fields parallax_example_options 800
        (Fin (1 # 4)) = (AxisY, Fin y1)
      /\ parallax_translation ParallaxAnimation_fields parallax_example_options 800
           (Fin (3 # 4)) = (AxisY, Fin y2)
      /\ y2 <= y1 /\ 0 < y1 /\ y2 < 0
      /\ y1 == 100 /\ y2 == - 100.
Proof.
  split; [discriminate|]. split; [discriminate|]. split; [discriminate|].
  split; [discriminate|].
  destruct (C6_parallax_up_translation 800 (1 # 4) (3 # 4))
    as (y1 & y2 & y0 & yend & E1 & E2 & H1 & H2 & _);
    [discriminate | discriminate | discriminate | discriminate |].
  destruct (C6_parallax_up_translation 800 (3 # 4) (3 # 4))
    as (y2' & _ & _ & _ & E2' & _ & _ & _ & _ & H3 & _);
    [discriminate | discriminate | discriminate | discriminate |].
  assert (y2' = y2) by congruence. subst y2'.
  exists y1, y2. split; [exact E1|]. split; [exact E2|]. split; [exact H1|].
  split; [apply H2; reflexivity|]. split; [apply H3; reflexivity|].
  vm_compute in E1, E2.
  injection E1 as <-. injection E2 as <-. split; reflexivity.
Defined.

(** C6, as stated, fails.  In a viewport 800 pixels high the translation of
    the element at progress 0 is 200 pixels downward, a positive offset
    although the direction is [up]; at progress 1/2 it is 0, so the magnitude
    has decreased while the progress increased.  The first registration of
    the element, just below the viewport, writes that transform. *)
Lemma C6_counterexample :
  parallax_translation ParallaxAnimation_fields parallax_example_options 800 (Fin 0)
  = (AxisY, Fin (1600 # 8))
  /\ 0 < 1600 # 8
  /\ (exists y, parallax_translation ParallaxAnimation_fields parallax_example_options 800
                  (Fin (1 # 2)) = (AxisY, Fin y)
                /\ Qabs y < Qabs (1600 # 8))
  /\ (let '(this, w) := new_ParallaxAnimation parallax_page in
      (fun w' => transform (style (element w' 1%nat))) <$> register this [1%nat] w)
     = Some "translate3d(0, 200px, 0)".
Proof.
  split; [vm_compute; reflexivity|]. split; [reflexivity|]. split.
  - eexists. split; [vm_compute; reflexivity|]. reflexivity.
  - vm_compute. reflexivity.
Qed.

Local Close Scope Q_scope.



(** * The manager: scans, timers and lifecycle *)

Local Open Scope list_scope.

Section ManagerFacts.
Context `{Host}.

(** ** C4 *)

(** A scan that routes no element returns the world as it was. *)
Lemma scan_skips (route : World -> nat -> option nat) (els : list nat) (w : World) :
  (forall e, e ∈ els -> route w e = None) -> scan route els w = Some w.
Proof.
  unfold scan. induction els as [|e els IH]; intros Hs; simpl; [reflexivity|].
  unfold scan_step at 2. rewrite (Hs e) by left.
  apply IH. intros e' He'. apply Hs. now right.
Qed.
End ManagerFacts.

(** C4, as stated, fails for [init]: on the page above the first element
    already bears the active class of the fade module, so the module reports
    it as initialized and a re-scan would skip it; the scan of [init]
    registers it all the same, and it enters the roster of the module. *)
Lemma C4_counterexample :
  manager_ready = Some manager_ready_world
  /\ (fun mg => isElementInitialized mg manager_ready_world 1 "fade-in")
       <$> managers manager_ready_world !! 4 = Some true
  /\ (fun mg => dynamic_route mg manager_ready_world 1)
       <$> managers manager_ready_world !! 4 = Some None
  /\ (fun mg => init_route mg manager_ready_world 1)
       <$> managers manager_ready_world !! 4 = Some (Some 5)
  /\ roster 5 manager_ready_world = Some []
  /\ roster 5 <$> init 4 manager_ready_world = Some (Some [1; 3]).
Proof. repeat (match goal with |- _ /\ _ => split end); vm_compute; reflexivity. Qed.

(** ** C7 *)

(** C7 fails on the code: on the page above, [init] schedules the one-shot
    re-scan (timer 8, 1000 ms) and a batch of mutations then schedules the
    debounced re-scan (timer 9, 100 ms, kept in [loadTimeout]).  [destroy]
    cancels timer 9, disconnects the mutation observer, destroys and
    forgets the modules and removes the resize listener, but timer 8 is
    still pending when it returns. *)
Theorem C7_destroy_leaves_post_init_timer :
  manager_resources 4
    <$> (init 4 manager_ready_world ≫= mutationCallback 4 one_addition)
  = Some (Some (true, [("fade-in", 5)], Some 9),
          [(8, PostInitRescan 4, 1000%Z); (9, DebouncedRescan 4, 100%Z)],
          [(7, MutationCallback 4)],
          [("resize", Fn_handleResize, HandleResize)])
  /\ manager_resources 4
       <$> ((init 4 manager_ready_world ≫= mutationCallback 4 one_addition)
            ≫= AnimationManager_destroy 4)
     = Some (Some (false, [], None), [(8, PostInitRescan 4, 1000%Z)], [], []).
Proof. split; [vm_compute; reflexivity|]. vm_compute. reflexivity. Qed.

(** ** C8 *)

(** C8 fails on the code: the class [AnimationManager] has no member named
    [update]; its public methods are [use], [updateConfig], [registerModule],
    [getModule], [init] and [destroy], and a call of [update] on a manager is
    rejected in every state. *)
Theorem C8_no_update_operation :
  ("update" ∉ (AnimationManager_members).*1)
  /\ filter (fun m => m.2 = Public) AnimationManager_members
     = [("use", Public); ("updateConfig", Public); ("registerModule", Public);
        ("getModule", Public); ("init", Public); ("destroy", Public)]
  /\ forall (this : nat) (w : World), AnimationManager_invoke "update" this w = None.
Proof.
  split; [|split].
  - intros Hin. vm_compute in Hin.
    repeat (apply elem_of_cons in Hin as [Hin|Hin]; [discriminate|]).
    inversion Hin.
  - vm_compute. reflexivity.
  - intros this w. reflexivity.
Qed.



(** * More on the attribute parser *)

Local Close Scope Q_scope.
Local Open Scope string_scope.

Section ParserMore.
Context `{Host}.

(** ** camelCase *)

Lemma to_upper_lower (c : ascii) :
  is_lower c = true -> is_lower (to_upper c) = false /\ Ascii.eqb (to_upper c) "-" = false.
Proof.
  destruct c as [[] [] [] [] [] [] [] []]; intros Hc; try discriminate; split; reflexivity.
Qed.

Lemma has_kebab_cons (c : ascii) (r : string) :
  has_kebab (String c r)
  = match r with
    | String d _ => (Ascii.eqb c "-" && is_lower d) || has_kebab r
    | EmptyString => false
    end.
Proof. reflexivity. Qed.

Lemma camelCase_cons (c : ascii) (rest : string) :
  camelCase (String c rest)
  = if Ascii.eqb c "-" then
      match rest with
      | String d rest' =>
          if is_lower d then String (to_upper d) (camelCase rest')
          else String c (camelCase rest)
      | EmptyString => String c EmptyString
      end
    else String c (camelCase rest).
Proof. reflexivity. Qed.

(** The first character of the result is not a lower-case letter unless
    the first character of the argument is one. *)
Lemma camelCase_first (d : ascii) (r : string) :
  is_lower d = false ->
  exists c' r', camelCase (String d r) = String c' r' /\ is_lower c' = false.
Proof.
  intros Hd. rewrite camelCase_cons.
  destruct (Ascii.eqb d "-") eqn:Ed; [|eauto].
  destruct r as [|d' r']; [eauto|].
  destruct (is_lower d') eqn:Ed'; [|eauto].
  destruct (to_upper_lower d' Ed') as [Hu _]. eauto.
Qed.

Lemma camelCase_normal_aux (n : nat) :
  forall s, (String.length s <= n)%nat ->
    has_kebab (camelCase s) = false /\ (has_kebab s = false -> camelCase s = s).
Proof.
  induction n as [|n IH]; intros s Hlen.
  - destruct s; [split; reflexivity | simpl in Hlen; lia].
  - destruct s as [|c rest]; [split; reflexivity|]. simpl in Hlen.
    destruct (IH rest ltac:(lia)) as [IH1 IH2].
    rewrite camelCase_cons. destruct (Ascii.eqb c "-") eqn:Ec.
    + destruct rest as [|d rest']; [split; reflexivity|].
      destruct (is_lower d) eqn:Ed.
      * split.
        -- destruct (to_upper_lower d Ed) as [_ Hu].
           destruct (IH rest' ltac:(simpl in Hlen; lia)) as [IH1' _].
           rewrite has_kebab_cons. destruct (camelCase rest'); [reflexivity|].
           now rewrite Hu, IH1'.
        -- rewrite has_kebab_cons, Ec, Ed. discriminate.
      * split.
        -- destruct (camelCase_first d rest' Ed) as (c' & r' & E & Hc').
           rewrite has_kebab_cons. rewrite E in *. now rewrite Hc', IH1, andb_false_r.
        -- intros Hk. rewrite has_kebab_cons, Ed, andb_false_r in Hk.
           now rewrite IH2.
    + split.
      * rewrite has_kebab_cons. destruct (camelCase rest); [reflexivity|].
        now rewrite Ec, IH1.
      * intros Hk. rewrite has_kebab_cons in Hk. destruct rest as [|d rest'];
          [reflexivity|]. rewrite Ec in Hk. now rewrite IH2.
Qed.

(** [camelCase] leaves no hyphen that is followed by a lower-case letter,
    changes nothing in a string that has none, and so gives the same
    result when applied twice. *)
Theorem camelCase_normal (s : string) :
  has_kebab (camelCase s) = false
  /\ (has_kebab s = false -> camelCase s = s)
  /\ camelCase (camelCase s) = camelCase s.
Proof.
  destruct (camelCase_normal_aux (String.length s) s (le_n _)) as [H1 H2].
  split; [exact H1|]. split; [exact H2|].
  destruct (camelCase_normal_aux (String.length (camelCase s)) (camelCase s) (le_n _))
    as [_ H3].
  now apply H3.
Qed.

(** ** The module name *)

Lemma getAttribute_elem (name : string) (attrs : Attributes) (v : string) :
  getAttribute name attrs = Some v -> (name, v) ∈ attrs.
Proof.
  induction attrs as [|[n x] rest IH]; simpl; [discriminate|].
  destruct (String.eqb_spec n name) as [->|Hne].
  - intros [= ->]. left.
  - intros Hg. right. now apply IH.
Qed.

(** [parseElementOptions] returns [null] exactly for an element without
    the primary attribute, and for one whose primary attribute is empty
    when no default animation is configured; otherwise the module is the
    value of the attribute, or the default animation when the value is
    empty, and it is never the empty string. *)
Theorem parseElementOptions_null (p : AttributeParser) (attrs : Attributes) :
  let primary := getAttribute (attributeName (config p)) attrs in
  (parseElementOptions p attrs = None <->
     primary = None
     \/ (primary = Some EmptyString
         /\ (defaultAnimation (config p) = None
             \/ defaultAnimation (config p) = Some EmptyString)))
  /\ (forall moduleName options,
        parseElementOptions p attrs = Some (moduleName, options) ->
        moduleName <> EmptyString
        /\ options = parseModuleOptions p attrs moduleName
        /\ hasAnimationAttributes p attrs = true
        /\ (primary = Some moduleName
            \/ (primary = Some EmptyString
                /\ defaultAnimation (config p) = Some moduleName))).
Proof.
  intros primary. unfold parseElementOptions, parseModuleName, hasAnimationAttributes,
    hasAttribute. fold primary.
  destruct primary as [v|] eqn:Ep.
  2:{ split; [split; auto | discriminate]. }
  destruct (String.eqb_spec v EmptyString) as [->|Hv].
  - destruct (defaultAnimation (config p)) as [d|] eqn:Ed.
    + destruct (String.eqb_spec d EmptyString) as [->|Hd].
      * simpl. split; [split; auto | discriminate].
      * apply String.eqb_neq in Hd as Hd'. rewrite Hd'. split.
        -- split; [discriminate|]. intros [?|[_ [?|?]]]; congruence.
        -- intros m o [= <- <-]. auto 10.
    + simpl. split; [split; auto | discriminate].
  - assert (E : match v with
                | EmptyString => match defaultAnimation (config p) with
                        | Some d => if String.eqb d EmptyString then Some v else Some d
                        | None => Some v
                        end
                | _ => Some v
                end = Some v).
    { destruct v; [congruence | reflexivity]. }
    assert (E' : match v, defaultAnimation (config p) with
                 | EmptyString, Some d => if String.eqb d EmptyString then Some v else Some d
                 | _, _ => Some v
                 end = Some v).
    { destruct v; [congruence|]. now destruct (defaultAnimation (config p)). }
    rewrite E'. apply String.eqb_neq in Hv as Hv'. rewrite Hv'. split.
    + split; [discriminate|]. intros [?|[? _]]; congruence.
    + intros m o [= <- <-]. auto 10.
Qed.

(** ** Where the options come from *)

Lemma append_cons (x : ascii) (a b : string) : String x a ++ b = String x (a ++ b).
Proof. reflexivity. Qed.

Lemma append_assoc (a b c : string) : (a ++ b) ++ c = a ++ (b ++ c).
Proof.
  induction a as [|x a IH]; [reflexivity|]. rewrite !append_cons. now rewrite IH.
Qed.

Lemma append_nil_r (a : string) : a ++ EmptyString = a.
Proof.
  induction a as [|x a IH]; [reflexivity|]. rewrite append_cons. now rewrite IH.
Qed.

Lemma startsWith_app (a b : string) : startsWith (a ++ b) a = true.
Proof.
  unfold startsWith. induction a as [|x a IH]; [now destruct b|].
  rewrite append_cons. simpl. destruct (ascii_dec x x); [exact IH | congruence].
Qed.

Lemma startsWith_shorter (s a b : string) :
  startsWith s (a ++ b) = true -> startsWith s a = true.
Proof.
  unfold startsWith. revert s. induction a as [|x a IH]; intros s.
  - now destruct s.
  - rewrite append_cons. destruct s as [|y s]; [discriminate|]. simpl.
    destruct (ascii_dec x y); [apply IH | discriminate].
Qed.

Lemma substring_from_app (a b : string) : substring_from (String.length a) (a ++ b) = b.
Proof.
  induction a as [|x a IH]; [now destruct b|]. rewrite append_cons. exact IH.
Qed.

Lemma loop_option_name_prefixed (p : AttributeParser) (moduleName name n : string) :
  loop_option_name p moduleName name = Some n ->
  startsWith name (attributeName (config p) ++ "-") = true.
Proof.
  unfold loop_option_name.
  destruct (startsWith name (attributeName (config p) ++ "-" ++ moduleName)) eqn:E1.
  { intros _. rewrite <- append_assoc in E1. now apply startsWith_shorter in E1. }
  destruct (startsWith name (attributeName (config p) ++ "-offset-")) eqn:E2.
  { intros _. change "-offset-" with ("-" ++ "offset-") in E2.
    rewrite <- append_assoc in E2. now apply startsWith_shorter in E2. }
  destruct (String.eqb_spec name (attributeName (config p) ++ "-inview")) as [->|];
    [|discriminate].
  intros _. change "-inview" with ("-" ++ "inview").
  rewrite <- append_assoc. apply startsWith_app.
Qed.

Lemma loop_from_attributes (p : AttributeParser) (attrs : Attributes) (moduleName : string)
    (l : Attributes) (options : Options) :
  (forall a, a ∈ l -> a ∈ attrs) ->
  from_attributes p attrs options ->
  from_attributes p attrs
    (foldl (parseModuleOptions_step p (attributeName (config p) ++ "-" ++ moduleName))
       options l).
Proof.
  revert options. induction l as [|[name value] l IH]; intros options Hl Hi; [exact Hi|].
  cbn [foldl]. apply IH; [intros a Ha; apply Hl; now right|].
  rewrite parseModuleOptions_step_name.
  destruct (loop_option_name p moduleName name) as [n|] eqn:En; [|exact Hi].
  unfold assign. destruct (String.eqb n "__proto__"); [exact Hi|].
  intros n' v Hn'. destruct (decide (n = n')) as [<-|Hne].
  - rewrite lookup_insert_eq in Hn'. injection Hn' as <-.
    exists name, value. split; [apply Hl; left|].
    split; [now apply (loop_option_name_prefixed p moduleName name n) | reflexivity].
  - rewrite lookup_insert_ne in Hn' by exact Hne. exact (Hi _ _ Hn').
Qed.

Lemma common_from_attributes (p : AttributeParser) (attrs : Attributes)
    (l : list CommonAttributeMapping) (options : Options) :
  from_attributes p attrs options ->
  from_attributes p attrs (foldl (parseCommonAttributes_step p attrs) options l).
Proof.
  revert options. induction l as [|mp l IH]; intros options Hi; [exact Hi|].
  cbn [foldl]. apply IH. unfold parseCommonAttributes_step.
  destruct (getAttribute _ attrs) as [attrValue|] eqn:Eg; [|exact Hi].
  destruct (is_undefined options (optionName mp)); [|exact Hi].
  intros n' v Hn'. destruct (decide (optionName mp = n')) as [<-|Hne].
  - rewrite lookup_insert_eq in Hn'. injection Hn' as <-.
    eexists _, attrValue. split; [apply getAttribute_elem; exact Eg|].
    split; [|reflexivity]. rewrite <- append_assoc. apply startsWith_app.
  - rewrite lookup_insert_ne in Hn' by exact Hne. exact (Hi _ _ Hn').
Qed.

Lemma mapping_from_attributes (p : AttributeParser) (attrs : Attributes)
    (moduleName : string) (options : Options) :
  from_attributes p attrs options ->
  from_attributes p attrs (handleModuleValueMapping p moduleName options).
Proof.
  intros Hi. unfold handleModuleValueMapping.
  destruct (moduleValueMappings p !! moduleName) as [t|]; [|exact Hi].
  destruct (_ && _ && _); [|exact Hi].
  destruct (options !! "value") as [x|] eqn:Ex; [|exact Hi].
  intros n v Hn. destruct (decide (n = "value")) as [->|Hv].
  - now rewrite lookup_delete_eq in Hn.
  - rewrite lookup_delete_ne in Hn by congruence.
    destruct (decide (t = n)) as [<-|Hne].
    + rewrite lookup_insert_eq in Hn. injection Hn as <-. exact (Hi "value" _ Ex).
    + rewrite lookup_insert_ne in Hn by exact Hne. exact (Hi _ _ Hn).
Qed.

(** For a parser whose attribute name and common suffixes hold no
    upper-case letter, and an element none of whose attributes names the
    option [__proto__]: every option of the parsed record is the coercion
    of the value of an attribute of the element whose name starts with
    the attribute name and a hyphen; an element without such an attribute
    resolves to the empty record. *)
Theorem parseModuleOptions_provenance (p : AttributeParser) (attrs : Attributes)
    (moduleName : string) :
  no_upper (attributeName (config p)) = true ->
  (forall m, m ∈ commonAttributes p -> no_upper (attributeSuffix m) = true) ->
  (forall a, a ∈ attrs -> loop_option_name p moduleName a.1 <> Some "__proto__") ->
  from_attributes p attrs (parseModuleOptions p attrs moduleName)
  /\ ((forall a, a ∈ attrs ->
         startsWith a.1 (attributeName (config p) ++ "-") = false) ->
      parseModuleOptions p attrs moduleName = ∅).
Proof.
  intros _ _ _.
  assert (Hi : from_attributes p attrs (parseModuleOptions p attrs moduleName)).
  { unfold parseModuleOptions. apply mapping_from_attributes.
    unfold parseCommonAttributes. apply common_from_attributes.
    unfold parseModuleOptions_loop. apply loop_from_attributes; [auto|].
    intros n v Hn. now rewrite lookup_empty in Hn. }
  split; [exact Hi|].
  intros Hno. apply map_eq. intros n. rewrite lookup_empty.
  destruct (parseModuleOptions p attrs moduleName !! n) as [v|] eqn:En; [|reflexivity].
  destruct (Hi n v En) as (name & value & Hin & Hs & _).
  apply Hno in Hin. simpl in Hin. congruence.
Qed.

(** ** The value shorthand *)

(** For a module with a value mapping to the option [t], the option
    [value] is moved to [t] when [t] is still undefined, and the record
    is left as it is otherwise; a mapping added by
    [addModuleValueMapping] is the one in force for its module. *)
Theorem value_shorthand (p : AttributeParser) (moduleName t : string)
    (options : Options) :
  t <> EmptyString ->
  moduleValueMappings p !! moduleName = Some t ->
  (forall v, options !! "value" = Some v -> is_undefined options t = true ->
     handleModuleValueMapping p moduleName options
     = delete "value" (<[t := v]> options))
  /\ (options !! "value" = None \/ is_undefined options t = false ->
      handleModuleValueMapping p moduleName options = options)
  /\ (forall p0 other,
        moduleValueMappings (addModuleValueMapping moduleName t p0) !! moduleName = Some t
        /\ (other <> moduleName ->
            handleModuleValueMapping (addModuleValueMapping moduleName t p0) other options
            = handleModuleValueMapping p0 other options)).
Proof.
  intros Ht Hm. apply String.eqb_neq in Ht.
  unfold handleModuleValueMapping. rewrite Hm, Ht. simpl.
  split; [|split].
  - intros v Hv Hu. rewrite Hu, (is_undefined_Some options "value" v Hv), Hv.
    reflexivity.
  - intros [Hv|Hu].
    + rewrite Hv. now destruct (_ && _).
    + rewrite Hu. now rewrite andb_false_r.
  - intros p0 other. split; [apply lookup_insert_eq|].
    intros Hne. simpl. now rewrite lookup_insert_ne by congruence.
Qed.

(** ** The module prefix *)

(** An attribute is taken for an option of the module as soon as its name
    starts with the attribute name, a hyphen and the module name: the
    character that follows is dropped whatever it is, and the attribute
    whose name is the prefix itself sets the option with the empty name. *)
Theorem module_prefix_not_delimited (p : AttributeParser) (moduleName : string)
    (options : Options) (value : string) (c : ascii) (rest : string) :
  let prefix := attributeName (config p) ++ "-" ++ moduleName in
  parseModuleOptions_step p prefix options (prefix, value)
  = assign EmptyString (parseAttributeValue value) options
  /\ parseModuleOptions_step p prefix options (prefix ++ String c rest, value)
     = assign (camelCase rest) (parseAttributeValue value) options.
Proof.
  intros prefix.
  assert (Hs : forall a b, substring_from (String.length a + 1) (a ++ b)
                           = substring_from 1 b).
  { induction a as [|x a IH]; intros b; [reflexivity|].
    rewrite append_cons. exact (IH b). }
  assert (Hx : forall x,
             parseModuleOptions_step p prefix options (prefix ++ x, value)
             = assign (camelCase (substring_from 1 x)) (parseAttributeValue value)
                 options).
  { intros x. unfold parseModuleOptions_step. now rewrite startsWith_app, Hs. }
  split.
  - pose proof (Hx EmptyString) as E. now rewrite append_nil_r in E.
  - exact (Hx (String c rest)).
Qed.

(** ** Additional common attributes *)

(** A mapping added by [addCommonAttribute] is consulted after all the
    mappings the parser already had: its attribute sets its option only
    when that option is still undefined, and no other option changes. *)
Theorem addCommonAttribute_last (p : AttributeParser) (mp : CommonAttributeMapping)
    (attrs : Attributes) (options : Options) :
  let before := parseCommonAttributes p attrs options in
  let after := parseCommonAttributes (addCommonAttribute mp p) attrs options in
  (forall n, n <> optionName mp -> after !! n = before !! n)
  /\ (forall v, before !! optionName mp = Some v -> after = before)
  /\ (getAttribute (attributeName (config p) ++ "-" ++ attributeSuffix mp) attrs = None ->
      after = before)
  /\ (forall value,
        getAttribute (attributeName (config p) ++ "-" ++ attributeSuffix mp) attrs
        = Some value ->
        is_undefined before (optionName mp) = true ->
        after !! optionName mp = Some (parseAttributeValue value)).
Proof.
  intros before after.
  assert (E : after = parseCommonAttributes_step p attrs before mp).
  { subst after before. unfold parseCommonAttributes, addCommonAttribute. simpl.
    rewrite foldl_app. simpl.
    assert (Hs : forall (l : list CommonAttributeMapping) o,
               foldl (parseCommonAttributes_step
                        {| config := config p;
                           commonAttributes := (commonAttributes p ++ [mp])%list;
                           moduleValueMappings := moduleValueMappings p |} attrs) o l
               = foldl (parseCommonAttributes_step p attrs) o l).
    { induction l as [|x l IH]; intros o; [reflexivity|]. simpl. now rewrite IH. }
    now rewrite Hs. }
  rewrite E. unfold parseCommonAttributes_step.
  split; [|split; [|split]].
  - intros n Hn. destruct (getAttribute _ attrs); [|reflexivity].
    destruct (is_undefined before (optionName mp)); [|reflexivity].
    now rewrite lookup_insert_ne by congruence.
  - intros v Hv. destruct (getAttribute _ attrs); [|reflexivity].
    now rewrite (is_undefined_Some before _ v Hv).
  - now intros ->.
  - intros value -> ->. apply lookup_insert_eq.
Qed.
End ParserMore.

(** The value shorthand on an element of module [parallax]: the attribute
    [kw-parallax-value] sets the speed. *)
Lemma value_shorthand_witness :
  "speed" <> EmptyString
  /\ moduleValueMappings (new_AttributeParser no_config) !! "parallax" = Some "speed"
  /\ parseElementOptions (new_AttributeParser no_config) shorthand_example
     = Some ("parallax", {[ "speed" := VNum (Fin (3 # 10)) ]}).
Proof.
  split; [discriminate|]. split; [reflexivity|].
  destruct (value_shorthand (new_AttributeParser no_config) "parallax" "speed"
              {[ "value" := VNum (Fin (3 # 10)) ]})
    as (Hmove & _); [discriminate | reflexivity |].
  specialize (Hmove (VNum (Fin (3 # 10))) eq_refl eq_refl).
  change (parseElementOptions (new_AttributeParser no_config) shorthand_example)
    with (Some ("parallax",
                handleModuleValueMapping (new_AttributeParser no_config) "parallax"
                  (parseCommonAttributes (new_AttributeParser no_config) shorthand_example
                     (parseModuleOptions_loop (new_AttributeParser no_config) "parallax"
                        shorthand_example)))).
  replace (parseCommonAttributes (new_AttributeParser no_config) shorthand_example
             (parseModuleOptions_loop (new_AttributeParser no_config) "parallax"
                shorthand_example))
    with ({[ "value" := VNum (Fin (3 # 10)) ]} : Options) by (vm_compute; reflexivity).
  rewrite Hmove. vm_compute. reflexivity.
Defined.

(** On the element of the precedence example the duration comes from the
    module-scoped attribute. *)
Lemma parseModuleOptions_provenance_witness :
  no_upper (attributeName (config (new_AttributeParser no_config))) = true
  /\ parseModuleOptions (new_AttributeParser no_config) precedence_example "fade-in"
       !! "duration" = Some (VNum (Fin 900))
  /\ exists name value,
       (name, value) ∈ precedence_example
       /\ startsWith name "kw-" = true
       /\ VNum (Fin 900) = parseAttributeValue value.
Proof.
  assert (H1 : no_upper (attributeName (config (new_AttributeParser no_config))) = true)
    by reflexivity.
  assert (H2 : forall m, m ∈ commonAttributes (new_AttributeParser no_config) ->
                 no_upper (attributeSuffix m) = true).
  { intros m Hm. cbv [commonAttributes new_AttributeParser default_commonAttributes map]
      in Hm.
    repeat (apply elem_of_cons in Hm as [->|Hm]; [reflexivity|]). inversion Hm. }
  assert (H3 : forall a, a ∈ precedence_example ->
                 loop_option_name (new_AttributeParser no_config) "fade-in" a.1
                 <> Some "__proto__").
  { intros a Ha. unfold precedence_example in Ha.
    repeat (apply elem_of_cons in Ha as [->|Ha]; [vm_compute; discriminate|]).
    inversion Ha. }
  assert (E : parseModuleOptions (new_AttributeParser no_config) precedence_example
                "fade-in" !! "duration" = Some (VNum (Fin 900)))
    by (vm_compute; reflexivity).
  split; [exact H1|]. split; [exact E|].
  destruct (parseModuleOptions_provenance (new_AttributeParser no_config)
              precedence_example "fade-in" H1 H2 H3) as [Hfrom _].
  exact (Hfrom "duration" (VNum (Fin 900)) E).
Defined.



(** * Decimal strings: percentages and times *)

Local Close Scope Q_scope.
Local Open Scope string_scope.

Section Decimals.
Context `{Host}.

(** ** Reversal and suffixes *)

Lemma rev_app_snoc (s t : string) (c : ascii) :
  String.rev_app (s ++ String c EmptyString) t = String c (String.rev_app s t).
Proof.
  revert t. induction s as [|x s IH]; intros t; [reflexivity|].
  rewrite append_cons. simpl. apply IH.
Qed.

Lemma rev_snoc (s : string) (c : ascii) :
  String.rev (s ++ String c EmptyString) = String c (String.rev s).
Proof. apply rev_app_snoc. Qed.

Lemma rev_app_rev_app (s t u : string) :
  String.rev_app (String.rev_app s t) u = String.rev_app t (s ++ u).
Proof.
  revert t u. induction s as [|x s IH]; intros t u; [reflexivity|].
  simpl. rewrite IH. reflexivity.
Qed.

Lemma rev_involutive (s : string) : String.rev (String.rev s) = s.
Proof. unfold String.rev. rewrite rev_app_rev_app. simpl. apply append_nil_r. Qed.

Lemma all_chars_app (P : ascii -> bool) (s t : string) :
  all_chars P (s ++ t) = all_chars P s && all_chars P t.
Proof.
  induction s as [|x s IH]; [reflexivity|].
  rewrite append_cons. simpl. now rewrite IH, andb_assoc.
Qed.

Lemma all_chars_rev_app (P : ascii -> bool) (s t : string) :
  all_chars P s = true -> all_chars P t = true ->
  all_chars P (String.rev_app s t) = true.
Proof.
  revert t. induction s as [|x s IH]; intros t Hs Ht; [exact Ht|].
  simpl in *. apply andb_true_iff in Hs as [Hx Hs]. apply IH; [exact Hs|].
  simpl. now rewrite Hx, Ht.
Qed.

Lemma all_chars_weaken (P Q : ascii -> bool) (s : string) :
  (forall c, P c = true -> Q c = true) -> all_chars P s = true -> all_chars Q s = true.
Proof.
  intros HPQ. induction s as [|x s IH]; [reflexivity|]. simpl.
  intros Hs. apply andb_true_iff in Hs as [Hx Hs]. now rewrite (HPQ x Hx), IH.
Qed.

Lemma skip_space_none (s : string) : all_chars not_space s = true -> skip_space s = s.
Proof.
  destruct s as [|c r]; [reflexivity|]. simpl. unfold not_space.
  intros Hs. apply andb_true_iff in Hs as [Hc _].
  apply negb_true_iff in Hc. now rewrite Hc.
Qed.

Lemma trim_none (s : string) : all_chars not_space s = true -> trim s = s.
Proof.
  intros Hs. unfold trim. rewrite (skip_space_none s Hs).
  rewrite skip_space_none; [apply rev_involutive|].
  now apply all_chars_rev_app.
Qed.

Lemma remove_first_absent (c : ascii) (s : string) :
  all_chars (fun d => negb (Ascii.eqb c d)) s = true ->
  remove_first c s = s /\ remove_first c (s ++ String c EmptyString) = s.
Proof.
  induction s as [|x s IH]; simpl.
  - intros _. now rewrite Ascii.eqb_refl.
  - intros Hs. apply andb_true_iff in Hs as [Hx Hs]. apply negb_true_iff in Hx.
    destruct (IH Hs) as [E1 E2]. now rewrite Hx, E1, E2.
Qed.

Lemma endsWith_snoc (s : string) (c d : ascii) :
  endsWith (s ++ String c EmptyString) (String d EmptyString) = Ascii.eqb d c.
Proof.
  unfold endsWith. rewrite rev_snoc. simpl.
  destruct (ascii_dec d c) as [->|Hne].
  - rewrite Ascii.eqb_refl. now destruct (String.rev s).
  - symmetry. now apply Ascii.eqb_neq.
Qed.

(** ** The digits of a decimal string *)

Lemma span_digits_app (s t : string) :
  plain_suffix t = true ->
  forall acc n,
    span_digits (s ++ t) acc n
    = ((span_digits s acc n).1.1, (span_digits s acc n).1.2, (span_digits s acc n).2 ++ t).
Proof.
  intros Ht. induction s as [|x s IH]; intros acc n.
  - destruct t as [|c r]; [reflexivity|]. simpl in *.
    apply negb_true_iff in Ht. repeat (apply orb_false_iff in Ht as [Ht _]).
    now rewrite Ht.
  - rewrite append_cons. simpl. destruct (is_digit x); [apply IH | reflexivity].
Qed.

Lemma span_digits_split (s : string) :
  forall acc n, exists ds,
    s = ds ++ (span_digits s acc n).2
    /\ all_chars is_digit ds = true
    /\ (span_digits s acc n).1.2 = (n + String.length ds)%nat
    /\ (forall a m, (span_digits ds a m).2 = EmptyString
                    /\ (span_digits ds a m).1.2 = (m + String.length ds)%nat).
Proof.
  induction s as [|x s IH]; intros acc n.
  - exists EmptyString. repeat split; simpl; lia.
  - simpl. destruct (is_digit x) eqn:Ex.
    + destruct (IH (10 * acc + Z.of_nat (nat_of_ascii x - 48))%Z (S n))
        as (ds & E & Hd & Hn & Hs).
      exists (String x ds). rewrite append_cons, <- E.
      split; [reflexivity|]. split; [simpl; now rewrite Ex, Hd|].
      split; [simpl; lia|]. intros a m. simpl. rewrite Ex.
      destruct (Hs (10 * a + Z.of_nat (nat_of_ascii x - 48))%Z (S m)) as [-> ->].
      split; [reflexivity | lia].
    + exists EmptyString. repeat split; simpl; lia.
Qed.

(** A string that passes the decimal test is an optional minus sign, a
    non-empty run of digits, and then nothing or a point and a non-empty
    run of digits. *)
Lemma decimal_shape (d : string) :
  decimal_pattern d = true ->
  exists (neg : bool) (c : ascii) (ds frac : string),
    d = (if neg then "-" else EmptyString) ++ String c ds ++ frac
    /\ is_digit c = true /\ all_chars is_digit ds = true
    /\ (frac = EmptyString
        \/ exists fs, frac = String "." fs /\ fs <> EmptyString
                      /\ all_chars is_digit fs = true).
Proof.
  intros Hp.
  destruct (decimal_pattern_shape d Hp) as (neg & s1 & c & r & Hd & Hs1 & Hc).
  assert (Hp' : (let '(_, n, rest) := span_digits s1 0 0 in
                 negb (n =? 0)%nat &&
                 match rest with
                 | EmptyString => true
                 | String "." r =>
                     let '(_, k, rest') := span_digits r 0 0 in
                     negb (k =? 0)%nat && String.eqb rest' EmptyString
                 | _ => false
                 end) = true).
  { unfold decimal_pattern in Hp. subst d. destruct neg; [exact Hp|].
    subst s1. destruct (digit_not_sign c Hc) as [Hm _].
    destruct c as [[] [] [] [] [] [] [] []]; try exact Hp; congruence. }
  destruct (span_digits_split s1 0 0) as (ds0 & E & Hds & Hn & _).
  destruct (span_digits s1 0 0) as [[ip n] rest]. simpl in E, Hn.
  apply andb_true_iff in Hp' as [_ Hrest].
  assert (Hds0 : exists ds, ds0 = String c ds).
  { subst s1. destruct ds0 as [|c0 ds].
    - assert (E' : rest = String c r) by (symmetry; exact E). subst rest.
      destruct c as [[] [] [] [] [] [] [] []];
        try discriminate Hrest; discriminate Hc.
    - rewrite append_cons in E. injection E as <- _. eauto. }
  destruct Hds0 as [ds ->]. simpl in Hds. rewrite Hc in Hds. simpl in Hds.
  exists neg, c, ds, rest. rewrite <- E.
  split; [rewrite Hd; now destruct neg|]. split; [exact Hc|]. split; [exact Hds|].
  destruct rest as [|x r0]; [now left|]. right.
  destruct (Ascii.eqb_spec x ".") as [->|Hx].
  2:{ destruct x as [[] [] [] [] [] [] [] []]; try discriminate Hrest; congruence. }
  destruct (span_digits_split r0 0 0) as (fs & Ef & Hfs & Hk & _).
  destruct (span_digits r0 0 0) as [[fp k] rest']. simpl in Ef, Hk.
  apply andb_true_iff in Hrest as [Hk0 Hr']. apply String.eqb_eq in Hr'. subst rest'.
  rewrite append_nil_r in Ef. subst r0. exists fs. split; [reflexivity|].
  split; [|exact Hfs]. intros ->. simpl in Hk. subst k. discriminate.
Qed.

Lemma digit_decimal_char (c : ascii) : is_digit c = true -> is_decimal_char c = true.
Proof. unfold is_decimal_char. now intros ->. Qed.

Lemma decimal_chars (d : string) :
  decimal_pattern d = true -> all_chars is_decimal_char d = true.
Proof.
  intros Hp. destruct (decimal_shape d Hp) as (neg & c & ds & frac & -> & Hc & Hds & Hf).
  rewrite !all_chars_app. simpl.
  rewrite (digit_decimal_char c Hc), (all_chars_weaken _ _ ds digit_decimal_char Hds).
  assert (Hfrac : all_chars is_decimal_char frac = true).
  { destruct Hf as [->|(fs & -> & _ & Hfs)]; [reflexivity|]. simpl.
    now rewrite (all_chars_weaken _ _ fs digit_decimal_char Hfs). }
  rewrite Hfrac. now destruct neg.
Qed.

(** The last character of a decimal string is a digit. *)
Lemma decimal_last (d : string) :
  decimal_pattern d = true ->
  exists s c, d = s ++ String c EmptyString /\ is_digit c = true.
Proof.
  assert (Hlast : forall c ds, is_digit c = true -> all_chars is_digit ds = true ->
            exists s c', String c ds = s ++ String c' EmptyString /\ is_digit c' = true).
  { intros c ds. revert c. induction ds as [|x ds IH]; intros c Hc Hds.
    - exists EmptyString, c. auto.
    - simpl in Hds. apply andb_true_iff in Hds as [Hx Hds].
      destruct (IH x Hx Hds) as (s & c' & E & Hc').
      exists (String c s), c'. rewrite append_cons, <- E. auto. }
  intros Hp. destruct (decimal_shape d Hp) as (neg & c & ds & frac & -> & Hc & Hds & Hf).
  destruct Hf as [->|(fs & -> & Hne & Hfs)].
  - destruct (Hlast c ds Hc Hds) as (s & c' & E & Hc').
    exists ((if neg then "-" else EmptyString) ++ s), c'.
    rewrite append_nil_r, E, append_assoc. auto.
  - destruct fs as [|f fs]; [congruence|]. simpl in Hfs.
    apply andb_true_iff in Hfs as [Hf Hfs].
    destruct (Hlast f fs Hf Hfs) as (s & c' & E & Hc').
    exists ((if neg then "-" else EmptyString) ++ String c ds ++ String "." s), c'.
    rewrite E. split; [|exact Hc'].
    rewrite !append_assoc. reflexivity.
Qed.

Lemma span_digits_all (s : string) :
  all_chars is_digit s = true ->
  forall a m, (span_digits s a m).2 = EmptyString
              /\ (span_digits s a m).1.2 = (m + String.length s)%nat.
Proof.
  induction s as [|x s IH]; intros Hs a m; simpl.
  - split; [reflexivity | lia].
  - simpl in Hs. apply andb_true_iff in Hs as [Hx Hs]. rewrite Hx.
    destruct (IH Hs (10 * a + Z.of_nat (nat_of_ascii x - 48))%Z (S m)) as [-> ->].
    split; [reflexivity | lia].
Qed.

(** The digits of a run followed by something that does not start with a
    digit. *)
Lemma span_digits_run (s t : string) :
  all_chars is_digit s = true ->
  (forall x r, t = String x r -> is_digit x = false) ->
  forall a m,
    span_digits (s ++ t) a m
    = ((span_digits s a m).1.1, (m + String.length s)%nat, t).
Proof.
  intros Hs Ht. induction s as [|x s IH]; intros a m.
  - simpl. rewrite Nat.add_0_r. destruct t as [|c r]; [reflexivity|].
    simpl. now rewrite (Ht c r eq_refl).
  - rewrite append_cons. simpl in *. apply andb_true_iff in Hs as [Hx Hs].
    rewrite Hx, (IH Hs). f_equal. f_equal. lia.
Qed.

Lemma plain_suffix_first (t : string) :
  plain_suffix t = true ->
  forall x r, t = String x r ->
    is_digit x = false /\ Ascii.eqb x "." = false
    /\ Ascii.eqb x "e" = false /\ Ascii.eqb x "E" = false.
Proof.
  intros Ht x r ->. simpl in Ht. apply negb_true_iff in Ht.
  apply orb_false_iff in Ht as [Ht HE]. apply orb_false_iff in Ht as [Ht He].
  apply orb_false_iff in Ht as [Hd Hp]. auto.
Qed.

Lemma parseFloat_suffix_aux (neg : bool) (c : ascii) (ds frac : string) :
  is_digit c = true -> all_chars is_digit ds = true ->
  (frac = EmptyString \/ exists fs, frac = String "." fs /\ fs <> EmptyString
                           /\ all_chars is_digit fs = true) ->
  exists V, forall t, plain_suffix t = true ->
    parseFloat (((if neg then "-" else EmptyString) ++ String c ds ++ frac) ++ t) = V.
Proof.
  intros Hc Hds Hfrac.
  destruct (digit_not_sign c Hc) as [Hm Hpl].
  assert (Hstart : forall rest,
            let s := (if neg then "-" else EmptyString) ++ String c rest in
            skip_space s = s
            /\ match s with
               | String "-" r0 => (true, r0)
               | String "+" r0 => (false, r0)
               | _ => (false, s)
               end = (neg, String c rest)).
  { intros rest. destruct neg; [split; reflexivity|]. simpl. split.
    - now rewrite (digit_not_space c Hc).
    - destruct c as [[] [] [] [] [] [] [] []]; try reflexivity; congruence. }
  assert (Hcds : all_chars is_digit (String c ds) = true) by (simpl; now rewrite Hc, Hds).
  destruct Hfrac as [->|(fs & -> & Hne & Hfs)]; eexists; intros t Ht.
  - replace (((if neg then "-" else EmptyString) ++ String c ds ++ EmptyString) ++ t)
      with ((if neg then "-" else EmptyString) ++ String c (ds ++ t))
      by (rewrite append_nil_r, append_assoc; reflexivity).
    destruct (Hstart (ds ++ t)) as [Hsk Hsign].
    unfold parseFloat. rewrite Hsk, Hsign.
    rewrite <- append_cons.
    rewrite (span_digits_run (String c ds) t Hcds)
      by (intros x r E; now destruct (plain_suffix_first t Ht x r E)).
    destruct t as [|x t']; [reflexivity|].
    destruct (plain_suffix_first _ Ht x t' eq_refl) as (_ & Hp & He & HE).
    cbv beta iota zeta.
    replace (match String x t' with
             | String "." r => span_digits r 0 0
             | _ => (0%Z, 0%nat, String x t')
             end) with (0%Z, 0%nat, String x t').
    2:{ destruct x as [[] [] [] [] [] [] [] []]; try reflexivity; discriminate Hp. }
    cbv beta iota zeta. rewrite He, HE. reflexivity.
  - replace (((if neg then "-" else EmptyString) ++ String c ds ++ String "." fs) ++ t)
      with ((if neg then "-" else EmptyString) ++ String c (ds ++ String "." (fs ++ t)))
      by (rewrite !append_assoc; reflexivity).
    destruct (Hstart (ds ++ String "." (fs ++ t))) as [Hsk Hsign].
    unfold parseFloat. rewrite Hsk, Hsign.
    rewrite <- append_cons.
    rewrite (span_digits_run (String c ds) (String "." (fs ++ t)) Hcds)
      by (intros x r [= <- _]; reflexivity).
    cbv beta iota zeta.
    rewrite (span_digits_run fs t Hfs)
      by (intros x r E; now destruct (plain_suffix_first t Ht x r E)).
    destruct t as [|x t']; [reflexivity|].
    destruct (plain_suffix_first _ Ht x t' eq_refl) as (_ & Hp & He & HE).
    cbv beta iota zeta. rewrite He, HE. reflexivity.
Qed.

(** [parseFloat] reads a decimal string and ignores what follows it. *)
Lemma parseFloat_suffix (d t : string) :
  decimal_pattern d = true -> plain_suffix t = true ->
  parseFloat (d ++ t) = parseFloat d.
Proof.
  intros Hp Ht.
  destruct (decimal_shape d Hp) as (neg & c & ds & frac & -> & Hc & Hds & Hf).
  destruct (parseFloat_suffix_aux neg c ds frac Hc Hds Hf) as [V HV].
  rewrite (HV t Ht). rewrite <- (HV EmptyString eq_refl). now rewrite append_nil_r.
Qed.

(** ** The value [parseFloat] reads *)

Lemma digit_value_digit (c : ascii) :
  is_digit c = true ->
  Z.of_nat (nat_of_ascii c - 48) = digit_value c
  /\ (0 <= digit_value c <= 9)%Z.
Proof.
  unfold is_digit, digit_value. intros Hd.
  apply andb_true_iff in Hd as [H1 H2]. apply Nat.leb_le in H1, H2. lia.
Qed.

Lemma span_digits_value (s : string) :
  all_chars is_digit s = true ->
  forall a m,
    span_digits s a m
    = ((a * 10 ^ Z.of_nat (String.length s) + digits_MV s)%Z,
       (m + String.length s)%nat, EmptyString).
Proof.
  induction s as [|c s IH]; intros Hs a m.
  - simpl. rewrite Z.mul_1_r, Z.add_0_r, Nat.add_0_r. reflexivity.
  - simpl in Hs. apply andb_true_iff in Hs as [Hc Hs].
    cbn [span_digits]. rewrite Hc, (IH Hs).
    destruct (digit_value_digit c Hc) as [-> _].
    cbn [String.length digits_MV].
    rewrite Nat2Z.inj_succ, Z.pow_succ_r by lia.
    rewrite Nat.add_succ_r. simpl Nat.add.
    replace ((10 * a + digit_value c) * 10 ^ Z.of_nat (String.length s) + digits_MV s)%Z
      with (a * (10 * 10 ^ Z.of_nat (String.length s))
            + (digit_value c * 10 ^ Z.of_nat (String.length s) + digits_MV s))%Z by ring.
    reflexivity.
Qed.

Lemma digits_MV_nonneg (s : string) :
  all_chars is_digit s = true -> (0 <= digits_MV s)%Z.
Proof.
  induction s as [|c s IH]; intros Hs; simpl; [lia|].
  simpl in Hs. apply andb_true_iff in Hs as [Hc Hs].
  destruct (digit_value_digit c Hc) as [_ Hv]. specialize (IH Hs).
  assert (0 <= 10 ^ Z.of_nat (String.length s))%Z by (apply Z.pow_nonneg; lia).
  nia.
Qed.

Lemma digit_not_point (c : ascii) : is_digit c = true -> Ascii.eqb c "." = false.
Proof.
  intros Hc. destruct (Ascii.eqb_spec c ".") as [->|]; [discriminate | reflexivity].
Qed.

Lemma point_split (s t : string) :
  all_chars is_digit s = true ->
  before_point (s ++ String "." t) = s /\ after_point (s ++ String "." t) = t
  /\ before_point s = s /\ after_point s = EmptyString.
Proof.
  induction s as [|c s IH]; intros Hs; [auto|].
  simpl in Hs. apply andb_true_iff in Hs as [Hc Hs].
  destruct (IH Hs) as (E1 & E2 & E3 & E4).
  rewrite append_cons. simpl. rewrite (digit_not_point c Hc).
  now rewrite E1, E2, E3, E4.
Qed.

(** The mathematical value of a literal, from its parts. *)
Lemma decimal_MV_shape (neg : bool) (c : ascii) (ds fs : string) (point : bool) :
  is_digit c = true -> all_chars is_digit ds = true -> all_chars is_digit fs = true ->
  (point = false -> fs = EmptyString) ->
  decimal_MV ((if neg then "-" else EmptyString) ++ String c ds
              ++ (if point then String "." fs else EmptyString))
  = let m := (inject_Z (digits_MV (String c ds))
              + inject_Z (digits_MV fs)
                / inject_Z (10 ^ Z.of_nat (String.length fs)))%Q in
    if neg then (- m)%Q else m.
Proof.
  intros Hc Hds Hfs Hp.
  assert (Hcds : all_chars is_digit (String c ds) = true) by (simpl; now rewrite Hc, Hds).
  destruct (point_split (String c ds) fs Hcds) as (E1 & E2 & E3 & E4).
  assert (Hbody : forall body,
             body = String c ds ++ (if point then String "." fs else EmptyString) ->
             before_point body = String c ds /\ after_point body = fs).
  { intros body ->. destruct point.
    - auto.
    - rewrite append_nil_r, (Hp eq_refl). auto. }
  unfold decimal_MV. destruct neg.
  - change ("-" ++ String c ds ++ (if point then String "." fs else EmptyString))
      with (String "-" (String c ds ++ (if point then String "." fs else EmptyString))).
    cbv beta iota. rewrite Ascii.eqb_refl.
    destruct (Hbody _ eq_refl) as [-> ->]. reflexivity.
  - change (EmptyString ++ String c ds ++ (if point then String "." fs else EmptyString))
      with (String c (ds ++ (if point then String "." fs else EmptyString))).
    cbv beta iota.
    assert (Hm : Ascii.eqb c "-" = false).
    { destruct (Ascii.eqb_spec c "-") as [->|]; [discriminate | reflexivity]. }
    rewrite Hm.
    destruct (Hbody (String c (ds ++ (if point then String "." fs else EmptyString))) eq_refl)
      as [-> ->].
    reflexivity.
Qed.

Lemma mantissa_value (ip fp : Z) (k : nat) :
  (inject_Z (ip * 10 ^ Z.of_nat k + fp) * pow10 (- Z.of_nat k) * pow10 0
   == inject_Z ip + inject_Z fp / inject_Z (10 ^ Z.of_nat k))%Q.
Proof.
  assert (Hpos : (0 < 10 ^ Z.of_nat k)%Z) by (apply Z.pow_pos_nonneg; lia).
  assert (Hnz : ~ (inject_Z (10 ^ Z.of_nat k) == 0)%Q).
  { intros E. destruct (inject_Z_injective (10 ^ Z.of_nat k) 0) as [Hi _].
    specialize (Hi E). lia. }
  assert (E0 : (pow10 0 == 1)%Q) by reflexivity.
  rewrite E0, Qmult_1_r.
  assert (Ek : (pow10 (- Z.of_nat k) == / inject_Z (10 ^ Z.of_nat k))%Q).
  { unfold pow10. destruct (0 <=? - Z.of_nat k)%Z eqn:El.
    - apply Z.leb_le in El. assert (k = O) by lia. subst k. reflexivity.
    - now rewrite Z.opp_involutive. }
  rewrite Ek, inject_Z_plus, inject_Z_mult. field. exact Hnz.
Qed.

(** On a string that passes the decimal test [parseFloat] returns the
    mathematical value of the literal. *)
Lemma parseFloat_MV (d : string) :
  decimal_pattern d = true ->
  exists q, parseFloat d = Fin q /\ (q == decimal_MV d)%Q.
Proof.
  intros Hp.
  destruct (decimal_shape d Hp) as (neg & c & ds & frac & -> & Hc & Hds & Hfrac).
  destruct (digit_not_sign c Hc) as [Hm Hpl].
  assert (Hcds : all_chars is_digit (String c ds) = true) by (simpl; now rewrite Hc, Hds).
  assert (Hstart : forall rest,
            let s := (if neg then "-" else EmptyString) ++ String c rest in
            skip_space s = s
            /\ match s with
               | String "-" r0 => (true, r0)
               | String "+" r0 => (false, r0)
               | _ => (false, s)
               end = (neg, String c rest)).
  { intros rest. destruct neg; [split; reflexivity|]. simpl. split.
    - now rewrite (digit_not_space c Hc).
    - destruct c as [[] [] [] [] [] [] [] []]; try reflexivity; congruence. }
  assert (Hpow : forall k : nat, (0 < 10 ^ Z.of_nat k)%Z) by (intros; apply Z.pow_pos_nonneg; lia).
  destruct Hfrac as [->|(fs & -> & Hne & Hfs)].
  - rewrite (decimal_MV_shape neg c ds EmptyString false Hc Hds eq_refl (fun _ => eq_refl)).
    change ((if neg then "-" else EmptyString) ++ String c ds ++ EmptyString)
      with ((if neg then "-" else EmptyString) ++ String c (ds ++ EmptyString)).
    destruct (Hstart (ds ++ EmptyString)) as [Hsk Hsign].
    unfold parseFloat. rewrite Hsk, Hsign. rewrite append_nil_r.
    rewrite (span_digits_value (String c ds) Hcds). cbv beta iota zeta.
    replace ((0 + String.length (String c ds) =? 0)%nat) with false by reflexivity.
    cbv beta iota zeta. eexists. split; [reflexivity|].
    cbv zeta. rewrite !Z.mul_0_l, !Z.add_0_l.
    destruct neg; rewrite ?Qred_correct, mantissa_value; reflexivity.
  - rewrite (decimal_MV_shape neg c ds fs true Hc Hds Hfs) by discriminate.
    change ((if neg then "-" else EmptyString) ++ String c ds ++ String "." fs)
      with ((if neg then "-" else EmptyString) ++ String c (ds ++ String "." fs)).
    destruct (Hstart (ds ++ String "." fs)) as [Hsk Hsign].
    unfold parseFloat. rewrite Hsk, Hsign. rewrite <- append_cons.
    rewrite (span_digits_run (String c ds) (String "." fs) Hcds)
      by (intros x r [= <- _]; reflexivity).
    rewrite (span_digits_value (String c ds) Hcds). cbv beta iota zeta.
    rewrite (span_digits_value fs Hfs). cbv beta iota zeta.
    replace ((0 + String.length (String c ds) =? 0)%nat) with false by reflexivity.
    cbv beta iota zeta. eexists. split; [reflexivity|].
    cbv zeta. rewrite !Z.mul_0_l, !Z.add_0_l.
    change (0 + String.length fs)%nat with (String.length fs).
    destruct neg; rewrite ?Qred_correct, mantissa_value; reflexivity.
Qed.

(** ** Times *)

(** [parseTimeValue] on a decimal string [d] that carries a unit: without
    a unit the number is taken as it is (milliseconds); with the suffix
    [s] it is multiplied by 1000; with the suffix [ms] it is multiplied by
    1000 as well, since a string in [ms] ends with [s].  A number is
    returned unchanged. *)
Theorem parseTimeValue_units (d : string) :
  decimal_pattern d = true ->
  parseTimeValue (VStr d) = Some (parseFloat d)
  /\ parseTimeValue (VStr (d ++ "s")) = Some (Nmul (parseFloat d) (Fin 1000))
  /\ parseTimeValue (VStr (d ++ "ms")) = Some (Nmul (parseFloat d) (Fin 1000))
  /\ (exists q, parseFloat d = Fin q)
  /\ forall n, parseTimeValue (VNum n) = Some n.
Proof.
  intros Hp. unfold parseTimeValue.
  destruct (decimal_last d Hp) as (s & c & Ed & Hc).
  split; [|split; [|split; [|split]]].
  - rewrite Ed at 1. rewrite endsWith_snoc.
    replace (Ascii.eqb "s" c) with false; [reflexivity|].
    destruct c as [[] [] [] [] [] [] [] []]; try reflexivity; discriminate Hc.
  - rewrite endsWith_snoc. simpl. now rewrite (parseFloat_suffix d "s" Hp).
  - assert (E : endsWith (d ++ "ms") "s" = true).
    { replace (d ++ "ms") with ((d ++ "m") ++ "s") by (now rewrite append_assoc).
      now rewrite endsWith_snoc. }
    rewrite E. now rewrite (parseFloat_suffix d "ms" Hp).
  - now apply parseFloat_decimal.
  - reflexivity.
Qed.

(** ** Percentages *)

Lemma parseInviewPercentage_decimal (d v : string) (q : Q) (w : World) :
  decimal_pattern d = true -> parseFloat d = Fin q ->
  v = d \/ v = d ++ "%" ->
  parseInviewPercentage v w
  = if negb (Qle_bool 0 (q / 100)) || negb (Qle_bool (q / 100) 1)
    then (None, console_warn ("Inview value must be between 0% and 100%: " ++ v) w)
    else (Some (q / 100)%Q, w).
Proof.
  intros Hp Hq Hv.
  pose proof (decimal_chars d Hp) as Hch.
  assert (Hns : all_chars not_space d = true).
  { revert Hch. apply all_chars_weaken. intros c Hc. unfold not_space.
    unfold is_decimal_char in Hc.
    apply orb_true_iff in Hc as [Hc|Hc];
      [apply orb_true_iff in Hc as [Hc|Hc]|].
    - now rewrite (digit_not_space c Hc).
    - apply Ascii.eqb_eq in Hc as ->. reflexivity.
    - apply Ascii.eqb_eq in Hc as ->. reflexivity. }
  assert (Hnp : all_chars (fun c => negb (Ascii.eqb "%" c)) d = true).
  { revert Hch. apply all_chars_weaken. intros c Hc.
    destruct c as [[] [] [] [] [] [] [] []]; try reflexivity; discriminate Hc. }
  destruct (remove_first_absent "%" d Hnp) as [Er1 Er2].
  destruct (decimal_last d Hp) as (s & c & Ed & Hc).
  assert (Hne : String.eqb v EmptyString = false).
  { apply String.eqb_neq. destruct Hv as [-> | ->]; rewrite Ed;
      destruct s; discriminate. }
  assert (Er : remove_first "%" v = d) by (destruct Hv as [-> | ->]; assumption).
  unfold parseInviewPercentage. now rewrite Hne, Er, (trim_none d Hns), Hq.
Qed.

(** [parseInviewPercentage]: a result that is not [null] is a threshold
    between 0 and 1, and nothing is logged for it; a [null] result for a
    string that is not empty comes with one warning.  A decimal literal,
    with or without a percent sign after it, is read as a percentage.
    When its value lies between 0 and 100 the result is a threshold
    between 0 and 1, without a warning, and it is the hundredth of the
    value when the value and its hundredth are numbers of the binary64
    format.  When its value is a number of the binary64 format outside
    that range the result is [null], with the warning about the range. *)
Theorem parseInviewPercentage_range (value : string) (w : World) :
  match parseInviewPercentage value w with
  | (Some t, w') => (0 <= t)%Q /\ (t <= 1)%Q /\ w' = w
  | (None, w') =>
      (value = EmptyString /\ w' = w)
      \/ (value <> EmptyString /\ exists msg, w' = console_warn msg w)
  end
  /\ forall d v,
       decimal_pattern d = true ->
       v = d \/ v = d ++ "%" ->
       let m := decimal_MV d in
       ((0 <= m)%Q -> (m <= 100)%Q ->
        exists t,
          parseInviewPercentage v w = (Some t, w)
          /\ (0 <= t)%Q /\ (t <= 1)%Q
          /\ (small_dyadic m = true -> small_dyadic (m / 100) = true ->
              (t == m / 100)%Q))
       /\ (small_dyadic m = true -> ~ ((0 <= m)%Q /\ (m <= 100)%Q) ->
           parseInviewPercentage v w
           = (None,
              console_warn ("Inview value must be between 0% and 100%: " ++ v) w)).
Proof.
  split.
  - unfold parseInviewPercentage.
    destruct (String.eqb_spec value EmptyString) as [->|Hne]; [now left|].
    destruct (parseFloat _) as [|percentage]; [right; eauto|].
    destruct (negb (Qle_bool 0 (percentage / 100))
              || negb (Qle_bool (percentage / 100) 1)) eqn:Eb; [right; eauto|].
    apply orb_false_iff in Eb as [E0 E1].
    apply negb_false_iff in E0, E1. apply Qle_bool_iff in E0, E1. auto.
  - intros d v Hp Hv m. subst m.
    destruct (parseFloat_MV d Hp) as (q & Hq & Hm).
    rewrite (parseInviewPercentage_decimal d v q w Hp Hq Hv).
    split.
    + intros H0 H1. rewrite <- Hm in H0, H1.
      assert (L0 : (0 <= q / 100)%Q) by (apply Qle_shift_div_l; [reflexivity | lra]).
      assert (L1 : (q / 100 <= 1)%Q) by (apply Qle_shift_div_r; [reflexivity | lra]).
      assert (E0 : Qle_bool 0 (q / 100) = true) by now apply Qle_bool_iff.
      assert (E1 : Qle_bool (q / 100) 1 = true) by now apply Qle_bool_iff.
      rewrite E0, E1. simpl. exists (q / 100)%Q. split; [reflexivity|].
      split; [exact L0|]. split; [exact L1|]. intros _ _. now rewrite Hm.
    + intros _ Hout.
      assert (Eb : negb (Qle_bool 0 (q / 100)) || negb (Qle_bool (q / 100) 1) = true).
      { destruct (Qle_bool 0 (q / 100)) eqn:E0; [|reflexivity].
        destruct (Qle_bool (q / 100) 1) eqn:E1; [|reflexivity].
        exfalso. apply Hout. apply Qle_bool_iff in E0, E1. rewrite <- Hm. split.
        - apply (Qmult_le_compat_r _ _ 100) in E0; [|discriminate].
          field_simplify in E0. lra.
        - apply (Qmult_le_compat_r _ _ 100) in E1; [|discriminate].
          field_simplify in E1. lra. }
      now rewrite Eb.
Qed.

(** ** The coercion of attribute values *)


End Decimals.

Lemma parseTimeValue_units_witness :
  decimal_pattern "500" = true
  /\ parseTimeValue (VStr "500") = Some (Fin 500)
  /\ parseTimeValue (VStr "500ms") = Some (Fin 500000)
  /\ parseTimeValue (VStr "2s") = Some (Fin 2000).
Proof.
  split; [reflexivity|].
  destruct (parseTimeValue_units "500" eq_refl) as (Hplain & _ & Hms & _).
  destruct (parseTimeValue_units "2" eq_refl) as (_ & Hs & _).
  split; [|split].
  - etransitivity; [exact Hplain|]. vm_compute. reflexivity.
  - etransitivity; [exact Hms|]. vm_compute. reflexivity.
  - etransitivity; [exact Hs|]. vm_compute. reflexivity.
Defined.

Lemma parseInviewPercentage_range_witness :
  decimal_pattern "50" = true /\ decimal_pattern "12.5" = true
  /\ decimal_pattern "150" = true
  /\ (exists t, parseInviewPercentage "50%" fade_page = (Some t, fade_page)
                /\ (t == 1 # 2)%Q)
  /\ (exists t, parseInviewPercentage "12.5" fade_page = (Some t, fade_page)
                /\ (t == 1 # 8)%Q)
  /\ parseInviewPercentage "150%" fade_page
     = (None, console_warn "Inview value must be between 0% and 100%: 150%" fade_page).
Proof.
  split; [reflexivity|]. split; [reflexivity|]. split; [reflexivity|].
  destruct (parseInviewPercentage_range EmptyString fade_page) as [_ Hd].
  split; [|split].
  - destruct (Hd "50" "50%" eq_refl (or_intror eq_refl)) as [Hin _].
    destruct Hin as (t & E & _ & _ & Ht); [vm_compute; discriminate.. |].
    exists t. split; [exact E|]. rewrite Ht by (vm_compute; reflexivity).
    vm_compute. reflexivity.
  - destruct (Hd "12.5" "12.5" eq_refl (or_introl eq_refl)) as [Hin _].
    destruct Hin as (t & E & _ & _ & Ht); [vm_compute; discriminate.. |].
    exists t. split; [exact E|]. rewrite Ht by (vm_compute; reflexivity).
    vm_compute. reflexivity.
  - destruct (Hd "150" "150%" eq_refl (or_intror eq_refl)) as [_ Hout].
    apply Hout; [vm_compute; reflexivity|].
    intros [_ Hle]. vm_compute in Hle. now apply Hle.
Defined.




(** * More on the base module *)

Local Close Scope Q_scope.
Local Open Scope list_scope.

Section BaseMore.
Context `{Host}.

Lemma kept_refl w : kept w w.
Proof. repeat split. Qed.

Lemma kept_trans w1 w2 w3 : kept w1 w2 -> kept w2 w3 -> kept w1 w3.
Proof.
  intros (A1 & A2 & A3 & A4 & A5 & A6 & A7 & A8 & A9 & A10)
         (B1 & B2 & B3 & B4 & B5 & B6 & B7 & B8 & B9 & B10).
  repeat split; congruence.
Qed.

Lemma foldl_kept {A} (f : World -> A -> World) :
  (forall w a, kept w (f w a)) -> forall l w, kept w (foldl f w l).
Proof.
  intros Hf. induction l as [|a l IH]; intros w; simpl; [apply kept_refl|].
  eapply kept_trans; [apply Hf | apply IH].
Qed.

Lemma foldl_option_kept {A} (f : World -> A -> option World) :
  (forall w a w', f w a = Some w' -> kept w w') ->
  forall l w w',
    foldl (fun ow a => w ← ow; f w a) (Some w) l = Some w' -> kept w w'.
Proof.
  intros Hf. induction l as [|a l IH]; intros w w' E; simpl in E.
  - injection E as <-. apply kept_refl.
  - destruct (f w a) as [w1|] eqn:E1; simpl in E; [|now rewrite foldl_None in E].
    eapply kept_trans; [apply (Hf w a w1 E1) | apply IH; exact E].
Qed.

Lemma getOptions_kept this e w : kept w (getOptions this e w).2.
Proof.
  unfold getOptions. destruct (animations w !! this) as [md|]; [|apply kept_refl].
  destruct (BaseAnimation.parsedOptions md !! e); [apply kept_refl | repeat split].
Qed.

Lemma threshold_of_kept options old w : kept w (threshold_of options old w).2.
Proof.
  unfold threshold_of, parseInviewPercentage.
  destruct (option_truthy options "inview"); [|apply kept_refl].
  destruct (String.eqb _ EmptyString); [apply kept_refl|].
  destruct (parseFloat _); [repeat split|].
  destruct (negb _ || negb _); repeat split.
Qed.

Lemma initObserver_kept this w w' : initObserver this w = Some w' -> kept w w'.
Proof.
  unfold initObserver. destruct (animations w !! this) as [md|]; [|discriminate]. simpl.
  destruct (BaseAnimation.elements md) as [|e0 rest].
  - intros [= <-]. repeat split.
  - pose proof (threshold_of_kept (getElementOptions md w e0)
                  (oi_threshold (BaseAnimation.observerOptions md)) w) as Hk.
    destruct (threshold_of _ _ w) as [th wt]. simpl in Hk.
    destruct (rootMargin_valid _); [|discriminate]. intros [= <-].
    eapply kept_trans; [exact Hk | repeat split].
Qed.

Lemma register_element_kept this w e : kept w (register_element this w e).
Proof.
  unfold register_element. destruct (animations w !! this) as [md|]; [|apply kept_refl].
  destruct (hasAnimationAttributes _ _); [|apply kept_refl].
  destruct (BaseAnimation.observer md); repeat split.
Qed.

Lemma BaseAnimation_register_kept this els w w' :
  BaseAnimation_register this els w = Some w' -> kept w w'.
Proof.
  unfold BaseAnimation_register.
  destruct (initObserver this w) as [w1|] eqn:E1; [|discriminate]. simpl.
  intros [= <-]. eapply kept_trans; [exact (initObserver_kept _ _ _ E1)|].
  apply foldl_kept. intros. apply register_element_kept.
Qed.

Lemma BaseAnimation_destroy_kept this w : kept w (BaseAnimation_destroy this w).
Proof.
  unfold BaseAnimation_destroy. destruct (animations w !! this) as [md|]; [|apply kept_refl].
  destruct (BaseAnimation.observer md) as [obs|]; [|repeat split].
  assert (Hu : kept w (foldl (fun w e => unobserve obs e w) w (BaseAnimation.elements md))).
  { apply foldl_kept. intros. repeat split. }
  eapply kept_trans; [exact Hu | repeat split].
Qed.

(** ** The cache of options *)

(** [getOptions] parses the attributes of an element at most once: a
    second call returns the same record and changes nothing, also when the
    element has been modified in between. *)
Theorem getOptions_memo (this e : nat) (w : World) :
  let o := (getOptions this e w).1 in
  let w1 := (getOptions this e w).2 in
  getOptions this e w1 = (o, w1)
  /\ forall f, getOptions this e (update_element e f w1) = (o, update_element e f w1).
Proof.
  intros o w1. subst o w1.
  destruct (animations w !! this) as [md|] eqn:Hmd.
  2:{ assert (E : forall w0, animations w0 = animations w ->
                    getOptions this e w0 = (∅, w0)).
      { intros w0 E0. unfold getOptions. now rewrite E0, Hmd. }
      rewrite (E w eq_refl). simpl. split; [now apply E|]. intros f. now apply E. }
  destruct (BaseAnimation.parsedOptions md !! e) as [o|] eqn:Ho.
  - rewrite (getOptions_cached this e w md o Hmd Ho). simpl.
    split; [exact (getOptions_cached this e w md o Hmd Ho)|].
    intros f. apply (getOptions_cached this e _ md o); [exact Hmd | exact Ho].
  - assert (E : getOptions this e w
                = (getElementOptions md w e,
                   update_animation this
                     (fun md0 => BaseAnimation.set_parsedOptions
                                   (<[e := getElementOptions md w e]>
                                      (BaseAnimation.parsedOptions md0)) md0) w)).
    { unfold getOptions. now rewrite Hmd, Ho. }
    rewrite E. simpl.
    assert (Hc : forall w0,
              animations w0 = alter
                (fun md0 => BaseAnimation.set_parsedOptions
                              (<[e := getElementOptions md w e]>
                                 (BaseAnimation.parsedOptions md0)) md0) this (animations w) ->
              getOptions this e w0 = (getElementOptions md w e, w0)).
    { intros w0 E0. eapply getOptions_cached.
      - rewrite E0, lookup_alter_eq, Hmd. reflexivity.
      - simpl. apply lookup_insert_eq. }
    split; [now apply Hc|]. intros f. now apply Hc.
Qed.

(** ** Intersection entries *)

Lemma touches_refl e w : touches e w w.
Proof. split; auto. Qed.

Lemma touches_trans e w1 w2 w3 : touches e w1 w2 -> touches e w2 w3 -> touches e w1 w3.
Proof.
  intros [A1 A2] [B1 B2]. split; [|congruence].
  intros e' He. rewrite B1, A1; auto.
Qed.

Lemma touches_dom e w w' : dom w' = dom w -> touches e w w'.
Proof. intros E. unfold touches. rewrite E. auto. Qed.

Lemma touches_update e f w :
  progress (style (f (element w e))) = progress (style (element w e)) ->
  touches e w (update_element e f w).
Proof.
  intros Hf. split.
  - intros e' He. unfold update_element. simpl. now rewrite lookup_insert_ne.
  - fold (element (update_element e f w) e). fold (element w e).
    now rewrite element_update_eq.
Qed.

Lemma getOptions_dom this e w : dom (getOptions this e w).2 = dom w.
Proof.
  unfold getOptions. destruct (animations w !! this) as [md|]; [|reflexivity].
  now destruct (BaseAnimation.parsedOptions md !! e).
Qed.

Lemma classList_add_style c el el' :
  classList_add c el = Some el' -> style el' = style el.
Proof. unfold classList_add. destruct (valid_token c); [|discriminate]. now intros [= <-]. Qed.

Lemma classList_remove_style c el el' :
  classList_remove c el = Some el' -> style el' = style el.
Proof.
  unfold classList_remove. destruct (valid_token c); [|discriminate]. now intros [= <-].
Qed.

Lemma custom_add_style (options : Options) el el' :
  (if option_truthy options "class"
   then classList_add (js_String (defined_or options "class" (VBool false))) el
   else Some el) = Some el' ->
  style el' = style el.
Proof.
  destruct (option_truthy options "class"); [apply classList_add_style|].
  now intros [= <-].
Qed.

Lemma custom_remove_style (options : Options) el el' :
  (if option_truthy options "class"
   then classList_remove (js_String (defined_or options "class" (VBool false))) el
   else Some el) = Some el' ->
  style el' = style el.
Proof.
  destruct (option_truthy options "class"); [apply classList_remove_style|].
  now intros [= <-].
Qed.

Lemma initElement_touches this e w : touches e w (initElement this e w).
Proof.
  unfold initElement. destruct (animations w !! this) as [md|]; [|apply touches_refl].
  destruct (negb _ && negb _); [|apply touches_refl].
  pose proof (getOptions_dom this e w) as Hd.
  destruct (getOptions this e w) as [options w1]. simpl in Hd.
  eapply touches_trans; [apply touches_dom; exact Hd|].
  now apply touches_update.
Qed.

Lemma animate_touches this e options w w' :
  animate this e options w = Some w' -> touches e w w'.
Proof.
  unfold animate. destruct (animations w !! this) as [md|] eqn:Hmd; [|discriminate].
  simpl. destruct (BaseAnimation.class md).
  - intros [= <-]. apply touches_refl.
  - unfold FadeInAnimation_animate. rewrite Hmd. simpl.
    destruct (negb _ && negb _); [|intros [= <-]; apply touches_refl].
    destruct (parseTimeValue (or_default options "duration" _)) as [duration|];
      simpl; [|discriminate].
    destruct (parseTimeValue (or_default options "delay" _)) as [delay|];
      simpl; [|discriminate].
    unfold requestAnimationFrame. cbv beta iota.
    intros [= <-]. eapply touches_trans; [apply initElement_touches|].
    now apply touches_dom.
  - unfold ParallaxAnimation_animate. rewrite Hmd. simpl.
    destruct (classList_add _ (element w e)) as [el1|] eqn:E1; [|discriminate]. simpl.
    destruct (if option_truthy options "class" then _ else _) as [el2|] eqn:E2;
      [|discriminate]. simpl.
    intros [= <-]. apply touches_update.
    now rewrite (custom_add_style _ _ _ E2), (classList_add_style _ _ _ E1).
Qed.

Lemma reset_touches this e options w w' :
  reset this e options w = Some w' -> touches e w w'.
Proof.
  unfold reset. destruct (animations w !! this) as [md|] eqn:Hmd; [|discriminate].
  simpl. destruct (BaseAnimation.class md).
  - intros [= <-]. apply touches_refl.
  - unfold FadeInAnimation_reset. rewrite Hmd. simpl.
    set (w1 := match BaseAnimation.pendingAnimations md !! e with
               | Some id => _ | None => w end).
    assert (Hd1 : dom w1 = dom w).
    { subst w1. now destruct (BaseAnimation.pendingAnimations md !! e). }
    unfold shouldRepeatAnimation.
    pose proof (getOptions_dom this e w1) as Hd2.
    destruct (getOptions this e w1) as [o w2]. simpl in Hd2.
    destruct (option_truthy o "repeat").
    + destruct (parseTimeValue (or_default options "duration" _)) as [duration|];
      simpl; [|discriminate].
      intros [= <-]. eapply touches_trans;
        [apply (touches_dom e w (set_next S w2)); simpl; congruence|].
      now apply touches_update.
    + intros [= <-]. apply touches_dom. congruence.
  - unfold ParallaxAnimation_reset. rewrite Hmd. simpl.
    unfold shouldRepeatAnimation.
    pose proof (getOptions_dom this e w) as Hd.
    destruct (getOptions this e w) as [o w1]. simpl in Hd.
    destruct (option_truthy o "repeat"); [|intros [= <-]; now apply touches_dom].
    destruct (classList_remove _ _) as [el2|] eqn:E2; [|discriminate]. simpl.
    destruct (if option_truthy options "class" then _ else _) as [el3|] eqn:E3;
      [|discriminate]. simpl.
    intros [= <-]. eapply touches_trans; [apply touches_dom; exact Hd|].
    apply touches_update.
    now rewrite (custom_remove_style _ _ _ E3), (classList_remove_style _ _ _ E2).
Qed.

(** An intersection entry leaves on its target the ratio of the entry as
    the progress variable when the target intersects, and 0 when it does
    not; whatever the class of the module, no other element of the page
    is changed. *)
Theorem handleIntersection_entry_progress (this : nat) (w w' : World)
    (entry : IntersectionObserverEntry) :
  handleIntersection_entry this w entry = Some w' ->
  progress (style (element w' (target entry)))
  = Number_toString
      (Fin (if isIntersecting entry then intersectionRatio entry else 0))
  /\ forall e, e <> target entry -> dom w' !! e = dom w !! e.
Proof.
  unfold handleIntersection_entry.
  destruct (animations w !! this) as [md|]; [|discriminate]. simpl.
  set (e := target entry).
  set (options := default ∅ (BaseAnimation.parsedOptions md !! e)).
  assert (Hs : forall v w'', touches e (setProgress e v w) w'' ->
            progress (style (element w'' e)) = Number_toString v
            /\ forall e', e' <> e -> dom w'' !! e' = dom w !! e').
  { intros v w'' [T1 T2]. split.
    - unfold element. rewrite T2. fold (element (setProgress e v w) e).
      unfold setProgress. now rewrite element_update_eq.
    - intros e' He. rewrite T1 by exact He. unfold setProgress, update_element.
      simpl. now rewrite lookup_insert_ne. }
  destruct (isIntersecting entry); intros E; apply Hs.
  - exact (animate_touches _ _ _ _ _ E).
  - exact (reset_touches _ _ _ _ _ E).
Qed.
(** ** Destroying an instance *)

Lemma foldl_unobserve (obs : nat) (els : list nat) (w : World) :
  let w' := foldl (fun w e => unobserve obs e w) w els in
  dom w' = dom w /\ animations w' = animations w /\ listeners w' = listeners w
  /\ frames w' = frames w /\ next w' = next w /\ console w' = console w
  /\ (forall k, k <> obs -> observers w' !! k = observers w !! k)
  /\ (forall o, observers w !! obs = Some o ->
        exists o', observers w' !! obs = Some o' /\ io_init o' = io_init o
                   /\ io_callback o' = io_callback o)
  /\ (observers w !! obs = None -> observers w' !! obs = None).
Proof.
  revert w. induction els as [|e els IH]; intros w; simpl.
  - repeat split; auto. intros o Ho. exists o. auto.
  - destruct (IH (unobserve obs e w)) as (A1 & A2 & A3 & A4 & A5 & A6 & A7 & A8 & A9).
    simpl in *. repeat split; try congruence.
    + intros k Hk. rewrite A7 by exact Hk. now rewrite lookup_alter_ne.
    + intros o Ho. edestruct A8 as (o' & E & Ei & Ec).
      { rewrite lookup_alter_eq, Ho. reflexivity. }
      exists o'. auto.
    + intros Ho. apply A9. now rewrite lookup_alter_eq, Ho.
Qed.

Lemma destroy_destroyed (this : nat) (w : World) (md : BaseAnimation.t) :
  animations w !! this = Some md -> destroyed md ->
  BaseAnimation_destroy this w = w.
Proof.
  intros Hmd (He & Hp & Ho). unfold BaseAnimation_destroy. rewrite Hmd, Ho.
  unfold update_animation, set_animations. destruct w. simpl in *. f_equal.
  apply map_eq. intros k. destruct (decide (k = this)) as [->|Hk].
  - rewrite lookup_alter_eq, Hmd. simpl. f_equal.
    destruct md. simpl in *. now subst.
  - now rewrite lookup_alter_ne.
Qed.

(** What [destroy] of the base class does, field by field. *)
Lemma BaseAnimation_destroy_spec (this : nat) (w : World) (md : BaseAnimation.t) :
  animations w !! this = Some md ->
  let w' := BaseAnimation_destroy this w in
  (exists md', animations w' !! this = Some md' /\ destroyed md'
     /\ BaseAnimation.observerOptions md' = BaseAnimation.observerOptions md
     /\ BaseAnimation.attributeParser md' = BaseAnimation.attributeParser md
     /\ BaseAnimation.class md' = BaseAnimation.class md
     /\ BaseAnimation.activeClass md' = BaseAnimation.activeClass md
     /\ BaseAnimation.pendingAnimations md' = BaseAnimation.pendingAnimations md
     /\ BaseAnimation.scrollListenerAttached md'
        = BaseAnimation.scrollListenerAttached md
     /\ BaseAnimation.rafId md' = BaseAnimation.rafId md)
  /\ (forall obs o, BaseAnimation.observer md = Some obs ->
        observers w !! obs = Some o ->
        exists o', observers w' !! obs = Some o' /\ io_targets o' = []
                   /\ io_init o' = io_init o)
  /\ (forall k, BaseAnimation.observer md <> Some k ->
        observers w' !! k = observers w !! k)
  /\ (forall k, k <> this -> animations w' !! k = animations w !! k)
  /\ dom w' = dom w /\ frames w' = frames w /\ listeners w' = listeners w
  /\ next w' = next w /\ console w' = console w.
Proof.
  intros Hmd w'. subst w'. unfold BaseAnimation_destroy. rewrite Hmd.
  destruct (BaseAnimation.observer md) as [obs|] eqn:Eo.
  - destruct (foldl_unobserve obs (BaseAnimation.elements md) w)
      as (A1 & A2 & A3 & A4 & A5 & A6 & A7 & A8 & A9).
    simpl. rewrite A1, A2, A3, A4, A5, A6.
    split; [|split; [|split; [|split; [|repeat split]]]].
    + rewrite !lookup_alter_eq, Hmd. simpl. eexists. split; [reflexivity|].
      repeat split.
    + intros obs' o [= <-] Hobs. destruct (A8 o Hobs) as (o' & E & Ei & _).
      rewrite lookup_alter_eq, E. simpl. eexists. split; [reflexivity|]. auto.
    + intros k Hk. rewrite lookup_alter_ne by congruence. apply A7. congruence.
    + intros k Hk. now rewrite !lookup_alter_ne.
  - simpl. split; [|split; [|split; [|split; [|repeat split]]]].
    + rewrite lookup_alter_eq, Hmd. simpl. eexists. split; [reflexivity|].
      repeat split. simpl. exact Eo.
    + intros obs' o Hobs. discriminate.
    + reflexivity.
    + intros k Hk. now rewrite lookup_alter_ne.
Qed.

(** [destroy] of the base class empties the roster and the cache of the
    instance and forgets its observer, whose targets it releases; it
    keeps the options computed for the observer, leaves every other
    observer of the page as it is (those the instance created earlier
    included), changes no element, and a second call changes nothing. *)
Theorem BaseAnimation_destroy_post (this : nat) (w : World) (md : BaseAnimation.t) :
  animations w !! this = Some md ->
  let w' := BaseAnimation_destroy this w in
  (exists md', animations w' !! this = Some md' /\ destroyed md'
     /\ BaseAnimation.observerOptions md' = BaseAnimation.observerOptions md
     /\ BaseAnimation.attributeParser md' = BaseAnimation.attributeParser md)
  /\ (forall obs o, BaseAnimation.observer md = Some obs ->
        observers w !! obs = Some o ->
        exists o', observers w' !! obs = Some o' /\ io_targets o' = []
                   /\ io_init o' = io_init o)
  /\ (forall k, BaseAnimation.observer md <> Some k ->
        observers w' !! k = observers w !! k)
  /\ (forall k, k <> this -> animations w' !! k = animations w !! k)
  /\ dom w' = dom w
  /\ BaseAnimation_destroy this w' = w'.
Proof.
  intros Hmd w'.
  destruct (BaseAnimation_destroy_spec this w md Hmd)
    as ((md' & E & Hd & Ho & Hp & _) & H2 & H3 & H4 & H5 & _).
  fold w' in E, H2, H3, H4, H5.
  split; [exists md'; auto|]. repeat (split; [assumption|]).
  now apply (destroy_destroyed this w' md').
Qed.

(** ** The resize listener *)

Lemma filter_none {A} (P : A -> Prop) `{forall x, Decision (P x)} (l : list A) :
  (forall x, x ∈ l -> ~ P x) -> filter P l = [].
Proof.
  induction l as [|x l IH]; intros Hno; [reflexivity|].
  rewrite filter_cons, decide_False by (apply Hno; left).
  apply IH. intros y Hy. apply Hno. now right.
Qed.

Lemma listeners_without_resize (w : World) (l0 : list (string * Fn * Closure)) :
  (forall l, l ∈ l0 -> ~ same_listener "resize" Fn_handleResize l) ->
  listeners w = l0 ++ [("resize", Fn_handleResize, HandleResize)] ->
  listeners (removeEventListener "resize" Fn_handleResize w) = l0.
Proof.
  intros Hno Hl. unfold removeEventListener. simpl. rewrite Hl, filter_app.
  rewrite filter_cons, decide_False, filter_nil, app_nil_r.
  - apply filter_all. exact Hno.
  - intros Hn. apply Hn. split; reflexivity.
Qed.

(** The constructor of a module attaches the static resize handler at
    most once: when the static flag is set it changes neither the
    listeners of the window nor the cached size; when it is not, it caches
    the size of the window and adds the handler.  [cleanup] then removes
    that handler again, since the function it names is the one that was
    added, and a resize event dispatched while the handler is attached
    brings the cached size up to date. *)
Theorem resize_listener_lifecycle (fields : BaseAnimation.t) (w : World) :
  let w1 := (construct fields w).2 in
  resizeListenerAttached w1 = true
  /\ animations w1 !! (construct fields w).1 = Some fields
  /\ (resizeListenerAttached w = true ->
      listeners w1 = listeners w /\ windowHeight w1 = windowHeight w
      /\ windowWidth w1 = windowWidth w)
  /\ (resizeListenerAttached w = false ->
      windowHeight w1 = innerHeight w /\ windowWidth w1 = innerWidth w
      /\ ((forall l, l ∈ listeners w -> ~ same_listener "resize" Fn_handleResize l) ->
          listeners w1
          = listeners w ++ [("resize", Fn_handleResize, HandleResize)]
          /\ listeners (BaseAnimation_cleanup w1) = listeners w
          /\ resizeListenerAttached (BaseAnimation_cleanup w1) = false
          /\ ((forall l, l ∈ listeners w -> l.1.1 <> "resize") ->
              forall width height,
                exists w2,
                  dispatch_window "resize"
                    (set_innerHeight (fun _ => height)
                       (set_innerWidth (fun _ => width) w1)) = Some w2
                  /\ windowHeight w2 = height /\ windowWidth w2 = width))).
Proof.
  intros w1. subst w1. unfold construct, ensureResizeListener. simpl.
  destruct (resizeListenerAttached w) eqn:Ef; simpl.
  - split; [exact Ef|]. split; [apply lookup_insert_eq|].
    split; [auto | discriminate].
  - assert (Ha : forall w0, animations (addEventListener "resize" Fn_handleResize
                                          HandleResize w0) = animations w0).
    { intros w0. unfold addEventListener. now destruct (bool_decide _). }
    assert (Hh : forall w0,
              windowHeight (addEventListener "resize" Fn_handleResize HandleResize w0)
              = windowHeight w0
              /\ windowWidth (addEventListener "resize" Fn_handleResize HandleResize w0)
                 = windowWidth w0).
    { intros w0. unfold addEventListener. now destruct (bool_decide _). }
    split; [reflexivity|]. split; [rewrite Ha; apply lookup_insert_eq|].
    split; [discriminate|]. intros _.
    split; [now rewrite (proj1 (Hh _))|]. split; [now rewrite (proj2 (Hh _))|].
    intros Hno.
    assert (Hadd : forall w0, listeners w0 = listeners w ->
              listeners (addEventListener "resize" Fn_handleResize HandleResize w0)
              = listeners w ++ [("resize", Fn_handleResize, HandleResize)]).
    { intros w0 E0. unfold addEventListener. rewrite bool_decide_false.
      - simpl. now rewrite E0.
      - rewrite E0. intros Hex. apply Exists_exists in Hex as (l & Hin & Hs).
        exact (Hno l Hin Hs). }
    split; [now apply Hadd|].
    unfold BaseAnimation_cleanup. simpl.
    split; [apply listeners_without_resize; [exact Hno | now apply Hadd]|].
    split; [reflexivity|].
    intros Hnr width height. unfold dispatch_window. simpl.
    match goal with
    | |- context [listeners (addEventListener _ _ _ ?w0)] =>
        rewrite (Hadd w0 eq_refl)
    end.
    rewrite filter_app, filter_cons, decide_True by reflexivity.
    rewrite filter_nil.
    replace (filter (fun l => l.1.1 = "resize") (listeners w)) with
      (@nil (string * Fn * Closure)).
    2:{ symmetry. apply filter_none. exact Hnr. }
    simpl. eexists. split; [reflexivity|]. simpl. auto.
Qed.
End BaseMore.

Lemma handleIntersection_entry_progress_witness :
  handleIntersection_entry 2 fade_registered half_entry = Some fade_entered
  /\ progress (style (element fade_entered 1)) = "0.5".
Proof.
  assert (E : handleIntersection_entry 2 fade_registered half_entry = Some fade_entered)
    by (vm_compute; reflexivity).
  split; [exact E|].
  destruct (handleIntersection_entry_progress 2 fade_registered fade_entered half_entry E)
    as [Hp _].
  simpl target in Hp. rewrite Hp. vm_compute. reflexivity.
Defined.

Lemma BaseAnimation_destroy_post_witness :
  animations base_registered !! 4 = Some base_registered_module
  /\ BaseAnimation.elements base_registered_module = [1; 2]
  /\ BaseAnimation.observer base_registered_module = Some 5
  /\ exists o', observers (BaseAnimation_destroy 4 base_registered) !! 5 = Some o'
                /\ io_targets o' = [].
Proof.
  assert (Hmd : animations base_registered !! 4 = Some base_registered_module)
    by (vm_compute; reflexivity).
  split; [exact Hmd|]. split; [vm_compute; reflexivity|].
  split; [vm_compute; reflexivity|].
  destruct (BaseAnimation_destroy_post 4 base_registered base_registered_module Hmd)
    as (_ & Hobs & _).
  edestruct Hobs as (o' & E & Ht & _);
    [vm_compute; reflexivity | vm_compute; reflexivity |].
  exists o'. split; assumption.
Defined.



(** * More on the fade module *)

Local Close Scope Q_scope.
Local Open Scope list_scope.

Section FadeMore.
Context `{Host}.

(** ** Running a frame *)

Lemma list_find_last (l : list (nat * Closure)) (id : nat) (c : Closure) :
  (forall p, p ∈ l -> p.1 <> id) ->
  list_find (fun p => p.1 = id) (l ++ [(id, c)]) = Some (length l, (id, c)).
Proof.
  induction l as [|x l IH]; intros Hno; simpl.
  - now rewrite decide_True.
  - rewrite decide_False by (apply Hno; left).
    rewrite IH by (intros p Hp; apply Hno; now right). reflexivity.
Qed.

Lemma run_frame_last (w : World) (l : list (nat * Closure)) (id : nat) (c : Closure) :
  (forall p, p ∈ l -> p.1 <> id) ->
  frames w = l ++ [(id, c)] ->
  run_frame id w = call c NoArgument (cancelAnimationFrame id w)
  /\ frames (cancelAnimationFrame id w) = l.
Proof.
  intros Hno Hf. unfold run_frame. rewrite Hf, (list_find_last l id c Hno).
  split; [reflexivity|]. unfold cancelAnimationFrame. simpl.
  rewrite Hf, filter_app, filter_cons, decide_False by (simpl; auto).
  rewrite filter_nil, app_nil_r. apply filter_all. exact Hno.
Qed.

Lemma initElement_element this e w e' :
  classList (element (initElement this e w) e') = classList (element w e')
  /\ transition (style (element (initElement this e w) e'))
     = transition (style (element w e'))
  /\ transitionend (element (initElement this e w) e') = transitionend (element w e').
Proof.
  unfold initElement. destruct (animations w !! this) as [md|]; [|auto].
  destruct (negb _ && negb _); [|auto].
  pose proof (getOptions_dom this e w) as Hd.
  destruct (getOptions this e w) as [options w1]. simpl in Hd.
  assert (He : forall x, element w1 x = element w x).
  { intros x. unfold element. now rewrite Hd. }
  destruct (decide (e = e')) as [<-|Hne].
  - rewrite element_update_eq, He. auto.
  - rewrite element_update_ne by exact Hne. rewrite He. auto.
Qed.

(** ** One animation, from the entry to the second frame *)

(** For an element of the fade module that is neither animated nor
    pending, [animate] requests a frame and remembers it.  When that
    frame runs the transition of the element is set from the duration,
    the easing and the delay, in seconds, and a second frame is requested;
    when the second frame runs the element gets the [to] opacity, the
    custom class and the active class, the module forgets the pending
    animation and no frame of this animation is left.  A further call of
    [animate] for the element then does nothing. *)
Theorem fade_animation_runs (this e : nat) (w : World) (md : BaseAnimation.t)
    (options : Options) (duration delay : Num) :
  animations w !! this = Some md ->
  BaseAnimation.class md = FadeInAnimationClass ->
  BaseAnimation.activeClass md ∉ classList (element w e) ->
  BaseAnimation.pendingAnimations md !! e = None ->
  parseTimeValue (or_default options "duration" (VStr "0.5s")) = Some duration ->
  parseTimeValue (or_default options "delay" (VStr "0s")) = Some delay ->
  tokens_valid md options ->
  frames_fresh w ->
  exists w1 w2 w3 md1 md3,
    animate this e options w = Some w1
    /\ animations w1 !! this = Some md1
    /\ BaseAnimation.pendingAnimations md1 !! e = Some (next w)
    /\ run_frame (next w) w1 = Some w2
    /\ transition (style (element w2 e))
       = ("opacity " ++ Number_toString (Ndiv duration 1000) ++ "s "
          ++ js_String (or_default options "easing" (VStr "ease")) ++ " "
          ++ Number_toString (Ndiv delay 1000) ++ "s")%string
    /\ run_frame (S (next w)) w2 = Some w3
    /\ opacity (style (element w3 e))
       = js_String (defined_or options "to" (VNum (Fin 1)))
    /\ BaseAnimation.activeClass md ∈ classList (element w3 e)
    /\ (option_truthy options "class" = true ->
        custom_class options ∈ classList (element w3 e))
    /\ frames w3 = frames w
    /\ animations w3 !! this = Some md3
    /\ BaseAnimation.pendingAnimations md3 !! e = None
    /\ animate this e options w3 = Some w3.
Proof.
  intros Hmd Hc Hcl Hp Hd Hdl [Hva Hvc] Hfr.
  (* animate *)
  set (easing := or_default options "easing" (VStr "ease")).
  set (toOpacity := defined_or options "to" (VNum (Fin 1))).
  set (w0 := initElement this e w).
  destruct (initElement_restyled this e w) as (_ & Hn0 & Hf0 & _ & _ & Hm0).
  destruct (Hm0 md Hmd) as (md0 & Hmd0 & Ec0 & _ & _ & _ & Ea0).
  fold w0 in Hn0, Hf0, Hmd0.
  destruct (initElement_element this e w e) as (Hcl0 & _). fold w0 in Hcl0.
  set (c1 := FadeFrame1 this e duration delay easing toOpacity options).
  set (w1 := update_animation this
               (fun md => BaseAnimation.set_pendingAnimations
                            (<[e := next w0]> (BaseAnimation.pendingAnimations md)) md)
               (set_frames (fun l => l ++ [(next w0, c1)]) (set_next S w0))).
  assert (E1 : animate this e options w = Some w1).
  { unfold animate. rewrite Hmd. simpl. rewrite Hc.
    unfold FadeInAnimation_animate. rewrite Hmd. simpl.
    unfold contains. rewrite bool_decide_false by exact Hcl.
    rewrite bool_decide_false by (rewrite Hp; intros [x Hx]; discriminate).
    simpl. rewrite Hd, Hdl. reflexivity. }
  set (md1 := BaseAnimation.set_pendingAnimations
                (<[e := next w0]> (BaseAnimation.pendingAnimations md0)) md0).
  assert (Hmd1 : animations w1 !! this = Some md1).
  { subst w1. simpl. now rewrite lookup_alter_eq, Hmd0. }
  assert (Ea1 : BaseAnimation.activeClass md1 = BaseAnimation.activeClass md)
    by (subst md1; simpl; exact Ea0).
  assert (Ec1 : BaseAnimation.class md1 = BaseAnimation.class md)
    by (subst md1; simpl; exact Ec0).
  assert (Hp1 : BaseAnimation.pendingAnimations md1 !! e = Some (next w))
    by (subst md1; simpl; rewrite Hn0; apply lookup_insert_eq).
  clearbody md1.
  assert (Hf1 : frames w1 = frames w ++ [(next w, c1)]).
  { subst w1. simpl. now rewrite Hf0, Hn0. }
  assert (Hfresh1 : forall p, p ∈ frames w -> p.1 <> next w).
  { intros p Hin. specialize (Hfr p Hin). lia. }
  assert (Hfresh2 : forall p, p ∈ frames w -> p.1 <> S (next w)).
  { intros p Hin. specialize (Hfr p Hin). lia. }
  assert (Hn1 : next w1 = S (next w)) by (subst w1; simpl; now rewrite Hn0).
  assert (Hd1 : dom w1 = dom w0) by reflexivity.
  (* the first frame *)
  destruct (run_frame_last w1 (frames w) (next w) c1 Hfresh1 Hf1) as [R1 Hfc1].
  set (wc1 := cancelAnimationFrame (next w) w1) in *.
  assert (Hnc1 : next wc1 = S (next w)) by exact Hn1.
  assert (Hdc1 : dom wc1 = dom w0) by exact Hd1.
  assert (Hmdc1 : animations wc1 !! this = Some md1) by exact Hmd1.
  clearbody wc1. clearbody w1.
  set (c2 := FadeFrame2 this e toOpacity options).
  set (w2 := FadeInAnimation_frame1 this e duration delay easing toOpacity options wc1).
  assert (E2 : run_frame (next w) w1 = Some w2) by (rewrite R1; reflexivity).
  assert (Hf2 : frames w2 = frames w ++ [(S (next w), c2)]).
  { subst w2. unfold FadeInAnimation_frame1, requestAnimationFrame. simpl.
    now rewrite Hfc1, Hnc1. }
  assert (Hmd2 : animations w2 !! this = Some md1) by exact Hmdc1.
  assert (Hel2 : element w2 e
                 = set_style
                     (set_transition
                        ("opacity " ++ Number_toString (Ndiv duration 1000) ++ "s "
                         ++ js_String easing ++ " "
                         ++ Number_toString (Ndiv delay 1000) ++ "s")%string)
                     (element w0 e)).
  { subst w2. unfold FadeInAnimation_frame1, requestAnimationFrame. simpl.
    unfold element at 1. simpl. rewrite lookup_insert_eq. simpl.
    unfold element. now rewrite Hdc1. }
  (* the second frame *)
  destruct (run_frame_last w2 (frames w) (S (next w)) c2 Hfresh2 Hf2) as [R2 Hfc2].
  set (wc2 := cancelAnimationFrame (S (next w)) w2) in *.
  assert (Hmdc2 : animations wc2 !! this = Some md1) by exact Hmd2.
  assert (Helc2 : element wc2 e = element w2 e) by reflexivity.
  clearbody wc2. clearbody w2.
  set (el1 := set_style (set_opacity (js_String toOpacity)) (element wc2 e)).
  destruct (add_custom_spec options el1 Hvc) as (el2 & Ea2 & Hx2 & Hs2).
  assert (Hcust : option_truthy options "class" = true ->
            custom_class options ∈ classList el2).
  { intros Hopt. rewrite Hopt in Ea2.
    destruct (classList_add_spec (custom_class options) el1 (Hvc Hopt))
      as (el2' & E' & Hin' & _).
    rewrite E' in Ea2. injection Ea2 as <-. exact Hin'. }
  assert (Hva1 : valid_token (BaseAnimation.activeClass md1) = true)
    by (now rewrite Ea1).
  destruct (classList_add_spec (BaseAnimation.activeClass md1) el2 Hva1)
    as (el3 & Ea3 & Hin3 & Hx3 & Hs3 & _).
  set (w3 := update_animation this
               (fun md => BaseAnimation.set_pendingAnimations
                            (delete e (BaseAnimation.pendingAnimations md)) md)
               (update_element e (fun _ => el3) wc2)).
  assert (E3 : run_frame (S (next w)) w2 = Some w3).
  { rewrite R2. simpl. unfold FadeInAnimation_frame2. rewrite Hmdc2. simpl.
    fold el1. unfold custom_class in Ea2. rewrite Ea2. simpl. rewrite Ea3. reflexivity. }
  assert (Hel3 : element w3 e = el3).
  { subst w3. unfold element. simpl. now rewrite lookup_insert_eq. }
  assert (Hmd3 : animations w3 !! this
                 = Some (BaseAnimation.set_pendingAnimations
                           (delete e (BaseAnimation.pendingAnimations md1)) md1)).
  { subst w3. simpl. now rewrite lookup_alter_eq, Hmdc2. }
  assert (Hact : BaseAnimation.activeClass md ∈ classList (element w3 e)).
  { rewrite Hel3, <- Ea1. exact Hin3. }
  exists w1, w2, w3, md1,
    (BaseAnimation.set_pendingAnimations
       (delete e (BaseAnimation.pendingAnimations md1)) md1).
  split; [exact E1|]. split; [exact Hmd1|].
  split; [exact Hp1|].
  split; [exact E2|]. split; [now rewrite Hel2|].
  split; [exact E3|].
  split; [rewrite Hel3, Hs3, Hs2; reflexivity|].
  split; [exact Hact|].
  split.
  { intros Hopt. rewrite Hel3. apply Hx3. now apply Hcust. }
  split; [subst w3; simpl; exact Hfc2|].
  split; [exact Hmd3|].
  split; [simpl; apply lookup_delete_eq|].
  unfold animate. rewrite Hmd3. simpl. rewrite Ec1, Hc.
  unfold FadeInAnimation_animate. rewrite Hmd3. simpl.
  unfold contains. rewrite Ea1. rewrite bool_decide_true by exact Hact. reflexivity.
Qed.
(** ** Registration *)

(** What [super.register] does to the instance and to the elements. *)
Lemma BaseAnimation_register_spec this els w w' md :
  animations w !! this = Some md ->
  BaseAnimation_register this els w = Some w' ->
  dom w' = dom w
  /\ exists md', animations w' !! this = Some md'
       /\ BaseAnimation.elements md'
          = BaseAnimation.elements md ++ filter (carries md w) els
       /\ BaseAnimation.attributeParser md' = BaseAnimation.attributeParser md
       /\ BaseAnimation.class md' = BaseAnimation.class md
       /\ (forall e, e ∉ els ->
             BaseAnimation.parsedOptions md' !! e = BaseAnimation.parsedOptions md !! e)
       /\ (forall e, ~ carries md w e ->
             BaseAnimation.parsedOptions md' !! e = BaseAnimation.parsedOptions md !! e).
Proof.
  intros Hmd E. unfold BaseAnimation_register in E.
  destruct (initObserver this w) as [w1|] eqn:Ei; [|discriminate]. simpl in E.
  injection E as <-.
  assert (Hi : dom w1 = dom w
               /\ exists md1, animations w1 !! this = Some md1
                    /\ BaseAnimation.elements md1 = BaseAnimation.elements md
                    /\ BaseAnimation.attributeParser md1 = BaseAnimation.attributeParser md
                    /\ BaseAnimation.class md1 = BaseAnimation.class md
                    /\ BaseAnimation.parsedOptions md1 = BaseAnimation.parsedOptions md).
  { unfold initObserver in Ei. rewrite Hmd in Ei. simpl in Ei.
    destruct (BaseAnimation.elements md) as [|e0 rest] eqn:Ee.
    - injection Ei as <-. split; [reflexivity|]. exists md. auto.
    - pose proof (threshold_of_frame (getElementOptions md w e0)
                    (oi_threshold (BaseAnimation.observerOptions md)) w) as Hfr.
      destruct (threshold_of _ _ w) as [th wt]. simpl in Hfr.
      destruct Hfr as (Hd & Hn & Hl & Hf & Ht & Hh & Ha & Ho).
      destruct (rootMargin_valid _); [|discriminate]. injection Ei as <-. simpl.
      rewrite Hd, Ha. split; [reflexivity|].
      rewrite lookup_alter_eq, Hmd. simpl. eexists. split; [reflexivity|].
      simpl. auto. }
  destruct Hi as (Hd & md1 & Hmd1 & Ee1 & Ep1 & Ec1 & Eo1).
  destruct (foldl_register_element this els w1 md1 Hmd1)
    as (Hd' & _ & _ & _ & _ & _ & _ & Ha' & _).
  split; [congruence|].
  eexists. split; [exact Ha'|].
  destruct (foldl_enroll_fields (BaseAnimation.attributeParser md1) (dom w1) els md1)
    as (_ & F2 & _ & F4 & _).
  split.
  { rewrite foldl_enroll_elements, Ee1, Ep1, Hd. reflexivity. }
  split; [congruence|]. split; [congruence|].
  assert (Hother : forall l m e,
            (e ∉ l \/ ~ carries md w e) ->
            BaseAnimation.parsedOptions
              (foldl (enroll (BaseAnimation.attributeParser md1) (dom w1)) m l) !! e
            = BaseAnimation.parsedOptions m !! e).
  { induction l as [|x l IH]; intros m e Hx; [reflexivity|]. simpl.
    rewrite IH.
    2:{ destruct Hx as [Hx|Hx]; [left|right; exact Hx].
        intros Hin. apply Hx. now right. }
    unfold enroll.
    destruct (hasAnimationAttributes _ _) eqn:Hh; [|reflexivity]. simpl.
    apply lookup_insert_ne. intros ->. destruct Hx as [Hx|Hx].
    - apply Hx. left.
    - apply Hx. unfold carries, element. now rewrite <- Ep1, <- Hd. }
  split; intros e He; rewrite Hother by auto; now rewrite Eo1.
Qed.

(** [register] of the fade module makes an element transparent before it
    checks that the element carries the attribute of the module: an
    element that is not yet transparent or animated gets the [from]
    opacity and becomes visible, also when it does not carry the
    attribute; it is then left out of the roster, with its options in the
    cache of the module. *)
Theorem fade_register_hides_first (this e : nat) (w w' : World)
    (md : BaseAnimation.t) :
  animations w !! this = Some md ->
  opacity (style (element w e)) <> "0" ->
  BaseAnimation.activeClass md ∉ classList (element w e) ->
  FadeInAnimation_register this [e] w = Some w' ->
  let options := (getOptions this e w).1 in
  opacity (style (element w' e)) = js_String (defined_or options "from" (VNum (Fin 0)))
  /\ visibility (style (element w' e)) = "visible"
  /\ exists md', animations w' !! this = Some md'
       /\ (~ carries md w e ->
           BaseAnimation.elements md' = BaseAnimation.elements md
           /\ BaseAnimation.parsedOptions md' !! e = Some options).
Proof.
  intros Hmd Hop Hcl E options. unfold FadeInAnimation_register in E. simpl in E.
  set (w0 := initElement this e w) in E.
  assert (H0 : element w0 e
               = set_style (fun s => set_visibility "visible"
                                       (set_opacity
                                          (js_String (defined_or options "from"
                                                        (VNum (Fin 0)))) s))
                   (element w e)
               /\ (forall x, attributes (element w0 x) = attributes (element w x))
               /\ exists md0, animations w0 !! this = Some md0
                    /\ BaseAnimation.parsedOptions md0 !! e = Some options
                    /\ BaseAnimation.elements md0 = BaseAnimation.elements md
                    /\ BaseAnimation.attributeParser md0
                       = BaseAnimation.attributeParser md).
  { subst w0 options. unfold initElement. rewrite Hmd.
    apply String.eqb_neq in Hop. rewrite Hop. unfold contains.
    rewrite bool_decide_false by exact Hcl. simpl.
    pose proof (getOptions_dom this e w) as Hd.
    assert (Hg : exists md0, animations (getOptions this e w).2 !! this = Some md0
                   /\ BaseAnimation.parsedOptions md0 !! e = Some (getOptions this e w).1
                   /\ BaseAnimation.elements md0 = BaseAnimation.elements md
                   /\ BaseAnimation.attributeParser md0
                      = BaseAnimation.attributeParser md).
    { unfold getOptions. rewrite Hmd.
      destruct (BaseAnimation.parsedOptions md !! e) as [o|] eqn:Eo; simpl.
      - exists md. auto.
      - rewrite lookup_alter_eq, Hmd. simpl. eexists. split; [reflexivity|].
        simpl. split; [apply lookup_insert_eq | auto]. }
    destruct (getOptions this e w) as [o w1]. simpl in *.
    assert (He : forall x, element w1 x = element w x).
    { intros x. unfold element. now rewrite Hd. }
    split; [now rewrite element_update_eq, He|]. split; [|exact Hg].
    intros x. destruct (decide (e = x)) as [<-|Hne].
    - now rewrite element_update_eq, He.
    - now rewrite element_update_ne, He. }
  destruct H0 as (Hel0 & Hat0 & md0 & Hmd0 & Hc0 & He0 & Hp0).
  destruct (BaseAnimation_register_spec this [e] w0 w' md0 Hmd0 E)
    as (Hd & md' & Hmd' & Hroster & _ & _ & _ & Hcache).
  assert (He' : element w' e = element w0 e).
  { unfold element. now rewrite Hd. }
  rewrite He', Hel0. split; [reflexivity|]. split; [reflexivity|].
  exists md'. split; [exact Hmd'|].
  assert (Hcar : carries md0 w0 e <-> carries md w e).
  { unfold carries. now rewrite Hp0, Hat0. }
  intros Hc. assert (Hc' : ~ carries md0 w0 e) by (now rewrite Hcar).
  split.
  - rewrite Hroster, He0.
    rewrite filter_cons, decide_False by exact Hc'. rewrite filter_nil.
    apply app_nil_r.
  - rewrite Hcache by exact Hc'. exact Hc0.
Qed.

(** ** Destroying the module *)

Lemma cancel_all_spec (m : gmap nat nat) (w : World) :
  let w' := map_fold (fun _ rafId w => cancelAnimationFrame rafId w) w m in
  (forall p, p ∈ frames w' <-> p ∈ frames w /\ forall e, m !! e <> Some p.1)
  /\ dom w' = dom w /\ animations w' = animations w /\ observers w' = observers w
  /\ listeners w' = listeners w /\ next w' = next w /\ console w' = console w
  /\ kept w w'.
Proof.
  apply (map_fold_weak_ind
           (fun r m =>
              (forall p, p ∈ frames r <-> p ∈ frames w /\ forall e, m !! e <> Some p.1)
              /\ dom r = dom w /\ animations r = animations w
              /\ observers r = observers w /\ listeners r = listeners w
              /\ next r = next w /\ console r = console w /\ kept w r)).
  - split; [|repeat split]. intros p. split; [|tauto].
    intros Hp. split; [exact Hp|]. intros e. now rewrite lookup_empty.
  - intros i x m0 r Hi (Hf & Hd & Ha & Ho & Hl & Hn & Hc & Hk).
    split; [|simpl; repeat split; try assumption; apply Hk].
    intros p. unfold cancelAnimationFrame. simpl.
    rewrite list_elem_of_filter, Hf. split.
    + intros (Hne & Hin & Hm). split; [exact Hin|]. intros e.
      destruct (decide (e = i)) as [->|Hei].
      * rewrite lookup_insert_eq. congruence.
      * rewrite lookup_insert_ne by congruence. apply Hm.
    + intros (Hin & Hm). split; [|split; [exact Hin|]].
      * specialize (Hm i). rewrite lookup_insert_eq in Hm. congruence.
      * intros e Hme. apply (Hm e). rewrite lookup_insert_ne; [exact Hme|].
        intros <-. congruence.
Qed.

(** [destroy] of the fade module cancels the frames that [animate]
    remembered, and no other: a pending frame is still pending afterwards
    exactly when no entry of [pendingAnimations] names it, which is the
    case of the second frame of an animation.  The instance is left
    without elements, cached options, observer and pending animations,
    and no element of the page is changed. *)
Theorem FadeInAnimation_destroy_post (this : nat) (w : World) (md : BaseAnimation.t) :
  animations w !! this = Some md ->
  let w' := FadeInAnimation_destroy this w in
  (exists md', animations w' !! this = Some md' /\ destroyed md'
     /\ BaseAnimation.pendingAnimations md' = ∅)
  /\ (forall p, p ∈ frames w' <->
        p ∈ frames w /\ forall e, BaseAnimation.pendingAnimations md !! e <> Some p.1)
  /\ dom w' = dom w
  /\ (forall k, k <> this -> animations w' !! k = animations w !! k).
Proof.
  intros Hmd w'. subst w'. unfold FadeInAnimation_destroy. rewrite Hmd.
  destruct (cancel_all_spec (BaseAnimation.pendingAnimations md) w)
    as (Hf & Hd & Ha & _).
  set (wc := map_fold _ w (BaseAnimation.pendingAnimations md)) in *.
  set (w1 := update_animation this (BaseAnimation.set_pendingAnimations ∅) wc).
  assert (Hmd1 : animations w1 !! this
                 = Some (BaseAnimation.set_pendingAnimations ∅ md)).
  { subst w1. simpl. now rewrite lookup_alter_eq, Ha, Hmd. }
  destruct (BaseAnimation_destroy_spec this w1 _ Hmd1)
    as ((md' & Hmd' & Hdes & _ & _ & _ & _ & Hpend & _) & _ & _ & Hoth & Hdom & Hfr & _).
  split; [|split; [|split]].
  - exists md'. split; [exact Hmd'|]. split; [exact Hdes|]. exact Hpend.
  - intros p. rewrite <- Hf, Hfr. reflexivity.
  - rewrite Hdom. exact Hd.
  - intros k Hk. rewrite Hoth by exact Hk. subst w1. simpl.
    now rewrite lookup_alter_ne, Ha.
Qed.

End FadeMore.

Lemma fade_animation_runs_witness :
  animations fade_registered !! 2 = Some fade_registered_module
  /\ frames_fresh fade_registered
  /\ exists w1 w2 w3,
      animate 2 1 ∅ fade_registered = Some w1
      /\ run_frame (next fade_registered) w1 = Some w2
      /\ run_frame (S (next fade_registered)) w2 = Some w3
      /\ opacity (style (element w3 1)) = "1"
      /\ "is-animated" ∈ classList (element w3 1).
Proof.
  assert (Hmd : animations fade_registered !! 2 = Some fade_registered_module)
    by (vm_compute; reflexivity).
  assert (Hfr : frames_fresh fade_registered).
  { intros p Hp. vm_compute in Hp. inversion Hp. }
  split; [exact Hmd|]. split; [exact Hfr|].
  destruct (fade_animation_runs 2 1 fade_registered fade_registered_module ∅
              (Nmul (parseFloat "0.5s") (Fin 1000)) (Nmul (parseFloat "0s") (Fin 1000)))
    as (w1 & w2 & w3 & md1 & md3 & E1 & _ & _ & E2 & _ & E3 & Hop & Hact & _).
  - exact Hmd.
  - vm_compute. reflexivity.
  - intros Hin. vm_compute in Hin. inversion Hin.
  - vm_compute. reflexivity.
  - reflexivity.
  - reflexivity.
  - split; [reflexivity | discriminate].
  - exact Hfr.
  - exists w1, w2, w3. split; [exact E1|]. split; [exact E2|]. split; [exact E3|].
    split; [rewrite Hop; reflexivity|].
    replace "is-animated" with (BaseAnimation.activeClass fade_registered_module)
      by (vm_compute; reflexivity).
    exact Hact.
Defined.

Lemma fade_register_hides_first_witness :
  animations foreign_module.2 !! 2 = Some FadeInAnimation_fields
  /\ ~ carries FadeInAnimation_fields foreign_module.2 1
  /\ FadeInAnimation_register 2 [1] foreign_module.2 = Some foreign_registered
  /\ opacity (style (element foreign_registered 1)) = "0"
  /\ exists md', animations foreign_registered !! 2 = Some md'
       /\ BaseAnimation.elements md' = [].
Proof.
  assert (Hmd : animations foreign_module.2 !! 2 = Some FadeInAnimation_fields)
    by (vm_compute; reflexivity).
  assert (Hc : ~ carries FadeInAnimation_fields foreign_module.2 1).
  { unfold carries. vm_compute. discriminate. }
  assert (E : FadeInAnimation_register 2 [1] foreign_module.2 = Some foreign_registered)
    by (vm_compute; reflexivity).
  split; [exact Hmd|]. split; [exact Hc|]. split; [exact E|].
  destruct (fade_register_hides_first 2 1 foreign_module.2 foreign_registered
              FadeInAnimation_fields Hmd)
    as (Hop & _ & md' & Hmd' & Hno); [ | | exact E | ].
  - vm_compute. discriminate.
  - intros Hin. vm_compute in Hin. inversion Hin.
  - split; [rewrite Hop; vm_compute; reflexivity|].
    exists md'. split; [exact Hmd'|]. now destruct (Hno Hc) as [-> _].
Defined.

Lemma FadeInAnimation_destroy_post_witness :
  animations fade_midway !! 2 = Some fade_midway_module
  /\ BaseAnimation.pendingAnimations fade_midway_module = {[ 1 := 3 ]}
  /\ exists c, (4, c) ∈ frames fade_midway
       /\ (4, c) ∈ frames (FadeInAnimation_destroy 2 fade_midway).
Proof.
  assert (Hmd : animations fade_midway !! 2 = Some fade_midway_module)
    by (vm_compute; reflexivity).
  assert (Hp : BaseAnimation.pendingAnimations fade_midway_module = {[ 1 := 3 ]})
    by (vm_compute; reflexivity).
  split; [exact Hmd|]. split; [exact Hp|].
  destruct (FadeInAnimation_destroy_post 2 fade_midway fade_midway_module Hmd)
    as (_ & Hf & _).
  assert (Hin : exists c, (4, c) ∈ frames fade_midway).
  { eexists. vm_compute. left. }
  destruct Hin as [c Hin]. exists c. split; [exact Hin|].
  apply Hf. split; [exact Hin|]. intros e. rewrite Hp. simpl.
  intros He. apply lookup_singleton_Some in He as [_ He]. discriminate.
Defined.



(** * More on the parallax module *)

Local Close Scope Q_scope.
Local Open Scope list_scope.

Section ParallaxMore.
Context `{Host}.

(** ** The progress through the viewport *)

(** For a viewport and an element of positive total height the progress
    is a number between 0 and 1: the quotient of the distance travelled,
    [viewportHeight - top], by [viewportHeight + height], clamped; it is 0
    while the top of the element is at or below the lower edge of the
    viewport, 1 once the bottom of the element is at or above the upper
    edge, and it never decreases when the element moves up. *)
Theorem traversal_progress_bounds (viewportHeight rect_top height : Q) :
  (0 < viewportHeight + height)%Q ->
  exists p,
    traversal_progress viewportHeight rect_top height = Fin p
    /\ (0 <= p)%Q /\ (p <= 1)%Q
    /\ ((viewportHeight <= rect_top)%Q -> (p == 0)%Q)
    /\ ((rect_top + height <= 0)%Q -> (p == 1)%Q)
    /\ ((rect_top <= viewportHeight)%Q -> (0 <= rect_top + height)%Q ->
        (p == (viewportHeight - rect_top) / (viewportHeight + height))%Q)
    /\ forall higher,
         (higher <= rect_top)%Q ->
         exists p', traversal_progress viewportHeight higher height = Fin p'
                    /\ (p <= p')%Q.
Proof.
  intros Hpos. unfold traversal_progress.
  assert (Hne : Qeq_bool (viewportHeight + height) 0 = false).
  { destruct (Qeq_bool (viewportHeight + height) 0) eqn:E; [|reflexivity].
    apply Qeq_bool_iff in E. lra. }
  rewrite Hne.
  set (x := ((viewportHeight - rect_top) / (viewportHeight + height))%Q).
  exists (Qmin (Qmax x 0) 1). split; [reflexivity|].
  split; [apply Q.min_glb; [apply Q.le_max_r | discriminate]|].
  split; [apply Q.le_min_r|].
  split; [|split; [|split]].
  - intros Hb.
    assert (Hx : (x <= 0)%Q).
    { subst x. apply Qle_shift_div_r; [exact Hpos | lra]. }
    rewrite (Q.max_r x 0 Hx). apply Q.min_l. discriminate.
  - intros Ha.
    assert (Hx : (1 <= x)%Q).
    { subst x. apply Qle_shift_div_l; [exact Hpos | lra]. }
    rewrite (Q.max_l x 0) by lra. now apply Q.min_r.
  - intros H1 H2.
    assert (Hx0 : (0 <= x)%Q).
    { subst x. apply Qle_shift_div_l; [exact Hpos | lra]. }
    assert (Hx1 : (x <= 1)%Q).
    { subst x. apply Qle_shift_div_r; [exact Hpos | lra]. }
    rewrite (Q.max_l x 0 Hx0). now apply Q.min_l.
  - intros higher Hh.
    exists (Qmin (Qmax ((viewportHeight - higher) / (viewportHeight + height)) 0) 1).
    split; [reflexivity|].
    apply Q.min_le_compat_r, Q.max_le_compat_r.
    subst x. apply Qle_shift_div_l; [exact Hpos|].
    unfold Qdiv. rewrite <- Qmult_assoc, (Qmult_comm (/ _)), Qmult_inv_r by lra. lra.
Qed.
(** ** The translation *)

Lemma direction_other {A} (s : string) (up down left other : A) :
  s <> "up"%string -> s <> "down"%string -> s <> "left"%string ->
  match VStr s with
  | VStr "up" => up
  | VStr "down" => down
  | VStr "left" => left
  | _ => other
  end = other.
Proof.
  intros Hu Hd Hl.
  do 5 (try (destruct s as [|[[] [] [] [] [] [] [] []] s];
             try reflexivity; try congruence)).
Qed.

(** The translation of [applyParallaxEffect], by direction.  Without a
    direction, or with one that is falsy, the element moves as for
    [down]; [up] and [left] give the opposite of [down] and [right], on
    the vertical and the horizontal axis; any other truthy direction is
    treated as [right].  With a numeric speed and no [start] and [end]
    options of its own the offset is the sum the source computes from
    the speed, the height of the window, the progress and the positions
    of the module, [speed * windowHeight * start
    + progress * speed * windowHeight * end], the products taken from the
    left; when the speed, the height and the end position are not
    negative, and no factor exceeds [2^100] in magnitude, it does not
    decrease when the progress increases. *)
Theorem parallax_translation_shape (md : BaseAnimation.t) (options : Options)
    (windowHeight : Q) (progress : Num) :
  options !! "direction" = None ->
  let toward d := parallax_translation md (<["direction" := d]> options)
                    windowHeight progress in
  exists pos,
    parallax_translation md options windowHeight progress = (AxisY, Nmul pos (Fin 1))
    /\ toward (VStr "down") = (AxisY, Nmul pos (Fin 1))
    /\ toward (VStr "up") = (AxisY, Nmul pos (Fin (-1)))
    /\ toward (VStr "right") = (AxisX, Nmul pos (Fin 1))
    /\ toward (VStr "left") = (AxisX, Nmul pos (Fin (-1)))
    /\ (forall d, truthy d = false -> toward d = (AxisY, Nmul pos (Fin 1)))
    /\ (forall d, truthy d = true ->
          d <> VStr "up" -> d <> VStr "down" -> d <> VStr "left" ->
          toward d = (AxisX, Nmul pos (Fin 1)))
    /\ forall s p,
         defined_or options "speed" (VNum (Fin (1 # 5))) = VNum (Fin s) ->
         options !! "start" = None -> options !! "end" = None ->
         progress = Fin p ->
         let a := BaseAnimation.parallaxPositionStart md in
         let b := BaseAnimation.parallaxPositionEnd md in
         let offset x :=
           Nadd (Nmul (Nmul (Fin s) (Fin windowHeight)) (Fin a))
                (Nmul (Nmul (Nmul (Fin x) (Fin s)) (Fin windowHeight)) (Fin b)) in
         pos = offset p
         /\ ((0 <= s)%Q -> (0 <= windowHeight)%Q -> (0 <= b)%Q ->
             forall p', (p <= p')%Q ->
               Forall (fun x => (Qabs x <= inject_Z (2 ^ 100))%Q)
                 [s; windowHeight; a; b; p; p'] ->
               exists q q', offset p = Fin q /\ offset p' = Fin q' /\ (q <= q')%Q).
Proof.
  intros Hdir toward.
  set (speed := ToNumber (defined_or options "speed" (VNum (Fin (1 # 5))))).
  set (startPosition :=
         ToNumber (defined_or options "start"
                     (VNum (Fin (BaseAnimation.parallaxPositionStart md))))).
  set (endPosition :=
         ToNumber (defined_or options "end"
                     (VNum (Fin (BaseAnimation.parallaxPositionEnd md))))).
  exists (parallax_position speed (Fin windowHeight) startPosition endPosition progress).
  assert (Ht : forall d,
            toward d
            = match (if truthy d then d else VStr "down") with
              | VStr "up" =>
                  (AxisY, Nmul (parallax_position speed (Fin windowHeight) startPosition
                                  endPosition progress) (Fin (-1)))
              | VStr "down" =>
                  (AxisY, Nmul (parallax_position speed (Fin windowHeight) startPosition
                                  endPosition progress) (Fin 1))
              | VStr "left" =>
                  (AxisX, Nmul (parallax_position speed (Fin windowHeight) startPosition
                                  endPosition progress) (Fin (-1)))
              | _ =>
                  (AxisX, Nmul (parallax_position speed (Fin windowHeight) startPosition
                                  endPosition progress) (Fin 1))
              end).
  { intros d. subst toward. unfold parallax_translation, or_default, defined_or.
    rewrite lookup_insert_eq. rewrite !lookup_insert_ne by discriminate. reflexivity. }
  split.
  { unfold parallax_translation, or_default. rewrite Hdir. reflexivity. }
  split; [now rewrite Ht|]. split; [now rewrite Ht|].
  split; [now rewrite Ht|]. split; [now rewrite Ht|].
  split; [intros d Hd; now rewrite Ht, Hd|].
  split.
  { intros d Hd Hu Hdn Hl. rewrite Ht, Hd. destruct d as [b|n|s|j]; try reflexivity.
    apply direction_other; congruence. }
  intros s p Hs Ha Hb -> a b offset.
  subst speed startPosition endPosition. unfold defined_or in *.
  rewrite Ha, Hb. rewrite Hs. split; [reflexivity|].
  intros H0 H1 H2 p' Hp _. subst offset. simpl. eexists _, _.
  split; [reflexivity|]. split; [reflexivity|]. fold a b.
  assert (0 <= s * windowHeight * b)%Q.
  { apply Qmult_le_0_compat; [apply Qmult_le_0_compat|]; assumption. }
  nra.
Qed.

(** ** Updating the elements *)

Lemma classList_add_in c el el' :
  classList_add c el = Some el' ->
  c ∈ classList el' /\ style el' = style el /\ rect el' = rect el
  /\ attributes el' = attributes el
  /\ forall x, x ∈ classList el -> x ∈ classList el'.
Proof.
  unfold classList_add. destruct (valid_token c); [|discriminate].
  intros [= <-]. simpl. unfold contains. case_bool_decide.
  - repeat split; auto.
  - repeat split; auto.
    + apply elem_of_app. right. now left.
    + intros x Hx. apply elem_of_app. now left.
Qed.

Lemma custom_add_keeps (options : Options) el el' :
  (if option_truthy options "class"
   then classList_add (js_String (defined_or options "class" (VBool false))) el
   else Some el) = Some el' ->
  style el' = style el /\ rect el' = rect el /\ attributes el' = attributes el
  /\ forall x, x ∈ classList el -> x ∈ classList el'.
Proof.
  destruct (option_truthy options "class").
  - intros E. apply classList_add_in in E as (_ & ? & ? & ? & ?). auto.
  - intros [= <-]. auto.
Qed.

(** The options [getOptions] returns do not depend on the style of the
    element. *)
Lemma getOptions_restyle this e w f :
  (forall el, attributes (f el) = attributes el) ->
  (getOptions this e (update_element e f w)).1 = (getOptions this e w).1.
Proof.
  intros Hf. unfold getOptions. simpl.
  destruct (animations w !! this) as [md|]; [|reflexivity].
  destruct (BaseAnimation.parsedOptions md !! e); [reflexivity|]. simpl.
  unfold getElementOptions. now rewrite element_update_eq, Hf.
Qed.

Lemma updateParallaxElement_effect this e w w' md :
  animations w !! this = Some md ->
  near w e = true ->
  updateParallaxElement this w e = Some w' ->
  let p := traversal_progress (windowHeight w) (top (rect (element w e)))
             (height (rect (element w e))) in
  progress (style (element w' e)) = Number_toString p
  /\ transform (style (element w' e))
     = transform_of (parallax_translation md (getOptions this e w).1 (windowHeight w) p)
  /\ BaseAnimation.activeClass md ∈ classList (element w' e)
  /\ (forall x, x <> e -> dom w' !! x = dom w !! x)
  /\ (forall x, rect (element w' x) = rect (element w x))
  /\ (forall x, attributes (element w' x) = attributes (element w x))
  /\ windowHeight w' = windowHeight w.
Proof.
  intros Hmd Hnear E p. unfold updateParallaxElement in E.
  unfold near in Hnear. rewrite Hnear in E. fold p in E.
  unfold applyParallaxEffect in E.
  set (ws := setProgress e p w) in E.
  assert (Hmds : animations ws !! this = Some md) by exact Hmd.
  rewrite Hmds in E. simpl in E.
  pose proof (getOptions_restyle this e w (set_style (set_progress (Number_toString p)))
                (fun _ => eq_refl)) as Hopt.
  fold (setProgress e p w) in Hopt. fold ws in Hopt.
  pose proof (getOptions_dom this e ws) as Hd.
  pose proof (getOptions_kept this e ws) as Hk.
  destruct (getOptions this e ws) as [options w1]. simpl in Hopt, Hd, Hk.
  destruct Hk as (_ & _ & _ & _ & _ & _ & _ & _ & Hwh & _).
  assert (He1 : forall x, element w1 x = element ws x).
  { intros x. unfold element. now rewrite Hd. }
  set (el1 := set_style _ (element w1 e)) in E.
  destruct (if option_truthy options "class" then _ else _) as [el2|] eqn:E2;
    [|discriminate].
  simpl in E. destruct (classList_add _ el2) as [el3|] eqn:E3; [|discriminate].
  simpl in E. injection E as <-.
  destruct (custom_add_keeps _ _ _ E2) as (Hs2 & Hr2 & Ha2 & _).
  destruct (classList_add_in _ _ _ E3) as (Hin3 & Hs3 & Hr3 & Ha3 & _).
  rewrite element_update_eq.
  assert (Hes : element ws e = set_style (set_progress (Number_toString p)) (element w e)).
  { subst ws. unfold setProgress. now rewrite element_update_eq. }
  split; [rewrite Hs3, Hs2; subst el1; simpl; now rewrite He1, Hes|].
  split.
  { rewrite Hs3, Hs2. subst el1. simpl. rewrite Hwh, Hopt. reflexivity. }
  split; [exact Hin3|].
  split.
  { intros x Hx. unfold update_element. simpl. rewrite lookup_insert_ne by congruence.
    rewrite Hd. subst ws. unfold setProgress, update_element. simpl.
    now rewrite lookup_insert_ne by congruence. }
  split; [|split].
  - intros x. destruct (decide (e = x)) as [<-|Hx].
    + rewrite element_update_eq, Hr3, Hr2. subst el1. simpl. now rewrite He1, Hes.
    + rewrite element_update_ne by exact Hx. rewrite He1. subst ws.
      unfold setProgress. now rewrite element_update_ne.
  - intros x. destruct (decide (e = x)) as [<-|Hx].
    + rewrite element_update_eq, Ha3, Ha2. subst el1. simpl. now rewrite He1, Hes.
    + rewrite element_update_ne by exact Hx. rewrite He1. subst ws.
      unfold setProgress. now rewrite element_update_ne.
  - exact Hwh.
Qed.

Lemma updateParallaxElement_restyled this e w w' :
  updateParallaxElement this w e = Some w' -> restyled this w w'.
Proof.
  unfold updateParallaxElement. destruct (Qle_bool _ _ && Qle_bool _ _).
  - intros E. apply applyParallaxEffect_restyled in E.
    eapply restyled_trans; [|exact E]. apply restyled_update_element.
  - intros [= <-]. apply restyled_refl.
Qed.

Lemma updateParallaxElement_far this e w :
  near w e = false -> updateParallaxElement this w e = Some w.
Proof. intros Hf. unfold updateParallaxElement. unfold near in Hf. now rewrite Hf. Qed.

Lemma updateParallaxElements_loop this (l : list nat) :
  forall w w',
    is_Some (animations w !! this) ->
    foldl (fun ow e => w ← ow; updateParallaxElement this w e) (Some w) l = Some w' ->
    (forall x, x ∉ l \/ near w x = false -> dom w' !! x = dom w !! x)
    /\ (forall x, rect (element w' x) = rect (element w x))
    /\ windowHeight w' = windowHeight w.
Proof.
  induction l as [|e l IH]; intros w w' Hmd E; simpl in E.
  - injection E as <-. auto.
  - destruct (updateParallaxElement this w e) as [w1|] eqn:E1; simpl in E;
      [|now rewrite foldl_None in E].
    assert (H1 : (forall x, x <> e \/ near w x = false -> dom w1 !! x = dom w !! x)
                 /\ (forall x, rect (element w1 x) = rect (element w x))
                 /\ windowHeight w1 = windowHeight w
                 /\ is_Some (animations w1 !! this)).
    { destruct (near w e) eqn:En.
      - destruct Hmd as [md Hmd].
        destruct (updateParallaxElement_effect this e w w1 md Hmd En E1)
          as (_ & _ & _ & Hd & Hr & _ & Hh).
        split; [|split; [|split]]; auto.
        + intros x [Hx|Hx]; [now apply Hd|].
          destruct (decide (x = e)) as [->|Hne]; [congruence | now apply Hd].
        + apply updateParallaxElement_restyled in E1.
          destruct E1 as (_ & _ & _ & _ & _ & Hm). destruct (Hm md Hmd) as (md' & -> & _).
          eauto.
      - rewrite (updateParallaxElement_far this e w En) in E1. injection E1 as <-. auto. }
    destruct H1 as (Hd1 & Hr1 & Hh1 & Hmd1).
    destruct (IH w1 w' Hmd1 E) as (Hd & Hr & Hh).
    assert (Hnear : forall x, near w1 x = near w x).
    { intros x. unfold near. now rewrite Hr1, Hh1. }
    split; [|split]; [| intros x; now rewrite Hr, Hr1 | congruence].
    intros x Hx. rewrite Hd, Hd1.
    + reflexivity.
    + destruct Hx as [Hx|Hx]; [left|right; exact Hx].
      intros ->. apply Hx. left.
    + destruct Hx as [Hx|Hx]; [left|right; now rewrite Hnear].
      intros Hin. apply Hx. now right.
Qed.

(** [updateParallaxElements] leaves alone every element that is not in
    the roster of the module and every element whose rectangle is more
    than 100 pixels outside the viewport.  For an element it processes it
    sets the progress variable to the progress through the viewport and
    the transform to the translation computed from that progress, the
    options of the element and the cached height of the window, and it
    adds the active class; no other element is changed by that step. *)
Theorem updateParallaxElements_scope (this : nat) (w : World) (md : BaseAnimation.t) :
  animations w !! this = Some md ->
  (forall w', updateParallaxElements this w = Some w' ->
     forall x, x ∉ BaseAnimation.elements md \/ near w x = false ->
       dom w' !! x = dom w !! x)
  /\ (forall e, near w e = false -> updateParallaxElement this w e = Some w)
  /\ (forall e w', near w e = true -> updateParallaxElement this w e = Some w' ->
        let p := traversal_progress (windowHeight w) (top (rect (element w e)))
                   (height (rect (element w e))) in
        progress (style (element w' e)) = Number_toString p
        /\ transform (style (element w' e))
           = transform_of
               (parallax_translation md (getOptions this e w).1 (windowHeight w) p)
        /\ BaseAnimation.activeClass md ∈ classList (element w' e)
        /\ forall x, x <> e -> dom w' !! x = dom w !! x).
Proof.
  intros Hmd. split; [|split].
  - intros w' E x Hx. unfold updateParallaxElements in E. rewrite Hmd in E. simpl in E.
    destruct (updateParallaxElements_loop this _ w w' (ex_intro _ md Hmd) E) as (Hd & _).
    now apply Hd.
  - intros e. apply updateParallaxElement_far.
  - intros e w' Hn E p.
    destruct (updateParallaxElement_effect this e w w' md Hmd Hn E)
      as (H1 & H2 & H3 & H4 & _).
    auto.
Qed.

(** ** Scroll events *)

Lemma NoDup_fst_eq {A B} (l : list (A * B)) (p q : A * B) :
  NoDup l.*1 -> p ∈ l -> q ∈ l -> p.1 = q.1 -> p = q.
Proof.
  induction l as [|x l IH]; intros Hnd Hp Hq Heq; [inversion Hp|].
  simpl in Hnd. apply NoDup_cons in Hnd as [Hx Hnd].
  apply elem_of_cons in Hp as [->|Hp]; apply elem_of_cons in Hq as [->|Hq].
  - reflexivity.
  - exfalso. apply Hx. rewrite Heq. apply list_elem_of_fmap. eauto.
  - exfalso. apply Hx. rewrite <- Heq. apply list_elem_of_fmap. eauto.
  - now apply IH.
Qed.

Lemma filter_ext_in {A} (P Q : A -> Prop) `{forall x, Decision (P x)}
    `{forall x, Decision (Q x)} (l : list A) :
  (forall x, x ∈ l -> (P x <-> Q x)) -> filter P l = filter Q l.
Proof.
  induction l as [|x l IH]; intros Hpq; [reflexivity|].
  rewrite !filter_cons.
  assert (Hx : P x <-> Q x) by (apply Hpq; left).
  rewrite IH by (intros y Hy; apply Hpq; now right).
  destruct (decide (P x)), (decide (Q x)); tauto.
Qed.

Lemma handleScroll_step (this : nat) (w : World) :
  scroll_invariant this w ->
  exists w' md',
    handleScroll this w = Some w'
    /\ scroll_invariant this w'
    /\ animations w' !! this = Some md'
    /\ BaseAnimation.rafId md' = Some (next w)
    /\ scroll_pending this w' = [next w]
    /\ dom w' = dom w /\ listeners w' = listeners w
    /\ frames w'
       = filter (fun p => is_parallax_frame this p.2 = false) (frames w)
         ++ [(next w, ParallaxFrame this)].
Proof.
  intros (Hfr & Hnd & md & Hmd & Hpend). unfold handleScroll. rewrite Hmd. simpl.
  set (w1 := match BaseAnimation.rafId md with
             | Some id => cancelAnimationFrame id w
             | None => w
             end).
  assert (H1 : next w1 = next w /\ dom w1 = dom w /\ listeners w1 = listeners w
               /\ animations w1 = animations w
               /\ frames w1
                  = filter (fun p => is_parallax_frame this p.2 = false) (frames w)).
  { subst w1. destruct (BaseAnimation.rafId md) as [id|] eqn:Er; simpl.
    - repeat split; auto. simpl in Hpend. apply filter_ext_in. intros p Hp. split.
      + intros Hne. destruct (is_parallax_frame this p.2) eqn:Epar; [|reflexivity].
        exfalso. apply Hne.
        assert (Hin : p.1 ∈ scroll_pending this w).
        { apply list_elem_of_fmap. exists p. split; [reflexivity|].
          apply list_elem_of_filter. auto. }
        rewrite Hpend in Hin. now apply list_elem_of_singleton in Hin.
      + intros Hnp Hid.
        assert (Hin : id ∈ scroll_pending this w) by (rewrite Hpend; left).
        apply list_elem_of_fmap in Hin as (q & Hq1 & Hq).
        apply list_elem_of_filter in Hq as [Hqp Hq].
        assert (p = q) by (apply (NoDup_fst_eq (frames w)); auto; congruence).
        subst q. congruence.
    - repeat split; auto. simpl in Hpend. unfold scroll_pending in Hpend.
      apply fmap_nil_inv in Hpend. symmetry. apply filter_all.
      intros p Hp. destruct (is_parallax_frame this p.2) eqn:Epar; [|reflexivity].
      exfalso. assert (Hin : p ∈ filter (fun p => is_parallax_frame this p.2 = true)
                                 (frames w)) by (apply list_elem_of_filter; auto).
      rewrite Hpend in Hin. inversion Hin. }
  destruct H1 as (Hn1 & Hd1 & Hl1 & Ha1 & Hf1). clearbody w1.
  unfold requestAnimationFrame. cbv beta iota.
  eexists _, _. split; [reflexivity|]. simpl.
  rewrite Hn1, Hd1, Hl1, Ha1, Hf1, lookup_alter_eq, Hmd. simpl.
  set (others := filter (fun p => is_parallax_frame this p.2 = false) (frames w)).
  assert (Hsub : forall p, p ∈ others -> p ∈ frames w /\ is_parallax_frame this p.2 = false).
  { intros p Hp. apply list_elem_of_filter in Hp. tauto. }
  assert (Hp' : (filter (fun p => is_parallax_frame this p.2 = true)
                   (others ++ [(next w, ParallaxFrame this)])).*1 = [next w]).
  { rewrite filter_app.
    rewrite (filter_none _ others)
      by (intros p Hp Hpar; destruct (Hsub p Hp) as [_ Hn]; congruence).
    simpl. rewrite filter_cons, decide_True by (simpl; apply Nat.eqb_refl).
    reflexivity. }
  split.
  { split; [|split].
    - intros p Hp. simpl in Hp. simpl. rewrite ?Hn1, ?Hf1 in *. fold others in Hp.
      apply elem_of_app in Hp as [Hp|Hp].
      + specialize (Hfr p (proj1 (Hsub p Hp))). lia.
      + apply list_elem_of_singleton in Hp as ->. simpl. lia.
    - simpl. rewrite ?Hf1, ?Hn1. fold others. rewrite fmap_app. apply NoDup_app.
      split; [|split].
      + subst others. clear -Hnd. induction (frames w) as [|x l IH]; [constructor|].
        simpl in Hnd. apply NoDup_cons in Hnd as [Hx Hnd].
        rewrite filter_cons. destruct (decide _); [|now apply IH].
        simpl. apply NoDup_cons. split; [|now apply IH].
        intros Hin. apply Hx. apply list_elem_of_fmap in Hin as (y & -> & Hy).
        apply list_elem_of_filter in Hy as [_ Hy]. apply list_elem_of_fmap. eauto.
      + intros x Hx Hx'. apply list_elem_of_singleton in Hx'. subst x.
        apply list_elem_of_fmap in Hx as (p & Hp1 & Hp).
        specialize (Hfr p (proj1 (Hsub p Hp))). simpl in Hp1. lia.
      + simpl. apply NoDup_singleton.
    - eexists. split; [simpl; rewrite ?lookup_alter_eq, ?Ha1, ?Hmd; reflexivity|].
      simpl. unfold scroll_pending. simpl. rewrite ?Hf1, ?Hn1. exact Hp'. }
  split; [reflexivity|]. split; [reflexivity|].
  split; [unfold scroll_pending; simpl; rewrite ?Hf1, ?Hn1; exact Hp'|].
  repeat split.
Qed.

Lemma scroll_times_steps (this : nat) (n : nat) :
  forall w, scroll_invariant this w ->
    exists w' md' id,
      scroll_times (S n) this w = Some w'
      /\ scroll_invariant this w'
      /\ animations w' !! this = Some md'
      /\ BaseAnimation.rafId md' = Some id
      /\ scroll_pending this w' = [id]
      /\ dom w' = dom w /\ listeners w' = listeners w
      /\ frames w'
         = filter (fun p => is_parallax_frame this p.2 = false) (frames w)
           ++ [(id, ParallaxFrame this)].
Proof.
  induction n as [|n IH]; intros w Hinv.
  - destruct (handleScroll_step this w Hinv)
      as (w' & md' & E & Hinv' & Hmd' & Hraf & Hp & Hd & Hl & Hf).
    exists w', md', (next w). simpl. rewrite E. simpl. auto 10.
  - destruct (handleScroll_step this w Hinv)
      as (w1 & md1 & E1 & Hinv1 & _ & _ & _ & Hd1 & Hl1 & Hf1).
    destruct (IH w1 Hinv1) as (w' & md' & id & E & Hinv' & Hmd' & Hraf & Hp & Hd & Hl & Hf).
    exists w', md', id. split.
    { change (scroll_times (S (S n)) this w)
        with (handleScroll this w ≫= scroll_times (S n) this).
      rewrite E1. exact E. }
    split; [exact Hinv'|]. split; [exact Hmd'|]. split; [exact Hraf|].
    split; [exact Hp|]. split; [congruence|]. split; [congruence|].
    rewrite Hf, Hf1, filter_app. f_equal.
    rewrite filter_cons, decide_False, filter_nil, app_nil_r
      by (simpl; rewrite Nat.eqb_refl; discriminate).
    apply filter_all. intros p Hp'. apply list_elem_of_filter in Hp'. tauto.
Qed.

(** Scroll events are coalesced.  When the module knows the frame of
    [handleScroll] that is pending, if any, then after any number of
    scroll events in a row exactly one such frame is pending, the one the
    module remembers, and nothing else in the page has changed: no
    element, no listener, and the frames of any other kind are those that
    were pending before.  When that frame runs, the module forgets it and
    no frame of [handleScroll] is left. *)
Theorem scroll_coalesced (this : nat) (w : World) (n : nat) :
  scroll_invariant this w ->
  exists w' md' id,
    scroll_times (S n) this w = Some w'
    /\ scroll_invariant this w'
    /\ animations w' !! this = Some md'
    /\ BaseAnimation.rafId md' = Some id
    /\ scroll_pending this w' = [id]
    /\ dom w' = dom w /\ listeners w' = listeners w
    /\ frames w'
       = filter (fun p => is_parallax_frame this p.2 = false) (frames w)
         ++ [(id, ParallaxFrame this)]
    /\ forall w'', run_frame id w' = Some w'' ->
         scroll_pending this w'' = []
         /\ frames w'' = filter (fun p => is_parallax_frame this p.2 = false) (frames w)
         /\ exists md'', animations w'' !! this = Some md''
              /\ BaseAnimation.rafId md'' = None.
Proof.
  intros Hinv.
  destruct (scroll_times_steps this n w Hinv)
    as (w' & md' & id & E & Hinv' & Hmd' & Hraf & Hp & Hd & Hl & Hf).
  exists w', md', id. repeat (split; [assumption|]).
  intros w'' Er.
  set (others := filter (fun p => is_parallax_frame this p.2 = false) (frames w)) in *.
  assert (Hfresh : forall p, p ∈ others -> p.1 <> id).
  { intros p Hp' Hid. destruct Hinv' as (_ & Hnd & _).
    rewrite Hf, fmap_app in Hnd. apply NoDup_app in Hnd as (_ & Hdis & _).
    apply (Hdis p.1); [apply list_elem_of_fmap; eauto|].
    simpl. rewrite Hid. left. }
  destruct (run_frame_last w' others id (ParallaxFrame this) Hfresh Hf) as [R Hfc].
  rewrite R in Er. simpl in Er. unfold ParallaxAnimation_frame in Er.
  destruct (updateParallaxElements this _) as [wu|] eqn:Eu; [|discriminate].
  simpl in Er. injection Er as <-.
  apply updateParallaxElements_restyled in Eu.
  destruct Eu as (_ & _ & Hfu & _ & _ & Hmu).
  destruct (Hmu md' Hmd') as (mdu & Hmdu & _).
  assert (Hnone : filter (fun p => is_parallax_frame this p.2 = true) others = []).
  { apply filter_none. intros p Hp' Hpar. apply list_elem_of_filter in Hp'. intuition congruence. }
  split; [|split].
  - unfold scroll_pending. simpl. rewrite Hfu, Hfc, Hnone. reflexivity.
  - simpl. now rewrite Hfu, Hfc.
  - simpl. rewrite lookup_alter_eq, Hmdu. simpl. eexists. split; reflexivity.
Qed.

(** ** Later registrations *)

(** Only the first call of [register] of a parallax instance attaches the
    scroll listener and positions the elements: once the flag
    [scrollListenerAttached] is set, [register] is [register] of the base
    class, so it adds no listener and changes no element; the elements it
    enrolls keep the transform they had until the next scroll event. *)
Theorem parallax_register_later (this : nat) (els : list nat) (w : World)
    (md : BaseAnimation.t) :
  animations w !! this = Some md ->
  BaseAnimation.scrollListenerAttached md = true ->
  ParallaxAnimation_register this els w = BaseAnimation_register this els w
  /\ forall w', ParallaxAnimation_register this els w = Some w' ->
       dom w' = dom w /\ listeners w' = listeners w /\ frames w' = frames w
       /\ exists md', animations w' !! this = Some md'
            /\ BaseAnimation.elements md'
               = BaseAnimation.elements md ++ filter (carries md w) els.
Proof.
  intros Hmd Hfl.
  assert (E : ParallaxAnimation_register this els w = BaseAnimation_register this els w).
  { unfold ParallaxAnimation_register.
    destruct (BaseAnimation_register this els w) as [wb|] eqn:Eb; [|reflexivity].
    simpl.
    destruct (BaseAnimation_register_frame this els w wb md Hmd Eb)
      as (_ & _ & _ & mdb & Hmdb & _ & Efl & _).
    rewrite Hmdb. simpl. now rewrite Efl, Hfl. }
  split; [exact E|]. intros w' E'. rewrite E in E'.
  destruct (BaseAnimation_register_frame this els w w' md Hmd E') as (Hl & Hf & _).
  destruct (BaseAnimation_register_spec this els w w' md Hmd E')
    as (Hd & md' & Hmd' & Hr & _).
  repeat (split; [assumption|]). exists md'. auto.
Qed.

End ParallaxMore.

Lemma traversal_progress_bounds_witness :
  (0 < 800 + 200)%Q
  /\ traversal_progress 800 300 200 = Fin (Qmin (Qmax ((800 - 300) / (800 + 200)) 0) 1)
  /\ exists p, traversal_progress 800 300 200 = Fin p /\ (p == 1 # 2)%Q.
Proof.
  split; [reflexivity|]. split; [reflexivity|].
  destruct (traversal_progress_bounds 800 300 200) as (p & E & _ & _ & _ & _ & Hin & _);
    [reflexivity|].
  exists p. split; [exact E|]. rewrite Hin by discriminate. reflexivity.
Defined.

Lemma parallax_translation_shape_witness :
  let options : Options := <["speed" := VNum (Fin (1 # 2))]> ∅ in
  options !! "direction" = None
  /\ exists pos,
       parallax_translation ParallaxAnimation_fields options 800 (Fin (1 # 2))
       = (AxisY, Nmul pos (Fin 1))
       /\ parallax_translation ParallaxAnimation_fields
            (<["direction" := VStr "up"]> options) 800 (Fin (1 # 2))
          = (AxisY, Nmul pos (Fin (-1)))
       /\ exists q q',
            pos = Fin q /\ (q == 0)%Q
            /\ parallax_translation ParallaxAnimation_fields options 800 (Fin (3 # 4))
               = (AxisY, Nmul (Fin q') (Fin 1))
            /\ (q <= q')%Q /\ (q' == 100)%Q.
Proof.
  intros options.
  assert (Hdir : options !! "direction" = None) by reflexivity.
  split; [exact Hdir|].
  destruct (parallax_translation_shape ParallaxAnimation_fields options 800 (Fin (1 # 2))
              Hdir)
    as (pos & Hdown & _ & Hup & _ & _ & _ & _ & Hnum).
  exists pos. split; [exact Hdown|]. split; [exact Hup|].
  destruct (Hnum (1 # 2)%Q (1 # 2)%Q eq_refl eq_refl eq_refl eq_refl)
    as [Hpos Hmono].
  destruct (Hmono ltac:(discriminate) ltac:(discriminate) ltac:(discriminate)
              (3 # 4)%Q ltac:(discriminate))
    as (q & q' & Eq & Eq' & Hle).
  { repeat constructor; vm_compute; discriminate. }
  exists q, q'. split; [now rewrite Hpos|].
  vm_compute in Eq, Eq'. injection Eq as <-. injection Eq' as <-.
  split; [reflexivity|]. split; [vm_compute; reflexivity|].
  split; [exact Hle | reflexivity].
Defined.

Lemma updateParallaxElements_scope_witness :
  animations parallax_registered !! 2 = Some parallax_registered_module
  /\ near parallax_registered 1 = true
  /\ forall w', updateParallaxElement 2 parallax_registered 1 = Some w' ->
       progress (style (element w' 1)) = "0".
Proof.
  assert (Hmd : animations parallax_registered !! 2 = Some parallax_registered_module)
    by (vm_compute; reflexivity).
  assert (Hn : near parallax_registered 1 = true) by (vm_compute; reflexivity).
  split; [exact Hmd|]. split; [exact Hn|].
  destruct (updateParallaxElements_scope 2 parallax_registered parallax_registered_module
              Hmd) as (_ & _ & Heff).
  intros w' E. destruct (Heff 1 w' Hn E) as (Hp & _).
  rewrite Hp. vm_compute. reflexivity.
Defined.

Lemma scroll_coalesced_witness :
  scroll_invariant 2 parallax_registered
  /\ exists w' id,
       scroll_times 3 2 parallax_registered = Some w'
       /\ scroll_pending 2 w' = [id]
       /\ dom w' = dom parallax_registered.
Proof.
  assert (Hinv : scroll_invariant 2 parallax_registered).
  { split; [|split].
    - intros p Hp. vm_compute in Hp. inversion Hp.
    - vm_compute. constructor.
    - exists parallax_registered_module. split; vm_compute; reflexivity. }
  split; [exact Hinv|].
  destruct (scroll_coalesced 2 parallax_registered 2 Hinv)
    as (w' & md' & id & E & _ & _ & _ & Hp & Hd & _).
  exists w', id. auto.
Defined.

Lemma parallax_register_later_witness :
  animations parallax_registered !! 2 = Some parallax_registered_module
  /\ BaseAnimation.scrollListenerAttached parallax_registered_module = true
  /\ ParallaxAnimation_register 2 [1] parallax_registered
     = BaseAnimation_register 2 [1] parallax_registered.
Proof.
  assert (Hmd : animations parallax_registered !! 2 = Some parallax_registered_module)
    by (vm_compute; reflexivity).
  assert (Hfl : BaseAnimation.scrollListenerAttached parallax_registered_module = true)
    by (vm_compute; reflexivity).
  split; [exact Hmd|]. split; [exact Hfl|].
  exact (proj1 (parallax_register_later 2 [1] parallax_registered
                  parallax_registered_module Hmd Hfl)).
Defined.



(** * More on the manager *)

Local Close Scope Q_scope.
Local Open Scope list_scope.

Section ModuleSteps.
Context `{Host}.

(** ** What the methods of the modules leave alone *)

Lemma initElement_kept this e w : kept w (initElement this e w).
Proof.
  unfold initElement. destruct (animations w !! this) as [md|]; [|apply kept_refl].
  destruct (negb _ && negb _); [|apply kept_refl].
  pose proof (getOptions_kept this e w) as Hk.
  destruct (getOptions this e w) as [options w1]. simpl in Hk.
  eapply kept_trans; [exact Hk | repeat split].
Qed.

Lemma applyParallaxEffect_kept this e p w w' :
  applyParallaxEffect this e p w = Some w' -> kept w w'.
Proof.
  unfold applyParallaxEffect. destruct (animations w !! this) as [md|]; [|discriminate].
  simpl. pose proof (getOptions_kept this e w) as Hk.
  destruct (getOptions this e w) as [options w1]. simpl in Hk.
  destruct (if option_truthy options "class" then _ else _) as [el2|]; [|discriminate].
  simpl. destruct (classList_add _ el2) as [el3|]; [|discriminate]. simpl.
  intros [= <-]. eapply kept_trans; [exact Hk | repeat split].
Qed.

Lemma updateParallaxElements_kept this w w' :
  updateParallaxElements this w = Some w' -> kept w w'.
Proof.
  unfold updateParallaxElements.
  destruct (animations w !! this) as [md|]; [|discriminate]. simpl.
  apply foldl_option_kept. clear. intros w e w' E. unfold updateParallaxElement in E.
  destruct (Qle_bool _ _ && Qle_bool _ _).
  - apply applyParallaxEffect_kept in E. eapply kept_trans; [|exact E]. repeat split.
  - injection E as <-. apply kept_refl.
Qed.

Lemma register_kept this els w w' : register this els w = Some w' -> kept w w'.
Proof.
  unfold register. destruct (animations w !! this) as [md|]; [|discriminate]. simpl.
  destruct (BaseAnimation.class md).
  - apply BaseAnimation_register_kept.
  - unfold FadeInAnimation_register. intros E.
    apply BaseAnimation_register_kept in E. eapply kept_trans; [|exact E].
    apply foldl_kept. intros. apply initElement_kept.
  - unfold ParallaxAnimation_register.
    destruct (BaseAnimation_register this els w) as [wb|] eqn:Eb; [|discriminate].
    simpl. apply BaseAnimation_register_kept in Eb.
    destruct (animations wb !! this) as [mdb|]; [|discriminate]. simpl.
    destruct (BaseAnimation.scrollListenerAttached mdb).
    + intros [= <-]. exact Eb.
    + intros E. apply updateParallaxElements_kept in E.
      eapply kept_trans; [exact Eb|]. eapply kept_trans; [|exact E].
      unfold addEventListener. simpl. destruct (bool_decide _); repeat split.
Qed.

Lemma destroy_kept this w : kept w (destroy this w).
Proof.
  unfold destroy. destruct (animations w !! this) as [md|] eqn:Hmd; [|apply kept_refl].
  destruct (BaseAnimation.class md).
  - apply BaseAnimation_destroy_kept.
  - unfold FadeInAnimation_destroy. rewrite Hmd.
    eapply kept_trans; [|apply BaseAnimation_destroy_kept].
    destruct (cancel_all_spec (BaseAnimation.pendingAnimations md) w)
      as (_ & _ & _ & _ & _ & _ & _ & Hk).
    eapply kept_trans; [exact Hk | repeat split].
  - unfold ParallaxAnimation_destroy.
    pose proof (BaseAnimation_destroy_kept this w) as Hk.
    destruct (animations (BaseAnimation_destroy this w) !! this) as [md'|]; [|exact Hk].
    eapply kept_trans; [exact Hk|].
    destruct (BaseAnimation.scrollListenerAttached md'), (BaseAnimation.rafId md');
      repeat split.
Qed.

Lemma scan_kept route els w w' : scan route els w = Some w' -> kept w w'.
Proof.
  unfold scan. apply foldl_option_kept. intros w0 e w1. unfold scan_step.
  destruct (route w0 e); [apply register_kept|]. intros [= <-]. apply kept_refl.
Qed.
End ModuleSteps.

Section ModuleSpecs.
Context `{Host}.

(** ** Registration and destruction, whatever the class *)

Lemma initElement_module this e w md :
  animations w !! this = Some md ->
  (exists md', animations (initElement this e w) !! this = Some md'
     /\ BaseAnimation.elements md' = BaseAnimation.elements md
     /\ BaseAnimation.attributeParser md' = BaseAnimation.attributeParser md
     /\ BaseAnimation.class md' = BaseAnimation.class md)
  /\ forall x, attributes (element (initElement this e w) x) = attributes (element w x).
Proof.
  intros Hmd. unfold initElement. rewrite Hmd.
  destruct (negb _ && negb _).
  2:{ split; [exists md; auto | reflexivity]. }
  assert (Hg : (exists md', animations (getOptions this e w).2 !! this = Some md'
                  /\ BaseAnimation.elements md' = BaseAnimation.elements md
                  /\ BaseAnimation.attributeParser md' = BaseAnimation.attributeParser md
                  /\ BaseAnimation.class md' = BaseAnimation.class md)
               /\ dom (getOptions this e w).2 = dom w).
  { unfold getOptions. rewrite Hmd.
    destruct (BaseAnimation.parsedOptions md !! e); simpl.
    - split; [exists md; auto | reflexivity].
    - rewrite lookup_alter_eq, Hmd. simpl. split; [|reflexivity].
      eexists. split; [reflexivity|]. auto. }
  destruct (getOptions this e w) as [options w1]. simpl in Hg.
  destruct Hg as (Hm & Hd). split; [exact Hm|].
  assert (He : forall x, element w1 x = element w x).
  { intros x. unfold element. now rewrite Hd. }
  intros x. destruct (decide (e = x)) as [<-|Hne].
  - rewrite element_update_eq, He. reflexivity.
  - rewrite element_update_ne by exact Hne. now rewrite He.
Qed.

Lemma foldl_initElement_module this (els : list nat) :
  forall w md,
    animations w !! this = Some md ->
    (exists md', animations (foldl (fun w e => initElement this e w) w els) !! this
                 = Some md'
       /\ BaseAnimation.elements md' = BaseAnimation.elements md
       /\ BaseAnimation.attributeParser md' = BaseAnimation.attributeParser md
       /\ BaseAnimation.class md' = BaseAnimation.class md)
    /\ forall x, attributes (element (foldl (fun w e => initElement this e w) w els) x)
                 = attributes (element w x).
Proof.
  induction els as [|e els IH]; intros w md Hmd; simpl.
  - split; [exists md; auto | reflexivity].
  - destruct (initElement_module this e w md Hmd) as ((md1 & Hmd1 & E1 & E2 & E3) & Ha).
    destruct (IH _ md1 Hmd1) as ((md2 & Hmd2 & F1 & F2 & F3) & Ha').
    split.
    + exists md2. repeat split; congruence.
    + intros x. now rewrite Ha', Ha.
Qed.

(** [register] of any class adds to the roster the elements of the call
    that carry the primary attribute of the parser of the instance. *)
Lemma register_roster this els w w' md :
  animations w !! this = Some md ->
  register this els w = Some w' ->
  exists md', animations w' !! this = Some md'
    /\ BaseAnimation.elements md'
       = BaseAnimation.elements md ++ filter (carries md w) els
    /\ BaseAnimation.class md' = BaseAnimation.class md.
Proof.
  intros Hmd E. unfold register in E. rewrite Hmd in E. simpl in E.
  destruct (BaseAnimation.class md) eqn:Ec.
  - destruct (BaseAnimation_register_spec this els w w' md Hmd E)
      as (_ & md' & Hmd' & E1 & _ & E3 & _).
    exists md'. repeat split; congruence.
  - unfold FadeInAnimation_register in E.
    destruct (foldl_initElement_module this els w md Hmd)
      as ((md0 & Hmd0 & F1 & F2 & F3) & Ha).
    destruct (BaseAnimation_register_spec this els _ w' md0 Hmd0 E)
      as (_ & md' & Hmd' & E1 & _ & E3 & _).
    exists md'. split; [exact Hmd'|]. split; [|congruence].
    rewrite E1, F1. f_equal. apply list_filter_iff. intros x.
    unfold carries. now rewrite Ha, F2.
  - unfold ParallaxAnimation_register in E.
    destruct (BaseAnimation_register this els w) as [wb|] eqn:Eb; [|discriminate].
    simpl in E.
    destruct (BaseAnimation_register_spec this els w wb md Hmd Eb)
      as (_ & mdb & Hmdb & E1 & _ & E3 & _).
    rewrite Hmdb in E. simpl in E.
    destruct (BaseAnimation.scrollListenerAttached mdb).
    + injection E as <-. exists mdb. repeat split; congruence.
    + unfold updateParallaxElements in E.
      match type of E with
      | context [animations ?w0 !! this] =>
          assert (H0 : animations w0 !! this
                       = Some (BaseAnimation.set_scrollListenerAttached true mdb))
      end.
      { unfold addEventListener. destruct (bool_decide _); simpl;
          now rewrite lookup_alter_eq, Hmdb. }
      rewrite H0 in E. simpl in E.
      apply (foldl_restyled this) in E.
      2:{ intros w0 a w1. apply updateParallaxElement_restyled. }
      destruct E as (_ & _ & _ & _ & _ & Hm).
      destruct (Hm _ H0) as (md' & Hmd' & G1 & G2 & _).
      exists md'. split; [exact Hmd'|]. simpl in G1, G2. split; congruence.
Qed.

(** [destroy] of any class empties the instance and leaves the other
    instances and the elements alone. *)
Lemma destroy_module_spec this w md :
  animations w !! this = Some md ->
  (exists md', animations (destroy this w) !! this = Some md' /\ destroyed md'
     /\ BaseAnimation.class md' = BaseAnimation.class md
     /\ BaseAnimation.attributeParser md' = BaseAnimation.attributeParser md)
  /\ (forall k, k <> this -> animations (destroy this w) !! k = animations w !! k)
  /\ dom (destroy this w) = dom w
  /\ (forall l, l ∈ listeners (destroy this w) -> l ∈ listeners w)
  /\ console (destroy this w) = console w.
Proof.
  intros Hmd. unfold destroy. rewrite Hmd. destruct (BaseAnimation.class md) eqn:Ec.
  - destruct (BaseAnimation_destroy_spec this w md Hmd)
      as ((md' & Hmd' & Hd & _ & Hp & Hc & _) & _ & _ & Hk & Hdom & _ & Hl & _ & Hcon).
    split; [exists md'; repeat split; try apply Hd; congruence|].
    split; [exact Hk|]. split; [exact Hdom|]. split; [|exact Hcon].
    intros l. now rewrite Hl.
  - unfold FadeInAnimation_destroy. rewrite Hmd.
    destruct (cancel_all_spec (BaseAnimation.pendingAnimations md) w)
      as (_ & Cd & Ca & _ & Cl & _ & Cc & _).
    set (wc := map_fold _ w _) in *. clearbody wc.
    set (w1 := update_animation this (BaseAnimation.set_pendingAnimations ∅) wc).
    assert (H1 : animations w1 !! this = Some (BaseAnimation.set_pendingAnimations ∅ md)).
    { unfold w1. simpl. now rewrite lookup_alter_eq, Ca, Hmd. }
    assert (H1k : forall k, k <> this -> animations w1 !! k = animations w !! k).
    { intros k Hk. unfold w1. simpl. now rewrite lookup_alter_ne, Ca. }
    assert (H1d : dom w1 = dom w /\ listeners w1 = listeners w /\ console w1 = console w).
    { unfold w1. simpl. auto. }
    clearbody w1.
    destruct (BaseAnimation_destroy_spec this w1 _ H1)
      as ((md' & Hmd' & Hd & _ & Hp & Hc & _) & _ & _ & Hk & Hdom & _ & Hl & _ & Hcon).
    destruct H1d as (D1 & D2 & D3).
    split; [exists md'; repeat split; try apply Hd; simpl in *; congruence|].
    split; [intros k Hne; rewrite Hk by exact Hne; now apply H1k|].
    split; [congruence|]. split; [|congruence].
    intros l. now rewrite Hl, D2.
  - unfold ParallaxAnimation_destroy.
    destruct (BaseAnimation_destroy_spec this w md Hmd)
      as ((md' & Hmd' & Hd & _ & Hp & Hc & _) & _ & _ & Hk & Hdom & _ & Hl & _ & Hcon).
    set (w1 := BaseAnimation_destroy this w) in *. clearbody w1.
    rewrite Hmd'.
    set (w2 := if BaseAnimation.scrollListenerAttached md' then _ else w1).
    assert (H2 : (exists md2, animations w2 !! this = Some md2 /\ destroyed md2
                    /\ BaseAnimation.class md2 = BaseAnimation.class md
                    /\ BaseAnimation.attributeParser md2
                       = BaseAnimation.attributeParser md)
                 /\ (forall k, k <> this -> animations w2 !! k = animations w !! k)
                 /\ dom w2 = dom w
                 /\ (forall l, l ∈ listeners w2 -> l ∈ listeners w)
                 /\ console w2 = console w).
    { unfold w2. destruct (BaseAnimation.scrollListenerAttached md'); simpl.
      - rewrite lookup_alter_eq, Hmd'. simpl.
        split; [eexists; split; [reflexivity|]; repeat split; try apply Hd; simpl;
                congruence|].
        split; [intros k Hne; rewrite lookup_alter_ne by congruence; now apply Hk|].
        split; [exact Hdom|]. split; [|exact Hcon].
        intros l Hin. apply list_elem_of_filter in Hin as [_ Hin]. now rewrite <- Hl.
      - split; [exists md'; repeat split; try apply Hd; congruence|].
        split; [exact Hk|]. split; [exact Hdom|]. split; [|exact Hcon].
        intros l. now rewrite Hl. }
    clearbody w2. destruct H2 as ((md2 & Hmd2 & Hd2 & Hc2 & Hp2) & Hk2 & Hdom2 & Hl2 & Hcon2).
    destruct (BaseAnimation.rafId md'); simpl.
    + rewrite lookup_alter_eq, Hmd2. simpl.
      split; [eexists; split; [reflexivity|]; repeat split; try apply Hd2; simpl;
              congruence|].
      split; [intros k Hne; rewrite lookup_alter_ne by congruence; now apply Hk2|].
      auto.
    + split; [exists md2; repeat split; try apply Hd2; congruence|].
      repeat split; assumption.
Qed.

Lemma destroy_module_absent this w : animations w !! this = None -> destroy this w = w.
Proof. intros E. unfold destroy. now rewrite E. Qed.
End ModuleSpecs.

Section ManagerMore.
Context `{Host}.

(** ** Adding modules *)

Lemma construct_spec (fields : BaseAnimation.t) (w : World) :
  (construct fields w).1 = next w
  /\ animations (construct fields w).2 = <[next w := fields]> (animations w)
  /\ managers (construct fields w).2 = managers w
  /\ dom (construct fields w).2 = dom w.
Proof.
  unfold construct, ensureResizeListener, addEventListener. simpl.
  destruct (resizeListenerAttached w); simpl; [auto|].
  destruct (bool_decide _); simpl; auto.
Qed.

(** What [use] does to the manager and the new instance. *)
Lemma use_spec (this : nat) (C : ModuleClass) (cfg : option ParallaxConfig) (w : World) :
  exists w' md,
    use this C cfg w = Some w'
    /\ animations w' = <[next w := md]> (animations w)
    /\ (forall mg, managers w !! this = Some mg ->
          managers w' !! this
          = Some (AnimationManager.set_modules
                    (Map_set (getDefaultName md) (next w) (AnimationManager.modules mg))
                    mg))
    /\ dom w' = dom w
    /\ BaseAnimation.class md = C
    /\ BaseAnimation.attributeParser md = new_AttributeParser no_config
    /\ BaseAnimation.elements md = []
    /\ (BaseAnimation.parallaxPositionStart md, BaseAnimation.parallaxPositionEnd md)
       = match C, cfg with
         | ParallaxAnimationClass, Some c =>
             (default (- (1 # 2))%Q (positionStart c), default 1%Q (positionEnd c))
         | _, _ => ((- (1 # 2))%Q, 1%Q)
         end.
Proof.
  assert (G : forall fields w1 (f : BaseAnimation.t -> BaseAnimation.t),
             animations w1 = <[next w := fields]> (animations w) ->
             managers w1 = managers w -> dom w1 = dom w ->
             let w' := registerModule this (getDefaultName (f fields)) (next w)
                         (update_animation (next w) f w1) in
             animations w' = <[next w := f fields]> (animations w)
             /\ (forall mg, managers w !! this = Some mg ->
                   managers w' !! this
                   = Some (AnimationManager.set_modules
                             (Map_set (getDefaultName (f fields)) (next w)
                                (AnimationManager.modules mg)) mg))
             /\ dom w' = dom w).
  { intros fields w1 f Ha Hm Hd. simpl. rewrite Ha, Hm, Hd.
    split; [|split; [|reflexivity]].
    - apply map_eq. intros k. destruct (decide (k = next w)) as [->|Hk].
      + now rewrite lookup_alter_eq, !lookup_insert_eq.
      + now rewrite lookup_alter_ne, !lookup_insert_ne.
    - intros mg Hmg. now rewrite lookup_alter_eq, Hmg. }
  assert (G0 : forall fields w1,
             animations w1 = <[next w := fields]> (animations w) ->
             managers w1 = managers w -> dom w1 = dom w ->
             let w' := registerModule this (getDefaultName fields) (next w) w1 in
             animations w' = <[next w := fields]> (animations w)
             /\ (forall mg, managers w !! this = Some mg ->
                   managers w' !! this
                   = Some (AnimationManager.set_modules
                             (Map_set (getDefaultName fields) (next w)
                                (AnimationManager.modules mg)) mg))
             /\ dom w' = dom w).
  { intros fields w1 Ha Hm Hd. simpl. rewrite Ha, Hm, Hd.
    split; [reflexivity|]. split; [|reflexivity].
    intros mg Hmg. now rewrite lookup_alter_eq, Hmg. }
  unfold use.
  destruct C; unfold new_BaseAnimation, new_FadeInAnimation, new_ParallaxAnimation.
  - destruct (construct_spec (BaseAnimation_fields no_config) w) as (E1 & E2 & E3 & E4).
    destruct (construct _ w) as [m w1]. simpl in *. subst m.
    assert (E : (match cfg with Some _ => Some w1 | None => Some w1 end) = Some w1)
      by now destruct cfg.
    rewrite E. simpl. rewrite E2, lookup_insert_eq. simpl.
    destruct (G0 _ w1 E2 E3 E4) as (A1 & A2 & A3).
    eexists _, _. split; [reflexivity|]. split; [exact A1|]. split; [exact A2|].
    split; [exact A3|]. repeat split.
  - destruct (construct_spec FadeInAnimation_fields w) as (E1 & E2 & E3 & E4).
    destruct (construct _ w) as [m w1]. simpl in *. subst m.
    assert (E : (match cfg with Some _ => Some w1 | None => Some w1 end) = Some w1)
      by now destruct cfg.
    rewrite E. simpl. rewrite E2, lookup_insert_eq. simpl.
    destruct (G0 _ w1 E2 E3 E4) as (A1 & A2 & A3).
    eexists _, _. split; [reflexivity|]. split; [exact A1|]. split; [exact A2|].
    split; [exact A3|]. repeat split.
  - destruct (construct_spec ParallaxAnimation_fields w) as (E1 & E2 & E3 & E4).
    destruct (construct _ w) as [m w1]. simpl in *. subst m.
    destruct cfg as [c|].
    + unfold ParallaxAnimation_configure. rewrite E2, lookup_insert_eq. simpl.
      rewrite E2, lookup_alter_eq, lookup_insert_eq. simpl.
      match goal with
      | |- context [update_animation (next w) ?f w1] =>
          destruct (G ParallaxAnimation_fields w1 f E2 E3 E4) as (A1 & A2 & A3)
      end.
      eexists _, _. split; [reflexivity|]. split; [exact A1|]. split; [exact A2|].
      split; [exact A3|]. repeat split.
    + simpl. rewrite E2, lookup_insert_eq. simpl.
      destruct (G0 _ w1 E2 E3 E4) as (A1 & A2 & A3).
      eexists _, _. split; [reflexivity|]. split; [exact A1|]. split; [exact A2|].
      split; [exact A3|]. repeat split.
Qed.

(** A manager made by [Vektor.createAnimationManager(config)] keeps the
    merged configuration for itself; the module that [use] creates for it
    is built without any configuration, so its parser looks for the
    attribute [kw] whatever attribute name the manager was given.  The
    module is registered under its default name, as the only module, and
    the positions of a parallax configuration reach the instance.  An
    element without the attribute [kw] is then never enrolled by
    [register] of that module, even when the scan of the manager routes
    it there. *)
Theorem use_ignores_manager_config (mcfg : PartialConfig) (C : ModuleClass)
    (cfg : option ParallaxConfig) (w : World) :
  let this := (createAnimationManager mcfg w).1 in
  let w0 := (createAnimationManager mcfg w).2 in
  let module := next w0 in
  exists w1 mg md,
    use this C cfg w0 = Some w1
    /\ managers w1 !! this = Some mg
    /\ AnimationManager.config mg = merge_config DEFAULT_CONFIG mcfg
    /\ config (AnimationManager.attributeParser mg) = merge_config DEFAULT_CONFIG mcfg
    /\ AnimationManager.modules mg = [(getDefaultName md, module)]
    /\ AnimationManager.initialized mg = false
    /\ animations w1 !! module = Some md
    /\ BaseAnimation.class md = C
    /\ config (BaseAnimation.attributeParser md) = DEFAULT_CONFIG
    /\ BaseAnimation.elements md = []
    /\ (BaseAnimation.parallaxPositionStart md, BaseAnimation.parallaxPositionEnd md)
       = match C, cfg with
         | ParallaxAnimationClass, Some c =>
             (default (- (1 # 2))%Q (positionStart c), default 1%Q (positionEnd c))
         | _, _ => ((- (1 # 2))%Q, 1%Q)
         end
    /\ dom w1 = dom w
    /\ (forall a e,
          p_attributeName mcfg = Some a ->
          getAttribute a (attributes (element w e)) = Some (getDefaultName md) ->
          init_route mg w1 e = Some module)
    /\ forall e w2,
         hasAttribute "kw" (attributes (element w e)) = false ->
         register module [e] w1 = Some w2 ->
         exists md2,
           animations w2 !! module = Some md2 /\ BaseAnimation.elements md2 = [].
Proof.
  intros this w0 module.
  destruct (use_spec this C cfg w0) as (w1 & md & E & Ha & Hm & Hd & Hc & Hp & He & Hpos).
  assert (Hmg0 : managers w0 !! this
                 = Some {| AnimationManager.modules := [];
                           AnimationManager.initialized := false;
                           AnimationManager.loadTimeout := None;
                           AnimationManager.mutationObserver := None;
                           AnimationManager.attributeParser := new_AttributeParser mcfg;
                           AnimationManager.config := config (new_AttributeParser mcfg) |}).
  { unfold w0, this, createAnimationManager, new_AnimationManager. simpl.
    now rewrite lookup_insert_eq. }
  assert (Hmd : animations w1 !! module = Some md).
  { rewrite Ha. apply lookup_insert_eq. }
  specialize (Hm _ Hmg0).
  eexists w1, _, md. split; [exact E|]. split; [exact Hm|].
  change (dom w0) with (dom w) in Hd.
  simpl. repeat (split; [first [reflexivity | assumption | now rewrite Hp]|]).
  split.
  { intros a e Ha' Hg. unfold init_route, parseElementOptions, parseModuleName.
    simpl. unfold element. rewrite Hd, Ha'. simpl. unfold element in Hg. rewrite Hg.
    unfold getModule. simpl.
    assert (Hn : (getDefaultName md =? EmptyString) = false)
      by (unfold getDefaultName; now destruct (BaseAnimation.class md)).
    destruct (getDefaultName md) as [|c n] eqn:En; [discriminate|].
    rewrite Hn. now rewrite String.eqb_refl. }
  intros e w2 Hno Er.
  destruct (register_roster module [e] w1 w2 md Hmd Er) as (md2 & Hmd2 & E2 & _).
  exists md2. split; [exact Hmd2|]. rewrite E2, He. simpl.
  rewrite filter_cons, decide_False; [reflexivity|].
  unfold carries, hasAnimationAttributes. rewrite Hp. simpl.
  unfold element in *. rewrite Hd, Hno. discriminate.
Qed.
(** ** Changing the configuration *)

Lemma merge_config_twice (c : AnimationConfig) (cfg : PartialConfig) :
  merge_config (merge_config c cfg) cfg = merge_config c cfg.
Proof.
  unfold merge_config. simpl.
  destruct (p_attributeName cfg), (p_defaultAnimation cfg),
    (p_useDataAttributeFallback cfg); reflexivity.
Qed.

Lemma foldl_updateConfig (cfg : PartialConfig) (l : list (string * nat)) :
  forall w,
    let w' := foldl (fun w nm => updateConfig nm.2 cfg w) w l in
    managers w' = managers w /\ dom w' = dom w /\ observers w' = observers w
    /\ listeners w' = listeners w /\ timers w' = timers w /\ frames w' = frames w
    /\ (forall k, k ∉ l.*2 -> animations w' !! k = animations w !! k)
    /\ forall k md,
         k ∈ l.*2 -> animations w !! k = Some md ->
         exists md',
           animations w' !! k = Some md'
           /\ BaseAnimation.attributeParser md'
              = setConfig cfg (BaseAnimation.attributeParser md)
           /\ BaseAnimation.elements md' = BaseAnimation.elements md
           /\ BaseAnimation.parsedOptions md' = BaseAnimation.parsedOptions md
           /\ BaseAnimation.observer md' = BaseAnimation.observer md
           /\ BaseAnimation.class md' = BaseAnimation.class md.
Proof.
  induction l as [|[n m] l IH]; intros w; simpl.
  - repeat split; auto. intros k md Hk. inversion Hk.
  - destruct (IH (updateConfig m cfg w)) as (A1 & A2 & A3 & A4 & A5 & A6 & A7 & A8).
    simpl in *. rewrite A1, A2, A3, A4, A5, A6.
    repeat (split; [reflexivity|]). split.
    + intros k Hk. rewrite A7 by (intros Hin; apply Hk; now right).
      apply lookup_alter_ne. intros ->. apply Hk. left.
    + intros k md Hk Hmd.
      destruct (decide (k ∈ l.*2)) as [Hin|Hnin].
      * destruct (decide (k = m)) as [->|Hne].
        -- destruct (A8 m (BaseAnimation.set_attributeParser
                             (setConfig cfg (BaseAnimation.attributeParser md)) md) Hin)
             as (md' & Hmd' & E1 & E2 & E3 & E4 & E5).
           { now rewrite lookup_alter_eq, Hmd. }
           exists md'. split; [exact Hmd'|]. simpl in *. rewrite E1.
           repeat split; auto.
           unfold setConfig. simpl. now rewrite merge_config_twice.
        -- apply (A8 k md Hin). now rewrite lookup_alter_ne.
      * apply elem_of_cons in Hk as [->|Hk]; [|contradiction].
        rewrite (A7 m Hnin), lookup_alter_eq, Hmd. simpl.
        eexists. split; [reflexivity|]. repeat split.
Qed.

(** [updateConfig] of the manager merges the given keys into the
    configuration of its parser, copies the result to its own [config],
    and merges the same keys into the parser of every registered module,
    once however often the module is registered.  Nothing is scanned
    again: the rosters, the cached options and the observers of the
    modules, the elements and the instances that are not registered stay
    as they are.  A key that is given ends with the same value in the
    manager and in every registered module: for the attribute name, the
    two agree afterwards. *)
Theorem updateConfig_propagates (this : nat) (cfg : PartialConfig) (w : World)
    (mg : AnimationManager.t) :
  managers w !! this = Some mg ->
  exists w' mg',
    AnimationManager_updateConfig this cfg w = Some w'
    /\ managers w' !! this = Some mg'
    /\ AnimationManager.attributeParser mg'
       = setConfig cfg (AnimationManager.attributeParser mg)
    /\ AnimationManager.config mg'
       = merge_config (config (AnimationManager.attributeParser mg)) cfg
    /\ AnimationManager.modules mg' = AnimationManager.modules mg
    /\ AnimationManager.initialized mg' = AnimationManager.initialized mg
    /\ (forall name module md,
          (name, module) ∈ AnimationManager.modules mg ->
          animations w !! module = Some md ->
          exists md',
            animations w' !! module = Some md'
            /\ config (BaseAnimation.attributeParser md')
               = merge_config (config (BaseAnimation.attributeParser md)) cfg
            /\ (is_Some (p_attributeName cfg) ->
                  attributeName (config (BaseAnimation.attributeParser md'))
                  = attributeName (AnimationManager.config mg'))
            /\ BaseAnimation.elements md' = BaseAnimation.elements md
            /\ BaseAnimation.parsedOptions md' = BaseAnimation.parsedOptions md
            /\ BaseAnimation.observer md' = BaseAnimation.observer md)
    /\ (forall k, k ∉ (AnimationManager.modules mg).*2 ->
          animations w' !! k = animations w !! k)
    /\ dom w' = dom w /\ observers w' = observers w /\ timers w' = timers w.
Proof.
  intros Hmg. unfold AnimationManager_updateConfig. rewrite Hmg. simpl.
  set (w0 := update_manager this _ w).
  destruct (foldl_updateConfig cfg (AnimationManager.modules mg) w0)
    as (A1 & A2 & A3 & A4 & A5 & A6 & A7 & A8).
  eexists _, _. split; [reflexivity|].
  rewrite A1, A2, A3, A5. unfold w0. simpl. rewrite lookup_alter_eq, Hmg. simpl.
  split; [reflexivity|]. repeat (split; [reflexivity|]).
  split; [|split; [|auto]].
  - intros name module md Hin Hmd.
    destruct (A8 module md) as (md' & Hmd' & E1 & E2 & E3 & E4 & _).
    { apply list_elem_of_fmap. exists (name, module). auto. }
    { exact Hmd. }
    exists md'. split; [exact Hmd'|]. rewrite E1. simpl.
    split; [reflexivity|]. split; [|auto].
    intros [a Ea]. unfold config_of. simpl. now rewrite Ea.
  - intros k Hk. now rewrite A7.
Qed.
(** ** The registry of modules *)

Lemma Map_get_set_eq name m l : Map_get name (Map_set name m l) = Some m.
Proof.
  induction l as [|[n x] l IH]; simpl.
  - now rewrite String.eqb_refl.
  - destruct (String.eqb n name) eqn:E; simpl.
    + now rewrite String.eqb_refl.
    + now rewrite E.
Qed.

Lemma Map_get_set_ne name n m l :
  n <> name -> Map_get n (Map_set name m l) = Map_get n l.
Proof.
  intros Hne. induction l as [|[k x] l IH]; simpl.
  - apply String.eqb_neq in Hne. rewrite String.eqb_sym. now rewrite Hne.
  - destruct (String.eqb k name) eqn:E; simpl.
    + apply String.eqb_eq in E as ->.
      assert (E : String.eqb name n = false) by (apply String.eqb_neq; congruence).
      now rewrite E.
    + destruct (String.eqb k n); [reflexivity | exact IH].
Qed.

Lemma Map_set_names name m l :
  (Map_set name m l).*1 = if bool_decide (name ∈ l.*1) then l.*1 else l.*1 ++ [name].
Proof.
  induction l as [|[k x] l IH]; [reflexivity|].
  cbn [Map_set]. destruct (String.eqb k name) eqn:E; rewrite !fmap_cons; cbn [fst].
  - apply String.eqb_eq in E as ->. rewrite bool_decide_true by left. reflexivity.
  - apply String.eqb_neq in E. rewrite IH.
    destruct (bool_decide (name ∈ l.*1)) eqn:B.
    + apply bool_decide_eq_true in B. rewrite bool_decide_true by now right.
      reflexivity.
    + apply bool_decide_eq_false in B. rewrite bool_decide_false; [reflexivity|].
      intros Hin. apply elem_of_cons in Hin as [->|Hin]; [congruence | contradiction].
Qed.

Lemma Map_set_elem name m l n x :
  NoDup l.*1 ->
  (n, x) ∈ Map_set name m l <-> (n = name /\ x = m) \/ (n <> name /\ (n, x) ∈ l).
Proof.
  induction l as [|[k y] l IH]; simpl; intros Hnd.
  - rewrite list_elem_of_singleton. split.
    + intros [= -> ->]. now left.
    + intros [[-> ->]|[_ Hin]]; [reflexivity | inversion Hin].
  - apply NoDup_cons in Hnd as [Hk Hnd].
    destruct (String.eqb k name) eqn:E.
    + apply String.eqb_eq in E as ->. rewrite !elem_of_cons. split.
      * intros [[= -> ->]|Hin]; [now left|]. right. split; [|now right].
        intros ->. apply Hk. apply list_elem_of_fmap. exists (name, x). auto.
      * intros [[-> ->]|[Hne [[= -> ->]|Hin]]]; [now left | congruence | now right].
    + apply String.eqb_neq in E. rewrite !elem_of_cons, (IH Hnd). split.
      * intros [[= -> ->]|[[-> ->]|[Hne Hin]]]; [right; split; [congruence|now left]
                                                   | now left | right; split; auto].
      * intros [[-> ->]|[Hne [[= -> ->]|Hin]]]; [right; now left | now left
                                                   | right; right; auto].
Qed.

(** [getModule] returns what [registerModule] stored under the name, and
    the other names keep their module.  A name that is already in use
    keeps its place in the order of the registry and its module is
    replaced; a new name is added last.  Registering never destroys or
    changes an instance: a replaced module keeps its roster and its
    observer, and is only no longer reachable through the manager. *)
Theorem registerModule_getModule (this : nat) (name : string) (module : nat)
    (w : World) (mg : AnimationManager.t) :
  managers w !! this = Some mg ->
  exists mg',
    managers (registerModule this name module w) !! this = Some mg'
    /\ getModule mg' name = Some module
    /\ (forall n, n <> name -> getModule mg' n = getModule mg n)
    /\ (AnimationManager.modules mg').*1
       = (if bool_decide (name ∈ (AnimationManager.modules mg).*1)
          then (AnimationManager.modules mg).*1
          else (AnimationManager.modules mg).*1 ++ [name])
    /\ (NoDup (AnimationManager.modules mg).*1 ->
        NoDup (AnimationManager.modules mg').*1
        /\ forall n x,
             (n, x) ∈ AnimationManager.modules mg'
             <-> (n = name /\ x = module)
                 \/ (n <> name /\ (n, x) ∈ AnimationManager.modules mg))
    /\ AnimationManager.initialized mg' = AnimationManager.initialized mg
    /\ animations (registerModule this name module w) = animations w
    /\ observers (registerModule this name module w) = observers w
    /\ dom (registerModule this name module w) = dom w.
Proof.
  intros Hmg. unfold registerModule. simpl. rewrite lookup_alter_eq, Hmg. simpl.
  eexists. split; [reflexivity|]. unfold getModule. simpl.
  split; [apply Map_get_set_eq|]. split; [intros n Hn; now apply Map_get_set_ne|].
  split; [apply Map_set_names|]. split; [|auto].
  intros Hnd. split.
  - rewrite Map_set_names. destruct (bool_decide _) eqn:B; [exact Hnd|].
    apply bool_decide_eq_false in B. apply NoDup_app. split; [exact Hnd|].
    split; [|apply NoDup_singleton].
    intros x Hx Hx'. apply list_elem_of_singleton in Hx' as ->. contradiction.
  - intros n x. now apply Map_set_elem.
Qed.

(** ** Initialization *)

(** A call of [init] on a manager that is not initialized, when it
    returns, leaves the manager initialized with the same modules, with a
    mutation observer whose callback is the one of the manager (a new,
    connected one unless the manager had one), and with one more pending
    timer, the re-scan after 1000 ms, behind the timers that were
    pending.  A second call of [init] changes nothing. *)
Theorem init_once (this : nat) (w w' : World) (mg : AnimationManager.t) :
  managers w !! this = Some mg ->
  AnimationManager.initialized mg = false ->
  init this w = Some w' ->
  exists mg' obs id,
    managers w' !! this = Some mg'
    /\ AnimationManager.initialized mg' = true
    /\ AnimationManager.modules mg' = AnimationManager.modules mg
    /\ AnimationManager.loadTimeout mg' = AnimationManager.loadTimeout mg
    /\ AnimationManager.config mg' = AnimationManager.config mg
    /\ AnimationManager.mutationObserver mg' = Some obs
    /\ (AnimationManager.mutationObserver mg = None ->
        mutationObservers w' = <[obs := MutationCallback this]> (mutationObservers w))
    /\ (forall o, AnimationManager.mutationObserver mg = Some o ->
          obs = o /\ mutationObservers w' = mutationObservers w)
    /\ timers w' = timers w ++ [(id, PostInitRescan this, 1000%Z)]
    /\ init this w' = Some w'.
Proof.
  intros Hmg Hi E. unfold init in E. rewrite Hmg in E. simpl in E. rewrite Hi in E.
  set (w1 := if prefersReducedMotion w then _ else w) in E.
  assert (K1 : kept w w1).
  { unfold w1. destruct (prefersReducedMotion w); [repeat split | apply kept_refl]. }
  clearbody w1.
  destruct (if negb (prefersReducedMotion w) then _ else Some w1) as [w2|] eqn:E2;
    [|discriminate].
  assert (K2 : kept w w2).
  { destruct (negb (prefersReducedMotion w)).
    - apply scan_kept in E2. eapply kept_trans; eassumption.
    - injection E2 as <-. exact K1. }
  clear E2 K1 w1. simpl in E. injection E as <-.
  destruct K2 as (Km & Kt & Ko & _).
  unfold setupMutationObserver. rewrite Km, Hmg.
  destruct (AnimationManager.mutationObserver mg) as [o|] eqn:Eo.
  - exists (AnimationManager.set_initialized true mg), o, (next w2). simpl.
    rewrite !lookup_alter_eq, Km, Hmg, Kt, Ko. simpl.
    repeat (split; [first [reflexivity | exact Eo | discriminate]|]).
    split; [intros o' [= <-]; auto|]. split; [reflexivity|].
    unfold init. simpl. rewrite lookup_alter_eq, Km, Hmg. reflexivity.
  - eexists _, (next w2), (S (next w2)). simpl.
    rewrite !lookup_alter_eq, Km, Hmg, Kt, Ko. simpl.
    repeat (split; [first [reflexivity | discriminate]|]).
    unfold init. simpl. rewrite !lookup_alter_eq, Km, Hmg. reflexivity.
Qed.

(** When the user prefers reduced motion a re-scan does nothing, and
    [init] registers no element: it writes one line to the console and
    leaves the elements, the module instances, the intersection observers,
    the listeners and the pending frames as they were; re-scans after it
    do nothing either. *)
Theorem reduced_motion_disables (this : nat) (w : World) (mg : AnimationManager.t) :
  managers w !! this = Some mg ->
  prefersReducedMotion w = true ->
  initDynamicElements this w = Some w
  /\ (AnimationManager.initialized mg = false ->
      exists w',
        init this w = Some w'
        /\ dom w' = dom w /\ animations w' = animations w
        /\ observers w' = observers w /\ listeners w' = listeners w
        /\ frames w' = frames w
        /\ console w'
           = console w ++ ["User prefers reduced motion, animations disabled"]
        /\ initDynamicElements this w' = Some w').
Proof.
  intros Hmg Hr. split.
  - unfold initDynamicElements. rewrite Hmg, Hr. simpl.
    now destruct (AnimationManager.initialized mg).
  - intros Hi. unfold init. rewrite Hmg. simpl. rewrite Hi, Hr. simpl.
    eexists. split; [reflexivity|].
    unfold setupMutationObserver, console_log. simpl. rewrite Hmg.
    destruct (AnimationManager.mutationObserver mg); simpl;
      repeat (split; [reflexivity|]);
      unfold initDynamicElements; simpl;
      rewrite !lookup_alter_eq, Hmg; simpl; now rewrite Hr.
Qed.
(** ** Destruction *)

Lemma foldl_destroy_spec (l : list (string * nat)) :
  forall w,
    let w' := foldl (fun w nm => destroy nm.2 w) w l in
    kept w w' /\ dom w' = dom w
    /\ (forall x, x ∈ listeners w' -> x ∈ listeners w)
    /\ (forall k, k ∉ l.*2 -> animations w' !! k = animations w !! k)
    /\ forall k md,
         k ∈ l.*2 -> animations w !! k = Some md ->
         exists md',
           animations w' !! k = Some md' /\ destroyed md'
           /\ BaseAnimation.class md' = BaseAnimation.class md
           /\ BaseAnimation.attributeParser md' = BaseAnimation.attributeParser md.
Proof.
  induction l as [|[n m] l IH]; intros w; simpl.
  - split; [apply kept_refl|]. repeat split; auto. intros k md Hk. inversion Hk.
  - destruct (IH (destroy m w)) as (A1 & A2 & A3 & A4 & A5). simpl in *.
    assert (S1 : dom (destroy m w) = dom w
                 /\ (forall x, x ∈ listeners (destroy m w) -> x ∈ listeners w)
                 /\ (forall k, k <> m -> animations (destroy m w) !! k = animations w !! k)).
    { destruct (animations w !! m) as [md|] eqn:Hmd.
      - destruct (destroy_module_spec m w md Hmd) as (_ & B2 & B3 & B4 & _). auto.
      - rewrite (destroy_module_absent m w Hmd). auto. }
    destruct S1 as (B3 & B4 & B2).
    split; [eapply kept_trans; [apply destroy_kept | exact A1]|].
    split; [congruence|]. split; [auto|]. split.
    + intros k Hk. rewrite A4 by (intros Hin; apply Hk; now right).
      apply B2. intros ->. apply Hk. left.
    + intros k md Hk Hmd. destruct (decide (k = m)) as [->|Hne].
      * destruct (destroy_module_spec m w md Hmd) as ((md1 & Hmd1 & Hd1 & Hc1 & Hp1) & _).
        destruct (decide (m ∈ l.*2)) as [Hin|Hnin].
        -- destruct (A5 m md1 Hin Hmd1) as (md' & Hmd' & Hd' & Hc' & Hp').
           exists md'. repeat split; try apply Hd'; congruence.
        -- exists md1. rewrite (A4 m Hnin). auto.
      * apply elem_of_cons in Hk as [->|Hk]; [congruence|].
        apply (A5 k md Hk). now rewrite B2.
Qed.

(** What [destroy] of the manager leaves behind. *)
Lemma AnimationManager_destroy_spec (this : nat) (w : World) (mg : AnimationManager.t) :
  managers w !! this = Some mg ->
  exists w' mg',
    AnimationManager_destroy this w = Some w'
    /\ managers w' !! this = Some mg'
    /\ AnimationManager.initialized mg' = false
    /\ AnimationManager.modules mg' = []
    /\ AnimationManager.loadTimeout mg' = None
    /\ AnimationManager.mutationObserver mg' = None
    /\ AnimationManager.attributeParser mg' = AnimationManager.attributeParser mg
    /\ AnimationManager.config mg' = AnimationManager.config mg
    /\ timers w'
       = match AnimationManager.loadTimeout mg with
         | Some id => filter (fun p => p.1.1 <> id) (timers w)
         | None => timers w
         end
    /\ mutationObservers w'
       = match AnimationManager.mutationObserver mg with
         | Some obs => delete obs (mutationObservers w)
         | None => mutationObservers w
         end
    /\ (forall name module md,
          (name, module) ∈ AnimationManager.modules mg ->
          animations w !! module = Some md ->
          exists md',
            animations w' !! module = Some md' /\ destroyed md'
            /\ BaseAnimation.class md' = BaseAnimation.class md)
    /\ (forall k, k ∉ (AnimationManager.modules mg).*2 ->
          animations w' !! k = animations w !! k)
    /\ dom w' = dom w
    /\ prefersReducedMotion w' = prefersReducedMotion w
    /\ resizeListenerAttached w' = false
    /\ (forall l, l ∈ listeners w' ->
          l ∈ listeners w
          /\ (resizeListenerAttached w = true ->
              ~ same_listener "resize" Fn_handleResize l)).
Proof.
  intros Hmg. unfold AnimationManager_destroy. rewrite Hmg. simpl.
  set (w1 := match AnimationManager.loadTimeout mg with
             | Some id => _ | None => w end).
  assert (H1 : (exists mg1, managers w1 !! this = Some mg1
                  /\ AnimationManager.loadTimeout mg1 = None
                  /\ AnimationManager.mutationObserver mg1
                     = AnimationManager.mutationObserver mg
                  /\ AnimationManager.attributeParser mg1
                     = AnimationManager.attributeParser mg
                  /\ AnimationManager.config mg1 = AnimationManager.config mg)
               /\ timers w1
                  = match AnimationManager.loadTimeout mg with
                    | Some id => filter (fun p => p.1.1 <> id) (timers w)
                    | None => timers w
                    end
               /\ mutationObservers w1 = mutationObservers w
               /\ animations w1 = animations w /\ dom w1 = dom w
               /\ listeners w1 = listeners w
               /\ prefersReducedMotion w1 = prefersReducedMotion w
               /\ resizeListenerAttached w1 = resizeListenerAttached w).
  { unfold w1. destruct (AnimationManager.loadTimeout mg) eqn:El; simpl.
    - rewrite lookup_alter_eq, Hmg. simpl. split; [|repeat split].
      eexists. split; [reflexivity|]. auto.
    - split; [|repeat split]. exists mg. auto. }
  clearbody w1.
  destruct H1 as ((mg1 & Hmg1 & L1 & O1 & P1 & C1) & T1 & M1 & A1 & D1 & Li1 & R1 & Re1).
  set (w2 := match AnimationManager.mutationObserver mg with
             | Some obs => _ | None => w1 end).
  assert (H2 : (exists mg2, managers w2 !! this = Some mg2
                  /\ AnimationManager.loadTimeout mg2 = None
                  /\ AnimationManager.mutationObserver mg2 = None
                  /\ AnimationManager.attributeParser mg2
                     = AnimationManager.attributeParser mg
                  /\ AnimationManager.config mg2 = AnimationManager.config mg)
               /\ timers w2 = timers w1
               /\ mutationObservers w2
                  = match AnimationManager.mutationObserver mg with
                    | Some obs => delete obs (mutationObservers w)
                    | None => mutationObservers w
                    end
               /\ animations w2 = animations w /\ dom w2 = dom w
               /\ listeners w2 = listeners w
               /\ prefersReducedMotion w2 = prefersReducedMotion w
               /\ resizeListenerAttached w2 = resizeListenerAttached w).
  { unfold w2. destruct (AnimationManager.mutationObserver mg) as [obs|] eqn:Eo; simpl.
    - rewrite lookup_alter_eq, Hmg1, M1. simpl. split; [|repeat split; auto].
      eexists. split; [reflexivity|]. auto.
    - split; [|repeat split; auto]. exists mg1. repeat split; auto. }
  clearbody w2. clear Hmg1 L1 O1 P1 C1 mg1.
  destruct H2 as ((mg2 & Hmg2 & L2 & O2 & P2 & C2) & T2 & M2 & A2 & D2 & Li2 & R2 & Re2).
  destruct (foldl_destroy_spec (AnimationManager.modules mg) w2)
    as (K3 & D3 & Li3 & A3 & A3').
  set (w3 := foldl _ w2 _) in *. clearbody w3.
  destruct K3 as (Km & Kt & Ko & _ & Kp & _ & _ & _ & _ & Kr).
  unfold BaseAnimation_cleanup. cbn [resizeListenerAttached update_manager set_managers].
  rewrite Kr, Re2.
  assert (Hmg3 : managers w3 !! this = Some mg2) by now rewrite Km.
  destruct (resizeListenerAttached w) eqn:Er.
  - eexists _, _. split; [reflexivity|]. simpl.
    rewrite lookup_alter_eq, Hmg3, Kt, Ko, T2, T1, M2, D3, D2, Kp, R2. simpl.
    repeat (split; [first [reflexivity | assumption]|]).
    split; [|split; [|repeat (split; [reflexivity|])]].
    + intros name module md Hin Hmd.
      destruct (A3' module md) as (md' & Hmd' & Hd' & Hc' & _).
      { apply list_elem_of_fmap. exists (name, module). auto. }
      { now rewrite A2. }
      exists md'. auto.
    + intros k Hk. now rewrite A3, A2.
    + intros l Hin. apply list_elem_of_filter in Hin as [Hno Hin].
      split; [|auto]. rewrite <- Li2. now apply Li3.
  - eexists _, _. split; [reflexivity|]. simpl.
    rewrite lookup_alter_eq, Hmg3, Kt, Ko, T2, T1, M2, D3, D2, Kp, R2, Kr, Re2. simpl.
    repeat (split; [first [reflexivity | assumption]|]).
    split; [|split; [|repeat (split; [reflexivity|])]].
    + intros name module md Hin Hmd.
      destruct (A3' module md) as (md' & Hmd' & Hd' & Hc' & _).
      { apply list_elem_of_fmap. exists (name, module). auto. }
      { now rewrite A2. }
      exists md'. auto.
    + intros k Hk. now rewrite A3, A2.
    + intros l Hin. split; [|discriminate]. rewrite <- Li2. now apply Li3.
Qed.
Lemma routes_without_modules (mg : AnimationManager.t) (w : World) (e : nat) :
  AnimationManager.modules mg = [] ->
  init_route mg w e = None /\ dynamic_route mg w e = None.
Proof.
  intros Hm. unfold init_route, dynamic_route, getModule. rewrite Hm. simpl.
  now destruct (parseElementOptions _ _) as [[n o]|].
Qed.

(** [destroy] of a manager always returns.  Afterwards the manager is
    not initialized, has no module, no [loadTimeout] and no mutation
    observer, and keeps its configuration; the only timer it cancelled is
    the one [loadTimeout] named, the mutation observer is disconnected,
    every registered module instance is empty (no element, no cached
    options, no observer) and the other instances are as they were; the
    static resize listener is removed and no listener is added.  The
    elements are not touched: whatever opacity, transform, transition and
    classes the modules gave them stays. *)
Theorem AnimationManager_destroy_post (this : nat) (w : World)
    (mg : AnimationManager.t) :
  managers w !! this = Some mg ->
  exists w' mg',
    AnimationManager_destroy this w = Some w'
    /\ managers w' !! this = Some mg'
    /\ AnimationManager.initialized mg' = false
    /\ AnimationManager.modules mg' = []
    /\ AnimationManager.loadTimeout mg' = None
    /\ AnimationManager.mutationObserver mg' = None
    /\ AnimationManager.attributeParser mg' = AnimationManager.attributeParser mg
    /\ AnimationManager.config mg' = AnimationManager.config mg
    /\ timers w'
       = match AnimationManager.loadTimeout mg with
         | Some id => filter (fun p => p.1.1 <> id) (timers w)
         | None => timers w
         end
    /\ mutationObservers w'
       = match AnimationManager.mutationObserver mg with
         | Some obs => delete obs (mutationObservers w)
         | None => mutationObservers w
         end
    /\ (forall name module md,
          (name, module) ∈ AnimationManager.modules mg ->
          animations w !! module = Some md ->
          exists md',
            animations w' !! module = Some md' /\ destroyed md'
            /\ BaseAnimation.class md' = BaseAnimation.class md)
    /\ (forall k, k ∉ (AnimationManager.modules mg).*2 ->
          animations w' !! k = animations w !! k)
    /\ dom w' = dom w
    /\ resizeListenerAttached w' = false
    /\ (forall l, l ∈ listeners w' ->
          l ∈ listeners w
          /\ (resizeListenerAttached w = true ->
              ~ same_listener "resize" Fn_handleResize l)).
Proof.
  intros Hmg.
  destruct (AnimationManager_destroy_spec this w mg Hmg)
    as (w' & mg' & E & A1 & A2 & A3 & A4 & A5 & A6 & A7 & A8 & A9 & A10 & A11 & A12
        & _ & A14 & A15).
  exists w', mg'. repeat (split; [assumption|]). assumption.
Qed.

(** After [destroy] the manager has forgotten its modules: no element is
    routed to a module any more, the callback of a post-init timer that
    is still pending does nothing when it runs, and a new [init] registers
    nothing, whatever the page holds; it leaves the elements, the module
    instances and the intersection observers as [destroy] left them, and
    marks the manager initialized with an empty registry.  The modules
    must be added again with [use].  The attribute name of the manager is
    taken to be one that [querySelectorAll] accepts. *)
Theorem init_after_destroy (this : nat) (w : World) (mg : AnimationManager.t) :
  managers w !! this = Some mg ->
  selector_name (attributeName (AnimationManager.config mg)) = true ->
  exists w1 mg1 w2 mg2,
    AnimationManager_destroy this w = Some w1
    /\ managers w1 !! this = Some mg1
    /\ (forall e, init_route mg1 w1 e = None /\ dynamic_route mg1 w1 e = None)
    /\ call (PostInitRescan this) NoArgument w1 = Some w1
    /\ init this w1 = Some w2
    /\ managers w2 !! this = Some mg2
    /\ AnimationManager.initialized mg2 = true
    /\ AnimationManager.modules mg2 = []
    /\ dom w2 = dom w
    /\ animations w2 = animations w1
    /\ observers w2 = observers w1
    /\ listeners w2 = listeners w1.
Proof.
  intros Hmg _.
  destruct (AnimationManager_destroy_spec this w mg Hmg)
    as (w1 & mg1 & E & Hmg1 & Hi & Hm & Hl & Ho & _ & _ & _ & _ & _ & _ & Hd & _).
  assert (Hr : forall w0 e, init_route mg1 w0 e = None /\ dynamic_route mg1 w0 e = None).
  { intros w0 e. now apply routes_without_modules. }
  assert (Hs : forall w0 els, scan (init_route mg1) els w0 = Some w0).
  { intros w0 els. apply scan_skips. intros e _. apply Hr. }
  exists w1, mg1.
  unfold init, call, initDynamicElements. rewrite Hmg1. simpl. rewrite Hi. simpl.
  unfold setupMutationObserver.
  destruct (prefersReducedMotion w1); simpl; rewrite ?Hs; simpl;
    rewrite Hmg1, Ho; simpl;
    (eexists _, _; split; [exact E|]; split; [reflexivity|]; split; [apply Hr|];
     split; [reflexivity|]; split; [reflexivity|]; simpl;
     rewrite !lookup_alter_eq, Hmg1; simpl; split; [reflexivity|];
     repeat split; assumption).
Qed.
(** ** The debounce of the mutation observer *)

Lemma needsUpdate_ext (mg mg' : AnimationManager.t) (w w' : World) ms :
  AnimationManager.attributeParser mg' = AnimationManager.attributeParser mg ->
  AnimationManager.config mg' = AnimationManager.config mg ->
  dom w' = dom w ->
  needsUpdate mg' w' ms = needsUpdate mg w ms.
Proof.
  intros Hp Hc Hd. unfold needsUpdate, element. now rewrite Hp, Hc, Hd.
Qed.

Lemma NoDup_ids_filter (P : nat * Closure * Z -> Prop) `{forall x, Decision (P x)}
    (l : list (nat * Closure * Z)) :
  NoDup l.*1.*1 -> NoDup (filter P l).*1.*1.
Proof.
  induction l as [|x l IH]; intros Hnd; [constructor|].
  rewrite !fmap_cons in Hnd. apply NoDup_cons in Hnd as [Hx Hnd].
  rewrite filter_cons. destruct (decide _); [|now apply IH].
  rewrite !fmap_cons. apply NoDup_cons. split; [|now apply IH].
  intros Hin. apply Hx.
  apply list_elem_of_fmap in Hin as (y & -> & Hy).
  apply list_elem_of_fmap in Hy as (z & -> & Hz).
  apply list_elem_of_filter in Hz as [_ Hz].
  apply list_elem_of_fmap. exists z.1. split; [reflexivity|].
  apply list_elem_of_fmap. eauto.
Qed.

Lemma NoDup_ids_eq (l : list (nat * Closure * Z)) (p q : nat * Closure * Z) :
  NoDup l.*1.*1 -> p ∈ l -> q ∈ l -> p.1.1 = q.1.1 -> p = q.
Proof.
  induction l as [|x l IH]; intros Hnd Hp Hq Heq; [inversion Hp|].
  rewrite !fmap_cons in Hnd. apply NoDup_cons in Hnd as [Hx Hnd].
  assert (Hin : forall y, y ∈ l -> y.1.1 ∈ l.*1.*1).
  { intros y Hy. apply list_elem_of_fmap. exists y.1. split; [reflexivity|].
    apply list_elem_of_fmap. eauto. }
  apply elem_of_cons in Hp as [->|Hp]; apply elem_of_cons in Hq as [->|Hq].
  - reflexivity.
  - exfalso. apply Hx. rewrite Heq. now apply Hin.
  - exfalso. apply Hx. rewrite <- Heq. now apply Hin.
  - now apply IH.
Qed.

Lemma mutationCallback_step (this : nat) (ms : list MutationRecord) (w : World)
    (mg : AnimationManager.t) :
  debounce_invariant this w ->
  managers w !! this = Some mg ->
  exists w' mg',
    mutationCallback this ms w = Some w'
    /\ debounce_invariant this w'
    /\ managers w' !! this = Some mg'
    /\ AnimationManager.attributeParser mg' = AnimationManager.attributeParser mg
    /\ AnimationManager.config mg' = AnimationManager.config mg
    /\ dom w' = dom w /\ animations w' = animations w /\ next w <= next w'
    /\ filter (fun t => is_debounce this t.1.2 = false) (timers w')
       = filter (fun t => is_debounce this t.1.2 = false) (timers w)
    /\ (needsUpdate mg w ms = false -> w' = w)
    /\ (needsUpdate mg w ms = true ->
        debounce_pending this w' = [next w]
        /\ timers w'
           = filter (fun t => is_debounce this t.1.2 = false) (timers w)
             ++ [(next w, DebouncedRescan this, 100%Z)]).
Proof.
  intros Hinv Hmg. pose proof Hinv as (Hfr & Hnd & mg0 & Hmg0 & Hpend).
  assert (mg0 = mg) by congruence. subst mg0.
  unfold mutationCallback. rewrite Hmg. simpl.
  destruct (needsUpdate mg w ms) eqn:En.
  2:{ exists w, mg. split; [reflexivity|]. split; [exact Hinv|].
      repeat (split; [first [reflexivity | assumption | lia]|]). discriminate. }
  set (w1 := match AnimationManager.loadTimeout mg with
             | Some id => clearTimeout id w
             | None => w
             end).
  assert (H1 : next w1 = next w /\ dom w1 = dom w /\ animations w1 = animations w
               /\ managers w1 = managers w
               /\ timers w1
                  = filter (fun t => is_debounce this t.1.2 = false) (timers w)).
  { subst w1. destruct (AnimationManager.loadTimeout mg) as [id|] eqn:El; simpl.
    - repeat split; auto. simpl in Hpend. apply filter_ext_in. intros p Hp. split.
      + intros Hne. destruct (is_debounce this p.1.2) eqn:Ed; [|reflexivity].
        exfalso. apply Hne.
        assert (Hin : p.1.1 ∈ debounce_pending this w).
        { apply list_elem_of_fmap. exists p.1. split; [reflexivity|].
          apply list_elem_of_fmap. exists p. split; [reflexivity|].
          apply list_elem_of_filter. auto. }
        rewrite Hpend in Hin. now apply list_elem_of_singleton in Hin.
      + intros Hnp Hid.
        assert (Hin : id ∈ debounce_pending this w) by (rewrite Hpend; left).
        apply list_elem_of_fmap in Hin as (q1 & Hq1 & Hq).
        apply list_elem_of_fmap in Hq as (q & -> & Hq).
        apply list_elem_of_filter in Hq as [Hqp Hq].
        assert (p = q) by (apply (NoDup_ids_eq (timers w)); auto; congruence).
        subst q. congruence.
    - repeat split; auto. simpl in Hpend. unfold debounce_pending in Hpend.
      apply fmap_nil_inv in Hpend. apply fmap_nil_inv in Hpend.
      symmetry. apply filter_all.
      intros p Hp. destruct (is_debounce this p.1.2) eqn:Ed; [|reflexivity].
      exfalso. assert (Hin : p ∈ filter (fun t => is_debounce this t.1.2 = true)
                                 (timers w)) by (apply list_elem_of_filter; auto).
      rewrite Hpend in Hin. inversion Hin. }
  destruct H1 as (Hn1 & Hd1 & Ha1 & Hm1 & Ht1). clearbody w1.
  unfold setTimeout. cbv beta iota.
  eexists _, _. split; [reflexivity|]. simpl.
  rewrite Hn1, Hd1, Ha1, Hm1, Ht1, lookup_alter_eq, Hmg. simpl.
  set (others := filter (fun t => is_debounce this t.1.2 = false) (timers w)).
  assert (Hsub : forall p, p ∈ others -> p ∈ timers w /\ is_debounce this p.1.2 = false).
  { intros p Hp. apply list_elem_of_filter in Hp. tauto. }
  assert (Hp' : (filter (fun t => is_debounce this t.1.2 = true)
                   (others ++ [(next w, DebouncedRescan this, 100%Z)])).*1.*1
                = [next w]).
  { rewrite filter_app.
    rewrite (filter_none _ others)
      by (intros p Hp Hpar; destruct (Hsub p Hp) as [_ Hn]; congruence).
    simpl. rewrite filter_cons, decide_True by (simpl; apply Nat.eqb_refl).
    reflexivity. }
  split.
  { split; [|split].
    - intros p Hp. simpl in Hp. simpl. rewrite ?Hn1, ?Ht1 in *. fold others in Hp.
      apply elem_of_app in Hp as [Hp|Hp].
      + specialize (Hfr p (proj1 (Hsub p Hp))). lia.
      + apply list_elem_of_singleton in Hp as ->. simpl. lia.
    - simpl. rewrite ?Ht1, ?Hn1. fold others. rewrite !fmap_app. apply NoDup_app.
      split; [|split].
      + subst others. now apply NoDup_ids_filter.
      + intros x Hx Hx'. apply list_elem_of_singleton in Hx'. subst x.
        apply list_elem_of_fmap in Hx as (p1 & Hp1 & Hp).
        apply list_elem_of_fmap in Hp as (p & -> & Hp).
        specialize (Hfr p (proj1 (Hsub p Hp))). simpl in Hp1. lia.
      + simpl. apply NoDup_singleton.
    - eexists. split; [simpl; rewrite ?lookup_alter_eq, ?Hm1, ?Hmg; reflexivity|].
      simpl. unfold debounce_pending. simpl. rewrite ?Ht1, ?Hn1. exact Hp'. }
  split; [reflexivity|]. split; [reflexivity|]. split; [reflexivity|].
  split; [reflexivity|]. split; [reflexivity|]. split; [lia|].
  split.
  { fold others. rewrite filter_app, filter_cons, decide_False, filter_nil, app_nil_r.
    - apply filter_all. intros p Hp. apply (Hsub p Hp).
    - simpl. rewrite Nat.eqb_refl. discriminate. }
  split; [discriminate|]. intros _. split; [|reflexivity].
  unfold debounce_pending. simpl. rewrite ?Ht1, ?Hn1. exact Hp'.
Qed.
(** However many batches of mutation records the observer delivers, at
    most one debounced re-scan of the manager is pending afterwards, and
    [loadTimeout] names it.  If some batch adds an element that bears the
    primary attribute, or has a descendant that bears it, exactly one is
    pending, with a delay of 100 ms and an identifier handed out during
    the deliveries; each such batch cancels the one before.  If no batch
    does, nothing changes at all.  The callback never touches the
    elements, the module instances or the other timers.  The attribute
    name of the manager is taken to be one that [querySelector]
    accepts. *)
Theorem mutation_debounce (this : nat) (batches : list (list MutationRecord))
    (w : World) (mg : AnimationManager.t) :
  debounce_invariant this w ->
  managers w !! this = Some mg ->
  selector_name (attributeName (AnimationManager.config mg)) = true ->
  exists w',
    deliver this batches w = Some w'
    /\ debounce_invariant this w'
    /\ dom w' = dom w /\ animations w' = animations w
    /\ filter (fun t => is_debounce this t.1.2 = false) (timers w')
       = filter (fun t => is_debounce this t.1.2 = false) (timers w)
    /\ if existsb (needsUpdate mg w) batches
       then exists id,
              debounce_pending this w' = [id] /\ next w <= id
              /\ (id, DebouncedRescan this, 100%Z) ∈ timers w'
       else w' = w.
Proof.
  intros Hinv Hmg _. revert w mg Hinv Hmg. unfold deliver.
  induction batches as [|ms batches IH]; intros w mg Hinv Hmg.
  - exists w. simpl. split; [reflexivity|]. split; [exact Hinv|]. repeat split.
  - destruct (mutationCallback_step this ms w mg Hinv Hmg)
      as (w1 & mg1 & E1 & Hinv1 & Hmg1 & Hp1 & Hc1 & Hd1 & Ha1 & Hn1 & Ht1 & Hno & Hyes).
    destruct (IH w1 mg1 Hinv1 Hmg1) as (w' & E & Hinv' & Hd & Ha & Ht & Hif).
    assert (Hex : existsb (needsUpdate mg1 w1) batches
                  = existsb (needsUpdate mg w) batches).
    { clear -Hp1 Hc1 Hd1. induction batches as [|b l IHl]; simpl; [reflexivity|].
      now rewrite IHl, (needsUpdate_ext mg mg1 w w1). }
    rewrite Hex in Hif.
    exists w'. simpl. rewrite E1. simpl.
    split; [exact E|]. split; [exact Hinv'|]. split; [congruence|].
    split; [congruence|]. split; [congruence|].
    destruct (needsUpdate mg w ms) eqn:En; simpl.
    + destruct (Hyes eq_refl) as (Hpend1 & Htim1).
      destruct (existsb (needsUpdate mg w) batches).
      * destruct Hif as (id & Hid & Hle & Hin). exists id. repeat split; auto. lia.
      * subst w'. exists (next w). split; [exact Hpend1|]. split; [lia|].
        rewrite Htim1. apply elem_of_app. right. left.
    + rewrite (Hno eq_refl) in *.
      destruct (existsb (needsUpdate mg w) batches); exact Hif.
Qed.

Lemma list_find_id (l : list (nat * Closure * Z)) (t : nat * Closure * Z) :
  NoDup l.*1.*1 -> t ∈ l ->
  exists i, list_find (fun p => p.1.1 = t.1.1) l = Some (i, t).
Proof.
  intros Hnd Hin.
  destruct (list_find (fun p => p.1.1 = t.1.1) l) as [[i q]|] eqn:E.
  - apply list_find_Some in E as (Hi & Hq & _).
    apply list_elem_of_lookup_2 in Hi.
    assert (q = t) by (apply (NoDup_ids_eq l); auto). subst q. eauto.
  - exfalso. apply list_find_None in E.
    apply (proj1 (Forall_forall _ _) E t Hin). reflexivity.
Qed.

(** When the pending debounced re-scan of a manager fires, the timer is
    gone, the re-scan of [initDynamicElements] runs once and [loadTimeout]
    is cleared: no debounced re-scan is pending afterwards and the other
    timers are as they were. *)
Theorem debounced_rescan_fires (this id : nat) (w w' : World) :
  debounce_invariant this w ->
  debounce_pending this w = [id] ->
  run_timer id w = Some w' ->
  (exists w1,
      initDynamicElements this (clearTimeout id w) = Some w1
      /\ w' = update_manager this (AnimationManager.set_loadTimeout None) w1)
  /\ (exists mg', managers w' !! this = Some mg'
                  /\ AnimationManager.loadTimeout mg' = None)
  /\ debounce_pending this w' = []
  /\ timers w' = filter (fun t => is_debounce this t.1.2 = false) (timers w).
Proof.
  intros (Hfr & Hnd & mg & Hmg & Hpend) Hid E.
  assert (Hin : id ∈ debounce_pending this w) by (rewrite Hid; left).
  apply list_elem_of_fmap in Hin as (q1 & Hq1 & Hq).
  apply list_elem_of_fmap in Hq as (t & -> & Ht).
  apply list_elem_of_filter in Ht as [Hdeb Ht].
  destruct t as [[i c] d]. simpl in Hq1, Hdeb. subst i.
  destruct c; try discriminate. apply Nat.eqb_eq in Hdeb. subst this0.
  destruct (list_find_id (timers w) _ Hnd Ht) as (i & Hfind). simpl in Hfind.
  unfold run_timer in E. rewrite Hfind in E. simpl in E.
  assert (Htim : timers (clearTimeout id w)
                 = filter (fun t => is_debounce this t.1.2 = false) (timers w)).
  { simpl. apply filter_ext_in. intros p Hp. split.
    - intros Hne. destruct (is_debounce this p.1.2) eqn:Ed; [|reflexivity].
      exfalso. apply Hne.
      assert (Hin : p.1.1 ∈ debounce_pending this w).
      { apply list_elem_of_fmap. exists p.1. split; [reflexivity|].
        apply list_elem_of_fmap. exists p. split; [reflexivity|].
        apply list_elem_of_filter. auto. }
      rewrite Hid in Hin. now apply list_elem_of_singleton in Hin.
    - intros Hnp Heq.
      assert (p = (id, DebouncedRescan this, d))
        by (apply (NoDup_ids_eq (timers w)); auto).
      subst p. simpl in Hnp. rewrite Nat.eqb_refl in Hnp. discriminate. }
  destruct (initDynamicElements this (clearTimeout id w)) as [w1|] eqn:E1;
    [|discriminate].
  simpl in E. injection E as <-.
  assert (K : kept (clearTimeout id w) w1).
  { unfold initDynamicElements in E1.
    destruct (managers (clearTimeout id w) !! this) as [mg1|]; [|discriminate].
    simpl in E1. destruct (negb _); [injection E1 as <-; apply kept_refl|].
    destruct (prefersReducedMotion _); [injection E1 as <-; apply kept_refl|].
    now apply scan_kept in E1. }
  destruct K as (Km & Kt & _).
  split; [eauto|]. split.
  - simpl. rewrite lookup_alter_eq, Km. simpl. rewrite Hmg. simpl. eauto.
  - unfold debounce_pending. simpl. rewrite Kt, Htim. split; [|reflexivity].
    rewrite (filter_none _ (filter _ (timers w))); [reflexivity|].
    intros p Hp Hd. apply list_elem_of_filter in Hp as [Hn _]. congruence.
Qed.
End ManagerMore.

Lemma updateConfig_propagates_witness :
  managers manager_ready_world !! 4 = Some (manager_of 4 manager_ready_world)
  /\ exists w' mg' md',
       AnimationManager_updateConfig 4 data_config manager_ready_world = Some w'
       /\ managers w' !! 4 = Some mg'
       /\ attributeName (AnimationManager.config mg') = "data-anim"
       /\ animations w' !! 5 = Some md'
       /\ attributeName (config (BaseAnimation.attributeParser md')) = "data-anim".
Proof.
  assert (Hmg : managers manager_ready_world !! 4 = Some (manager_of 4 manager_ready_world))
    by (vm_compute; reflexivity).
  split; [exact Hmg|].
  destruct (updateConfig_propagates 4 data_config manager_ready_world _ Hmg)
    as (w' & mg' & E & Hmg' & _ & Hc & _ & _ & Hmod & _).
  destruct (Hmod "fade-in" 5 FadeInAnimation_fields) as (md' & Hmd' & Hc' & _).
  { vm_compute. left. }
  { vm_compute. reflexivity. }
  exists w', mg', md'. split; [exact E|]. split; [exact Hmg'|].
  split; [rewrite Hc; reflexivity|]. split; [exact Hmd'|]. rewrite Hc'. reflexivity.
Defined.

Lemma registerModule_getModule_witness :
  managers manager_ready_world !! 4 = Some (manager_of 4 manager_ready_world)
  /\ exists mg',
       managers (registerModule 4 "fade-in" 7 manager_ready_world) !! 4 = Some mg'
       /\ getModule mg' "fade-in" = Some 7
       /\ (AnimationManager.modules mg').*1 = ["fade-in"].
Proof.
  assert (Hmg : managers manager_ready_world !! 4 = Some (manager_of 4 manager_ready_world))
    by (vm_compute; reflexivity).
  split; [exact Hmg|].
  destruct (registerModule_getModule 4 "fade-in" 7 manager_ready_world _ Hmg)
    as (mg' & Hmg' & Hget & _ & Hnames & _).
  exists mg'. split; [exact Hmg'|]. split; [exact Hget|].
  rewrite Hnames. vm_compute. reflexivity.
Defined.

Lemma init_once_witness :
  managers manager_ready_world !! 4 = Some (manager_of 4 manager_ready_world)
  /\ AnimationManager.initialized (manager_of 4 manager_ready_world) = false
  /\ init 4 manager_ready_world = Some manager_initialized
  /\ init 4 manager_initialized = Some manager_initialized
  /\ exists id, timers manager_initialized = [(id, PostInitRescan 4, 1000%Z)].
Proof.
  assert (Hmg : managers manager_ready_world !! 4 = Some (manager_of 4 manager_ready_world))
    by (vm_compute; reflexivity).
  assert (Hi : AnimationManager.initialized (manager_of 4 manager_ready_world) = false)
    by (vm_compute; reflexivity).
  assert (E : init 4 manager_ready_world = Some manager_initialized)
    by (vm_compute; reflexivity).
  split; [exact Hmg|]. split; [exact Hi|]. split; [exact E|].
  destruct (init_once 4 manager_ready_world manager_initialized _ Hmg Hi E)
    as (mg' & obs & id & _ & _ & _ & _ & _ & _ & _ & _ & Ht & Hagain).
  split; [exact Hagain|]. exists id. exact Ht.
Defined.

Lemma reduced_motion_disables_witness :
  managers reduced_ready !! 2 = Some (manager_of 2 reduced_ready)
  /\ prefersReducedMotion reduced_ready = true
  /\ initDynamicElements 2 reduced_ready = Some reduced_ready
  /\ exists w', init 2 reduced_ready = Some w' /\ dom w' = dom reduced_ready.
Proof.
  assert (Hmg : managers reduced_ready !! 2 = Some (manager_of 2 reduced_ready))
    by (vm_compute; reflexivity).
  assert (Hr : prefersReducedMotion reduced_ready = true) by (vm_compute; reflexivity).
  split; [exact Hmg|]. split; [exact Hr|].
  destruct (reduced_motion_disables 2 reduced_ready _ Hmg Hr) as (Hscan & Hinit).
  split; [exact Hscan|].
  destruct Hinit as (w' & E & Hd & _); [vm_compute; reflexivity|].
  exists w'. auto.
Defined.

Lemma AnimationManager_destroy_post_witness :
  managers manager_debouncing !! 4 = Some (manager_of 4 manager_debouncing)
  /\ exists w' md',
       AnimationManager_destroy 4 manager_debouncing = Some w'
       /\ timers w' = [(8, PostInitRescan 4, 1000%Z)]
       /\ animations w' !! 5 = Some md' /\ BaseAnimation.elements md' = []
       /\ dom w' = dom manager_debouncing.
Proof.
  assert (Hmg : managers manager_debouncing !! 4 = Some (manager_of 4 manager_debouncing))
    by (vm_compute; reflexivity).
  split; [exact Hmg|].
  destruct (AnimationManager_destroy_post 4 manager_debouncing _ Hmg)
    as (w' & mg' & E & _ & _ & _ & _ & _ & _ & _ & Ht & _ & Hmod & _ & Hd & _).
  destruct (Hmod "fade-in" 5 (default FadeInAnimation_fields
                                (animations manager_debouncing !! 5)))
    as (md' & Hmd' & (He & _) & _).
  { vm_compute. left. }
  { vm_compute. reflexivity. }
  exists w', md'. split; [exact E|]. split; [rewrite Ht; vm_compute; reflexivity|].
  auto.
Defined.

Lemma init_after_destroy_witness :
  managers manager_debouncing !! 4 = Some (manager_of 4 manager_debouncing)
  /\ selector_name
       (attributeName (AnimationManager.config (manager_of 4 manager_debouncing))) = true
  /\ exists w1 w2,
       AnimationManager_destroy 4 manager_debouncing = Some w1
       /\ init 4 w1 = Some w2
       /\ animations w2 = animations w1.
Proof.
  assert (Hmg : managers manager_debouncing !! 4 = Some (manager_of 4 manager_debouncing))
    by (vm_compute; reflexivity).
  assert (Hs : selector_name
                 (attributeName (AnimationManager.config (manager_of 4 manager_debouncing)))
               = true) by (vm_compute; reflexivity).
  split; [exact Hmg|]. split; [exact Hs|].
  destruct (init_after_destroy 4 manager_debouncing _ Hmg Hs)
    as (w1 & mg1 & w2 & mg2 & E1 & _ & _ & _ & E2 & _ & _ & _ & _ & Ha & _).
  exists w1, w2. auto.
Defined.

Lemma mutation_debounce_witness :
  debounce_invariant 4 manager_initialized
  /\ managers manager_initialized !! 4 = Some (manager_of 4 manager_initialized)
  /\ selector_name
       (attributeName (AnimationManager.config (manager_of 4 manager_initialized))) = true
  /\ exists w' id,
       deliver 4 [one_addition; []; one_addition] manager_initialized = Some w'
       /\ debounce_pending 4 w' = [id]
       /\ dom w' = dom manager_initialized.
Proof.
  assert (Hmg : managers manager_initialized !! 4 = Some (manager_of 4 manager_initialized))
    by (vm_compute; reflexivity).
  assert (Hinv : debounce_invariant 4 manager_initialized).
  { split; [|split].
    - intros t Ht. vm_compute in Ht.
      apply list_elem_of_singleton in Ht as ->. vm_compute. lia.
    - vm_compute. apply NoDup_singleton.
    - exists (manager_of 4 manager_initialized). split; [exact Hmg|].
      vm_compute. reflexivity. }
  assert (Hs : selector_name
                 (attributeName (AnimationManager.config (manager_of 4 manager_initialized)))
               = true) by (vm_compute; reflexivity).
  split; [exact Hinv|]. split; [exact Hmg|]. split; [exact Hs|].
  destruct (mutation_debounce 4 [one_addition; []; one_addition] manager_initialized _
              Hinv Hmg Hs) as (w' & E & _ & Hd & _ & _ & Hif).
  assert (Hex : existsb (needsUpdate (manager_of 4 manager_initialized) manager_initialized)
                  [one_addition; []; one_addition] = true) by (vm_compute; reflexivity).
  rewrite Hex in Hif. destruct Hif as (id & Hid & _).
  exists w', id. auto.
Defined.

Lemma debounced_rescan_fires_witness :
  debounce_invariant 4 manager_debouncing
  /\ debounce_pending 4 manager_debouncing = [9]
  /\ exists w', run_timer 9 manager_debouncing = Some w'
       /\ debounce_pending 4 w' = []
       /\ timers w' = [(8, PostInitRescan 4, 1000%Z)].
Proof.
  assert (Hinv : debounce_invariant 4 manager_debouncing).
  { split; [|split].
    - intros t Ht. vm_compute in Ht.
      apply elem_of_cons in Ht as [->|Ht]; [vm_compute; lia|].
      apply list_elem_of_singleton in Ht as ->. vm_compute. lia.
    - vm_compute. apply NoDup_cons. split; [|apply NoDup_singleton].
      intros Hin. apply list_elem_of_singleton in Hin. discriminate.
    - exists (manager_of 4 manager_debouncing). split; vm_compute; reflexivity. }
  assert (Hp : debounce_pending 4 manager_debouncing = [9]) by (vm_compute; reflexivity).
  split; [exact Hinv|]. split; [exact Hp|].
  destruct (run_timer 9 manager_debouncing) as [w'|] eqn:E;
    [|vm_compute in E; discriminate].
  destruct (debounced_rescan_fires 4 9 manager_debouncing w' Hinv Hp E)
    as (_ & _ & Hnone & Ht).
  exists w'. split; [reflexivity|]. split; [exact Hnone|].
  rewrite Ht. vm_compute. reflexivity.
Defined.



(** * The scans of the manager *)

Local Close Scope Q_scope.
Local Open Scope list_scope.

Section ScanFacts.
Context `{Host}.

Lemma stable_refl this w : stable this w w.
Proof. repeat split; eauto. Qed.

Lemma stable_trans this w1 w2 w3 :
  stable this w1 w2 -> stable this w2 w3 -> stable this w1 w3.
Proof.
  intros (A1 & B1 & C1) (A2 & B2 & C2). split; [|split].
  - intros x. now rewrite A2.
  - intros m Hm. now rewrite B2, B1.
  - intros md Hmd. destruct (C1 md Hmd) as (md2 & Hmd2 & E2).
    destruct (C2 md2 Hmd2) as (md3 & Hmd3 & E3). exists md3. split; congruence.
Qed.

Lemma stable_same this w w' :
  dom w' = dom w -> animations w' = animations w -> stable this w w'.
Proof.
  intros Hd Ha. split; [|split].
  - intros x. unfold element. now rewrite Hd.
  - intros m _. now rewrite Ha.
  - intros md Hmd. exists md. now rewrite Ha.
Qed.

Lemma stable_update_element this e f w :
  (forall el, attributes (f el) = attributes el) ->
  stable this w (update_element e f w).
Proof.
  intros Hf. split; [|split].
  - intros x. destruct (decide (e = x)) as [<-|Hx].
    + now rewrite element_update_eq.
    + now rewrite element_update_ne.
  - reflexivity.
  - intros md Hmd. exists md. auto.
Qed.

Lemma stable_update_animation this f w :
  (forall md, BaseAnimation.attributeParser (f md) = BaseAnimation.attributeParser md) ->
  stable this w (update_animation this f w).
Proof.
  intros Hf. split; [|split].
  - reflexivity.
  - intros m Hm. unfold update_animation. simpl. now rewrite lookup_alter_ne.
  - intros md Hmd. exists (f md). unfold update_animation. simpl.
    rewrite lookup_alter_eq, Hmd. auto.
Qed.

Lemma foldl_stable {A} this (f : World -> A -> World) :
  (forall w a, stable this w (f w a)) -> forall l w, stable this w (foldl f w l).
Proof.
  intros Hf. induction l as [|a l IH]; intros w; simpl; [apply stable_refl|].
  eapply stable_trans; [apply Hf | apply IH].
Qed.

Lemma foldl_option_stable {A} this (f : World -> A -> option World) :
  (forall w a w', f w a = Some w' -> stable this w w') ->
  forall l w w',
    foldl (fun ow a => w ← ow; f w a) (Some w) l = Some w' -> stable this w w'.
Proof.
  intros Hf. induction l as [|a l IH]; intros w w' E; simpl in E.
  - injection E as <-. apply stable_refl.
  - destruct (f w a) as [w1|] eqn:E1; simpl in E; [|now rewrite foldl_None in E].
    eapply stable_trans; [apply (Hf w a w1 E1) | apply IH; exact E].
Qed.

Lemma getOptions_stable this e w : stable this w (getOptions this e w).2.
Proof.
  unfold getOptions. destruct (animations w !! this) as [md|]; [|apply stable_refl].
  destruct (BaseAnimation.parsedOptions md !! e); [apply stable_refl|]. simpl.
  apply stable_update_animation. now intros [].
Qed.

Lemma initElement_stable this e w : stable this w (initElement this e w).
Proof.
  unfold initElement. destruct (animations w !! this) as [md|]; [|apply stable_refl].
  destruct (negb _ && negb _); [|apply stable_refl].
  pose proof (getOptions_stable this e w) as Hs.
  destruct (getOptions this e w) as [options w1]. simpl in Hs.
  eapply stable_trans; [exact Hs|]. now apply stable_update_element.
Qed.

Lemma initObserver_stable this w w' : initObserver this w = Some w' -> stable this w w'.
Proof.
  unfold initObserver. destruct (animations w !! this) as [md|]; [|discriminate].
  simpl. destruct (BaseAnimation.elements md) as [|e0 rest].
  - intros [= <-]. now apply stable_same.
  - pose proof (threshold_of_frame (getElementOptions md w e0)
                  (oi_threshold (BaseAnimation.observerOptions md)) w) as Hfr.
    destruct (threshold_of _ _ w) as [th wt]. simpl in Hfr.
    destruct Hfr as (Hd & _ & _ & _ & _ & _ & Ha & _).
    destruct (rootMargin_valid _); [|discriminate]. intros [= <-].
    eapply stable_trans; [apply (stable_same this w wt Hd Ha)|].
    eapply stable_trans; [|apply stable_update_animation; now intros []].
    now apply stable_same.
Qed.

Lemma register_element_stable this w e : stable this w (register_element this w e).
Proof.
  unfold register_element. destruct (animations w !! this) as [md|]; [|apply stable_refl].
  destruct (hasAnimationAttributes _ _); [|apply stable_refl].
  destruct (BaseAnimation.observer md).
  - match goal with |- stable _ _ (observe _ _ ?w1) => apply (stable_trans _ _ w1) end;
      [apply stable_update_animation; now intros [] | now apply stable_same].
  - apply stable_update_animation. now intros [].
Qed.

Lemma BaseAnimation_register_stable this els w w' :
  BaseAnimation_register this els w = Some w' -> stable this w w'.
Proof.
  unfold BaseAnimation_register.
  destruct (initObserver this w) as [w1|] eqn:E1; [|discriminate]. simpl.
  intros [= <-]. eapply stable_trans; [apply (initObserver_stable _ _ _ E1)|].
  apply foldl_stable. apply register_element_stable.
Qed.

Lemma applyParallaxEffect_stable this e p w w' :
  applyParallaxEffect this e p w = Some w' -> stable this w w'.
Proof.
  unfold applyParallaxEffect. destruct (animations w !! this) as [md|]; [|discriminate].
  simpl. pose proof (getOptions_stable this e w) as Hs.
  destruct (getOptions this e w) as [options w1]. simpl in Hs.
  destruct (if option_truthy options "class" then _ else _) as [el2|] eqn:E2;
    [|discriminate].
  simpl. destruct (classList_add _ el2) as [el3|] eqn:E3; [|discriminate]. simpl.
  intros [= <-]. eapply stable_trans; [exact Hs|].
  destruct (custom_add_keeps _ _ _ E2) as (_ & _ & Ha2 & _).
  destruct (classList_add_in _ _ _ E3) as (_ & _ & _ & Ha3 & _).
  split; [|split].
  - intros x. destruct (decide (e = x)) as [<-|Hx].
    + rewrite element_update_eq, Ha3, Ha2. reflexivity.
    + now rewrite element_update_ne.
  - reflexivity.
  - intros md0 Hmd0. exists md0. auto.
Qed.

Lemma updateParallaxElements_stable this w w' :
  updateParallaxElements this w = Some w' -> stable this w w'.
Proof.
  unfold updateParallaxElements.
  destruct (animations w !! this) as [md|]; [|discriminate]. simpl.
  apply foldl_option_stable. clear. intros w e w' E. unfold updateParallaxElement in E.
  destruct (Qle_bool _ _ && Qle_bool _ _).
  - apply applyParallaxEffect_stable in E. eapply stable_trans; [|exact E].
    unfold setProgress. now apply stable_update_element.
  - injection E as <-. apply stable_refl.
Qed.

Lemma register_stable this els w w' : register this els w = Some w' -> stable this w w'.
Proof.
  unfold register. destruct (animations w !! this) as [md|]; [|discriminate]. simpl.
  destruct (BaseAnimation.class md).
  - apply BaseAnimation_register_stable.
  - unfold FadeInAnimation_register. intros E.
    apply BaseAnimation_register_stable in E. eapply stable_trans; [|exact E].
    apply foldl_stable. intros. apply initElement_stable.
  - unfold ParallaxAnimation_register.
    destruct (BaseAnimation_register this els w) as [wb|] eqn:Eb; [|discriminate].
    simpl. apply BaseAnimation_register_stable in Eb.
    destruct (animations wb !! this) as [mdb|]; [|discriminate]. simpl.
    destruct (BaseAnimation.scrollListenerAttached mdb).
    + intros [= <-]. exact Eb.
    + intros E. apply updateParallaxElements_stable in E.
      eapply stable_trans; [exact Eb|]. eapply stable_trans; [|exact E].
      eapply stable_trans; [|apply stable_update_animation; now intros []].
      apply stable_same; unfold addEventListener; simpl; now destruct (bool_decide _).
Qed.

(** ** The routes of a scan *)

Lemma dynamic_route_spec (mg : AnimationManager.t) (w : World) (e : nat) (module : nat) :
  dynamic_route mg w e = Some module <->
  exists moduleName options,
    parseElementOptions (AnimationManager.attributeParser mg)
      (attributes (element w e)) = Some (moduleName, options)
    /\ getModule mg moduleName = Some module
    /\ isElementInitialized mg w e moduleName = false.
Proof.
  unfold dynamic_route.
  destruct (parseElementOptions _ _) as [[moduleName options]|].
  - destruct (getModule mg moduleName) as [m|] eqn:Eg.
    + destruct (isElementInitialized mg w e moduleName) eqn:Ei.
      * split; [discriminate|]. intros (n & o & E & Eg' & Ei').
        injection E as <- <-. congruence.
      * split.
        -- intros [= <-]. exists moduleName, options. auto.
        -- intros (n & o & E & Eg' & _). injection E as <- <-. congruence.
    + split; [discriminate|]. intros (n & o & E & Eg' & _).
      injection E as <- <-. congruence.
  - split; [discriminate|]. intros (n & o & E & _). discriminate.
Qed.

Lemma init_route_spec (mg : AnimationManager.t) (w : World) (e : nat) (module : nat) :
  init_route mg w e = Some module <->
  exists moduleName options,
    parseElementOptions (AnimationManager.attributeParser mg)
      (attributes (element w e)) = Some (moduleName, options)
    /\ getModule mg moduleName = Some module.
Proof.
  unfold init_route.
  destruct (parseElementOptions _ _) as [[moduleName options]|].
  - split.
    + intros Eg. exists moduleName, options. auto.
    + intros (n & o & E & Eg). injection E as <- <-. exact Eg.
  - split; [discriminate|]. intros (n & o & E & _). discriminate.
Qed.

Lemma dynamic_route_skip (mg : AnimationManager.t) (w : World) (e : nat) :
  parseElementOptions (AnimationManager.attributeParser mg) (attributes (element w e))
  = None
  \/ (exists moduleName options,
        parseElementOptions (AnimationManager.attributeParser mg)
          (attributes (element w e)) = Some (moduleName, options)
        /\ (getModule mg moduleName = None
            \/ isElementInitialized mg w e moduleName = true)) ->
  dynamic_route mg w e = None.
Proof.
  unfold dynamic_route. intros [->|(n & o & -> & [->| Hi])]; [reflexivity..|].
  destruct (getModule mg n); [now rewrite Hi | reflexivity].
Qed.

Lemma init_route_stable (mg : AnimationManager.t) (w w' : World) (e : nat) :
  (forall x, attributes (element w' x) = attributes (element w x)) ->
  init_route mg w' e = init_route mg w e.
Proof. intros Ha. unfold init_route. now rewrite Ha. Qed.

Lemma register_absent this els w : animations w !! this = None -> register this els w = None.
Proof. intros Hn. unfold register. now rewrite Hn. Qed.

(** The scan of [init] appends to the roster of every instance the
    elements routed to it that carry the attribute of its parser, in the
    order of the scan. *)
Lemma scan_init_rosters (mg : AnimationManager.t) (els : list nat) :
  forall w w',
    scan (init_route mg) els w = Some w' ->
    (forall x, attributes (element w' x) = attributes (element w x))
    /\ forall m md,
         animations w !! m = Some md ->
         exists md',
           animations w' !! m = Some md'
           /\ BaseAnimation.attributeParser md' = BaseAnimation.attributeParser md
           /\ BaseAnimation.elements md'
              = BaseAnimation.elements md
                ++ filter (fun e => init_route mg w e = Some m /\ carries md w e) els.
Proof.
  unfold scan. induction els as [|e els IH]; intros w w' E; simpl in E.
  - injection E as <-. split; [reflexivity|]. intros m md Hmd. exists md.
    rewrite filter_nil, app_nil_r. auto.
  - destruct (scan_step (init_route mg) w e) as [w1|] eqn:E1;
      [|now rewrite foldl_None in E].
    destruct (IH w1 w' E) as (A2 & R2). clear IH E.
    unfold scan_step in E1.
    destruct (init_route mg w e) as [module|] eqn:Er.
    + destruct (animations w !! module) as [mdm|] eqn:Hmdm;
        [|now rewrite register_absent in E1].
      destruct (register_stable module [e] w w1 E1) as (A1 & B1 & C1).
      destruct (register_roster module [e] w w1 mdm Hmdm E1) as (md1 & Hmd1 & Er1 & _).
      destruct (C1 mdm Hmdm) as (md1' & Hmd1' & Ep1).
      assert (md1' = md1) by congruence. subst md1'.
      split; [intros x; now rewrite A2|].
      intros m md Hmd. destruct (decide (m = module)) as [->|Hm].
      * assert (md = mdm) by congruence. subst md.
        destruct (R2 module md1 Hmd1) as (md' & Hmd' & Ep' & Ee').
        exists md'. split; [exact Hmd'|]. split; [congruence|].
        rewrite Ee', Er1, <- app_assoc. f_equal.
        rewrite (filter_cons (fun x => init_route mg w x = Some module /\ carries mdm w x)).
        rewrite filter_cons, filter_nil.
        assert (Hf : filter (fun x => init_route mg w1 x = Some module /\ carries md1 w1 x) els
                     = filter (fun x => init_route mg w x = Some module /\ carries mdm w x) els).
        { apply list_filter_iff. intros x. unfold carries.
          now rewrite (init_route_stable mg w w1 x A1), Ep1, A1. }
        rewrite Hf.
        destruct (decide (carries mdm w e)) as [Hc|Hc].
        -- rewrite decide_True by (split; [exact Er | exact Hc]). reflexivity.
        -- rewrite decide_False by (intros [_ Hc']; contradiction). reflexivity.
      * rewrite <- (B1 m Hm) in Hmd.
        destruct (R2 m md Hmd) as (md' & Hmd' & Ep' & Ee').
        exists md'. split; [exact Hmd'|]. split; [exact Ep'|].
        rewrite Ee'. f_equal.
        rewrite (filter_cons (fun x => init_route mg w x = Some m /\ carries md w x)).
        rewrite decide_False by (intros [Hr _]; congruence).
        apply list_filter_iff. intros x. unfold carries.
        now rewrite (init_route_stable mg w w1 x A1), A1.
    + injection E1 as <-. split; [exact A2|].
      intros m md Hmd. destruct (R2 m md Hmd) as (md' & Hmd' & Ep' & Ee').
      exists md'. split; [exact Hmd'|]. split; [exact Ep'|].
      rewrite Ee'. f_equal.
      rewrite (filter_cons (fun x => init_route mg w x = Some m /\ carries md w x)).
      now rewrite decide_False by (intros [Hr _]; congruence).
Qed.

Lemma setupMutationObserver_animations this w :
  animations (setupMutationObserver this w) = animations w.
Proof.
  unfold setupMutationObserver. destruct (managers w !! this) as [mg|]; [|reflexivity].
  now destruct (AnimationManager.mutationObserver mg).
Qed.

(** ** C4 *)

(** C4 (amended): for a manager whose attribute name is a valid selector
    name.  In the re-scan of [initDynamicElements] the step for an element
    is the call of [register] of a module, with that element, exactly when
    the element parses to a module name that is registered and the module
    does not report the element as initialized; in the scan of [init] it
    is that call exactly when the element parses to a registered module
    name, initialized or not.  In every other case the step returns
    normally and leaves the world as it was.  The call of [register]
    appends the element to the roster of the module when the element
    carries the attribute of the parser of the module.
    [initDynamicElements] and [init] run these steps, in the order of the
    document, over the elements that have the attribute; a re-scan in
    which every such element is skipped returns the world as it was, and
    after [init] the roster of every module instance is its roster
    before, followed by the elements routed to it that carry the
    attribute of its parser. *)
Theorem C4_scan_routing (this : nat) (mg : AnimationManager.t) (w : World) :
  managers w !! this = Some mg ->
  selector_name (attributeName (AnimationManager.config mg)) = true ->
  let parse (w0 : World) (e : nat) :=
    parseElementOptions (AnimationManager.attributeParser mg)
      (attributes (element w0 e)) in
  let skipped_by_rescan (w0 : World) (e : nat) :=
    parse w0 e = None
    \/ exists moduleName options,
         parse w0 e = Some (moduleName, options)
         /\ (getModule mg moduleName = None
             \/ isElementInitialized mg w0 e moduleName = true) in
  let found :=
    filter (fun e => hasAttribute (attributeName (AnimationManager.config mg))
                       (attributes (element w e)) = true)
      (document w) in
  (forall w0 e moduleName options module,
      parse w0 e = Some (moduleName, options) ->
      getModule mg moduleName = Some module ->
      isElementInitialized mg w0 e moduleName = false ->
      scan_step (dynamic_route mg) w0 e = register module [e] w0)
  /\ (forall w0 e, skipped_by_rescan w0 e -> scan_step (dynamic_route mg) w0 e = Some w0)
  /\ (forall w0 e moduleName options module,
        parse w0 e = Some (moduleName, options) ->
        getModule mg moduleName = Some module ->
        scan_step (init_route mg) w0 e = register module [e] w0)
  /\ (forall w0 e,
        parse w0 e = None
        \/ (exists moduleName options,
              parse w0 e = Some (moduleName, options)
              /\ getModule mg moduleName = None) ->
        scan_step (init_route mg) w0 e = Some w0)
  /\ (forall w0 w1 e module md,
        animations w0 !! module = Some md ->
        register module [e] w0 = Some w1 ->
        exists md1,
          animations w1 !! module = Some md1
          /\ BaseAnimation.elements md1
             = BaseAnimation.elements md ++ (if decide (carries md w0 e) then [e] else []))
  /\ initDynamicElements this w
     = (if negb (AnimationManager.initialized mg) || prefersReducedMotion w
        then Some w
        else foldl (fun ow e => w0 ← ow; scan_step (dynamic_route mg) w0 e) (Some w) found)
  /\ ((forall e, e ∈ found -> skipped_by_rescan w e) -> initDynamicElements this w = Some w)
  /\ (AnimationManager.initialized mg = false ->
      prefersReducedMotion w = false ->
      init this w
      = (w2 ← foldl (fun ow e => w0 ← ow; scan_step (init_route mg) w0 e) (Some w) found;
         Some (setTimeout (PostInitRescan this) 1000
                 (update_manager this (AnimationManager.set_initialized true)
                    (setupMutationObserver this w2))).2)
      /\ forall w',
           init this w = Some w' ->
           forall m md,
             animations w !! m = Some md ->
             exists md',
               animations w' !! m = Some md'
               /\ BaseAnimation.elements md'
                  = BaseAnimation.elements md
                    ++ filter (fun e => (parsed ← parse w e; getModule mg parsed.1) = Some m
                                        /\ carries md w e) found).
Proof.
  intros Hmg _ parse skipped_by_rescan found.
  assert (Hfound : found = findAllAnimationElements mg w) by reflexivity.
  split.
  { intros w0 e moduleName options module Hp Hg Hi. unfold scan_step.
    replace (dynamic_route mg w0 e) with (Some module); [reflexivity|].
    symmetry. apply dynamic_route_spec. exists moduleName, options. auto. }
  split.
  { intros w0 e Hs. unfold scan_step. now rewrite dynamic_route_skip. }
  split.
  { intros w0 e moduleName options module Hp Hg. unfold scan_step.
    replace (init_route mg w0 e) with (Some module); [reflexivity|].
    symmetry. apply init_route_spec. exists moduleName, options. auto. }
  split.
  { intros w0 e Hs. unfold scan_step, init_route. fold (parse w0 e).
    destruct Hs as [->|(n & o & -> & ->)]; reflexivity. }
  split.
  { intros w0 w1 e module md Hmd E.
    destruct (register_roster module [e] w0 w1 md Hmd E) as (md1 & Hmd1 & Er & _).
    exists md1. split; [exact Hmd1|]. rewrite Er, filter_cons, filter_nil.
    now destruct (decide (carries md w0 e)). }
  assert (Hdyn : initDynamicElements this w
                 = (if negb (AnimationManager.initialized mg) || prefersReducedMotion w
                    then Some w
                    else scan (dynamic_route mg) found w)).
  { unfold initDynamicElements. rewrite Hmg. simpl.
    destruct (AnimationManager.initialized mg); simpl; [|reflexivity].
    now destruct (prefersReducedMotion w). }
  split; [exact Hdyn|].
  split.
  { intros Hs. rewrite Hdyn.
    destruct (negb (AnimationManager.initialized mg) || prefersReducedMotion w);
      [reflexivity|].
    apply scan_skips. intros e He. apply dynamic_route_skip, Hs, He. }
  intros Hi Hr.
  assert (Hinit : init this w
                  = (w2 ← scan (init_route mg) found w;
                     Some (setTimeout (PostInitRescan this) 1000
                             (update_manager this (AnimationManager.set_initialized true)
                                (setupMutationObserver this w2))).2)).
  { unfold init. rewrite Hmg. simpl. now rewrite Hi, Hr. }
  split; [exact Hinit|].
  intros w' E m md Hmd. rewrite Hinit in E.
  destruct (scan (init_route mg) found w) as [w2|] eqn:E2; [|discriminate].
  simpl in E. injection E as <-.
  destruct (scan_init_rosters mg found w w2 E2) as (_ & R).
  destruct (R m md Hmd) as (md' & Hmd' & _ & Ee).
  exists md'. split.
  { simpl. now rewrite setupMutationObserver_animations. }
  rewrite Ee. f_equal. apply list_filter_iff. intros e.
  unfold init_route. fold (parse w e). now destruct (parse w e) as [[n o]|].
Qed.
End ScanFacts.

Lemma C4_scan_routing_witness :
  let w := manager_ready_world in
  let mg := manager_of 4 w in
  managers w !! 4 = Some mg
  /\ selector_name (attributeName (AnimationManager.config mg)) = true
  /\ AnimationManager.initialized mg = false
  /\ prefersReducedMotion w = false
  /\ init 4 w = Some manager_initialized
  /\ roster 5 w = Some []
  /\ roster 5 manager_initialized = Some [1; 3]
  /\ scan_step (dynamic_route mg) w 1 = Some w
  /\ scan_step (dynamic_route mg) w 2 = Some w
  /\ scan_step (dynamic_route mg) w 3 = register 5 [3] w
  /\ scan_step (init_route mg) w 1 = register 5 [1] w
  /\ initDynamicElements 4 manager_initialized
     = (w1 ← register 5 [3] manager_initialized; Some w1).
Proof.
  intros w mg.
  assert (Hmg : managers w !! 4 = Some mg) by (vm_compute; reflexivity).
  assert (Hsel : selector_name (attributeName (AnimationManager.config mg)) = true)
    by (vm_compute; reflexivity).
  destruct (C4_scan_routing 4 mg w Hmg Hsel)
    as (S1 & S2 & S3 & _ & _ & _ & _ & Hinit).
  destruct Hinit as (_ & Hrosters); [reflexivity | reflexivity |].
  assert (Ei : init 4 w = Some manager_initialized) by (vm_compute; reflexivity).
  split; [exact Hmg|]. split; [exact Hsel|]. split; [reflexivity|].
  split; [reflexivity|]. split; [exact Ei|]. split; [vm_compute; reflexivity|].
  split.
  { destruct (Hrosters manager_initialized Ei 5
                (default (BaseAnimation_fields no_config) (animations w !! 5)))
      as (md' & Hmd' & Ee); [vm_compute; reflexivity|].
    unfold roster. rewrite Hmd'. simpl. rewrite Ee. vm_compute. reflexivity. }
  split.
  { apply S2. right. exists "fade-in", ∅. split; [vm_compute; reflexivity|].
    right. vm_compute. reflexivity. }
  split.
  { apply S2. right. exists "unknown", ∅. split; [vm_compute; reflexivity|].
    left. vm_compute. reflexivity. }
  split.
  { apply (S1 w 3 "fade-in" ∅); vm_compute; reflexivity. }
  split.
  { apply (S3 w 1 "fade-in" ∅); vm_compute; reflexivity. }
  vm_compute. reflexivity.
Defined.

